(* ===== verification/_CoqProject ===== *)
-Q . S2P
Prelude.v
Text.v
BTree.v
Model.v
Validate.v
Expansion.v
Transition.v
PauseControl.v
RegCodec.v
RegApi.v
RegConfig.v
RegExits.v
RegSafety.v
RegValues.v
RegSim.v
Win32.v
Acl.v
Effects.v
Monitor.v
OpsConfig.v
OpsControl.v
OpsRestart.v
Rotation.v
RotationSim.v
Output.v
Utf8.v
BrokerPipe.v
BrokerHandlers.v
LaunchEnv.v
Supervisor.v
SupervisorSafety.v
Runtime.v
Runner.v
RunnerSafety.v
EventLog.v
LogReader.v
EventHistory.v
Metrics.v
MetricsSpec.v
GuiForms.v
GuiRequests.v
GuiQueue.v
GuiTail.v
GuiWorker.v
Cli.v
CliSafety.v
ProcessTree.v
ProcessTreeSpec.v
IoTask.v
Diagnostics.v
HookRun.v
HookRunSpec.v
GuiAdapter.v
GuiConfig.v
Scm.v
ScmSpec.v
StateProg.v
Sparkline.v
GuiApp.v
GuiAppSpec.v
Sinks.v
ReaderTask.v
Desktop.v
Secured.v
Signals.v
ServiceMain.v
