(* ===== verification/Prelude.v ===== *)
(** * A verification library for NGSM, the next-generation service manager

    NGSM runs arbitrary applications as Windows services. This library models
    its decision-making code in Rocq, function by function, and proves what the
    functions are for. Definitions keep the source's names; the names
    below are files of this directory, paths in brackets are relative to
    [src/crates/].

    ** The program and how its parts interact

    A service managed by NGSM is an SCM service whose image path is the runner.
    Its settings live in the registry below the service's [Parameters] key. The
    operations crate ([servicemanager-ops]) installs, edits, starts, stops,
    restarts and removes such services on behalf of three front ends: the
    command line, the GUI, and the elevated broker, which executes requests the
    unelevated GUI sends over a named pipe. When the SCM starts the service, the
    runner hosts a supervisor: the runner's bridge translates controls of the
    SCM into signals and the supervisor's progress into status reports; the
    supervisor launches generations of the application in job objects, drains
    their output into rotating logs, runs hooks, and records every generation in
    an event log, which the GUI reads back to compute availability.

    ** Files

    Foundations.
    - [Prelude]: [result], the state-and-error monad [M], machine integers,
      tactics, hint databases.
    - [Text], [Utf8]: Rust strings, UTF-16, UTF-8, decimal and hexadecimal numbers.
    - [BTree]: [BTreeMap<String, V>] and [BTreeSet<String>].
    - [Effects], [Monitor]: code whose steps are calls is a tree [Prog]; [runs]
      ranges over every answer of every callee, [interp] executes it, [spec]
      is the logic of a monitor over its runs. [StateProg]: such a program over a
      mutable object, with a weakest-precondition logic.

    servicemanager-core.
    - [Model]: [model.rs], [error.rs], [events.rs]. [Validate]: [validate.rs].
      [Expansion]: [expansion.rs]. [EventLog] (first part): [paths.rs].

    servicemanager-registry.
    - [RegCodec], [RegApi], [RegConfig], [RegExits], [RegValues]: [imp.rs] from the
      bytes up to the entry points, [config_lock.rs]. [RegSafety] proves the order
      of writes; [RegSim] is a registry in memory that satisfies the laws.

    servicemanager-win32.
    - [Win32]: decisions of [control.rs] and [scm.rs]. [Acl]: the protection of the
      runner's path in [control.rs]. [Runtime], [ServiceMain]: [runtime.rs]. [Scm]: [handles.rs],
      [scm.rs] and [control.rs] as programs of their system calls; [ScmSpec] proves
      them. [ProcessTree]: [process_tree.rs] and [job.rs]; [ProcessTreeSpec].
      [Desktop]: [windows_close.rs], [console_ctrl.rs], [elevation.rs].

    servicemanager-ops.
    - [OpsConfig]: [edit.rs], [recovery.rs], [helpers.rs], [specs.rs]. [OpsControl]:
      [lifecycle.rs], [install.rs], [remove.rs], [repair.rs], [rotate.rs], [list.rs],
      [validate.rs]. [OpsRestart]: [restart_using] of [lifecycle.rs].

    servicemanager-supervisor and servicemanager-runner.
    - [Transition]: [transition.rs]. [PauseControl]: [process_control.rs]. [Rotation],
      [RotationSim], [Sinks]: [rotation.rs]. [Output], [ReaderTask]: [output.rs]. [LaunchEnv],
      [Supervisor], [Signals]: [lib.rs]; [SupervisorSafety] proves [Supervisor]. [EventLog]:
      [event_log.rs]. [HookRun]: [hooks.rs]; [HookRunSpec] proves it. [IoTask]:
      [io_task.rs]. [Diagnostics]: [diagnostics.rs]. [Runner]: runner [lib.rs];
      [RunnerSafety] proves it.

    servicemanager-broker.
    - [BrokerPipe]: [pipe.rs], [protocol.rs]. [BrokerHandlers]: [handlers.rs].
      [Secured]: the pipe instances and connections of [pipe.rs], and the named mutexes of
      [config_lock.rs] and [event_log.rs].

    servicemanager-gui and servicemanager-cli.
    - [LogReader], [EventHistory]: [bounded_log.rs], [event_log_reader.rs], and what
      the reader sees of the log the supervisor writes. [Metrics], [MetricsSpec]:
      [metrics.rs]. [GuiForms]: [forms.rs], [recovery.rs]. [GuiRequests]:
      [requests.rs]. [GuiQueue], [GuiTail], [GuiWorker]: [data.rs]. [GuiAdapter]:
      [adapter.rs]. [GuiConfig]: [config.rs]. [GuiApp], [GuiAppSpec]: [app.rs].
      [Sparkline]: the path commands of [metrics.rs].
    - [Cli]: [main.rs], [hooks.rs] of the command line; [CliSafety] proves it.

    ** How state and operations correspond to the code

    Pure code is a function. Fallible code returns [result]. Code over one
    mutable object is state passing, with the state an error leaves behind.
    Code that calls other crates or the operating system is, where only the order
    of its calls matters, a [Prog] over an inductive type of calls, and
    otherwise a function over a class of operations ([RegApi], [ConfigBackend],
    [FileSys], [ProcWorld]) whose laws state documented behaviour; each law has
    an instance that satisfies it. Code shared between threads ([Transition],
    [Runtime], [Signals], the admission of [BrokerPipe]) is a step relation: one step per
    access to shared state, interleaved arbitrarily, sequentially consistent
    (the source uses mutexes, channels, and atomics with acquire and release orderings).

    ** What the theorems show

    - Supervision: generations never overlap, a stop is never lost on any error
      path, the outcome reported is the one observed ([SupervisorSafety]); the
      host tells the SCM the truth, within its time limits ([RunnerSafety]); an
      accepted Stop wins or loses against the end of the service exactly once and
      arrives ([Runtime]); controls are executed at most once ([Transition]); a
      partial pause is rolled back ([PauseControl]); signals of other threads are heard
      or rejected ([Signals]); the lifecycle runs once, hosted ([ServiceMain]); only the
      process that is meant is asked to close ([Desktop]).
    - Data: acknowledged output is in the logs, in order, through every rotation
      and failure ([Rotation], [Output]); streams share a log file exactly when they
      name one, and a reader is ended within its deadline and half a second
      ([Sinks], [ReaderTask]); the event log keeps everything but its
      oldest backup, and the reader sees it ([EventLog], [LogReader]).
    - Configuration: an edit is all or nothing ([OpsConfig]), a write removes
      nothing before the new values are in place ([RegSafety]), single values
      touch only what they name ([RegValues]); encodings, quoting and expansion
      are exact ([RegCodec], [Validate], [Expansion], [LaunchEnv], [Win32]).
    - Processes: the walk over the process snapshot finds the descendants and
      nothing else, every control of a pinned process is preceded by the checks
      that identify it ([ProcessTreeSpec]); a hook runs contained in its job, for
      a bounded time, and leaves nothing behind ([HookRunSpec]); diagnostics are
      written, dropped with a count, or still queued ([Diagnostics]).
    - Service control manager: every call goes through a live handle that carries
      the right the call needs, every handle is closed, buffers with passwords
      are cleared, listing returns what the system has ([ScmSpec]).
    - Authority: only owned services are operated on ([OpsControl], [OpsRestart]),
      the runner's path is protected ([Acl]), the broker executes only requests
      with its token, exactly as asked, and never stays open longer than its
      limits ([BrokerPipe], [BrokerHandlers]); pipes and named mutexes are created with
      exactly their descriptor and closed by their owner ([Secured]).
    - Front ends: a command does what its arguments say and nothing else
      ([CliSafety]); an enabled button names an operation the service accepts
      ([GuiAdapter]); a submitted form changes what the user changed ([GuiForms]);
      preferences survive a save ([GuiConfig]); refreshes are not lost
      ([GuiQueue]); availability equals its definition on real intervals, and
      reading a bounded window suffices ([MetricsSpec]); the log view shows the
      end of the file ([GuiTail]).

    ** Bounds and fuel

    Loops that poll carry a bound. [OpsRestart], [Transition], [BrokerPipe] and
    [PauseControl] prove that the bound is enough for the time limits of the
    code. The unbounded loops, the supervisor's and the bridge's, end in a value of their own
    when their bound is reached ([no_more_fuel], [None]); their theorems hold of
    every run for every bound, and that value is never one of the results
    the theorems speak of. Integers are [Z] with the width written out where the
    source wraps, saturates or checks.

    ** Not modelled

    The body of calls into Windows (SCM, registry, jobs, ACLs, pipes), the
    operating system's threads, serde's derived JSON and the [time] crate's parsing are
    interfaces. Drawing (Slint's windows), argument parsing (clap), the stubs of
    platforms other than Windows, and the build scripts are left out: they call or
    declare, and decide nothing. *)

From Stdlib Require Import ZArith Lia List.
From stdpp Require Export base list list_numbers gmap sorting strings.
#[global] Open Scope Z_scope.

(** ** Results and the error monad

    [result E A] is Rust's [Result<A, E>]; [let? x := e in k] is the [?]
    operator followed by [k]. *)

Inductive result (E A : Type) : Type :=
| Ok (a : A)
| Err (e : E).
Arguments Ok {E A} a.
Arguments Err {E A} e.
#[export] Instance result_eq_dec {E A} `{EqDecision E, EqDecision A} : EqDecision (result E A).
Proof. solve_decision. Defined.

Declare Scope rust_scope.
Delimit Scope rust_scope with rust.
#[global] Open Scope rust_scope.

Definition rbind {E A B} (r : result E A) (k : A -> result E B) : result E B :=
  match r with Ok a => k a | Err e => Err e end.

Definition map_err {E F A} (f : E -> F) (r : result E A) : result F A :=
  match r with Ok a => Ok a | Err e => Err (f e) end.

Definition ok_or {E A} (o : option A) (e : E) : result E A :=
  match o with Some a => Ok a | None => Err e end.

Definition is_ok {E A} (r : result E A) : bool :=
  match r with Ok _ => true | Err _ => false end.

Notation "'let?' x ':=' e 'in' k" := (rbind e (fun x => k))
  (at level 10, x pattern, e at level 100, k at level 200) : rust_scope.
Notation "e ';?' k" := (rbind e (fun _ => k))
  (at level 199, right associativity) : rust_scope.

(** A fallible loop over a list: [for x in l { f(x)?; }]. *)
Fixpoint for_each {E A} (f : A -> result E unit) (l : list A) : result E unit :=
  match l with
  | [] => Ok tt
  | x :: l' => f x ;? for_each f l'
  end.

(** A fallible left fold: a loop with an accumulator whose body may use [?]. *)
Fixpoint try_fold {E A B} (f : B -> A -> result E B) (l : list A) (b : B)
    : result E B :=
  match l with
  | [] => Ok b
  | x :: l' => let? b' := f b x in try_fold f l' b'
  end.

(** ** State-passing with errors

    [M S E A] threads a state through fallible calls; the state reached when
    an error is raised is kept, as the effects of Rust calls before an early
    return are. *)

Definition M (S E A : Type) : Type := S -> result E A * S.

Definition mret {S E A} (a : A) : M S E A := fun s => (Ok a, s).
Definition mfail {S E A} (e : E) : M S E A := fun s => (Err e, s).
Definition mbind {S E A B} (m : M S E A) (k : A -> M S E B) : M S E B :=
  fun s => match m s with
           | (Ok a, s') => k a s'
           | (Err e, s') => (Err e, s')
           end.
Definition mlift {S E A} (r : result E A) : M S E A := fun s => (r, s).

(** [match m { Ok(a) => .., Err(e) => .. }] over an effectful [m]. *)
Definition mtry {S E F A} (m : M S E A) : M S F (result E A) :=
  fun s => let '(r, s') := m s in (Ok r, s').

Notation "'let!' x ':=' e 'in' k" := (mbind e (fun x => k))
  (at level 10, x pattern, e at level 100, k at level 200) : rust_scope.
Notation "e ';!' k" := (mbind e (fun _ => k))
  (at level 199, right associativity) : rust_scope.

Fixpoint mfor_each {S E A} (f : A -> M S E unit) (l : list A) : M S E unit :=
  match l with
  | [] => mret tt
  | x :: l' => f x ;! mfor_each f l'
  end.

Fixpoint mtry_fold {S E A B} (f : B -> A -> M S E B) (l : list A) (b : B)
    : M S E B :=
  match l with
  | [] => mret b
  | x :: l' => let! b' := f b x in mtry_fold f l' b'
  end.

(** ** Automation *)

(** Split the matches, conditionals and boolean tests of hypotheses and goal. *)
Ltac case_match_all :=
  repeat match goal with
  | H : context [match ?x with _ => _ end] |- _ => destruct x eqn:?
  | |- context [match ?x with _ => _ end] => destruct x eqn:?
  end.

Ltac bool_to_prop :=
  repeat match goal with
  | H : (_ && _)%bool = true |- _ => apply andb_true_iff in H; destruct H
  | H : (_ || _)%bool = false |- _ => apply orb_false_iff in H; destruct H
  | H : (_ && _)%bool = false |- _ => apply andb_false_iff in H
  | H : (_ || _)%bool = true |- _ => apply orb_true_iff in H
  | H : negb _ = true |- _ => apply negb_true_iff in H
  | H : negb _ = false |- _ => apply negb_false_iff in H
  | H : (_ <=? _) = true |- _ => apply Z.leb_le in H
  | H : (_ <=? _) = false |- _ => apply Z.leb_gt in H
  | H : (_ <? _) = true |- _ => apply Z.ltb_lt in H
  | H : (_ <? _) = false |- _ => apply Z.ltb_ge in H
  | H : (_ =? _) = true |- _ => apply Z.eqb_eq in H
  | H : (_ =? _) = false |- _ => apply Z.eqb_neq in H
  | H : bool_decide _ = true |- _ => apply bool_decide_eq_true_1 in H
  | H : bool_decide _ = false |- _ => apply bool_decide_eq_false_1 in H
  end.

(** Walk through one [?] of a hypothesis [H : rbind e k = r]. *)
Ltac inv_bind H :=
  match type of H with
  | rbind ?e _ = _ =>
      let E := fresh "E" in
      destruct e eqn:E; cbn [rbind] in H; [| try discriminate H]
  end.

Ltac inv_bind_as H a E :=
  match type of H with
  | rbind ?e _ = _ =>
      destruct e as [a|] eqn:E; cbn [rbind] in H; [| try discriminate H]
  end.

Create HintDb ngsm.

(** ** Equations of the monads *)

Section Monads.
Context {E A B : Type}.

Lemma rbind_ok (r : result E A) (k : A -> result E B) b :
  rbind r k = Ok b <-> exists a, r = Ok a /\ k a = Ok b.
Proof. destruct r; cbn; naive_solver. Qed.

Lemma map_err_ok {F} (f : E -> F) (r : result E A) a : map_err f r = Ok a -> r = Ok a.
Proof. destruct r; [by intros [= ->]|done]. Qed.

Lemma rbind_err (r : result E A) (k : A -> result E B) e :
  rbind r k = Err e <-> r = Err e \/ exists a, r = Ok a /\ k a = Err e.
Proof. destruct r; cbn; naive_solver. Qed.

Lemma for_each_ok (f : A -> result E unit) (l : list A) :
  for_each f l = Ok tt <-> Forall (fun x => f x = Ok tt) l.
Proof.
  induction l as [|x l IH]; cbn; [split; [constructor|done]|].
  rewrite Forall_cons, <- IH. destruct (f x) as [[]|]; cbn; naive_solver.
Qed.

Lemma for_each_app (f : A -> result E unit) (l1 l2 : list A) :
  for_each f (l1 ++ l2) = (for_each f l1 ;? for_each f l2).
Proof. induction l1 as [|x l IH]; cbn; [done|]. by destruct (f x). Qed.

Lemma for_each_err (f : A -> result E unit) (l : list A) e :
  for_each f l = Err e ->
  exists l1 x l2, l = l1 ++ x :: l2 /\ Forall (fun y => f y = Ok tt) l1 /\ f x = Err e.
Proof.
  induction l as [|x l IH]; cbn; [done|]. destruct (f x) as [[]|e'] eqn:Ef; cbn.
  - intros H. destruct (IH H) as (l1 & y & l2 & -> & ? & ?).
    exists (x :: l1), y, l2. auto.
  - intros [= ->]. exists [], x, l. auto.
Qed.

Lemma try_fold_app (f : B -> A -> result E B) l1 l2 b :
  try_fold f (l1 ++ l2) b = (let? b' := try_fold f l1 b in try_fold f l2 b').
Proof. revert b. induction l1 as [|x l IH]; intros b; cbn; [done|]. destruct (f b x); cbn; auto. Qed.

(** An invariant of the accumulator of a fallible loop. *)
Lemma try_fold_inv (P : B -> Prop) (f : B -> A -> result E B) l b b' :
  (forall x c c', In x l -> P c -> f c x = Ok c' -> P c') ->
  P b -> try_fold f l b = Ok b' -> P b'.
Proof.
  revert b. induction l as [|x l IH]; cbn; intros b Hstep Hb H; [by inversion H; subst|].
  inv_bind H. eapply IH; [| |exact H]; eauto.
Qed.
End Monads.

#[export] Hint Resolve Forall_nil_2 Forall_cons_2 : ngsm.

Section StateMonads.
Context {S E A B : Type}.

Lemma mbind_ok (m : M S E A) (k : A -> M S E B) s b s' :
  mbind m k s = (Ok b, s') <->
  exists a s1, m s = (Ok a, s1) /\ k a s1 = (Ok b, s').
Proof. unfold mbind. destruct (m s) as [[a|e] s1]; naive_solver. Qed.

(** A relation between initial and final states that every step keeps is
    kept by a loop, whether it finishes or fails. *)
Lemma mfor_each_rel (R : S -> S -> Prop) (f : A -> M S E unit) l s :
  (forall s, R s s) -> (forall s1 s2 s3, R s1 s2 -> R s2 s3 -> R s1 s3) ->
  (forall x s, In x l -> R s (f x s).2) ->
  R s (mfor_each f l s).2.
Proof.
  intros Hr Ht. revert s. induction l as [|x l IH]; intros s Hf; cbn; [apply Hr|].
  unfold mbind. pose proof (Hf x s (or_introl eq_refl)) as H1.
  destruct (f x s) as [[u|e] s1]; cbn in *; [|done].
  eapply Ht; [exact H1|]. apply IH. intros; apply Hf; auto.
Qed.

Lemma mbind_rel (R : S -> S -> Prop) (m : M S E A) (k : A -> M S E B) s :
  (forall s1 s2 s3, R s1 s2 -> R s2 s3 -> R s1 s3) ->
  R s (m s).2 ->
  (forall a s', m s = (Ok a, s') -> R s' (k a s').2) ->
  R s (mbind m k s).2.
Proof.
  intros Ht Hm Hk. unfold mbind. destruct (m s) as [[a|e] s1]; cbn in *; [|done].
  eapply Ht; [exact Hm|]. by apply Hk.
Qed.
End StateMonads.

(** ** Machine integers *)

Definition u16_max : Z := 65535.
Definition u32_max : Z := 4294967295.
Definition u64_max : Z := 18446744073709551615.
Definition i32_min : Z := -2147483648.
Definition i32_max : Z := 2147483647.

Definition u8_wf (z : Z) : Prop := 0 <= z < 256.
Definition u16_wf (z : Z) : Prop := 0 <= z <= u16_max.
Definition u32_wf (z : Z) : Prop := 0 <= z <= u32_max.
Definition u64_wf (z : Z) : Prop := 0 <= z <= u64_max.
Definition i32_wf (z : Z) : Prop := i32_min <= z <= i32_max.

Definition wrap_u32 (z : Z) : Z := z mod 2 ^ 32.
Definition wrap_u64 (z : Z) : Z := z mod 2 ^ 64.
(** [as i32] of a [u32]: two's complement reinterpretation. *)
Definition as_i32 (z : Z) : Z :=
  let w := z mod 2 ^ 32 in if w <? 2 ^ 31 then w else w - 2 ^ 32.

(** [usize] and [u64] saturating operations. *)
Definition sat_add_u64 (a b : Z) : Z := Z.min u64_max (a + b).
Definition sat_sub (a b : Z) : Z := Z.max 0 (a - b).

Lemma as_i32_range z : i32_wf (as_i32 z).
Proof.
  unfold as_i32, i32_wf, i32_min, i32_max.
  pose proof (Z.mod_pos_bound z (2 ^ 32) ltac:(lia)).
  destruct (Z.ltb_spec (z mod 2 ^ 32) (2 ^ 31)); lia.
Qed.
