(* ===== verification/Text.v ===== *)
(** * Rust text: strings of Unicode scalar values, UTF-16 and decimal numbers

    A Rust [String]/[&str] is the list of its scalar values ([char]s). The
    standard-library operations the program uses on text are defined here:
    classification of characters, ASCII case folding, trimming, splitting,
    [encode_utf16] and [String::from_utf16], [str::parse] and [to_string] of
    machine integers. *)

From Stdlib Require Import ZArith Lia List Ascii String.
From S2P Require Import Prelude.

Abbreviation rchar := Z (only parsing).
Abbreviation rstr := (list Z) (only parsing).

(** ** Literals: decode the UTF-8 bytes of a Rocq string *)

Definition byte_of (a : ascii) : Z := Z.of_N (N_of_ascii a).

Fixpoint lit (s : string) : rstr :=
  match s with
  | EmptyString => []
  | String a r =>
      let x := byte_of a in
      if x <? 128 then x :: lit r
      else match r with
           | String b r2 =>
               if x <? 224 then ((x - 192) * 64 + (byte_of b - 128)) :: lit r2
               else match r2 with
                    | String c r3 =>
                        if x <? 240
                        then ((x - 224) * 4096 + (byte_of b - 128) * 64
                              + (byte_of c - 128)) :: lit r3
                        else match r3 with
                             | String d r4 =>
                                 ((x - 240) * 262144 + (byte_of b - 128) * 4096
                                  + (byte_of c - 128) * 64 + (byte_of d - 128)) :: lit r4
                             | EmptyString => []
                             end
                    | EmptyString => []
                    end
           | EmptyString => []
           end
  end.
Arguments lit s%_string_scope : simpl never.

Notation "'&' s" := (lit s%string) (at level 1, s at level 0, format "'&' s") : rust_scope.

(** Equality of texts put together in a different order, with the literals
    kept as they are. *)
Ltac reassoc :=
  repeat match goal with |- context [lit ?s] => generalize (lit s); intro end;
  rewrite <- ?app_assoc; reflexivity.

Definition c_nul : rchar := 0.
Definition c_quote : rchar := 34.
Definition c_percent : rchar := 37.
Definition c_comma : rchar := 44.
Definition c_slash : rchar := 47.
Definition c_colon : rchar := 58.
Definition c_equals : rchar := 61.
Definition c_backslash : rchar := 92.

(** ** Characters *)

(** [char]: a Unicode scalar value. *)
Definition scalar (c : rchar) : Prop :=
  (0 <= c < 55296) \/ (57344 <= c <= 1114111).
Definition wf_str (s : rstr) : Prop := Forall scalar s.

(** [char::is_control]: the general category Cc. *)
Definition is_control (c : rchar) : bool :=
  ((0 <=? c) && (c <=? 31)) || ((127 <=? c) && (c <=? 159)).

(** [char::is_whitespace]: the White_Space property. *)
Definition is_whitespace (c : rchar) : bool :=
  ((9 <=? c) && (c <=? 13)) || (c =? 32) || (c =? 133) || (c =? 160)
  || (c =? 5760) || ((8192 <=? c) && (c <=? 8202)) || (c =? 8232) || (c =? 8233)
  || (c =? 8239) || (c =? 8287) || (c =? 12288).

Definition is_ascii_alphabetic (c : rchar) : bool :=
  ((65 <=? c) && (c <=? 90)) || ((97 <=? c) && (c <=? 122)).
Definition is_ascii_digit (c : rchar) : bool := (48 <=? c) && (c <=? 57).

Definition to_ascii_lowercase_char (c : rchar) : rchar :=
  if (65 <=? c) && (c <=? 90) then c + 32 else c.

(** ** Strings *)

Definition str_eqb (a b : rstr) : bool := bool_decide (a = b).
Definition is_empty {A} (s : list A) : bool := match s with [] => true | _ => false end.
Definition any {A} (p : A -> bool) (s : list A) : bool := existsb p s.
Definition contains_char (c : rchar) (s : rstr) : bool := existsb (Z.eqb c) s.
Definition to_ascii_lowercase (s : rstr) : rstr := map to_ascii_lowercase_char s.
Definition eq_ignore_ascii_case (a b : rstr) : bool :=
  str_eqb (to_ascii_lowercase a) (to_ascii_lowercase b).

Fixpoint trim_start (s : rstr) : rstr :=
  match s with
  | c :: s' => if is_whitespace c then trim_start s' else s
  | [] => []
  end.
Definition trim_end (s : rstr) : rstr := rev (trim_start (rev s)).
Definition trim (s : rstr) : rstr := trim_end (trim_start s).

Fixpoint strip_prefix (p s : rstr) : option rstr :=
  match p, s with
  | [], _ => Some s
  | a :: p', b :: s' => if a =? b then strip_prefix p' s' else None
  | _ :: _, [] => None
  end.
Definition starts_with (p s : rstr) : bool :=
  match strip_prefix p s with Some _ => true | None => false end.
Definition ends_with (p s : rstr) : bool := starts_with (rev p) (rev s).

(** [split_once]: the text before and after the first occurrence. *)
Fixpoint split_once (c : rchar) (s : rstr) : option (rstr * rstr) :=
  match s with
  | [] => None
  | x :: s' => if x =? c then Some ([], s')
               else match split_once c s' with
                    | Some (a, b) => Some (x :: a, b)
                    | None => None
                    end
  end.

(** [split]: the pieces between the characters that satisfy [p]; never empty. *)
Fixpoint split_on (p : rchar -> bool) (s : rstr) : list rstr :=
  match s with
  | [] => [[]]
  | x :: s' =>
      if p x then [] :: split_on p s'
      else match split_on p s' with
           | a :: r => (x :: a) :: r
           | [] => [[x]]
           end
  end.

(** [slice.join(sep)] *)
Fixpoint join (sep : rstr) (l : list rstr) : rstr :=
  match l with
  | [] => []
  | [a] => a
  | a :: r => a ++ sep ++ join sep r
  end.

(** [replace] of one character by a string. *)
Definition replace_char (c : rchar) (r s : rstr) : rstr :=
  flat_map (fun x => if x =? c then r else [x]) s.

Definition count_char (c : rchar) (s : rstr) : nat := List.length (filter (fun x => x = c) s).

(** The position of the first element that satisfies [p]. *)
Fixpoint position {A} (p : A -> bool) (s : list A) : option nat :=
  match s with
  | [] => None
  | x :: s' => if p x then Some O else S <$> position p s'
  end.

(** [&s[..n]] and [&s[n..]]. *)
Abbreviation upto n s := (take n s) (only parsing).
Abbreviation from n s := (drop n s) (only parsing).

(** ** UTF-16 *)

Definition encode_char (c : rchar) : list Z :=
  if c <? 65536 then [c]
  else [55296 + (c - 65536) / 1024; 56320 + (c - 65536) mod 1024].
Definition encode_utf16 (s : rstr) : list Z := flat_map encode_char s.
(** [s.encode_utf16().count()] *)
Definition utf16_len (s : rstr) : Z := Z.of_nat (List.length (encode_utf16 s)).

Definition high_surrogate (w : Z) : bool := (55296 <=? w) && (w <=? 56319).
Definition low_surrogate (w : Z) : bool := (56320 <=? w) && (w <=? 57343).

(** [String::from_utf16]: an unpaired surrogate is an error. *)
Fixpoint from_utf16 (ws : list Z) : option rstr :=
  match ws with
  | [] => Some []
  | w :: r =>
      if high_surrogate w then
        match r with
        | w2 :: r2 =>
            if low_surrogate w2
            then cons (65536 + (w - 55296) * 1024 + (w2 - 56320)) <$> from_utf16 r2
            else None
        | [] => None
        end
      else if low_surrogate w then None
      else cons w <$> from_utf16 r
  end.

(** [String::from_utf16_lossy]: an unpaired surrogate becomes U+FFFD. *)
Fixpoint from_utf16_lossy (ws : list Z) : rstr :=
  match ws with
  | [] => []
  | w :: r =>
      if high_surrogate w then
        match r with
        | w2 :: r2 =>
            if low_surrogate w2
            then (65536 + (w - 55296) * 1024 + (w2 - 56320)) :: from_utf16_lossy r2
            else 65533 :: from_utf16_lossy r
        | [] => [65533]
        end
      else if low_surrogate w then 65533 :: from_utf16_lossy r
      else w :: from_utf16_lossy r
  end.

(** ** Decimal numbers *)

Fixpoint dec_digits (fuel : nat) (n : Z) : rstr :=
  match fuel with
  | O => [48 + n]
  | S f => if n <? 10 then [48 + n] else dec_digits f (n / 10) ++ [48 + n mod 10]
  end.

(** [to_string] of an integer. *)
Definition to_dec (n : Z) : rstr :=
  if n <? 0 then 45 :: dec_digits (Z.to_nat (Z.log2 (- n))) (- n)
  else dec_digits (Z.to_nat (Z.log2 n)) n.

(** The value of a run of digits, most significant first. *)
Definition push_digit (acc : option Z) (c : rchar) : option Z :=
  match acc with
  | Some a => if is_ascii_digit c then Some (a * 10 + (c - 48)) else None
  | None => None
  end.
Definition digits_value (s : rstr) : option Z :=
  match s with [] => None | _ => fold_left push_digit s (Some 0) end.

Definition in_range (lo hi : Z) (o : option Z) : option Z :=
  match o with
  | Some n => if (lo <=? n) && (n <=? hi) then Some n else None
  | None => None
  end.

(** [str::parse::<i32>]: an optional sign and at least one ASCII digit. *)
Definition parse_i32 (s : rstr) : option Z :=
  match s with
  | 45 :: r => in_range i32_min i32_max (Z.opp <$> digits_value r)
  | 43 :: r => in_range i32_min i32_max (digits_value r)
  | _ => in_range i32_min i32_max (digits_value s)
  end.

(** [str::parse] of an unsigned type: no minus sign. *)
Definition parse_unsigned (hi : Z) (s : rstr) : option Z :=
  match s with
  | 43 :: r => in_range 0 hi (digits_value r)
  | _ => in_range 0 hi (digits_value s)
  end.
Definition parse_u32 : rstr -> option Z := parse_unsigned u32_max.

(** Lower-case hexadecimal with a minimum width, [{:0n$x}]. *)
Definition hex_digit (n : Z) : rchar := if n <? 10 then 48 + n else 87 + n.
Fixpoint to_hex_pad (width : nat) (n : Z) : rstr :=
  match width with
  | O => []
  | S w => to_hex_pad w (n / 16) ++ [hex_digit (n mod 16)]
  end.

(** ** Lemmas *)

Lemma str_eqb_eq a b : str_eqb a b = true <-> a = b.
Proof. apply bool_decide_eq_true. Qed.
Lemma str_eqb_neq a b : str_eqb a b = false <-> a <> b.
Proof. apply bool_decide_eq_false. Qed.
Lemma str_eqb_refl a : str_eqb a a = true.
Proof. by apply str_eqb_eq. Qed.

Lemma is_empty_false {A} (s : list A) : is_empty s = false <-> s <> [].
Proof. by destruct s. Qed.

Lemma to_ascii_lowercase_char_idem c :
  to_ascii_lowercase_char (to_ascii_lowercase_char c) = to_ascii_lowercase_char c.
Proof.
  unfold to_ascii_lowercase_char.
  destruct (Z.leb_spec 65 c), (Z.leb_spec c 90); cbn [andb];
    destruct (Z.leb_spec 65 (c + 32)), (Z.leb_spec (c + 32) 90);
    destruct (Z.leb_spec 65 c), (Z.leb_spec c 90); cbn [andb]; lia.
Qed.

Lemma eq_ignore_ascii_case_refl a : eq_ignore_ascii_case a a = true.
Proof. apply str_eqb_refl. Qed.
Lemma eq_ignore_ascii_case_sym a b : eq_ignore_ascii_case a b = eq_ignore_ascii_case b a.
Proof. unfold eq_ignore_ascii_case, str_eqb. by apply bool_decide_ext. Qed.
Lemma eq_ignore_ascii_case_eq a b :
  eq_ignore_ascii_case a b = true <-> to_ascii_lowercase a = to_ascii_lowercase b.
Proof. apply str_eqb_eq. Qed.

#[export] Hint Resolve str_eqb_refl eq_ignore_ascii_case_refl : ngsm.

Lemma contains_char_In c s : contains_char c s = true <-> In c s.
Proof.
  unfold contains_char. rewrite existsb_exists. split.
  - intros (x & Hx & E). apply Z.eqb_eq in E. by subst.
  - intros H. exists c. split; [done|]. apply Z.eqb_refl.
Qed.

Lemma contains_char_false c s : contains_char c s = false <-> ~ In c s.
Proof. rewrite <- contains_char_In. destruct (contains_char c s); naive_solver. Qed.

Lemma contains_char_app c s t :
  contains_char c (s ++ t) = contains_char c s || contains_char c t.
Proof. apply existsb_app. Qed.

Lemma strip_prefix_Some p s r : strip_prefix p s = Some r <-> s = p ++ r.
Proof.
  revert s. induction p as [|a p IH]; intros [|b s]; cbn; try naive_solver.
  destruct (Z.eqb_spec a b); [rewrite IH|]; naive_solver.
Qed.

Lemma split_once_Some c s a b :
  split_once c s = Some (a, b) <-> s = a ++ c :: b /\ ~ In c a.
Proof.
  revert a b. induction s as [|x s IH]; intros a b; cbn [split_once].
  { split; [done|]. intros [H _]. by destruct a. }
  destruct (Z.eqb_spec x c) as [->|Hne].
  - split.
    + intros [= <- <-]. split; [done|by intros []].
    + intros [H Hni]. destruct a as [|y a]; cbn in H; [naive_solver|].
      injection H as -> ->. cbn in Hni. tauto.
  - destruct (split_once c s) as [[a' b']|].
    + split.
      * intros [= <- <-]. destruct (proj1 (IH _ _) eq_refl) as [-> Hn].
        split; [done|]. cbn. naive_solver.
      * intros [H Hn]. destruct a as [|y a]; cbn in H; [congruence|].
        injection H as -> H.
        assert (Some (a', b') = Some (a, b)) as [= -> ->]; [|done].
        apply IH. split; [done|]. intros Hi; apply Hn; by right.
    + split; [done|]. intros [H Hn]. destruct a as [|y a]; cbn in H; [congruence|].
      injection H as -> H. assert (None = Some (a, b)) by (apply IH; split; [done|];
        intros Hi; apply Hn; by right). done.
Qed.

Lemma split_once_None c s : split_once c s = None <-> ~ In c s.
Proof.
  split.
  - intros H Hi. apply in_split in Hi as (a & b & ->).
    revert H. induction a as [|x a IH]; cbn.
    + by rewrite Z.eqb_refl.
    + destruct (x =? c); [done|]. destruct (split_once c (a ++ c :: b)) as [[]|]; naive_solver.
  - intros H. destruct (split_once c s) as [[a b]|] eqn:E; [|done].
    apply split_once_Some in E as [-> _]. exfalso. apply H, in_elt.
Qed.

Lemma split_on_not_nil p s : split_on p s <> [].
Proof. destruct s; cbn; [done|]. destruct (p z); [done|]. by destruct (split_on p s). Qed.

(** ** UTF-16 round trip *)

Lemma encode_utf16_app s t : encode_utf16 (s ++ t) = encode_utf16 s ++ encode_utf16 t.
Proof. apply flat_map_app. Qed.

Lemma utf16_len_app s t : utf16_len (s ++ t) = utf16_len s + utf16_len t.
Proof. unfold utf16_len. rewrite encode_utf16_app, length_app. lia. Qed.

Lemma utf16_len_nonneg s : 0 <= utf16_len s.
Proof. unfold utf16_len. lia. Qed.

Lemma from_encode_char c r :
  scalar c -> from_utf16 (encode_char c ++ r) = cons c <$> from_utf16 r.
Proof.
  intros Hc. unfold encode_char.
  destruct (Z.ltb_spec c 65536); cbn [app from_utf16]; unfold high_surrogate, low_surrogate.
  - destruct (Z.leb_spec 55296 c), (Z.leb_spec c 56319), (Z.leb_spec 56320 c),
      (Z.leb_spec c 57343); cbn [andb]; try done; unfold scalar in Hc; lia.
  - assert (65536 <= c <= 1114111) as Hr by (unfold scalar in Hc; lia).
    assert (0 <= (c - 65536) / 1024 <= 1023) by (split; [apply Z.div_pos; lia|
      apply Z.lt_succ_r, Z.div_lt_upper_bound; lia]).
    pose proof (Z.mod_pos_bound (c - 65536) 1024 ltac:(lia)).
    rewrite (proj2 (Z.leb_le _ _)), (proj2 (Z.leb_le _ _)) by lia. cbn [andb].
    rewrite (proj2 (Z.leb_le _ _)), (proj2 (Z.leb_le _ _)) by lia. cbn [andb].
    replace (65536 + _ + _) with c; [done|].
    pose proof (Z.div_mod (c - 65536) 1024 ltac:(lia)). lia.
Qed.

Lemma from_encode_utf16 s : wf_str s -> from_utf16 (encode_utf16 s) = Some s.
Proof.
  induction 1 as [|c s Hc _ IH]; cbn [encode_utf16 flat_map]; [done|].
  rewrite from_encode_char by done. unfold encode_utf16 in IH. by rewrite IH.
Qed.

Lemma encode_char_words c : scalar c -> Forall u16_wf (encode_char c).
Proof.
  intros Hc. unfold encode_char, u16_wf, u16_max, scalar in *.
  destruct (Z.ltb_spec c 65536); repeat constructor; try lia.
  - pose proof (Z.div_pos (c - 65536) 1024). lia.
  - pose proof (Z.div_lt_upper_bound (c - 65536) 1024 1024). lia.
  - pose proof (Z.mod_pos_bound (c - 65536) 1024). lia.
  - pose proof (Z.mod_pos_bound (c - 65536) 1024). lia.
Qed.

Lemma encode_utf16_words s : wf_str s -> Forall u16_wf (encode_utf16 s).
Proof.
  induction 1 as [|c s Hc _ IH]; cbn; [constructor|].
  apply Forall_app. split; [by apply encode_char_words|done].
Qed.

Lemma encode_char_zero c : scalar c -> (In 0 (encode_char c) <-> c = 0).
Proof.
  intros Hc. unfold encode_char, scalar in *.
  destruct (Z.ltb_spec c 65536); cbn; [intuition|].
  pose proof (Z.div_pos (c - 65536) 1024). pose proof (Z.mod_pos_bound (c - 65536) 1024).
  intuition lia.
Qed.

Lemma encode_utf16_zero s : wf_str s -> (In 0 (encode_utf16 s) <-> In c_nul s).
Proof.
  induction 1 as [|c s Hc _ IH]; cbn; [done|].
  rewrite in_app_iff, encode_char_zero by done. unfold encode_utf16 in IH. rewrite IH.
  unfold c_nul in *. tauto.
Qed.

Lemma encode_utf16_nil s : encode_utf16 s = [] <-> s = [].
Proof.
  destruct s as [|c s]; cbn; [done|]. unfold encode_char. by destruct (c <? 65536).
Qed.

(** ** Decimal numbers round trip *)

Lemma fold_push_None s : fold_left push_digit s None = None.
Proof. induction s; cbn; done. Qed.

Lemma fold_push_app s t a :
  fold_left push_digit (s ++ t) (Some a)
  = match fold_left push_digit s (Some a) with
    | Some b => fold_left push_digit t (Some b)
    | None => None
    end.
Proof.
  rewrite fold_left_app. destruct (fold_left push_digit s (Some a)); [done|apply fold_push_None].
Qed.

Lemma push_digit_ok a d : 0 <= d < 10 -> push_digit (Some a) (48 + d) = Some (a * 10 + d).
Proof.
  intros Hd. cbn. unfold is_ascii_digit.
  rewrite (proj2 (Z.leb_le _ _)), (proj2 (Z.leb_le _ _)) by lia. cbn. f_equal. lia.
Qed.

Lemma dec_digits_cons fuel n : exists c r, dec_digits fuel n = c :: r.
Proof.
  revert n. induction fuel as [|f IH]; intros n; cbn [dec_digits]; [by eauto|].
  destruct (n <? 10); [by eauto|]. destruct (IH (n / 10)) as (c & r & ->). cbn. eauto.
Qed.

Lemma dec_digits_value fuel n :
  0 <= n < 10 * 2 ^ Z.of_nat fuel ->
  fold_left push_digit (dec_digits fuel n) (Some 0) = Some n.
Proof.
  revert n. induction fuel as [|f IH]; intros n Hn; cbn [dec_digits].
  - cbn [fold_left]. by rewrite push_digit_ok by lia.
  - destruct (Z.ltb_spec n 10); cbn [fold_left].
    + by rewrite push_digit_ok by lia.
    + rewrite fold_push_app, IH.
      * cbn [fold_left]. rewrite push_digit_ok by (apply Z.mod_pos_bound; lia).
        f_equal. pose proof (Z.div_mod n 10). lia.
      * rewrite Nat2Z.inj_succ, Z.pow_succ_r in Hn by lia.
        split; [apply Z.div_pos; lia|]. apply Z.div_lt_upper_bound; lia.
Qed.

Lemma log2_fuel n : 0 <= n -> n < 10 * 2 ^ Z.of_nat (Z.to_nat (Z.log2 n)).
Proof.
  intros Hn. rewrite Z2Nat.id by apply Z.log2_nonneg.
  destruct (Z.eq_dec n 0) as [->|]; [cbn; lia|].
  pose proof (Z.log2_spec n ltac:(lia)) as [_ H]. rewrite Z.pow_succ_r in H
    by apply Z.log2_nonneg. pose proof (Z.pow_pos_nonneg 2 (Z.log2 n)). 
  pose proof (Z.log2_nonneg n). lia.
Qed.

Lemma digits_value_dec n :
  0 <= n -> digits_value (dec_digits (Z.to_nat (Z.log2 n)) n) = Some n.
Proof.
  intros Hn. unfold digits_value.
  destruct (dec_digits_cons (Z.to_nat (Z.log2 n)) n) as (c & r & E).
  rewrite E, <- E. apply dec_digits_value. split; [done|by apply log2_fuel].
Qed.

Lemma dec_digits_digits fuel n :
  0 <= n < 10 * 2 ^ Z.of_nat fuel ->
  Forall (fun c => is_ascii_digit c = true) (dec_digits fuel n).
Proof.
  assert (Hd : forall d, 0 <= d < 10 -> is_ascii_digit (48 + d) = true).
  { intros d Hd. unfold is_ascii_digit.
    by rewrite (proj2 (Z.leb_le _ _)), (proj2 (Z.leb_le _ _)) by lia. }
  revert n. induction fuel as [|f IH]; intros n Hn; cbn [dec_digits].
  - constructor; [apply Hd; lia|constructor].
  - destruct (Z.ltb_spec n 10).
    + constructor; [apply Hd; lia|constructor].
    + apply Forall_app; split.
      * apply IH. rewrite Nat2Z.inj_succ, Z.pow_succ_r in Hn by lia.
        split; [apply Z.div_pos; lia|]. apply Z.div_lt_upper_bound; lia.
      * constructor; [|constructor]. apply Hd, Z.mod_pos_bound. lia.
Qed.

Lemma in_range_Some lo hi o n : in_range lo hi o = Some n <-> o = Some n /\ lo <= n <= hi.
Proof.
  unfold in_range. destruct o as [m|]; [|naive_solver].
  destruct (Z.leb_spec lo m), (Z.leb_spec m hi); cbn; naive_solver lia.
Qed.

Lemma dec_head_digit n c r :
  0 <= n -> dec_digits (Z.to_nat (Z.log2 n)) n = c :: r -> 48 <= c <= 57.
Proof.
  intros Hn E.
  pose proof (dec_digits_digits _ n (conj Hn (log2_fuel n Hn))) as H. rewrite E in H.
  inversion H as [|? ? Hc _]; subst. unfold is_ascii_digit in Hc. bool_to_prop. lia.
Qed.

Lemma parse_i32_digits s c r :
  s = c :: r -> 48 <= c <= 57 -> parse_i32 s = in_range i32_min i32_max (digits_value s).
Proof.
  intros -> Hc. unfold parse_i32.
  destruct c as [|p|p]; try lia. do 6 (destruct p as [p|p|]; try lia; try done).
Qed.

(** Parsing what [to_string] prints gives the number back. *)
Lemma parse_i32_to_dec n : i32_wf n -> parse_i32 (to_dec n) = Some n.
Proof.
  intros Hn. unfold to_dec, i32_wf in *. destruct (Z.ltb_spec n 0).
  - cbn [parse_i32]. rewrite digits_value_dec by lia. apply in_range_Some. cbn.
    split; [f_equal; lia|done].
  - destruct (dec_digits_cons (Z.to_nat (Z.log2 n)) n) as (c & r & E).
    rewrite (parse_i32_digits _ c r E) by (eapply dec_head_digit; [|exact E]; lia).
    rewrite digits_value_dec by lia. by apply in_range_Some.
Qed.

Lemma parse_i32_range s n : parse_i32 s = Some n -> i32_wf n.
Proof.
  unfold parse_i32, i32_wf. intros H.
  case_match_all; apply in_range_Some in H; tauto.
Qed.

Lemma parse_unsigned_range hi s n : parse_unsigned hi s = Some n -> 0 <= n <= hi.
Proof.
  unfold parse_unsigned. intros H. case_match_all; apply in_range_Some in H; tauto.
Qed.

Lemma to_dec_inj n m : i32_wf n -> i32_wf m -> to_dec n = to_dec m -> n = m.
Proof. intros Hn Hm H. pose proof (parse_i32_to_dec n Hn). rewrite H, parse_i32_to_dec in H0 by done. congruence. Qed.

(** A decimal numeral has digits and at most a leading minus sign. *)
Lemma to_dec_chars n c : i32_wf n -> In c (to_dec n) -> c = 45 \/ 48 <= c <= 57.
Proof.
  intros Hn Hc. unfold to_dec, i32_wf, i32_min in *.
  assert (Hdig : forall m, 0 <= m -> In c (dec_digits (Z.to_nat (Z.log2 m)) m) -> 48 <= c <= 57).
  { intros m Hm Hi. pose proof (dec_digits_digits _ m (conj Hm (log2_fuel m Hm))) as H. rewrite List.Forall_forall in H.
    apply H in Hi. unfold is_ascii_digit in Hi. bool_to_prop. lia. }
  destruct (n <? 0) eqn:E; bool_to_prop.
  - cbn [In] in Hc. destruct Hc as [<-|Hc]; [by left|]. right. eapply Hdig, Hc. lia.
  - right. eapply Hdig, Hc. lia.
Qed.

(** Nothing to trim. *)
Lemma trim_no_ws s : (forall c, In c s -> is_whitespace c = false) -> trim s = s.
Proof.
  assert (H : forall t, (forall c, In c t -> is_whitespace c = false) -> trim_start t = t).
  { intros [|c t] Ht; [done|]. cbn. by rewrite Ht by by left. }
  intros Hs. unfold trim, trim_end. rewrite (H s) by done. rewrite H, rev_involutive; [done|].
  intros c Hc. by apply Hs, in_rev.
Qed.

Lemma to_dec_not_nil n : to_dec n <> [].
Proof.
  unfold to_dec. destruct (n <? 0); [done|].
  destruct (dec_digits_cons (Z.to_nat (Z.log2 n)) n) as (c & r & ->). done.
Qed.

Lemma wf_str_app s t : wf_str (s ++ t) <-> wf_str s /\ wf_str t.
Proof. apply Forall_app. Qed.

(** Decoding accepts only what encoding produces. *)
Lemma encode_from_utf16 ws s :
  Forall u16_wf ws -> from_utf16 ws = Some s -> encode_utf16 s = ws /\ wf_str s.
Proof.
  remember (List.length ws) as n eqn:En.
  assert (Hn : (List.length ws <= n)%nat) by lia. clear En.
  revert ws s Hn. induction n as [|n IH]; intros ws s Hn Hw H.
  { destruct ws; cbn in Hn; [|lia]. injection H as <-. by repeat constructor. }
  destruct ws as [|w r]; [injection H as <-; by repeat constructor|].
  inversion Hw as [|? ? Hw1 Hwr]; subst. unfold u16_wf, u16_max in Hw1. cbn [from_utf16] in H.
  destruct (high_surrogate w) eqn:Eh; [destruct r as [|w2 r2]; [done|]|].
  - destruct (low_surrogate w2) eqn:El; [|done].
    destruct (from_utf16 r2) as [s2|] eqn:E2; [|done]. injection H as <-.
    inversion Hwr; subst. destruct (IH r2 s2) as [<- Hs2]; [cbn in Hn; lia|done|done|].
    unfold high_surrogate, low_surrogate in *. bool_to_prop.
    split; [|constructor; [right; lia|done]].
    cbn. unfold encode_char. rewrite (proj2 (Z.ltb_ge _ _)) by lia. cbn.
    rewrite <- (Z.div_unique _ 1024 (w - 55296) (w2 - 56320)) by lia.
    rewrite <- (Z.mod_unique _ 1024 (w - 55296) (w2 - 56320)) by lia.
    repeat f_equal; lia.
  - destruct (low_surrogate w) eqn:El; [done|].
    destruct (from_utf16 r) as [s2|] eqn:E2; [|done]. injection H as <-.
    destruct (IH r s2) as [<- Hs2]; [cbn in Hn; lia|done|done|].
    unfold high_surrogate, low_surrogate in *. bool_to_prop.
    split; [|constructor; [unfold scalar; lia|done]].
    cbn. unfold encode_char. by rewrite (proj2 (Z.ltb_lt _ _)) by lia.
Qed.

(** Well-formedness of a concrete string, by computation. *)
Definition scalarb (c : rchar) : bool :=
  ((0 <=? c) && (c <? 55296)) || ((57344 <=? c) && (c <=? 1114111)).

Lemma wf_str_b s : forallb scalarb s = true -> wf_str s.
Proof.
  intros H. rewrite forallb_forall in H. apply List.Forall_forall. intros c Hc%H.
  unfold scalarb, scalar in *. apply orb_true_iff in Hc as [Hc|Hc]; bool_to_prop; lia.
Qed.

Lemma lossy_encode_char c r :
  scalar c -> from_utf16_lossy (encode_char c ++ r) = c :: from_utf16_lossy r.
Proof.
  intros Hc. unfold encode_char.
  destruct (Z.ltb_spec c 65536); cbn [app from_utf16_lossy]; unfold high_surrogate, low_surrogate.
  - destruct (Z.leb_spec 55296 c), (Z.leb_spec c 56319), (Z.leb_spec 56320 c),
      (Z.leb_spec c 57343); cbn [andb]; try done; unfold scalar in Hc; lia.
  - assert (65536 <= c <= 1114111) as Hr by (unfold scalar in Hc; lia).
    assert (0 <= (c - 65536) / 1024 <= 1023) by (split; [apply Z.div_pos; lia|
      apply Z.lt_succ_r, Z.div_lt_upper_bound; lia]).
    pose proof (Z.mod_pos_bound (c - 65536) 1024 ltac:(lia)).
    rewrite (proj2 (Z.leb_le _ _)), (proj2 (Z.leb_le _ _)) by lia. cbn [andb].
    rewrite (proj2 (Z.leb_le _ _)), (proj2 (Z.leb_le _ _)) by lia. cbn [andb].
    f_equal. pose proof (Z.div_mod (c - 65536) 1024 ltac:(lia)). lia.
Qed.

Lemma lossy_encode_utf16 s : wf_str s -> from_utf16_lossy (encode_utf16 s) = s.
Proof.
  induction 1 as [|c s Hc _ IH]; cbn [encode_utf16 flat_map]; [done|].
  rewrite lossy_encode_char by done. unfold encode_utf16 in IH. by rewrite IH.
Qed.
