(* ===== verification/BTree.v ===== *)
(** * [BTreeMap<String, V>] and [BTreeSet<String>]

    Ordered maps keyed by strings, as the strictly sorted association lists
    their iteration order shows ([BTreeSet<String>] is the map to [unit]). The
    order of Rust strings is the lexicographic order of their UTF-8 bytes,
    which is the lexicographic order of their scalar values. *)

From Stdlib Require Import ZArith Lia List Sorted.
From S2P Require Import Prelude Text.

Fixpoint str_cmp (a b : rstr) : comparison :=
  match a, b with
  | [], [] => Eq
  | [], _ :: _ => Lt
  | _ :: _, [] => Gt
  | x :: a', y :: b' =>
      match Z.compare x y with Eq => str_cmp a' b' | c => c end
  end.

Lemma str_cmp_eq a b : str_cmp a b = Eq <-> a = b.
Proof.
  revert b. induction a as [|x a IH]; intros [|y b]; cbn; try naive_solver.
  destruct (Z.compare_spec x y); subst; [rewrite IH| |]; naive_solver lia.
Qed.

Lemma str_cmp_refl a : str_cmp a a = Eq.
Proof. by apply str_cmp_eq. Qed.

Lemma str_cmp_antisym a b : str_cmp b a = CompOpp (str_cmp a b).
Proof.
  revert b. induction a as [|x a IH]; intros [|y b]; cbn; try done.
  rewrite (Z.compare_antisym x y). destruct (x ?= y); cbn; auto.
Qed.

Lemma str_cmp_lt_trans a b c : str_cmp a b = Lt -> str_cmp b c = Lt -> str_cmp a c = Lt.
Proof.
  revert b c. induction a as [|x a IH]; intros [|y b] [|z c]; cbn; try done.
  destruct (Z.compare_spec x y), (Z.compare_spec y z); subst; intros H1 H2; try done.
  - rewrite Z.compare_refl. eauto.
  - by rewrite (proj2 (Z.compare_lt_iff _ _)) by lia.
  - by rewrite (proj2 (Z.compare_lt_iff _ _)) by lia.
  - by rewrite (proj2 (Z.compare_lt_iff _ _)) by lia.
Qed.

#[export] Hint Resolve str_cmp_lt_trans : ngsm.

Abbreviation btree V := (list (list Z * V)) (only parsing).
Abbreviation bset := (list (list Z * unit)) (only parsing).

Section BTree.
Context {V : Type}.
Implicit Types m : btree V.

Fixpoint bt_get (k : rstr) m : option V :=
  match m with
  | [] => None
  | (k', v) :: m' => if str_eqb k k' then Some v else bt_get k m'
  end.

(** [BTreeMap::insert]: replaces the value of an equal key. *)
Fixpoint bt_insert (k : rstr) (v : V) m : btree V :=
  match m with
  | [] => [(k, v)]
  | (k', v') :: m' =>
      match str_cmp k k' with
      | Lt => (k, v) :: m
      | Eq => (k, v) :: m'
      | Gt => (k', v') :: bt_insert k v m'
      end
  end.

Definition bt_keys m : list rstr := map fst m.
Definition bt_contains (k : rstr) m : bool :=
  match bt_get k m with Some _ => true | None => false end.
Definition bt_retain (p : rstr -> bool) m : btree V := List.filter (fun kv => p kv.1) m.

Definition bt_lt (x y : rstr * V) : Prop := str_cmp x.1 y.1 = Lt.
Definition bt_ok m : Prop := StronglySorted bt_lt m.

Lemma bt_ok_nil : bt_ok [].
Proof. constructor. Qed.

Lemma bt_get_lt k m : Forall (fun x => str_cmp k x.1 = Lt) m -> bt_get k m = None.
Proof.
  induction 1 as [|[k' v] m Hx _ IH]; cbn in *; [done|].
  destruct (str_eqb k k') eqn:E; [|done].
  apply str_eqb_eq in E as ->. by rewrite str_cmp_refl in Hx.
Qed.

Lemma bt_get_insert_same k v m : bt_get k (bt_insert k v m) = Some v.
Proof.
  induction m as [|[k' v'] m IH]; cbn; [by rewrite str_eqb_refl|].
  destruct (str_cmp k k') eqn:E; cbn; rewrite ?str_eqb_refl; try done.
  destruct (str_eqb k k') eqn:E'; [|done].
  apply str_eqb_eq in E' as ->. by rewrite str_cmp_refl in E.
Qed.

Lemma bt_get_insert_other k k' v m : k <> k' -> bt_get k' (bt_insert k v m) = bt_get k' m.
Proof.
  intros Hne. assert (str_eqb k' k = false) as Hf by (apply str_eqb_neq; congruence).
  induction m as [|[k1 v1] m IH]; cbn; [by rewrite Hf|].
  destruct (str_cmp k k1) eqn:E; cbn; rewrite ?Hf, ?IH; try done.
  apply str_cmp_eq in E as ->. by rewrite Hf.
Qed.

Lemma bt_get_insert k k' v m :
  bt_get k' (bt_insert k v m) = if str_eqb k k' then Some v else bt_get k' m.
Proof.
  destruct (str_eqb k k') eqn:E.
  - apply str_eqb_eq in E as <-. apply bt_get_insert_same.
  - apply bt_get_insert_other. by apply str_eqb_neq.
Qed.

Lemma Forall_lt_trans k k' m :
  str_cmp k k' = Lt -> Forall (fun x => str_cmp k' x.1 = Lt) m ->
  Forall (fun x : rstr * V => str_cmp k x.1 = Lt) m.
Proof. intros H. apply List.Forall_impl. eauto with ngsm. Qed.

Lemma bt_insert_above k0 k v m :
  str_cmp k0 k = Lt -> Forall (fun x => str_cmp k0 x.1 = Lt) m ->
  Forall (fun x => str_cmp k0 x.1 = Lt) (bt_insert k v m).
Proof.
  intros Hk H. induction H as [|[k' v'] m Hx Hm IH]; cbn in *; [by repeat constructor|].
  destruct (str_cmp k k'); repeat constructor; auto.
Qed.

Lemma bt_insert_ok k v m : bt_ok m -> bt_ok (bt_insert k v m).
Proof.
  induction 1 as [|[k' v'] m Hs IH Hf]; cbn; [by repeat constructor|].
  destruct (str_cmp k k') eqn:E.
  - apply str_cmp_eq in E as ->. constructor; done.
  - constructor; [by constructor|]. constructor; [done|]. eapply Forall_lt_trans; eauto.
  - constructor; [done|]. apply bt_insert_above; [|done].
    cbn. by rewrite str_cmp_antisym, E.
Qed.

Lemma bt_retain_ok p m : bt_ok m -> bt_ok (bt_retain p m).
Proof.
  induction 1 as [|x m Hs IH Hf]; cbn; [constructor|].
  destruct (p x.1); [|done]. constructor; [done|].
  rewrite List.Forall_forall in *. intros y Hy. apply filter_In in Hy as [Hy _]. auto.
Qed.

Lemma bt_get_retain p k m :
  bt_get k (bt_retain p m) = if p k then bt_get k m else None.
Proof.
  unfold bt_retain. induction m as [|[k' v] m IH]; cbn; [by destruct (p k)|].
  destruct (p k') eqn:Ep; cbn; rewrite IH.
  - destruct (str_eqb k k') eqn:E; [|done]. apply str_eqb_eq in E as ->. by rewrite Ep.
  - destruct (str_eqb k k') eqn:E; [|done]. apply str_eqb_eq in E as ->. by rewrite Ep.
Qed.

Lemma bt_get_In k v m : bt_ok m -> (bt_get k m = Some v <-> In (k, v) m).
Proof.
  induction 1 as [|[k' v'] m Hs IH Hf]; cbn; [split; done|].
  destruct (str_eqb k k') eqn:E.
  - apply str_eqb_eq in E as ->. split; [intros [= ->]; by left|].
    intros [[= ->]|Hi]; [done|]. rewrite List.Forall_forall in Hf.
    apply Hf in Hi. unfold bt_lt in Hi. cbn in Hi. by rewrite str_cmp_refl in Hi.
  - apply str_eqb_neq in E. rewrite IH. split; [by right|]. intros [[= -> ->]|]; done.
Qed.

(** A key that is present was inserted with that very spelling. *)
Lemma bt_get_Some_In k v m : bt_get k m = Some v -> In (k, v) m.
Proof.
  induction m as [|[k' v'] m IH]; cbn; [done|].
  destruct (str_eqb k k') eqn:E; [|by auto].
  apply str_eqb_eq in E as ->. intros [= ->]. by left.
Qed.

Lemma bt_get_None_not_In k m : bt_get k m = None <-> ~ In k (bt_keys m).
Proof.
  induction m as [|[k' v'] m IH]; cbn; [tauto|].
  destruct (str_eqb k k') eqn:E.
  - apply str_eqb_eq in E as ->. split; [done|]. intros H. exfalso; apply H; by left.
  - apply str_eqb_neq in E. rewrite IH. intuition congruence.
Qed.

(** Two sorted maps with the same lookups are equal. *)
Lemma bt_ext m1 m2 :
  bt_ok m1 -> bt_ok m2 -> (forall k, bt_get k m1 = bt_get k m2) -> m1 = m2.
Proof.
  intros H1. revert m2. induction H1 as [|[k1 v1] m1 Hs1 IH Hf1];
    intros m2 H2 Hext; destruct H2 as [|[k2 v2] m2 Hs2 Hf2]; [done| | |].
  - specialize (Hext k2). cbn in Hext. by rewrite str_eqb_refl in Hext.
  - specialize (Hext k1). cbn in Hext. by rewrite str_eqb_refl in Hext.
  - assert (k1 = k2) as <-.
    { destruct (str_cmp k1 k2) eqn:E; [by apply str_cmp_eq| |].
      - specialize (Hext k1). cbn [bt_get] in Hext. rewrite str_eqb_refl in Hext.
        rewrite (proj2 (str_eqb_neq k1 k2)) in Hext
          by (intros ->; by rewrite str_cmp_refl in E).
        rewrite bt_get_lt in Hext; [done|]. eapply Forall_lt_trans; eauto.
      - rewrite str_cmp_antisym in E. destruct (str_cmp k2 k1) eqn:E2; try done.
        specialize (Hext k2). cbn [bt_get] in Hext. rewrite str_eqb_refl in Hext.
        rewrite (proj2 (str_eqb_neq k2 k1)) in Hext
          by (intros ->; by rewrite str_cmp_refl in E2).
        rewrite bt_get_lt in Hext; [done|]. eapply Forall_lt_trans; eauto. }
    pose proof (Hext k1) as Hk. cbn [bt_get] in Hk. rewrite !str_eqb_refl in Hk.
    injection Hk as <-. f_equal. apply IH; [done|]. intros k.
    specialize (Hext k). cbn [bt_get] in Hext.
    destruct (str_eqb k k1) eqn:E; [|done]. apply str_eqb_eq in E as ->.
    by rewrite !bt_get_lt.
Qed.
End BTree.

#[export] Hint Resolve bt_ok_nil bt_insert_ok bt_retain_ok : ngsm.

(** ** Sets of strings *)

Definition bs_insert (k : rstr) (s : bset) : bset := bt_insert k tt s.
Definition bs_any (p : rstr -> bool) (s : bset) : bool := existsb p (bt_keys s).

Lemma bt_get_Some_keys {V} k (m : btree V) :
  In k (bt_keys m) <-> exists v, bt_get k m = Some v.
Proof.
  destruct (bt_get k m) as [v|] eqn:E.
  - split; [by eauto|]. intros _.
    apply (in_map fst m (k, v)), bt_get_Some_In, E.
  - apply bt_get_None_not_In in E. split; [done|]. by intros [v Hv].
Qed.

Lemma bt_keys_insert {V} k k' (v : V) m :
  In k' (bt_keys (bt_insert k v m)) <-> k' = k \/ In k' (bt_keys m).
Proof.
  rewrite !bt_get_Some_keys, bt_get_insert. destruct (str_eqb k k') eqn:E.
  - apply str_eqb_eq in E as ->. split; [by left|by eauto].
  - apply str_eqb_neq in E. split; [by right|]. intros [->|]; done.
Qed.
