(* ===== verification/Model.v ===== *)
(** * Domain model: servicemanager-core [error.rs], [model.rs], [events.rs]

    The records and enumerations every other component shares, with the
    program's predicates on them: online rotation, ownership of a service
    ([is_managed]) and the extraction of an executable name from an SCM image
    path. A field whose Rust name is used by two structs carries a prefix. *)

From Stdlib Require Import ZArith Lia List.
From S2P Require Import Prelude Text BTree.

(** ** error.rs *)

(** [std::io::ErrorKind], as far as the program distinguishes it. *)
Inductive io_kind :=
| KNotFound | KPermissionDenied | KAlreadyExists | KInterrupted | KInvalidInput
| KInvalidData | KTimedOut | KWriteZero | KBrokenPipe | KWouldBlock | KUnexpectedEof | KOther.
#[export] Instance io_kind_eq_dec : EqDecision io_kind.
Proof. solve_decision. Defined.

Record io_error := mk_io_error { io_error_kind : io_kind; io_error_text : rstr }.
#[export] Instance io_error_eq_dec : EqDecision io_error.
Proof. solve_decision. Defined.

Inductive Error :=
| NotFound (s : rstr)
| AccessDenied (s : rstr)
| InvalidConfig (s : rstr)
| Registry (s : rstr)
| Scm (s : rstr)
| Io (e : io_error)
| Other (s : rstr).
#[export] Instance Error_eq_dec : EqDecision Error.
Proof. solve_decision. Defined.

(** [Display] of the error, as [thiserror] derives it. *)
Definition error_to_string (e : Error) : rstr :=
  match e with
  | NotFound s => &"service not found: " ++ s
  | AccessDenied s => &"access denied: " ++ s
  | InvalidConfig s => &"invalid configuration: " ++ s
  | Registry s => &"registry: " ++ s
  | Scm s => &"scm: " ++ s
  | Io e => &"io: " ++ io_error_text e
  | Other s => s
  end.

Definition error_other (msg : rstr) : Error := Other msg.

(** ** model.rs: data *)

Inductive StartupType :=
| Boot | System | Automatic | AutomaticDelayed | Manual | Disabled | UnknownStartup.
#[export] Instance StartupType_eq_dec : EqDecision StartupType.
Proof. solve_decision. Defined.

Inductive ServiceType :=
| KernelDriver | FileSystemDriver | Win32OwnProcess | Win32SharedProcess
| InteractiveProcess | UnknownType.
#[export] Instance ServiceType_eq_dec : EqDecision ServiceType.
Proof. solve_decision. Defined.

Record NativeServiceConfig := {
  name : rstr;
  display_name : rstr;
  description : option rstr;
  startup : StartupType;
  service_type : ServiceType;
  image_path : rstr;
  account : option rstr;
  depend_on_services : list rstr;
  depend_on_groups : list rstr }.

Inductive ExitAction := Restart | Ignore | Exit | Suicide.
#[export] Instance ExitAction_eq_dec : EqDecision ExitAction.
Proof. solve_decision. Defined.

Record ExitActionPolicy := { action : ExitAction }.
#[export] Instance ExitActionPolicy_eq_dec : EqDecision ExitActionPolicy.
Proof. solve_decision. Defined.

Record RestartPolicy := {
  restart_delay_ms : option Z;
  throttle_delay_ms : option Z;
  default_action : option ExitAction }.

Record ShutdownPolicy := {
  stop_method_skip : option Z;
  kill_console_grace_ms : option Z;
  kill_window_grace_ms : option Z;
  kill_threads_grace_ms : option Z;
  kill_process_tree : option bool }.

Record IoStream := {
  path : rstr;
  share_mode : option Z;
  creation_disposition : option Z;
  flags_and_attributes : option Z;
  copy_and_truncate : option bool }.
#[export] Instance IoStream_eq_dec : EqDecision IoStream.
Proof. solve_decision. Defined.

Record IoRedirectionConfig := {
  stdin : option IoStream;
  stdout : option IoStream;
  stderr : option IoStream;
  timestamp_log : option bool }.

Record LogRotationConfig := {
  enabled : option bool;
  online : option Z;
  seconds : option Z;
  bytes : option Z;
  rotate_delay_ms : option Z }.

Record HookConfig := { event : rstr; hook_action : rstr; command : rstr }.
#[export] Instance HookConfig_eq_dec : EqDecision HookConfig.
Proof. solve_decision. Defined.

Record ManagedApplicationConfig := {
  application : option rstr;
  app_parameters : option rstr;
  app_directory : option rstr;
  environment : list rstr;
  environment_extra : list rstr;
  priority : option Z;
  affinity : option rstr;
  restart : RestartPolicy;
  shutdown : ShutdownPolicy;
  io : IoRedirectionConfig;
  rotation : LogRotationConfig;
  exit_actions : btree ExitActionPolicy;
  hooks : list HookConfig;
  expandable_strings : bset }.

#[export] Instance RestartPolicy_eq_dec : EqDecision RestartPolicy.
Proof. solve_decision. Defined.
#[export] Instance ShutdownPolicy_eq_dec : EqDecision ShutdownPolicy.
Proof. solve_decision. Defined.
#[export] Instance IoRedirectionConfig_eq_dec : EqDecision IoRedirectionConfig.
Proof. solve_decision. Defined.
#[export] Instance LogRotationConfig_eq_dec : EqDecision LogRotationConfig.
Proof. solve_decision. Defined.
#[export] Instance ManagedApplicationConfig_eq_dec : EqDecision ManagedApplicationConfig.
Proof. solve_decision. Defined.

Inductive ServiceState :=
| Stopped | StartPending | StopPending | Running | ContinuePending | PausePending
| Paused | UnknownState.
#[export] Instance ServiceState_eq_dec : EqDecision ServiceState.
Proof. solve_decision. Defined.

Record ServiceRuntimeState := {
  state : ServiceState;
  pid : option Z;
  exit_code : option Z;
  checkpoint : option Z;
  wait_hint_ms : option Z }.

Record ServiceDefinition := {
  native : NativeServiceConfig;
  managed : option ManagedApplicationConfig;
  runtime : option ServiceRuntimeState }.

Inductive ManagementKind := Managed | Native.
#[export] Instance ManagementKind_eq_dec : EqDecision ManagementKind.
Proof. solve_decision. Defined.

(** [..Default::default()] *)
Definition RestartPolicy_default : RestartPolicy := Build_RestartPolicy None None None.
Definition ShutdownPolicy_default : ShutdownPolicy :=
  Build_ShutdownPolicy None None None None None.
Definition IoRedirectionConfig_default : IoRedirectionConfig :=
  Build_IoRedirectionConfig None None None None.
Definition LogRotationConfig_default : LogRotationConfig :=
  Build_LogRotationConfig None None None None None.
Definition ManagedApplicationConfig_default : ManagedApplicationConfig := {|
  application := None; app_parameters := None; app_directory := None;
  environment := []; environment_extra := []; priority := None; affinity := None;
  restart := RestartPolicy_default; shutdown := ShutdownPolicy_default;
  io := IoRedirectionConfig_default; rotation := LogRotationConfig_default;
  exit_actions := []; hooks := []; expandable_strings := [] |}.

(** ** model.rs: operations *)

Definition is_some {A} (o : option A) : bool := match o with Some _ => true | None => false end.
Definition is_none {A} (o : option A) : bool := negb (is_some o).
Definition is_some_and {A} (p : A -> bool) (o : option A) : bool :=
  match o with Some a => p a | None => false end.
Definition unwrap_or {A} (d : A) (o : option A) : A := match o with Some a => a | None => d end.

Definition has_online_rotation (c : ManagedApplicationConfig) : bool :=
  bool_decide (enabled (rotation c) = Some true)
  && is_some_and (fun v => negb (v =? 0)) (online (rotation c))
  && (is_some (stdout (io c)) || is_some (stderr (io c))).

Definition is_path_separator (c : rchar) : bool := (c =? c_backslash) || (c =? c_slash).

(** The file name of a path: the text after its last separator. *)
Definition exe_base_name (exe : rstr) : rstr := List.last (split_on is_path_separator exe) [].
Arguments exe_base_name : simpl never.

(** The first end of a prefix, at white space or at the end of the text, whose
    lower-cased spelling ends in [.exe]: the prefix and what follows it. *)
Fixpoint exe_boundary (pre rest : rstr) : option (rstr * rstr) :=
  match rest with
  | [] => if ends_with &".exe" (to_ascii_lowercase pre) then Some (pre, []) else None
  | c :: r =>
      if is_whitespace c && ends_with &".exe" (to_ascii_lowercase pre)
      then Some (pre, rest)
      else exe_boundary (pre ++ [c]) r
  end.

Definition is_drive_rooted (s : rstr) : bool :=
  match s with
  | a :: b :: c :: _ => is_ascii_alphabetic a && (b =? c_colon) && (c =? c_backslash)
  | _ => false
  end.

(** The one unquoted shape with white space that is accepted: below
    [Program Files], with no further white space. *)
Definition program_files_candidate (candidate : rstr) : bool :=
  let normalized := to_ascii_lowercase (replace_char c_slash [c_backslash] candidate) in
  is_drive_rooted normalized
  && match
       match strip_prefix &"program files\" (drop 3 normalized) with
       | Some t => Some t
       | None => strip_prefix &"program files (x86)\" (drop 3 normalized)
       end
     with
     | Some tail => negb (any is_whitespace tail)
     | None => false
     end.

(** Nothing, or the arguments NGSM binds a runner with. *)
Definition runner_arguments (remainder : rstr) : bool :=
  is_empty remainder
  || match strip_prefix &"run-service" remainder with
     | Some (c :: _) => is_whitespace c
     | _ => false
     end.

Definition unquoted_exe (trimmed : rstr) : option rstr :=
  match exe_boundary [] trimmed with
  | Some (candidate, after) =>
      if any is_whitespace candidate && negb (program_files_candidate candidate) then None
      else if runner_arguments (trim_start after) then Some candidate
      else None
  | None => None
  end.

Definition image_path_exe_name (image : rstr) : option rstr :=
  let trimmed := trim_start image in
  match
    match strip_prefix [c_quote] trimmed with
    | Some rest => fst <$> split_once c_quote rest
    | None => unquoted_exe trimmed
    end
  with
  | Some exe =>
      let n := exe_base_name exe in
      if is_empty n then None else Some n
  | None => None
  end.

Definition is_runner_name (exe : rstr) : bool :=
  eq_ignore_ascii_case exe &"ngsm.exe" || eq_ignore_ascii_case exe &"nssm.exe".

Definition is_managed (d : ServiceDefinition) : bool :=
  if is_some (managed d) then true
  else match image_path_exe_name (image_path (native d)) with
       | Some exe => is_runner_name exe
       | None => false
       end.

Definition management_kind (d : ServiceDefinition) : ManagementKind :=
  if is_managed d then Managed else Native.

(** ** events.rs *)

Inductive EventKind := Started | EvStopped | ChildExited | Restarted | Throttled.
#[export] Instance EventKind_eq_dec : EqDecision EventKind.
Proof. solve_decision. Defined.

Inductive StopReason := ScmStop.
#[export] Instance StopReason_eq_dec : EqDecision StopReason.
Proof. solve_decision. Defined.

Record EventRecord := {
  ts : rstr;
  ev_service : rstr;
  ev_event : EventKind;
  ev_pid : option Z;
  ev_exit_code : option Z;
  ev_lived_ms : option Z;
  ev_delay_ms : option Z;
  ev_reason : option StopReason }.

(** ** What [is_managed] accepts *)

(** Lemmas on the helper functions. *)
Lemma trim_start_spec s :
  exists ws, s = ws ++ trim_start s /\ Forall (fun c => is_whitespace c = true) ws.
Proof.
  induction s as [|c s (ws & E & H)]; cbn; [by exists []|].
  destruct (is_whitespace c) eqn:Hc; [|by exists []].
  exists (c :: ws). cbn. split; [by f_equal|]. by constructor.
Qed.

Lemma exe_boundary_spec pre rest cand after :
  exe_boundary pre rest = Some (cand, after) ->
  pre ++ rest = cand ++ after
  /\ ends_with &".exe" (to_ascii_lowercase cand) = true
  /\ (after = [] \/ exists c r, after = c :: r /\ is_whitespace c = true).
Proof.
  revert pre. induction rest as [|c r IH]; intros pre; cbn.
  - destruct (ends_with _ (to_ascii_lowercase pre)) eqn:E; [|done].
    intros [= <- <-]. auto.
  - destruct (is_whitespace c) eqn:Hc; cbn.
    + destruct (ends_with _ (to_ascii_lowercase pre)) eqn:E.
      * intros [= <- <-]. split; [done|]. split; [done|]. right. eauto.
      * intros H. apply IH in H as (H1 & H2 & H3). rewrite <- app_assoc in H1. auto.
    + intros H. apply IH in H as (H1 & H2 & H3). rewrite <- app_assoc in H1. auto.
Qed.

(** The boundary is the first one: no shorter prefix that ends before white
    space spells an executable. *)
Lemma exe_boundary_first pre rest cand after p c q :
  exe_boundary pre rest = Some (cand, after) ->
  pre ++ rest = p ++ c :: q -> (List.length pre <= List.length p)%nat ->
  (List.length p < List.length cand)%nat -> is_whitespace c = true ->
  ends_with &".exe" (to_ascii_lowercase p) = false.
Proof.
  revert pre. induction rest as [|x r IH]; intros pre; cbn [exe_boundary].
  - rewrite app_nil_r. intros _ -> Hl. rewrite length_app in Hl. cbn in Hl. lia.
  - intros H E Hle Hlt Hc.
    destruct (decide (List.length p = List.length pre)) as [Heq|Hne].
    + apply app_inj_1 in E as [-> [= -> ->]]; [|done]. rewrite Hc in H. cbn in H.
      destruct (ends_with _ _) eqn:Ee; [|done]. injection H as <- <-. lia.
    + assert (pre ++ x :: r = (pre ++ [x]) ++ r) as E' by (by rewrite <- app_assoc).
      rewrite E' in E.
      destruct (is_whitespace x && _); [injection H as <- <-; lia|].
      eapply IH; eauto. rewrite length_app. cbn. lia.
Qed.

(** The command lines of a runner that are recognised without any managed
    configuration. *)
Inductive runner_image (image : rstr) : Prop :=
| runner_quoted ws exe rest :
    image = ws ++ c_quote :: exe ++ c_quote :: rest ->
    Forall (fun c => is_whitespace c = true) ws -> ~ In c_quote exe ->
    is_runner_name (exe_base_name exe) = true ->
    runner_image image
| runner_unquoted ws exe rest :
    image = ws ++ exe ++ rest ->
    Forall (fun c => is_whitespace c = true) ws ->
    is_runner_name (exe_base_name exe) = true ->
    (any is_whitespace exe = true -> program_files_candidate exe = true) ->
    (rest = [] \/ exists c r, rest = c :: r /\ is_whitespace c = true) ->
    runner_arguments (trim_start rest) = true ->
    (forall p c q, exe = p ++ c :: q -> is_whitespace c = true ->
       ends_with &".exe" (to_ascii_lowercase p) = false) ->
    runner_image image.

Lemma unquoted_exe_spec trimmed exe :
  unquoted_exe trimmed = Some exe ->
  exists rest, trimmed = exe ++ rest
  /\ (any is_whitespace exe = true -> program_files_candidate exe = true)
  /\ (rest = [] \/ exists c r, rest = c :: r /\ is_whitespace c = true)
  /\ runner_arguments (trim_start rest) = true
  /\ (forall p c q, exe = p ++ c :: q -> is_whitespace c = true ->
       ends_with &".exe" (to_ascii_lowercase p) = false).
Proof.
  unfold unquoted_exe. destruct (exe_boundary [] trimmed) as [[cand after]|] eqn:E; [|done].
  destruct (any is_whitespace cand) eqn:Hw; cbn [andb];
    [destruct (program_files_candidate cand) eqn:Hp; cbn [negb]; [|done]|];
    (destruct (runner_arguments (trim_start after)) eqn:Hr; [|done]); intros [= <-];
    pose proof (exe_boundary_spec _ _ _ _ E) as (H1 & _ & H3); cbn in H1; exists after;
    repeat split; auto; try congruence;
    intros p c q -> Hc; eapply exe_boundary_first with (pre := []); eauto;
    try (cbn; rewrite H1, <- app_assoc; reflexivity); try (cbn; lia);
    rewrite length_app; cbn; lia.
Qed.

(** Ownership is decided from the executable alone. A service without a
    managed configuration is classified as managed only when its image path is
    a command line whose executable token is named [ngsm.exe] or [nssm.exe]:
    the quoted program, or the first unquoted prefix that ends in [.exe] (with
    white space only in the Program Files prefix) followed by nothing or by the
    runner's own arguments. A runner name in an argument, in a directory, or
    after an earlier [.exe] never makes a service deletable. *)
Theorem is_managed_only_runner (d : ServiceDefinition) :
  managed d = None -> is_managed d = true -> runner_image (image_path (native d)).
Proof.
  unfold is_managed, image_path_exe_name. intros -> H. cbn [is_some] in H.
  destruct (trim_start_spec (image_path (native d))) as (ws & Himg & Hws).
  remember (trim_start (image_path (native d))) as t eqn:Et. clear Et.
  destruct (strip_prefix [c_quote] t) as [rest|] eqn:Ep.
  - apply strip_prefix_Some in Ep as ->. cbn [app] in Himg.
    destruct (split_once c_quote rest) as [[exe after]|] eqn:Es; [|done]. cbn in H.
    apply split_once_Some in Es as [-> Hn].
    destruct (is_empty (exe_base_name exe)); [done|].
    eapply runner_quoted; eauto.
  - destruct (unquoted_exe t) as [exe|] eqn:Eu; [|done]. cbn in H.
    apply unquoted_exe_spec in Eu as (rest & -> & Hp & Hr & Ha & Hf).
    destruct (is_empty (exe_base_name exe)); [done|].
    eapply runner_unquoted; eauto.
Qed.

Definition native_with_image (image : rstr) : ServiceDefinition := {|
  native := {| name := &"S"; display_name := &"S"; description := None;
               startup := Manual; service_type := Win32OwnProcess; image_path := image;
               account := None; depend_on_services := []; depend_on_groups := [] |};
  managed := None; runtime := None |}.

Definition sample_runner : ServiceDefinition :=
  native_with_image &"C:\Program Files\NGSM\ngsm.exe run-service Foo".

Lemma is_managed_only_runner_witness :
  is_managed sample_runner = true
  /\ is_managed (native_with_image &"C:\tools\ngsm.exe data\worker.exe") = false
  /\ runner_image (image_path (native sample_runner)).
Proof.
  split; [vm_compute; reflexivity|]. split; [vm_compute; reflexivity|].
  apply is_managed_only_runner; vm_compute; reflexivity.
Defined.

Example is_managed_classic :
  map (fun i => is_managed (native_with_image i))
    [&"C:\tools\nssm.exe"; &"C:/Program Files/NGSM/ngsm.exe run-service Foo";
     &"C:\nssm.exe-backup\realservice.exe"; &"C:\app\runner.exe --label ngsm.exe";
     &"C:\native --runner C:\tools\ngsm.exe"; []]
  = [true; true; false; false; false; false].
Proof. vm_compute. reflexivity. Qed.
