(* ===== verification/Validate.v ===== *)
(** * Validation and quoting of caller-supplied text: core [validate.rs]

    Service and hook names, absolute Windows paths, and the quoting of one
    command-line argument, with the reference rules of Windows argument
    splitting that the quoting inverts. *)

From Stdlib Require Import ZArith Lia List.
From S2P Require Import Prelude Text BTree Model.

(** ** Names *)

Definition MAX_SERVICE_NAME_LEN : Z := 256.

(** The character loop both validators run, with their own messages. *)
Definition check_chars (sep_error control_error : Error) (s : rstr) : result Error unit :=
  for_each (fun ch =>
    if (ch =? c_backslash) || (ch =? c_slash) then Err sep_error
    else if is_control ch then Err control_error
    else Ok tt) s.

Definition validate_service_name (name : rstr) : result Error unit :=
  if is_empty name then Err (InvalidConfig &"service name must not be empty")
  else
    let len := utf16_len name in
    if MAX_SERVICE_NAME_LEN <? len then
      Err (InvalidConfig (&"service name is " ++ to_dec len ++ &" UTF-16 code units; the limit is "
                          ++ to_dec MAX_SERVICE_NAME_LEN))
    else check_chars
      (InvalidConfig (&"service name '" ++ name ++ &"' must not contain '\' or '/'"))
      (InvalidConfig (&"service name '" ++ name ++ &"' must not contain control characters"))
      name.

Definition validate_hook_component (name kind : rstr) : result Error unit :=
  if is_empty name then Err (InvalidConfig (&"hook " ++ kind ++ &" name must not be empty"))
  else
    let len := utf16_len name in
    if 255 <? len then
      Err (InvalidConfig (&"hook " ++ kind ++ &" name '" ++ name ++ &"' is " ++ to_dec len
                          ++ &" UTF-16 code units; the limit is 255"))
    else check_chars
      (InvalidConfig (&"hook " ++ kind ++ &" name '" ++ name ++ &"' must not contain '\' or '/'"))
      (InvalidConfig (&"hook " ++ kind ++ &" name '" ++ name
                      ++ &"' must not contain control characters"))
      name.

(** ** Absolute paths *)

(** The source scans UTF-8 bytes; it compares them with ASCII characters only,
    so the scan over scalar values decides the same. *)
Definition is_unambiguously_absolute_windows (value : rstr) : bool :=
  match value with
  | a :: b :: rest =>
      if is_path_separator a && is_path_separator b then
        match position is_path_separator rest with
        | None => false
        | Some server_end =>
            if (server_end =? 0)%nat then false
            else
              let after_server := drop (S server_end) rest in
              let share_end :=
                match position is_path_separator after_server with
                | Some n => n
                | None => List.length after_server
                end in
              (0 <? share_end)%nat
        end
      else match rest with
           | c :: _ => is_ascii_alphabetic a && (b =? c_colon) && is_path_separator c
           | [] => false
           end
  | _ => false
  end.

Definition validate_absolute_path (field value : rstr) : result Error unit :=
  if any is_control value then
    Err (InvalidConfig (field ++ &" contains a control character (e.g. NUL, tab, newline); these characters can truncate or corrupt the path as it crosses the registry / Win32 / process-spawn boundaries"))
  else if negb (is_unambiguously_absolute_windows value) then
    Err (InvalidConfig (field ++ &" must be an absolute path (e.g. C:\path or \\server\share\path), got '"
                        ++ value ++ &"'"))
  else Ok tt.

(** ** Quoting *)

Definition needs_quotes (arg : rstr) : bool :=
  is_empty arg
  || any (fun c => (c =? 32) || (c =? 9) || (c =? 10) || (c =? 11) || (c =? c_quote)) arg.

Definition backslashes (n : nat) : rstr := repeat c_backslash n.

(** The loop over the argument, with the backslashes seen but not yet written. *)
Fixpoint quote_body (pending : nat) (arg : rstr) : rstr :=
  match arg with
  | [] => backslashes (pending * 2)
  | c :: r =>
      if c =? c_backslash then quote_body (S pending) r
      else if c =? c_quote then backslashes (pending * 2 + 1) ++ c_quote :: quote_body 0 r
      else backslashes pending ++ c :: quote_body 0 r
  end.

Definition quote_windows_arg (arg : rstr) : rstr :=
  if negb (needs_quotes arg) then arg
  else c_quote :: quote_body 0 arg ++ [c_quote].

(** ** The reference: how Windows splits a command line into arguments

    The documented rules: [2n] backslashes before a quote are [n] backslashes
    and the quote delimits; [2n+1] backslashes before a quote are [n]
    backslashes and a literal quote; other backslashes are literal; blanks and
    tabs outside quotes separate. A quote directly after a delimiting quote
    inside a quoted part is a literal quote; whether the quoted part goes on
    then ([stay]) differs between parsers, so the theorem holds for both. *)

Definition is_arg_separator (c : rchar) : bool := (c =? 32) || (c =? 9).

Fixpoint argv_go (stay : bool) (s : rstr) (in_quotes started : bool) (bs : nat) (cur : rstr)
    : list rstr :=
  match s with
  | [] => if started then [cur ++ backslashes bs] else []
  | c :: r =>
      if c =? c_backslash then argv_go stay r in_quotes true (S bs) cur
      else if c =? c_quote then
        if Nat.odd bs then
          argv_go stay r in_quotes true 0 (cur ++ backslashes (Nat.div2 bs) ++ [c_quote])
        else match r with
             | d :: r' =>
                 if in_quotes && (d =? c_quote)
                 then argv_go stay r' stay true 0 (cur ++ backslashes (Nat.div2 bs) ++ [c_quote])
                 else argv_go stay r (negb in_quotes) true 0 (cur ++ backslashes (Nat.div2 bs))
             | [] => [cur ++ backslashes (Nat.div2 bs)]
             end
      else if is_arg_separator c && negb in_quotes then
        (if started then [cur ++ backslashes bs] else []) ++ argv_go stay r false false 0 []
      else argv_go stay r in_quotes true 0 (cur ++ backslashes bs ++ [c])
  end.

Definition split_command_line (stay : bool) (s : rstr) : list rstr :=
  argv_go stay s false false 0 [].

(** ** Lemmas *)

Definition plain_char (c : rchar) : Prop :=
  c <> c_backslash /\ c <> c_slash /\ is_control c = false.

Lemma check_chars_ok e1 e2 s : check_chars e1 e2 s = Ok tt <-> Forall plain_char s.
Proof.
  unfold check_chars. rewrite for_each_ok. apply Forall_iff. intros c.
  unfold plain_char.
  destruct (Z.eqb_spec c c_backslash), (Z.eqb_spec c c_slash), (is_control c); cbn; naive_solver.
Qed.



(** A validated service name is a single registry-path component: it joins
    under the [Services] key without adding a level or a control character. *)
Lemma validate_service_name_ok name :
  validate_service_name name = Ok tt <->
  name <> [] /\ utf16_len name <= 256 /\ Forall plain_char name.
Proof.
  unfold validate_service_name, MAX_SERVICE_NAME_LEN.
  rewrite <- is_empty_false. destruct (is_empty name); [naive_solver|].
  destruct (Z.ltb_spec 256 (utf16_len name)); rewrite ?check_chars_ok; naive_solver lia.
Qed.

Lemma validate_hook_component_ok name kind :
  validate_hook_component name kind = Ok tt <->
  name <> [] /\ utf16_len name <= 255 /\ Forall plain_char name.
Proof.
  unfold validate_hook_component.
  rewrite <- is_empty_false. destruct (is_empty name); [naive_solver|].
  destruct (Z.ltb_spec 255 (utf16_len name)); rewrite ?check_chars_ok; naive_solver lia.
Qed.

Lemma plain_no_sep s : Forall plain_char s -> split_on (fun c => c =? c_backslash) s = [s].
Proof.
  induction 1 as [|c s Hc _ IH]; cbn; [done|]. destruct Hc as (Hb & _).
  destruct (Z.eqb_spec c c_backslash); [done|]. by rewrite IH.
Qed.

Lemma split_on_app p a c b :
  p c = true -> Forall (fun x => p x = false) a ->
  split_on p (a ++ c :: b) = a :: split_on p b.
Proof.
  intros Hc. induction 1 as [|x a Hx _ IH]; cbn; [by rewrite Hc|]. by rewrite Hx, IH.
Qed.

Lemma position_Some {A} (p : A -> bool) s n :
  position p s = Some n <->
  exists a x b, s = a ++ x :: b /\ List.length a = n /\ p x = true /\ Forall (fun y => p y = false) a.
Proof.
  revert n. induction s as [|y s IH]; intros n; cbn.
  { split; [done|]. intros (a & x & b & E & _). by destruct a. }
  destruct (p y) eqn:Ey.
  - split.
    + intros [= <-]. by exists [], y, s.
    + intros (a & x & b & E & <- & Hx & Ha). destruct Ha as [|z a Hz Ha]; [done|].
      cbn in E. injection E as -> ->. congruence.
  - split.
    + intros H. destruct (position p s) as [m|] eqn:Ep; [|done]. cbn in H. injection H as <-.
      destruct (proj1 (IH m) eq_refl) as (a & x & b & -> & <- & Hx & Ha).
      exists (y :: a), x, b. repeat split; auto.
    + intros (a & x & b & E & <- & Hx & Ha). destruct Ha as [|z a Hz Ha]; cbn in E.
      * injection E as -> ->. congruence.
      * injection E as -> ->. cbn. rewrite (proj2 (IH (List.length a))); [done|]. by exists a, x, b.
Qed.

Lemma position_None {A} (p : A -> bool) s :
  position p s = None <-> Forall (fun y => p y = false) s.
Proof.
  induction s as [|y s IH]; cbn; [split; [constructor|done]|].
  rewrite Forall_cons. destruct (p y); [naive_solver|].
  destruct (position p s); cbn; naive_solver.
Qed.

Definition not_sep (c : rchar) : Prop := is_path_separator c = false.

(** The two shapes of an absolute Windows path. *)
Inductive absolute_windows : rstr -> Prop :=
| abs_drive d c rest :
    is_ascii_alphabetic d = true -> is_path_separator c = true ->
    absolute_windows (d :: c_colon :: c :: rest)
| abs_unc a b server c share rest :
    is_path_separator a = true -> is_path_separator b = true ->
    server <> [] -> Forall not_sep server -> is_path_separator c = true ->
    share <> [] -> Forall not_sep share ->
    (rest = [] \/ exists d r, rest = d :: r /\ is_path_separator d = true) ->
    absolute_windows (a :: b :: server ++ c :: share ++ rest).

Lemma split_share s :
  exists share rest, s = share ++ rest /\ Forall not_sep share
  /\ (rest = [] \/ exists d r, rest = d :: r /\ is_path_separator d = true)
  /\ List.length share
     = match position is_path_separator s with Some n => n | None => List.length s end.
Proof.
  destruct (position is_path_separator s) as [n|] eqn:E.
  - apply position_Some in E as (a & x & b & -> & <- & Hx & Ha).
    exists a, (x :: b). repeat split; eauto.
  - apply position_None in E. exists s, []. rewrite app_nil_r. auto.
Qed.

Lemma colon_not_sep : is_path_separator c_colon = false.
Proof. reflexivity. Qed.

Lemma alphabetic_not_sep d : is_ascii_alphabetic d = true -> is_path_separator d = false.
Proof.
  unfold is_ascii_alphabetic, is_path_separator, c_backslash, c_slash. intros H.
  destruct (Z.eqb_spec d 92) as [->|]; [done|]. by destruct (Z.eqb_spec d 47) as [->|].
Qed.

Lemma absolute_windows_complete value :
  absolute_windows value -> is_unambiguously_absolute_windows value = true.
Proof.
  intros [d c rest Hd Hc|a b server c share rest Ha Hb Hs Hsn Hc Hh Hhn Hr]; cbn.
  - by rewrite (alphabetic_not_sep d Hd), Hd, Hc.
  - rewrite Ha, Hb. cbn [andb].
    rewrite (proj2 (position_Some is_path_separator (server ++ c :: share ++ rest)
                      (List.length server))) by (exists server, c, (share ++ rest); auto).
    destruct server as [|s0 server]; [done|].
    change (List.length (s0 :: server) =? 0)%nat with false. cbn [List.app].
    replace (drop _ _) with (share ++ rest)
      by (symmetry; change (s0 :: server ++ c :: share ++ rest) with
            ((s0 :: server) ++ [c] ++ share ++ rest); rewrite app_assoc;
          apply drop_app_length'; rewrite length_app; cbn; lia).
    destruct share as [|h share]; [done|].
    inversion Hhn as [|? ? Hh0 _]; subst. cbn. unfold not_sep in Hh0. rewrite Hh0.
    by destruct (position _ _).
Qed.

Lemma absolute_windows_sound value :
  is_unambiguously_absolute_windows value = true -> absolute_windows value.
Proof.
  unfold is_unambiguously_absolute_windows. destruct value as [|a [|b rest]]; try done.
  destruct (is_path_separator a) eqn:Ha; cbn [andb];
    [destruct (is_path_separator b) eqn:Hb; cbn [andb]|].
  - destruct (position is_path_separator rest) as [n|] eqn:Ep; [|done].
    apply position_Some in Ep as (server & c & after & -> & <- & Hc & Hs).
    destruct (Nat.eqb_spec (List.length server) 0) as [|Hn]; [done|].
    replace (drop _ _) with after
      by (symmetry; change (server ++ c :: after) with (server ++ [c] ++ after);
          rewrite app_assoc; apply drop_app_length'; rewrite length_app; cbn; lia).
    destruct (split_share after) as (share & rest & -> & Hh & Hr & Hl). rewrite <- Hl.
    intros H%Nat.ltb_lt. apply abs_unc; auto; intros ->; cbn in *; lia.
  - destruct rest as [|c rest]; [done|]. intros H. bool_to_prop.
    by rewrite alphabetic_not_sep in Ha.
  - destruct rest as [|c rest]; [done|]. intros H. bool_to_prop. subst. by apply abs_drive.
Qed.

(** A configured path is accepted exactly when it has no control character
    and is unambiguously absolute: a drive letter, a colon and a separator, or
    two separators, a non-empty server, a separator and a non-empty share.
    Drive-relative ([\foo], [C:foo]), relative and truncated UNC paths are
    rejected. *)
Theorem validate_absolute_path_iff (field value : rstr) :
  validate_absolute_path field value = Ok tt <->
  Forall (fun c => is_control c = false) value /\ absolute_windows value.
Proof.
  unfold validate_absolute_path, any.
  assert (existsb is_control value = false <-> Forall (fun c => is_control c = false) value) as Hc.
  { induction value as [|c v IH]; cbn; [split; [constructor|done]|].
    rewrite Forall_cons, orb_false_iff, IH. done. }
  destruct (existsb is_control value).
  - split; [done|]. intros [H _]. by apply Hc in H.
  - destruct (is_unambiguously_absolute_windows value) eqn:E; cbn.
    + split; [|done]. intros _. split; [by apply Hc|by apply absolute_windows_sound].
    + split; [done|]. intros [_ H]. apply absolute_windows_complete in H. congruence.
Qed.

Example absolute_paths :
  map (fun p => is_ok (validate_absolute_path &"p" p))
    [&"C:\foo"; &"C:/foo"; &"\\server\share\file"; &"//server/share"; &"\foo"; &"C:foo";
     &"C:"; &"\\server\"; &"//server"; []]
  = [true; true; true; true; false; false; false; false; false; false].
Proof. vm_compute. reflexivity. Qed.

(** ** The quoting round trip *)

Lemma repeat_snoc {A} (x : A) n : repeat x n ++ [x] = repeat x (S n).
Proof. induction n; cbn in *; [done|]. by f_equal. Qed.

Lemma argv_go_backslashes stay n s q st bs cur :
  argv_go stay (backslashes n ++ s) q st bs cur
  = argv_go stay s q (match n with O => st | S _ => true end) (bs + n) cur.
Proof.
  revert st bs. induction n as [|n IH]; intros st bs; cbn; [by rewrite Nat.add_0_r|].
  rewrite IH, Nat.add_succ_r. by destruct n.
Qed.

Lemma odd_double n : Nat.odd (n * 2) = false.
Proof. rewrite Nat.odd_mul. cbn. by rewrite andb_false_r. Qed.
Lemma odd_double_S n : Nat.odd (n * 2 + 1) = true.
Proof. by rewrite Nat.odd_add, odd_double. Qed.
Lemma div2_double n : Nat.div2 (n * 2) = n.
Proof. rewrite Nat.mul_comm. apply Nat.div2_double. Qed.
Lemma div2_double_S n : Nat.div2 (n * 2 + 1) = n.
Proof. rewrite Nat.add_1_r, Nat.mul_comm. apply Nat.div2_succ_double. Qed.

(** Inside quotes, the written body of an argument and its closing quote read
    back as the argument, and leave the quotes. *)
Lemma argv_go_quoted stay arg n tail cur :
  match tail with [] => True | d :: _ => d <> c_quote end ->
  argv_go stay (quote_body n arg ++ c_quote :: tail) true true 0 cur
  = argv_go stay tail false true 0 (cur ++ backslashes n ++ arg).
Proof.
  intros Htail. revert n cur. induction arg as [|c arg IH]; intros n cur; cbn [quote_body].
  - rewrite argv_go_backslashes. cbn [argv_go Nat.add]. rewrite Z.eqb_refl.
    change (c_quote =? c_backslash) with false. cbn iota.
    rewrite odd_double, div2_double, app_nil_r.
    destruct tail as [|d tail].
    + cbn. rewrite app_nil_r. by destruct n.
    + rewrite (proj2 (Z.eqb_neq d c_quote) Htail). cbn [andb negb]. by destruct n.
  - destruct (Z.eqb_spec c c_backslash) as [->|Hb].
    + rewrite IH. f_equal. change (backslashes (S n)) with (repeat c_backslash (S n)).
      rewrite <- repeat_snoc, <- !app_assoc. done.
    + destruct (Z.eqb_spec c c_quote) as [->|Hq]; rewrite <- app_assoc, argv_go_backslashes;
        cbn [argv_go app Nat.add].
      * change (c_quote =? c_backslash) with false. rewrite Z.eqb_refl. cbn iota.
        rewrite odd_double_S, div2_double_S, IH. f_equal.
        cbn. by rewrite <- !app_assoc.
      * rewrite (proj2 (Z.eqb_neq _ _) Hb), (proj2 (Z.eqb_neq _ _) Hq), andb_false_r, IH.
        f_equal. cbn. by rewrite <- !app_assoc.
Qed.

(** Outside quotes, an argument that needs no quotes is read as it is. *)
Lemma argv_go_plain stay arg tail bs cur :
  Forall (fun c => c <> c_quote /\ c <> 32 /\ c <> 9) arg ->
  (arg <> [] \/ bs <> O \/ cur <> []) ->
  (tail = [] \/ exists t, tail = 32 :: t) ->
  argv_go stay (arg ++ tail) false true bs cur
  = (cur ++ backslashes bs ++ arg) ::
    match tail with [] => [] | _ :: t => argv_go stay t false false 0 [] end.
Proof.
  intros Harg _ Htail. revert bs cur. induction Harg as [|c arg (Hq & Hs & Ht) _ IH];
    intros bs cur; cbn [app].
  - rewrite app_nil_r. destruct Htail as [->|[t ->]]; done.
  - cbn [argv_go]. destruct (Z.eqb_spec c c_backslash) as [->|Hb].
    + rewrite IH. f_equal. change (backslashes (S bs)) with (repeat c_backslash (S bs)).
      rewrite <- repeat_snoc, <- !app_assoc. done.
    + rewrite (proj2 (Z.eqb_neq _ _) Hq). unfold is_arg_separator.
      rewrite (proj2 (Z.eqb_neq _ _) Hs), (proj2 (Z.eqb_neq _ _) Ht). cbn [orb andb].
      rewrite IH. cbn [backslashes repeat app]. by rewrite <- !app_assoc.
Qed.

Lemma needs_quotes_false arg :
  needs_quotes arg = false ->
  arg <> [] /\ Forall (fun c => c <> c_quote /\ c <> 32 /\ c <> 9) arg.
Proof.
  unfold needs_quotes, any. rewrite orb_false_iff, is_empty_false. intros [H1 H2].
  split; [done|]. clear H1. induction arg as [|c arg IH]; [constructor|].
  cbn in H2. apply orb_false_iff in H2 as [H2 H3]. bool_to_prop. constructor; auto.
Qed.

Lemma argv_go_start stay arg tail :
  arg <> [] -> Forall (fun c => c <> c_quote /\ c <> 32 /\ c <> 9) arg ->
  argv_go stay (arg ++ tail) false false 0 [] = argv_go stay (arg ++ tail) false true 0 [].
Proof.
  intros Hn Ha. destruct Ha as [|c arg (Hq & Hs & Ht) _]; [done|]. cbn [app argv_go].
  destruct (c =? c_backslash); [done|]. rewrite (proj2 (Z.eqb_neq _ _) Hq).
  unfold is_arg_separator. by rewrite (proj2 (Z.eqb_neq _ _) Hs), (proj2 (Z.eqb_neq _ _) Ht).
Qed.

Lemma argv_go_open stay s st :
  s <> [] -> argv_go stay (c_quote :: s) false st 0 [] = argv_go stay s true true 0 [].
Proof. by destruct s. Qed.

Lemma split_quoted_one stay arg tail :
  (tail = [] \/ exists t, tail = 32 :: t) ->
  split_command_line stay (quote_windows_arg arg ++ tail)
  = arg :: match tail with [] => [] | _ :: t => split_command_line stay t end.
Proof.
  intros Htail. unfold split_command_line, quote_windows_arg.
  destruct (needs_quotes arg) eqn:E; cbn [negb].
  - cbn [app]. rewrite <- app_assoc. cbn [app].
    rewrite argv_go_open by (intros H%app_nil; by destruct H).
    rewrite argv_go_quoted by (by destruct Htail as [->|[t ->]]).
    destruct Htail as [->|[t ->]]; cbn; by rewrite ?app_nil_r.
  - destruct (needs_quotes_false arg E) as [Hn Ha].
    rewrite argv_go_start by done. rewrite argv_go_plain by auto.
    destruct Htail as [->|[t ->]]; done.
Qed.

Lemma split_quoted_args (stay : bool) (args : list rstr) :
  split_command_line stay (join [32] (map quote_windows_arg args)) = args.
Proof.
  induction args as [|a args IH]; [done|].
  destruct args as [|b args].
  - cbn [map join]. rewrite <- (app_nil_r (quote_windows_arg a)).
    rewrite split_quoted_one by auto. done.
  - change (join [32] (map quote_windows_arg (a :: b :: args))) with
      (quote_windows_arg a ++ 32 :: join [32] (map quote_windows_arg (b :: args))).
    rewrite split_quoted_one by eauto. by rewrite IH.
Qed.

(** Quoting is exact: a command line built by quoting each argument and
    joining with blanks is split by Windows into the original arguments, for
    every list of arguments (empty ones, ones with blanks, quotes and runs of
    backslashes included). *)
Theorem quote_windows_arg_roundtrip (stay : bool) (args : list rstr) :
  split_command_line stay (join [32] (map quote_windows_arg args)) = args.
Proof. apply split_quoted_args. Qed.

Example quoting_samples :
  quote_windows_arg &"plain" = &"plain"
  /\ split_command_line true (quote_windows_arg (&"a b\" ++ [c_quote] ++ &" c\\"))
     = [&"a b\" ++ [c_quote] ++ &" c\\"].
Proof. vm_compute. auto. Qed.
