(* ===== verification/Expansion.v ===== *)
(** * Resolution of REG_EXPAND_SZ strings: core [expansion.rs]

    Single-pass percent expansion, and the effective configuration in which
    only the strings marked as expandable are resolved. The environment lookup
    the caller passes is a parameter ([FnMut] in the source; every caller
    passes a pure closure). *)

From Stdlib Require Import ZArith Lia List.
From S2P Require Import Prelude Text BTree Model.

(** ** Setters used by struct updates of the configuration *)

Definition with_path (p : rstr) (s : IoStream) : IoStream := {|
  path := p; share_mode := share_mode s; creation_disposition := creation_disposition s;
  flags_and_attributes := flags_and_attributes s; copy_and_truncate := copy_and_truncate s |}.

Definition with_streams (i o e : option IoStream) (c : IoRedirectionConfig) : IoRedirectionConfig := {|
  stdin := i; stdout := o; stderr := e; timestamp_log := timestamp_log c |}.

Definition with_command (cmd : rstr) (h : HookConfig) : HookConfig := {|
  event := event h; hook_action := hook_action h; command := cmd |}.

(** ** expand *)

Definition EXPANDED_LIMIT : Z := 32767.

(** [append_expanded]: the output and its length in UTF-16 code units. *)
Definition append_expanded (field : rstr) (acc : rstr * Z) (value : rstr)
    : result Error (rstr * Z) :=
  let '(out, units) := acc in
  if contains_char c_nul value then
    Err (InvalidConfig (field ++ &" expands to a string containing NUL"))
  else
    let units' := sat_add_u64 units (utf16_len value) in
    if EXPANDED_LIMIT <=? units' then
      Err (InvalidConfig (field ++ &" exceeds the Windows expanded-string limit"))
    else Ok (out ++ value, units').

Section Expand.
Variable field : rstr.
Variable lookup : rstr -> option rstr.

(** The [while let] loop. Each round consumes at least two characters of
    [rest], so the length of the text is enough fuel. *)
Fixpoint expand_loop (fuel : nat) (rest : rstr) (acc : rstr * Z)
    : result Error (rstr * Z) :=
  match fuel with
  | O => append_expanded field acc rest
  | S f =>
      match split_once c_percent rest with
      | None => append_expanded field acc rest
      | Some (before, candidate) =>
          let? acc1 := append_expanded field acc before in
          match split_once c_percent candidate with
          | None =>
              let? acc2 := append_expanded field acc1 (c_percent :: candidate) in
              append_expanded field acc2 []
          | Some (name, after) =>
              let? acc2 :=
                match (if is_empty name then None else lookup name) with
                | Some value => append_expanded field acc1 value
                | None => append_expanded field acc1 (c_percent :: name ++ [c_percent])
                end in
              expand_loop f after acc2
          end
      end
  end.

Definition expand (text : rstr) : result Error rstr :=
  let? (out, _) := expand_loop (List.length text) text ([], 0) in Ok out.
End Expand.

(** ** resolve_expandable_strings *)

Definition is_expandable_string (c : ManagedApplicationConfig) (name : rstr) : bool :=
  bs_any (fun marked => eq_ignore_ascii_case marked name) (expandable_strings c).

Definition hook_expansion_key (event action : rstr) : rstr :=
  &"AppEvents\" ++ event ++ [c_backslash] ++ action.

Section Resolve.
Variable cfg : ManagedApplicationConfig.
Variable lookup : rstr -> option rstr.

(** One field of the two loops over optional strings. *)
Definition resolve_text (name : rstr) (value : option rstr) : result Error (option rstr) :=
  if is_expandable_string cfg name then
    match value with
    | Some text => let? t := expand name lookup text in Ok (Some t)
    | None => Ok None
    end
  else Ok value.

Definition resolve_stream (name : rstr) (value : option IoStream)
    : result Error (option IoStream) :=
  if is_expandable_string cfg name then
    match value with
    | Some s => let? p := expand name lookup (path s) in Ok (Some (with_path p s))
    | None => Ok None
    end
  else Ok value.

Definition resolve_hook (h : HookConfig) : result Error HookConfig :=
  let key := hook_expansion_key (event h) (hook_action h) in
  if is_expandable_string cfg key then
    let? c := expand key lookup (command h) in Ok (with_command c h)
  else Ok h.

Fixpoint resolve_hooks (hs : list HookConfig) : result Error (list HookConfig) :=
  match hs with
  | [] => Ok []
  | h :: r => let? h' := resolve_hook h in let? r' := resolve_hooks r in Ok (h' :: r')
  end.

Definition resolve_expandable_strings : result Error ManagedApplicationConfig :=
  let? app := resolve_text &"Application" (application cfg) in
  let? params := resolve_text &"AppParameters" (app_parameters cfg) in
  let? dir := resolve_text &"AppDirectory" (app_directory cfg) in
  let? aff := resolve_text &"AppAffinity" (affinity cfg) in
  let? sin := resolve_stream &"AppStdin" (stdin (io cfg)) in
  let? sout := resolve_stream &"AppStdout" (stdout (io cfg)) in
  let? serr := resolve_stream &"AppStderr" (stderr (io cfg)) in
  let? hks := resolve_hooks (hooks cfg) in
  Ok {| application := app; app_parameters := params; app_directory := dir;
        environment := environment cfg; environment_extra := environment_extra cfg;
        priority := priority cfg; affinity := aff; restart := restart cfg;
        shutdown := shutdown cfg; io := with_streams sin sout serr (io cfg);
        rotation := rotation cfg; exit_actions := exit_actions cfg; hooks := hks;
        expandable_strings := [] |}.
End Resolve.

(** ** The reference: single-pass percent expansion *)

Inductive expansion (lookup : rstr -> option rstr) : rstr -> rstr -> Prop :=
| exp_plain s : ~ In c_percent s -> expansion lookup s s
| exp_unmatched pre post :
    ~ In c_percent pre -> ~ In c_percent post ->
    expansion lookup (pre ++ c_percent :: post) (pre ++ c_percent :: post)
| exp_variable pre name rest value out :
    ~ In c_percent pre -> ~ In c_percent name -> name <> [] ->
    lookup name = Some value -> expansion lookup rest out ->
    expansion lookup (pre ++ c_percent :: name ++ c_percent :: rest) (pre ++ value ++ out)
| exp_unknown pre name rest out :
    ~ In c_percent pre -> ~ In c_percent name ->
    (name = [] \/ lookup name = None) -> expansion lookup rest out ->
    expansion lookup (pre ++ c_percent :: name ++ c_percent :: rest)
      (pre ++ c_percent :: name ++ c_percent :: out).

(** ** Lemmas *)

Definition within_limits (s : rstr) : Prop := ~ In c_nul s /\ utf16_len s < EXPANDED_LIMIT.

Lemma append_expanded_ok field out units value out' units' :
  units = utf16_len out ->
  (append_expanded field (out, units) value = Ok (out', units') <->
   out' = out ++ value /\ units' = utf16_len out'
   /\ ~ In c_nul value /\ utf16_len (out ++ value) < EXPANDED_LIMIT).
Proof.
  intros ->. unfold append_expanded, sat_add_u64, EXPANDED_LIMIT, u64_max.
  rewrite <- contains_char_false. destruct (contains_char c_nul value); [naive_solver|].
  rewrite <- utf16_len_app.
  destruct (Z.leb_spec 32767 (Z.min 18446744073709551615 (utf16_len (out ++ value)))).
  - split; [done|]. intros (_ & _ & _ & H1). lia.
  - split; [intros [= <- <-]; repeat split; lia|]. intros (-> & -> & _ & _).
    repeat f_equal. lia.
Qed.

(** What the loop appends to the output it started from. *)
Definition appends (base : rstr) (text_out : rstr -> Prop) (r : result Error (rstr * Z))
    (out' : rstr) (units' : Z) : Prop :=
  r = Ok (out', units') <->
  exists out, text_out out /\ out' = base ++ out /\ units' = utf16_len out'
    /\ ~ In c_nul out /\ utf16_len out' < EXPANDED_LIMIT.

Lemma expansion_plain_inv lookup s out :
  ~ In c_percent s -> expansion lookup s out -> out = s.
Proof.
  intros Hn H. destruct H; [done| | |]; exfalso; apply Hn, in_elt.
Qed.

Lemma app_percent_inj a b a' b' :
  ~ In c_percent a -> ~ In c_percent a' ->
  a ++ c_percent :: b = a' ++ c_percent :: b' -> a = a' /\ b = b'.
Proof.
  intros Ha Ha' E.
  pose proof (proj2 (split_once_Some c_percent (a ++ c_percent :: b) a b) (conj eq_refl Ha)) as H1.
  rewrite E in H1.
  rewrite (proj2 (split_once_Some c_percent _ a' b') (conj eq_refl Ha')) in H1. naive_solver.
Qed.

Lemma expansion_unmatched_inv lookup pre post out :
  ~ In c_percent pre -> ~ In c_percent post ->
  expansion lookup (pre ++ c_percent :: post) out -> out = pre ++ c_percent :: post.
Proof.
  intros Hpre Hpost H. remember (pre ++ c_percent :: post) as s eqn:Es.
  destruct H as [s0 Hs|p q Hp Hq|p name rest value out' Hp Hn _ _ _|p name rest out' Hp Hn _ _];
    [done|done| |]; apply app_percent_inj in Es as [_ <-]; auto; exfalso; apply Hpost, in_elt.
Qed.

Lemma expansion_named_inv lookup pre name rest out :
  ~ In c_percent pre -> ~ In c_percent name ->
  expansion lookup (pre ++ c_percent :: name ++ c_percent :: rest) out ->
  exists o, expansion lookup rest o
    /\ out = pre ++ match (if is_empty name then None else lookup name) with
                    | Some value => value
                    | None => c_percent :: name ++ [c_percent]
                    end ++ o.
Proof.
  intros Hpre Hname H. remember (pre ++ c_percent :: name ++ c_percent :: rest) as s eqn:Es.
  destruct H as [s0 Hs|p q Hp Hq|p n r value o Hp Hn Hne Hl Ho|p n r o Hp Hn Hl Ho].
  - subst. exfalso. apply Hs, in_elt.
  - apply app_percent_inj in Es as [_ ->]; auto. exfalso. apply Hq, in_elt.
  - apply app_percent_inj in Es as [-> E]; auto. apply app_percent_inj in E as [-> ->]; auto.
    exists o. split; [done|]. rewrite Hl. by destruct name.
  - apply app_percent_inj in Es as [-> E]; auto. apply app_percent_inj in E as [-> ->]; auto.
    exists o. split; [done|]. f_equal.
    destruct (is_empty name) eqn:Ee; [|destruct Hl as [->|Hl]; [done|rewrite Hl]];
      cbn; by rewrite <- app_assoc.
Qed.

Lemma expansion_named lookup pre name rest o :
  ~ In c_percent pre -> ~ In c_percent name -> expansion lookup rest o ->
  expansion lookup (pre ++ c_percent :: name ++ c_percent :: rest)
    (pre ++ match (if is_empty name then None else lookup name) with
            | Some value => value
            | None => c_percent :: name ++ [c_percent]
            end ++ o).
Proof.
  intros Hp Hn Ho. destruct (is_empty name) eqn:Ee.
  - assert (name = []) as -> by (by destruct name). cbn.
    apply (exp_unknown lookup pre [] rest o); auto.
  - destruct (lookup name) as [v|] eqn:El.
    + apply exp_variable; auto. by apply is_empty_false.
    + cbn. rewrite <- app_assoc. apply exp_unknown; auto.
Qed.

Lemma append_expanded_app_ok field base text value out units :
  append_expanded field (base, utf16_len base) (text ++ value) = Ok (out, units) <->
  (let? acc := append_expanded field (base, utf16_len base) text in
   append_expanded field acc value) = Ok (out, units).
Proof.
  rewrite append_expanded_ok, rbind_ok by done. split.
  - intros (-> & -> & Hn & Hl). exists (base ++ text, utf16_len (base ++ text)).
    rewrite in_app_iff in Hn. rewrite app_assoc in Hl |- *.
    pose proof (utf16_len_nonneg value). pose proof (utf16_len_app (base ++ text) value).
    split; [apply append_expanded_ok; [done|]; repeat split; tauto || lia|].
    apply append_expanded_ok; [done|]. repeat split; tauto || lia.
  - intros ([o1 u1] & H1 & H2). apply append_expanded_ok in H1 as (-> & -> & Hn1 & Hl1); [|done].
    apply append_expanded_ok in H2 as (-> & -> & Hn2 & Hl2); [|done].
    rewrite in_app_iff, app_assoc. repeat split; tauto || lia.
Qed.

Lemma append_unmatched_ok field base pre post out units :
  (let? acc1 := append_expanded field (base, utf16_len base) pre in
   let? acc2 := append_expanded field acc1 post in
   append_expanded field acc2 []) = Ok (out, units) <->
  append_expanded field (base, utf16_len base) (pre ++ post) = Ok (out, units).
Proof.
  rewrite append_expanded_app_ok, !rbind_ok.
  split; intros ([o1 u1] & H1 & H2); exists (o1, u1); (split; [done|]);
    apply append_expanded_ok in H1 as (-> & -> & _); try done.
  - apply append_expanded_app_ok in H2. by rewrite app_nil_r in H2.
  - apply append_expanded_app_ok. by rewrite app_nil_r.
Qed.

(** What one round appends for a pair of percent signs. *)
Definition substitution (lookup : rstr -> option rstr) (name : rstr) : rstr :=
  match (if is_empty name then None else lookup name) with
  | Some value => value
  | None => c_percent :: name ++ [c_percent]
  end.

Lemma append_round field lookup name acc :
  match (if is_empty name then None else lookup name) with
  | Some value => append_expanded field acc value
  | None => append_expanded field acc (c_percent :: name ++ [c_percent])
  end = append_expanded field acc (substitution lookup name).
Proof. unfold substitution. by destruct (if is_empty name then None else lookup name). Qed.

Lemma appends_round field lookup fuel base pre name after out' units' :
  (forall base, appends base (expansion lookup after)
     (expand_loop field lookup fuel after (base, utf16_len base)) out' units') ->
  ~ In c_percent pre -> ~ In c_percent name ->
  appends base (expansion lookup (pre ++ c_percent :: name ++ c_percent :: after))
    (let? acc1 := append_expanded field (base, utf16_len base) pre in
     let? acc2 :=
       match (if is_empty name then None else lookup name) with
       | Some value => append_expanded field acc1 value
       | None => append_expanded field acc1 (c_percent :: name ++ [c_percent])
       end in
     expand_loop field lookup fuel after acc2) out' units'.
Proof.
  intros IH Hpre Hname. unfold appends. rewrite rbind_ok. split.
  - intros (acc1 & H1 & H2). rewrite append_round in H2.
    apply rbind_ok in H2 as ([o2 u2] & H2 & H3).
    assert (append_expanded field (base, utf16_len base) (pre ++ substitution lookup name)
            = Ok (o2, u2)) as H12 by (apply append_expanded_app_ok, rbind_ok; eauto).
    apply append_expanded_ok in H12 as (-> & -> & Hn & Hl); [|done].
    apply IH in H3 as (o & Ho & -> & -> & Hn' & Hl').
    exists (pre ++ substitution lookup name ++ o). rewrite <- !app_assoc in *.
    rewrite !in_app_iff in *. repeat split; auto; [by apply expansion_named|tauto].
  - intros (o & Ho & -> & -> & Hn & Hl).
    apply expansion_named_inv in Ho as (o' & Ho' & ->); auto.
    fold (substitution lookup name) in *.
    assert (Hsub : append_expanded field (base, utf16_len base) (pre ++ substitution lookup name)
      = Ok (base ++ (pre ++ substitution lookup name),
            utf16_len (base ++ (pre ++ substitution lookup name)))).
    { apply append_expanded_ok; [done|]. rewrite !in_app_iff in *.
      rewrite !utf16_len_app in *. pose proof (utf16_len_nonneg o').
      repeat split; tauto || lia. }
    apply append_expanded_app_ok, rbind_ok in Hsub as (acc1 & H1 & H2).
    exists acc1. split; [done|]. rewrite append_round, H2. cbn [rbind]. apply IH.
    exists o'. rewrite <- !app_assoc in *. rewrite !in_app_iff in *. repeat split; auto; tauto.
Qed.

Lemma expand_loop_spec field lookup fuel rest base out' units' :
  (List.length rest <= fuel)%nat ->
  appends base (expansion lookup rest) (expand_loop field lookup fuel rest (base, utf16_len base))
    out' units'.
Proof.
  revert rest base. induction fuel as [|f IH]; intros rest base Hf;
    cbn [expand_loop]; [|destruct (split_once c_percent rest) as [[pre cand]|] eqn:E1].
  2: apply split_once_Some in E1 as [-> Hpre];
     destruct (split_once c_percent cand) as [[name after]|] eqn:E2.
  - destruct rest; cbn [List.length] in Hf; [|lia]. unfold appends.
    rewrite append_expanded_ok by done. split.
    + intros (-> & -> & ? & ?). exists []. repeat split; auto. by apply exp_plain.
    + intros (o & Ho & -> & -> & ? & ?). apply expansion_plain_inv in Ho as ->; auto.
  - apply split_once_Some in E2 as [-> Hname].
    rewrite !length_app in Hf. cbn in Hf. rewrite length_app in Hf. cbn in Hf.
    apply appends_round; auto. intros b. apply IH. lia.
  - apply split_once_None in E2. unfold appends.
    rewrite append_unmatched_ok, append_expanded_ok by done. split.
    + intros (-> & -> & ? & ?). exists (pre ++ c_percent :: cand).
      repeat split; auto. by apply exp_unmatched.
    + intros (o & Ho & -> & -> & ? & ?). apply expansion_unmatched_inv in Ho as ->; auto.
  - apply split_once_None in E1. unfold appends. rewrite append_expanded_ok by done. split.
    + intros (-> & -> & ? & ?). exists rest. repeat split; auto. by apply exp_plain.
    + intros (o & Ho & -> & -> & ? & ?). apply expansion_plain_inv in Ho as ->; auto.
Qed.

Lemma expand_spec (field : rstr) (lookup : rstr -> option rstr) (text out : rstr) :
  expand field lookup text = Ok out <->
  expansion lookup text out /\ ~ In c_nul out /\ utf16_len out < EXPANDED_LIMIT.
Proof.
  unfold expand. rewrite rbind_ok. split.
  - intros ([o u] & H & [= ->]).
    apply (expand_loop_spec field lookup (List.length text) text [] out u) in H
      as (o & Ho & -> & _ & Hn & Hl); [auto|lia].
  - intros (He & Hn & Hl). exists (out, utf16_len out). split; [|done].
    apply (expand_loop_spec field lookup (List.length text) text [] out); [lia|].
    exists out. auto.
Qed.

(** Expansion is exactly the single-pass percent rule: it succeeds with
    [out] if and only if [out] is the text with each named variable replaced
    once by its value (values are not expanded again; unknown names, doubled
    and unmatched percent signs stay literal) and [out] contains no NUL and
    fewer than 32767 UTF-16 code units. The loop always finishes. *)
Theorem expand_iff (field : rstr) (lookup : rstr -> option rstr) (text out : rstr) :
  expand field lookup text = Ok out <->
  expansion lookup text out /\ ~ In c_nul out /\ utf16_len out < EXPANDED_LIMIT.
Proof. apply expand_spec. Qed.

Example expand_sample :
  expand &"x" (fun n => if str_eqb n &"A" then Some &"%B%" else None) &"%A%:%MISSING%:%%:%tail"
  = Ok &"%B%:%MISSING%:%%:%tail".
Proof. vm_compute. reflexivity. Qed.

(** ** The effective configuration *)

(** What resolution does to one string. *)
Definition resolved (cfg : ManagedApplicationConfig) (lookup : rstr -> option rstr)
    (key before after : rstr) : Prop :=
  if is_expandable_string cfg key then expansion lookup before after /\ within_limits after
  else after = before.

Lemma resolve_text_ok cfg lookup key v v' :
  resolve_text cfg lookup key v = Ok v' ->
  match v, v' with
  | Some t, Some t' => resolved cfg lookup key t t'
  | None, None => True
  | _, _ => False
  end.
Proof.
  unfold resolve_text, resolved. destruct (is_expandable_string cfg key); [|intros [= ->]; by destruct v'].
  destruct v as [t|]; [|by intros [= <-]]. intros H. apply rbind_ok in H as (o & H & [= <-]).
  by apply expand_spec in H.
Qed.

Lemma resolve_stream_ok cfg lookup key v v' :
  resolve_stream cfg lookup key v = Ok v' ->
  match v, v' with
  | Some s, Some s' => resolved cfg lookup key (path s) (path s') /\ s' = with_path (path s') s
  | None, None => True
  | _, _ => False
  end.
Proof.
  unfold resolve_stream, resolved. destruct (is_expandable_string cfg key).
  - destruct v as [t|]; [|by intros [= <-]]. intros H. apply rbind_ok in H as (o & H & [= <-]).
    cbn. split; [by apply expand_spec in H|done].
  - intros [= ->]. destruct v' as [[]|]; done.
Qed.

Lemma resolve_hooks_ok cfg lookup hs hs' :
  resolve_hooks cfg lookup hs = Ok hs' ->
  Forall2 (fun h h' =>
    resolved cfg lookup (hook_expansion_key (event h) (hook_action h)) (command h) (command h')
    /\ h' = with_command (command h') h) hs hs'.
Proof.
  revert hs'. induction hs as [|h hs IH]; cbn; intros hs' H; [injection H as <-; constructor|].
  apply rbind_ok in H as (h' & Hh & H). apply rbind_ok in H as (r & Hr & [= <-]).
  constructor; [|by apply IH]. unfold resolve_hook, resolved in *.
  destruct (is_expandable_string _ _); [|injection Hh as <-; by destruct h].
  apply rbind_ok in Hh as (c & Hc & [= <-]). cbn. split; [by apply expand_spec in Hc|done].
Qed.

(** The effective configuration differs from the raw one in the marked
    strings only: each string marked REG_EXPAND_SZ (names compared without
    case) is its percent expansion, every other string and every other setting
    is unchanged, and the markers are cleared so it is not resolved twice. *)
Theorem resolve_expandable_strings_ok (cfg eff : ManagedApplicationConfig)
    (lookup : rstr -> option rstr) :
  resolve_expandable_strings cfg lookup = Ok eff ->
  (forall key f, In (key, f) [(&"Application", application); (&"AppParameters", app_parameters);
                              (&"AppDirectory", app_directory); (&"AppAffinity", affinity)] ->
     match f cfg, f eff with
     | Some t, Some t' => resolved cfg lookup key t t'
     | None, None => True
     | _, _ => False
     end)
  /\ (forall key f, In (key, f) [(&"AppStdin", stdin); (&"AppStdout", stdout);
                                 (&"AppStderr", stderr)] ->
     match f (io cfg), f (io eff) with
     | Some s, Some s' => resolved cfg lookup key (path s) (path s') /\ s' = with_path (path s') s
     | None, None => True
     | _, _ => False
     end)
  /\ Forall2 (fun h h' =>
       resolved cfg lookup (hook_expansion_key (event h) (hook_action h)) (command h) (command h')
       /\ h' = with_command (command h') h) (hooks cfg) (hooks eff)
  /\ (environment eff, environment_extra eff, priority eff, restart eff, shutdown eff, rotation eff,
      exit_actions eff, timestamp_log (io eff))
     = (environment cfg, environment_extra cfg, priority cfg, restart cfg, shutdown cfg,
        rotation cfg, exit_actions cfg, timestamp_log (io cfg))
  /\ expandable_strings eff = [].
Proof.
  unfold resolve_expandable_strings. intros H.
  repeat (apply rbind_ok in H as (? & ? & H)). injection H as <-. cbn.
  repeat split; try done.
  - intros key f Hin. repeat destruct Hin as [[= <- <-]|Hin]; try done;
      eapply resolve_text_ok; eauto.
  - intros key f Hin. repeat destruct Hin as [[= <- <-]|Hin]; try done;
      eapply resolve_stream_ok; eauto.
  - by apply resolve_hooks_ok.
Qed.

Definition sample_expandable : ManagedApplicationConfig := {|
  application := Some &"%ROOT%\app.exe"; app_parameters := Some &"%ROOT%";
  app_directory := None; environment := []; environment_extra := []; priority := None;
  affinity := Some &"%CPU%"; restart := RestartPolicy_default; shutdown := ShutdownPolicy_default;
  io := IoRedirectionConfig_default; rotation := LogRotationConfig_default; exit_actions := [];
  hooks := [{| event := &"Start"; hook_action := &"Pre"; command := &"%ROOT%\hook.exe" |}];
  expandable_strings := bs_insert &"application" (bs_insert &"AppEvents\Start\Pre" []) |}.

Definition sample_lookup (n : rstr) : option rstr :=
  if str_eqb n &"ROOT" then Some &"C:\svc" else None.

Lemma resolve_expandable_strings_ok_witness :
  exists eff, resolve_expandable_strings sample_expandable sample_lookup = Ok eff
    /\ application eff = Some &"C:\svc\app.exe" /\ app_parameters eff = Some &"%ROOT%"
    /\ expandable_strings eff = [].
Proof.
  destruct (resolve_expandable_strings sample_expandable sample_lookup) as [eff|e] eqn:E;
    [|vm_compute in E; discriminate E].
  exists eff. split; [done|]. split; [vm_compute in E; injection E as <-; reflexivity|].
  split; [vm_compute in E; injection E as <-; reflexivity|].
  exact (proj2 (proj2 (proj2 (proj2 (resolve_expandable_strings_ok _ _ _ E))))).
Defined.
