(* ===== verification/Transition.v ===== *)
(** * Cancelable control requests: supervisor [transition.rs]

    A request moves from queued through executing to a definitive outcome; the
    canceller, the executor and the waiter share its mutex and its [cancelled]
    flag. Each critical section is one function on the shared state; [step]
    interleaves them between any number of threads. *)

From Stdlib Require Import ZArith Lia List Relations.
From S2P Require Import Prelude Text.

Inductive TransitionOutcome :=
| Applied
| Cancelled
| Rejected (message : rstr)
| Degraded (message : rstr).
#[export] Instance TransitionOutcome_eq_dec : EqDecision TransitionOutcome.
Proof. solve_decision. Defined.

Inductive Phase := Queued | Executing | Finished (outcome : TransitionOutcome).
#[export] Instance Phase_eq_dec : EqDecision Phase.
Proof. solve_decision. Defined.

(** [struct State]: the phase under its mutex and the cancellation flag. *)
Record TState := mk_state { phase : Phase; cancelled : bool }.

Definition new : TState := mk_state Queued false.

Definition outcome (s : TState) : option TransitionOutcome :=
  match phase s with Finished o => Some o | _ => None end.

Definition cancel (s : TState) : option TransitionOutcome * TState :=
  let p := match phase s with Queued => Finished Cancelled | p => p end in
  (match p with Finished o => Some o | _ => None end, mk_state p true).

(** ** execute *)

(** The first critical section: claim a queued request ([None]: go on and run
    the operation) or return at once. *)
Definition begin_execute (s : TState) : option TransitionOutcome * TState :=
  match phase s with
  | Queued => (None, mk_state Executing (cancelled s))
  | Finished o => (Some o, s)
  | Executing => (Some (Degraded &"control executed twice"), s)
  end.

(** The second one: publish the outcome of the operation. *)
Definition finish_execute (o : TransitionOutcome) (s : TState) : TState :=
  mk_state (Finished o) (cancelled s).

(** [Drop] of the completion guard: reached without a published outcome only
    when the operation unwinds. *)
Definition drop_completion (s : TState) : TState :=
  match phase s with
  | Executing =>
      mk_state (Finished (Degraded &"supervisor abandoned an executing control")) (cancelled s)
  | _ => s
  end.

(** One call from start to end in one thread, with the operation applied to
    the flag it may read ([op] sees the state it starts in). *)
Definition execute (op : TState -> TransitionOutcome * TState) (s : TState)
    : TransitionOutcome * TState :=
  match begin_execute s with
  | (Some o, s1) => (o, s1)
  | (None, s1) =>
      let '(o, s2) := op s1 in
      (o, drop_completion (finish_execute o s2))
  end.

Definition reject (message : rstr) (s : TState) : TState :=
  (execute (fun s1 => (Rejected message, s1)) s).2.

(** ** wait *)

(** What one round of the polling loop sees: the shared state as other threads
    left it, and the two clock readings (milliseconds). *)
Record poll := { seen : TState; now1 : Z; now2 : Z }.

Definition wait_result (o : TransitionOutcome) : result rstr unit :=
  match o with
  | Applied => Ok tt
  | Cancelled => Err &"control cancelled before commit"
  | Rejected message | Degraded message => Err message
  end.

Definition HARD_DEADLINE_MS : Z := 5000.
Definition wait_timed_out : rstr :=
  &"control cancellation remains pending; no stable state was confirmed".

(** [Some r]: the call returns [r]; [None]: it polls again. The second
    component is the shared state after the round. *)
Definition wait_round (deadline : Z) (p : poll) : option (result rstr unit) * TState :=
  match outcome (seen p) with
  | Some o => (Some (wait_result o), seen p)
  | None =>
      let s := if deadline <=? now1 p then (cancel (seen p)).2 else seen p in
      if deadline + HARD_DEADLINE_MS <=? now2 p then (Some (Err wait_timed_out), s)
      else (None, s)
  end.

Fixpoint wait_loop (deadline : Z) (polls : list poll) : option (result rstr unit) :=
  match polls with
  | [] => None
  | p :: r => match fst (wait_round deadline p) with
              | Some res => Some res
              | None => wait_loop deadline r
              end
  end.

Definition wait (start timeout : Z) (polls : list poll) : option (result rstr unit) :=
  wait_loop (start + timeout) polls.

(** ** Interleaving

    [running] counts the threads between the two critical sections of
    [execute]; [ran] counts the operations started. *)

Record system := mk_system { shared : TState; running : nat; ran : nat }.
Definition initial : system := mk_system new 0 0.

Inductive label :=
| LCancel (r : option TransitionOutcome)
| LBegin (r : option TransitionOutcome)
| LFinish (o : TransitionOutcome)
| LUnwind.

Inductive step : system -> label -> system -> Prop :=
| step_cancel s n k :
    step (mk_system s n k) (LCancel (cancel s).1) (mk_system (cancel s).2 n k)
| step_begin s n k :
    let r := begin_execute s in
    step (mk_system s n k) (LBegin r.1)
      (match r.1 with
       | None => mk_system r.2 (S n) (S k)
       | Some _ => mk_system r.2 n k
       end)
| step_finish s n k o :
    step (mk_system s (S n) k) (LFinish o) (mk_system (drop_completion (finish_execute o s)) n k)
| step_unwind s n k :
    step (mk_system s (S n) k) LUnwind (mk_system (drop_completion s) n k).

Inductive steps : system -> list label -> system -> Prop :=
| steps_nil s : steps s [] s
| steps_cons s l s1 ls s2 : step s l s1 -> steps s1 ls s2 -> steps s (l :: ls) s2.

(** ** Invariant *)

Definition inv (y : system) : Prop :=
  match phase (shared y) with
  | Queued => running y = O /\ ran y = O /\ cancelled (shared y) = false
  | Executing => running y = 1%nat /\ ran y = 1%nat
  | Finished _ => running y = O /\ (ran y <= 1)%nat
  end.

Lemma inv_initial : inv initial.
Proof. cbn. auto. Qed.

Lemma inv_step y l y' : inv y -> step y l y' -> inv y'.
Proof.
  intros Hi Hs. destruct Hs as [[[| |o] c] n k|[[| |o] c] n k|[[| |o0] c] n k o|[[| |o] c] n k];
    cbn in *; intuition lia.
Qed.

Lemma inv_steps y ls y' : inv y -> steps y ls y' -> inv y'.
Proof. intros Hi H. induction H; eauto using inv_step. Qed.

#[export] Hint Resolve inv_initial inv_step inv_steps : ngsm.

(** A published outcome is never replaced. *)
Lemma finished_stable_step y l y' o :
  inv y -> step y l y' -> phase (shared y) = Finished o ->
  phase (shared y') = Finished o /\ ran y' = ran y.
Proof.
  intros Hi Hs. destruct Hs as [[[| |?] c] n k|[[| |?] c] n k|[[| |?] c] n k ?|[[| |?] c] n k];
    cbn in *; intros E; try discriminate E; injection E as ->; auto; lia.
Qed.

Lemma finished_stable y ls y' o :
  inv y -> steps y ls y' -> phase (shared y) = Finished o ->
  phase (shared y') = Finished o /\ ran y' = ran y.
Proof.
  intros Hi H. induction H as [|y l y1 ls y2 Hs _ IH]; [auto|]. intros E.
  destruct (finished_stable_step _ _ _ _ Hi Hs E) as [E1 R1].
  destruct (IH (inv_step _ _ _ Hi Hs) E1) as [E2 R2]. split; [done|congruence].
Qed.

Lemma steps_app y l1 l2 y' :
  steps y (l1 ++ l2) y' -> exists y1, steps y l1 y1 /\ steps y1 l2 y'.
Proof.
  revert y. induction l1 as [|l l1 IH]; cbn; intros y H; [eexists; split; [constructor|done]|].
  inversion H as [|? ? y1 ? ? Hs Hr]; subst. apply IH in Hr as (y2 & H1 & H2).
  exists y2. split; [|done]. econstructor; eauto.
Qed.

Lemma step_cancel_inv y r y' :
  step y (LCancel r) y' ->
  r = (cancel (shared y)).1 /\ y' = mk_system (cancel (shared y)).2 (running y) (ran y).
Proof. intros H. by inversion H; subst. Qed.

(** C14. Cancellation and execution are decided once, in every interleaving of
    any number of cancelling, executing and unwinding threads: the operation is
    started at most once; a published outcome never changes; a cancellation
    that reports [Cancelled] for a request that never ran prevents it from ever
    running; and a cancellation that reports no outcome means that exactly one
    thread is executing it. *)
Theorem cancel_is_definitive (before after : list label) (y : system)
    (r : option TransitionOutcome) :
  steps initial (before ++ LCancel r :: after) y ->
  (ran y <= 1)%nat /\
  exists y0 y1, steps initial before y0 /\ step y0 (LCancel r) y1 /\ steps y1 after y /\
    match r with
    | Some o => phase (shared y) = Finished o /\ ran y = ran y0
    | None => running y0 = 1%nat /\ cancelled (shared y1) = true
    end.
Proof.
  intros H. apply steps_app in H as (y0 & H0 & H). inversion H as [|? ? y1 ? ? Hc Ha]; subst.
  pose proof (inv_steps _ _ _ inv_initial H0) as I0.
  pose proof (inv_step _ _ _ I0 Hc) as I1. pose proof (inv_steps _ _ _ I1 Ha) as I2.
  split.
  { unfold inv in I2. destruct (phase (shared y)); lia. }
  exists y0, y1. split; [done|]. split; [done|]. split; [done|].
  apply step_cancel_inv in Hc as [-> ->].
  destruct (cancel (shared y0)).1 as [o|] eqn:Er.
  - apply (finished_stable _ _ _ o I1 Ha). clear -Er. unfold cancel in *. cbn in *.
    destruct (phase (shared y0)); naive_solver.
  - clear -Er I0. unfold cancel, inv in *. cbn in *.
    destruct (phase (shared y0)); naive_solver.
Qed.

Lemma cancel_is_definitive_witness :
  let y := mk_system (mk_state (Finished Cancelled) true) 0 0 in
  steps initial ([] ++ [LCancel (Some Cancelled); LBegin (Some Cancelled)]) y
  /\ (ran y <= 1)%nat.
Proof.
  cbn zeta.
  assert (H : steps initial ([] ++ LCancel (Some Cancelled) :: [LBegin (Some Cancelled)])
                (mk_system (mk_state (Finished Cancelled) true) 0 0)).
  { cbn. econstructor; [apply (step_cancel new)|]. cbn.
    econstructor; [apply (step_begin (mk_state (Finished Cancelled) true))|]. cbn. constructor. }
  split; [exact H|]. exact (proj1 (cancel_is_definitive [] [LBegin (Some Cancelled)] _ _ H)).
Defined.

(** ** The waiter *)

Lemma wait_round_result deadline p res :
  fst (wait_round deadline p) = Some res ->
  (exists o, outcome (seen p) = Some o /\ res = wait_result o)
  \/ (res = Err wait_timed_out /\ outcome (seen p) = None
      /\ deadline + HARD_DEADLINE_MS <= now2 p).
Proof.
  unfold wait_round. destruct (outcome (seen p)) as [o|] eqn:E; cbn.
  - intros [= <-]. left. eauto.
  - destruct (Z.leb_spec (deadline + HARD_DEADLINE_MS) (now2 p)); [|done].
    cbn. intros [= <-]. right. auto.
Qed.


(** Rejecting and executing in one thread. *)
Lemma reject_after_cancel m : outcome (reject m (cancel new).2) = Some Cancelled.
Proof. reflexivity. Qed.
