(* ===== verification/PauseControl.v ===== *)
(** * Pausing and resuming a process tree: supervisor [process_control.rs]

    [PauseState] remembers which processes NGSM itself suspended. The operating
    system (clock, job membership, suspension of a pinned process) and the
    cancellation closure are the interface [ProcWorld]; its laws are what the
    win32 layer documents of them. *)

From Stdlib Require Import ZArith Lia List.
From S2P Require Import Prelude Text Transition.

(** ** The world the operations act on *)

Class ProcWorld (W : Type) := {
  w_now : W -> Z * W;
  w_cancelled : W -> bool * W;
  w_members : W -> result rstr (list Z) * W;
  w_running : Z -> W -> result rstr bool * W;
  w_suspend : Z -> W -> result rstr bool * W;
  w_resume : Z -> W -> result rstr bool * W }.

(** [depth w id] is the suspend count of a process, [exited w id] that it has
    terminated (its count means nothing any more). Suspending and resuming
    report whether the process still existed and change its count by one. *)
Class ProcLaws (W : Type) {PW : ProcWorld W} := {
  depth : W -> Z -> Z;
  exited : W -> Z -> Prop;
  now_frame : forall w, depth (w_now w).2 = depth w /\ exited (w_now w).2 = exited w;
  cancelled_frame : forall w,
    depth (w_cancelled w).2 = depth w /\ exited (w_cancelled w).2 = exited w;
  members_frame : forall w, depth (w_members w).2 = depth w
    /\ forall i, exited w i -> exited (w_members w).2 i;
  running_frame : forall id w, depth (w_running id w).2 = depth w
    /\ (forall i, exited w i -> exited (w_running id w).2 i)
    /\ ((w_running id w).1 = Ok false -> exited (w_running id w).2 id);
  suspend_law : forall id w,
    (forall i, exited w i -> exited (w_suspend id w).2 i)
    /\ (forall i, depth (w_suspend id w).2 i
        = depth w i + (if bool_decide (i = id /\ (w_suspend id w).1 = Ok true) then 1 else 0))
    /\ ((w_suspend id w).1 = Ok false -> exited (w_suspend id w).2 id);
  resume_law : forall id w,
    (forall i, exited w i -> exited (w_resume id w).2 i)
    /\ (forall i, depth (w_resume id w).2 i
        = depth w i - (if bool_decide (i = id /\ (w_resume id w).1 = Ok true) then 1 else 0))
    /\ ((w_resume id w).1 = Ok false -> exited (w_resume id w).2 id) }.

Definition TRANSITION_BUDGET : Z := 3000.
Definition MAX_MEMBER_PASSES : nat := 16.

(** [Vec<Arc<dyn Member>>]: members are known by their process id. *)
Record PauseState := { paused : bool; owned : list Z }.
Definition PauseState_default : PauseState := Build_PauseState false [].

Definition clear_generation (ps : PauseState) : PauseState := Build_PauseState (paused ps) [].

Section Operations.
Context {W : Type} `{PW : ProcWorld W}.

(** The bodies thread the vector they push to and the world. *)
Abbreviation Op := (M (list Z * W) rstr) (only parsing).

Definition now : Op Z := fun '(v, w) => let '(t, w') := w_now w in (Ok t, (v, w')).
Definition is_cancelled : Op bool :=
  fun '(v, w) => let '(c, w') := w_cancelled w in (Ok c, (v, w')).
Definition members : Op (list Z) := fun '(v, w) => let '(r, w') := w_members w in (r, (v, w')).
Definition suspend (id : Z) : Op bool :=
  fun '(v, w) => let '(r, w') := w_suspend id w in (r, (v, w')).
Definition resume (id : Z) : Op bool :=
  fun '(v, w) => let '(r, w') := w_resume id w in (r, (v, w')).
Definition get_vec : Op (list Z) := fun '(v, w) => (Ok v, (v, w)).
Definition push (id : Z) : Op unit := fun '(v, w) => (Ok tt, (v ++ [id], w)).
Definition has_id (id : Z) (v : list Z) : bool := existsb (Z.eqb id) v.
#[global] Arguments has_id : simpl never.

Definition check_cancelled : Op unit :=
  let! c := is_cancelled in if c then mfail &"control cancelled" else mret tt.
Definition check_deadline (deadline : Z) (message : rstr) : Op unit :=
  let! t := now in if deadline <=? t then mfail message else mret tt.

(** ** change(pause = true) *)

Fixpoint suspend_snapshot (deadline : Z) (snapshot : list Z) (added : bool) : Op bool :=
  match snapshot with
  | [] => mret added
  | p :: r =>
      check_cancelled ;!
      check_deadline deadline &"process membership exceeded the transition deadline" ;!
      let! changed := get_vec in
      if has_id p changed then suspend_snapshot deadline r added
      else
        let! ok := suspend p in
        if ok then push p ;! suspend_snapshot deadline r true
        else suspend_snapshot deadline r added
  end.

Fixpoint pause_passes (passes : nat) (deadline : Z) : Op bool :=
  match passes with
  | O => mret false
  | S n =>
      check_cancelled ;!
      check_deadline deadline &"process membership did not stabilize before the deadline" ;!
      let! snapshot := members in
      check_deadline deadline &"process membership exceeded the transition deadline" ;!
      let! added := suspend_snapshot deadline snapshot false in
      if negb added then mret true else pause_passes n deadline
  end.

Definition pause_attempt (deadline : Z) : Op unit :=
  let! stable := pause_passes MAX_MEMBER_PASSES deadline in
  if negb stable
  then mfail &"process membership exceeded the bounded stable-member passes"
  else check_cancelled.

(** ** Rollback *)

Fixpoint rollback_loop (suspending : bool) (deadline : Z) (processes : list Z)
    (errors : list rstr) (w : W) : list rstr * W :=
  match processes with
  | [] => (errors, w)
  | p :: r =>
      let '(t, w) := w_now w in
      if deadline <=? t then (errors ++ [&"suspension rollback exceeded its deadline"], w)
      else
        let '(run, w) := w_running p w in
        match run with
        | Ok false => rollback_loop suspending deadline r errors w
        | _ =>
            let '(res, w) := if suspending then w_suspend p w else w_resume p w in
            let errors := match res with Err e => errors ++ [e] | Ok _ => errors end in
            rollback_loop suspending deadline r errors w
        end
  end.

Definition rollback_until (processes : list Z) (suspending : bool) (deadline : Z) (w : W)
    : result rstr unit * W :=
  let '(errors, w) := rollback_loop suspending deadline (rev processes) [] w in
  (if is_empty errors then Ok tt else Err (join &"; " errors), w).

Definition rollback (processes : list Z) (suspending : bool) (w : W) : result rstr unit * W :=
  let '(t, w) := w_now w in rollback_until processes suspending (t + TRANSITION_BUDGET) w.

Definition failure (error : rstr) (rolled : result rstr unit) (was_cancelled : bool)
    : TransitionOutcome :=
  match rolled with
  | Err r => Degraded (error ++ &"; rollback failed: " ++ r)
  | Ok _ => if was_cancelled then Cancelled else Rejected error
  end.

(** ** resume_owned *)

Fixpoint resume_loop (deadline : Z) (processes : list Z) : Op unit :=
  match processes with
  | [] => mret tt
  | p :: r =>
      check_cancelled ;!
      check_deadline deadline &"resume exceeded the transition deadline" ;!
      let! ok := resume p in
      if ok then push p ;! resume_loop deadline r else resume_loop deadline r
  end.

Definition resume_attempt (own : list Z) (deadline : Z) : Op unit :=
  resume_loop deadline (rev own) ;!
  check_cancelled ;!
  check_deadline deadline &"resume exceeded the transition deadline".

(** The vector is [self.owned]. *)
Fixpoint restore_snapshot (deadline : Z) (snapshot : list Z) (added : bool) : Op bool :=
  match snapshot with
  | [] => mret added
  | p :: r =>
      check_deadline deadline &"paused membership recovery exceeded its deadline" ;!
      let! own := get_vec in
      if has_id p own then restore_snapshot deadline r added
      else
        let! ok := suspend p in
        if ok then push p ;! restore_snapshot deadline r true
        else restore_snapshot deadline r added
  end.

Fixpoint restore_passes (passes : nat) (deadline : Z) (stable_passes : nat) : Op unit :=
  match passes with
  | O => mfail &"paused membership did not stabilize within the bounded recovery passes"
  | S n =>
      check_deadline deadline &"paused membership recovery exceeded its deadline" ;!
      let! snapshot := members in
      check_deadline deadline &"paused membership recovery exceeded its deadline" ;!
      let! added := restore_snapshot deadline snapshot false in
      let stable := if added : bool then O else S stable_passes in
      if (stable =? 2)%nat then mret tt else restore_passes n deadline stable
  end.

Definition restore_paused_members (own : list Z) (deadline : Z) (w : W)
    : result rstr unit * (list Z * W) :=
  restore_passes MAX_MEMBER_PASSES deadline O (own, w).

Definition resume_owned (ps : PauseState) (w : W) : TransitionOutcome * PauseState * W :=
  let '(t, w) := w_now w in
  let '(attempt, (resumed, w)) := resume_attempt (owned ps) (t + TRANSITION_BUDGET) ([], w) in
  match attempt with
  | Err error =>
      let '(t, w) := w_now w in
      let recovery_deadline := t + TRANSITION_BUDGET in
      let '(rolled, w) := rollback_until resumed true recovery_deadline w in
      let '(restored, (own, w)) :=
        match rolled with
        | Ok _ => restore_paused_members (owned ps) recovery_deadline w
        | Err e => (Err e, (owned ps, w))
        end in
      let '(c, w) := w_cancelled w in
      (failure error restored c, Build_PauseState (paused ps) own, w)
  | Ok _ => (Applied, Build_PauseState false [], w)
  end.

(** [PauseState::change] *)
Definition change (ps : PauseState) (pause : bool) (w : W) : TransitionOutcome * PauseState * W :=
  let '(c, w) := w_cancelled w in
  if c then (Cancelled, ps, w)
  else if Bool.eqb (paused ps) pause then (Applied, ps, w)
  else if negb pause then resume_owned ps w
  else
    let '(t, w) := w_now w in
    let '(attempt, (changed, w)) := pause_attempt (t + TRANSITION_BUDGET) ([], w) in
    match attempt with
    | Err error =>
        let '(rolled, w) := rollback changed false w in
        let '(c, w) := w_cancelled w in
        (failure error rolled c, ps, w)
    | Ok _ => (Applied, Build_PauseState true changed, w)
    end.
End Operations.

(** ** Accounting of suspend counts *)

Section Accounting.
Context {W : Type} `{PL : ProcLaws W}.

Definition ind (b : bool) : Z := if b then 1 else 0.

(** Every process that still runs is suspended by NGSM exactly [by_us] times
    more than the count [base] others gave it. *)
Definition accounts (base by_us : Z -> Z) (w : W) : Prop :=
  forall i, ~ exited w i -> depth w i = base i + by_us i.

(** The invariant of [PauseState]: one increment for each owned process, and
    none is owned unless the tree is paused. *)
Definition balanced (base : Z -> Z) (ps : PauseState) (w : W) : Prop :=
  NoDup (owned ps)
  /\ (paused ps = false -> owned ps = [])
  /\ accounts base (fun i => ind (has_id i (owned ps))) w.

Lemma has_id_In i v : has_id i v = true <-> In i v.
Proof.
  unfold has_id. rewrite existsb_exists. split.
  - intros (x & Hx & E). apply Z.eqb_eq in E. by subst.
  - intros H. exists i. split; [done|]. apply Z.eqb_refl.
Qed.

Lemma has_id_false i v : has_id i v = false <-> ~ In i v.
Proof. rewrite <- has_id_In. destruct (has_id i v); naive_solver. Qed.

Lemma has_id_app i v1 v2 : has_id i (v1 ++ v2) = has_id i v1 || has_id i v2.
Proof. apply existsb_app. Qed.

Lemma has_id_one i p : has_id i [p] = bool_decide (i = p).
Proof.
  unfold has_id. cbn. rewrite orb_false_r. destruct (Z.eqb_spec i p); symmetry;
    [by apply bool_decide_eq_true|by apply bool_decide_eq_false].
Qed.

Lemma NoDup_push v p : NoDup v -> has_id p v = false -> NoDup (v ++ [p]).
Proof.
  intros Hv Hp. apply has_id_false in Hp. apply NoDup_app. split; [done|]. split.
  - intros x Hx ->%list_elem_of_singleton. by apply Hp, list_elem_of_In.
  - apply NoDup_singleton.
Qed.

Lemma accounts_frame base by_us w w' :
  depth w' = depth w -> (forall i, exited w i -> exited w' i) ->
  accounts base by_us w -> accounts base by_us w'.
Proof. intros Hd He H i Hi. rewrite Hd. apply H. eauto. Qed.

Lemma accounts_ext base f g w :
  (forall i, f i = g i) -> accounts base f w -> accounts base g w.
Proof. intros E H i Hi. rewrite <- E. auto. Qed.

(** [keeps P m]: the operation keeps [P] of the vector and the world. *)
Definition keeps {A} (P : list Z * W -> Prop) (m : M (list Z * W) rstr A) : Prop :=
  forall s, P s -> P (m s).2.

Lemma keeps_bind {A B} P (m : M _ rstr A) (k : A -> M _ rstr B) :
  keeps P m -> (forall a, keeps P (k a)) -> keeps P (mbind m k).
Proof.
  intros Hm Hk s Hs. unfold mbind. specialize (Hm s Hs).
  destruct (m s) as [[a|e] s1]; cbn in *; [by apply Hk|done].
Qed.

Lemma keeps_ret {A} P (a : A) : keeps P (mret a).
Proof. by intros s Hs. Qed.
Lemma keeps_fail {A} P e : keeps P (mfail (A:=A) e).
Proof. by intros s Hs. Qed.

(** Predicates on the counts that the read-only operations keep. *)
Definition framed (P : list Z * W -> Prop) : Prop :=
  forall v w w', depth w' = depth w -> (forall i, exited w i -> exited w' i) ->
    P (v, w) -> P (v, w').

Lemma keeps_now P : framed P -> keeps P now.
Proof.
  intros HP [v w] H. unfold now. pose proof (now_frame w) as [H1 H2].
  destruct (w_now w); cbn in *. eapply HP; eauto. by rewrite H2.
Qed.
Lemma keeps_is_cancelled P : framed P -> keeps P is_cancelled.
Proof.
  intros HP [v w] H. unfold is_cancelled. pose proof (cancelled_frame w) as [H1 H2].
  destruct (w_cancelled w); cbn in *. eapply HP; eauto. by rewrite H2.
Qed.
Lemma keeps_members P : framed P -> keeps P members.
Proof.
  intros HP [v w] H. unfold members. pose proof (members_frame w) as [H1 H2].
  destruct (w_members w); cbn in *. eapply HP; eauto.
Qed.
Lemma keeps_check_cancelled P : framed P -> keeps P check_cancelled.
Proof.
  intros HP. apply keeps_bind; [by apply keeps_is_cancelled|].
  intros []; [apply keeps_fail|apply keeps_ret].
Qed.
Lemma keeps_check_deadline P d m : framed P -> keeps P (check_deadline d m).
Proof.
  intros HP. apply keeps_bind; [by apply keeps_now|].
  intros t. destruct (d <=? t); [apply keeps_fail|apply keeps_ret].
Qed.
End Accounting.

#[global] Arguments failure : simpl never.

(** Discharge [keeps] of a read-only operation; [H] shows the predicate framed. *)
Ltac keep_frame H :=
  first [ apply keeps_ret | apply keeps_fail
        | apply keeps_check_cancelled, H | apply keeps_check_deadline, H
        | apply keeps_now, H | apply keeps_is_cancelled, H | apply keeps_members, H ].

(** ** Suspending members keeps the accounts *)

Section Pausing.
Context {W : Type} `{PL : ProcLaws W}.
Variable base : Z -> Z.

Definition tracks (s : list Z * W) : Prop :=
  NoDup s.1 /\ accounts base (fun i => ind (has_id i s.1)) s.2.

Lemma tracks_framed : framed tracks.
Proof. intros v w w' Hd He [Hn Ha]. split; [done|]. eapply accounts_frame; eauto. Qed.

Lemma suspend_accounts (f : Z -> Z) p w :
  accounts base f w ->
  accounts base (fun i => f i + ind (bool_decide (i = p /\ (w_suspend p w).1 = Ok true)))
    (w_suspend p w).2.
Proof.
  intros Ha i Hi. destruct (suspend_law p w) as (He & Hd & _).
  rewrite Hd, Ha by eauto. unfold ind. lia.
Qed.

(** The common step of both loops: a member that is new is suspended and,
    when it still exists, recorded. *)
Lemma keeps_add {B} p (skip added : M (list Z * W) rstr B) :
  keeps tracks skip -> keeps tracks added ->
  keeps tracks (let! v := get_vec in
                if has_id p v then skip
                else let! ok := suspend p in
                     if ok : bool then push p ;! added else skip).
Proof.
  intros Hskip Hadd [v w] [Hn Ha]. unfold mbind at 1, get_vec. cbn in Hn, Ha.
  destruct (has_id p v) eqn:Ep; [by apply Hskip|].
  pose proof (suspend_accounts _ p w Ha) as Hs. unfold mbind, suspend.
  destruct (w_suspend p w) as [[[|]|e] w'] eqn:Er;
    cbn [fst snd] in Hs |- *.
  - apply Hadd. split; cbn [fst snd]; [by apply NoDup_push|].
    eapply accounts_ext, Hs. intros i. rewrite has_id_app, has_id_one.
    rewrite (bool_decide_ext (i = p /\ _) (i = p)) by tauto. unfold ind.
    destruct (bool_decide_reflect (i = p)) as [->|]; [by rewrite Ep|].
    rewrite orb_false_r. lia.
  - apply Hskip. split; [done|]. eapply accounts_ext, Hs. intros i.
    cbv beta. rewrite bool_decide_eq_false_2 by (by intros []). cbn [fst]. unfold ind. lia.
  - split; [done|]. eapply accounts_ext, Hs. intros i.
    cbv beta. rewrite bool_decide_eq_false_2 by (by intros []). cbn [fst]. unfold ind. lia.
Qed.

Ltac keep := keep_frame tracks_framed.
Ltac keep_step := apply keeps_bind; [keep|]; intros ?.

Lemma suspend_snapshot_keeps d snap added : keeps tracks (suspend_snapshot d snap added).
Proof.
  revert added. induction snap as [|p snap IH]; intros added; cbn [suspend_snapshot];
    [apply keeps_ret|].
  keep_step. keep_step. apply keeps_add; apply IH.
Qed.

Lemma pause_passes_keeps n d : keeps tracks (pause_passes n d).
Proof.
  induction n as [|n IH]; cbn [pause_passes]; [apply keeps_ret|].
  do 4 keep_step.
  apply keeps_bind; [apply suspend_snapshot_keeps|]. intros added.
  destruct (negb added); [keep|apply IH].
Qed.

Lemma pause_attempt_keeps d : keeps tracks (pause_attempt d).
Proof.
  apply keeps_bind; [apply pause_passes_keeps|]. intros [|]; cbn [negb]; keep.
Qed.

Lemma restore_snapshot_keeps d snap added : keeps tracks (restore_snapshot d snap added).
Proof.
  revert added. induction snap as [|p snap IH]; intros added; cbn [restore_snapshot];
    [apply keeps_ret|].
  keep_step. apply keeps_add; apply IH.
Qed.

Lemma restore_passes_keeps n d k : keeps tracks (restore_passes n d k).
Proof.
  revert k. induction n as [|n IH]; intros k; cbn [restore_passes]; [apply keeps_fail|].
  do 3 keep_step.
  apply keeps_bind; [apply restore_snapshot_keeps|]. intros added.
  destruct (_ =? 2)%nat; [keep|apply IH].
Qed.
End Pausing.

(** ** Rolling back *)

Section Rollback.
Context {W : Type} `{PL : ProcLaws W}.

Definition sign (suspending : bool) : Z := if suspending then 1 else -1.

(** One call of suspend or resume on a member. *)
Lemma act_law (suspending : bool) p w r w' :
  (if suspending then w_suspend p w else w_resume p w) = (r, w') ->
  (forall i, exited w i -> exited w' i)
  /\ (forall b, r = Ok b -> forall i, ~ exited w' i ->
        depth w' i = depth w i + sign suspending * ind (bool_decide (i = p)))
  /\ (forall i, i <> p -> depth w' i = depth w i).
Proof.
  intros E. destruct suspending; cbn in E.
  - destruct (suspend_law p w) as (He & Hd & Hx). rewrite E in He, Hd, Hx. cbn in *.
    split; [done|]. split.
    + intros b -> i Hi. rewrite Hd. unfold ind, sign.
      destruct (bool_decide_reflect (i = p)) as [->|].
      * destruct b; [rewrite bool_decide_eq_true_2 by done; lia|]. by destruct Hi; auto.
      * rewrite bool_decide_eq_false_2 by tauto. lia.
    + intros i Hi. rewrite Hd, bool_decide_eq_false_2 by tauto. lia.
  - destruct (resume_law p w) as (He & Hd & Hx). rewrite E in He, Hd, Hx. cbn in *.
    split; [done|]. split.
    + intros b -> i Hi. rewrite Hd. unfold ind, sign.
      destruct (bool_decide_reflect (i = p)) as [->|].
      * destruct b; [rewrite bool_decide_eq_true_2 by done; lia|]. by destruct Hi; auto.
      * rewrite bool_decide_eq_false_2 by tauto. lia.
    + intros i Hi. rewrite Hd, bool_decide_eq_false_2 by tauto. lia.
Qed.

Lemma has_id_cons_ind i p l :
  has_id p l = false -> ind (has_id i (p :: l)) = ind (bool_decide (i = p)) + ind (has_id i l).
Proof.
  intros Hp. change (p :: l) with ([p] ++ l). rewrite has_id_app, has_id_one. unfold ind.
  destruct (bool_decide_reflect (i = p)) as [->|]; cbn; [by rewrite Hp|lia].
Qed.

Definition shifted (suspending : bool) (l : list Z) (w w' : W) : Prop :=
  (forall i, exited w i -> exited w' i)
  /\ forall i, ~ exited w' i -> depth w' i = depth w i + sign suspending * ind (has_id i l).

Lemma shifted_step suspending p l w w1 w2 :
  has_id p l = false ->
  (forall i, exited w i -> exited w1 i) ->
  (forall i, ~ exited w1 i ->
     depth w1 i = depth w i + sign suspending * ind (bool_decide (i = p))) ->
  shifted suspending l w1 w2 -> shifted suspending (p :: l) w w2.
Proof.
  intros Hp He Hd [He2 Hd2]. split; [eauto|]. intros i Hi.
  rewrite has_id_cons_ind, Hd2, Hd by eauto. lia.
Qed.

Lemma rollback_loop_spec suspending d l errs w errs' w' :
  NoDup l -> rollback_loop suspending d l errs w = (errs', w') ->
  exists extra, errs' = errs ++ extra /\ (extra = [] -> shifted suspending l w w').
Proof.
  intros Hn. revert errs w. induction Hn as [|p l Hp Hn IH];
    cbn [rollback_loop]; intros errs w H.
  { injection H as <- <-. exists []. rewrite app_nil_r. split; [done|]. intros _.
    split; [done|]. intros i _. change (has_id i []) with false. cbn. lia. }
  rewrite list_elem_of_In, <- has_id_In, not_true_iff_false in Hp.
  pose proof (now_frame w) as [Nd Ne]. destruct (w_now w) as [t w1]. cbn in Nd, Ne.
  destruct (d <=? t).
  { injection H as <- <-. eexists. split; [done|]. done. }
  pose proof (running_frame p w1) as (Rd & Re & Rx).
  destruct (w_running p w1) as [run w2]. cbn in Rd, Re, Rx.
  assert (Hact : forall H' : (let '(res, w3) := if suspending then w_suspend p w2 else w_resume p w2 in
      let errs2 := match res with Err e => errs ++ [e] | Ok _ => errs end in
      rollback_loop suspending d l errs2 w3) = (errs', w'),
    exists extra, errs' = errs ++ extra /\ (extra = [] -> shifted suspending (p :: l) w w')).
  { destruct (if suspending then w_suspend p w2 else w_resume p w2) as [res w3] eqn:Ea.
    apply act_law in Ea as (Ae & Ad & _). intros H'. apply IH in H' as (extra & -> & Hs).
    destruct res as [b|e].
    - exists extra. split; [done|]. intros ->. eapply (shifted_step _ p l w w3); eauto.
      + intros i Hi. apply Ae, Re. by rewrite Ne.
      + intros i Hi. rewrite (Ad b eq_refl i Hi), Rd, Nd. done.
    - exists (e :: extra). rewrite <- app_assoc. done. }
  destruct run as [[|]|e]; [by apply Hact| |by apply Hact].
  apply IH in H as (extra & -> & Hs). exists extra. split; [done|]. intros ->.
  eapply (shifted_step _ p l w w2); eauto.
  - intros i Hi. apply Re. by rewrite Ne.
  - intros i Hi. rewrite Rd, Nd. destruct (bool_decide_reflect (i = p)) as [->|].
    + exfalso. auto.
    + unfold ind. lia.
Qed.

Lemma has_id_rev i l : has_id i (rev l) = has_id i l.
Proof. apply eq_true_iff_eq. by rewrite !has_id_In, <- in_rev. Qed.

Lemma rollback_until_ok l suspending d w w' :
  NoDup l -> rollback_until l suspending d w = (Ok tt, w') -> shifted suspending l w w'.
Proof.
  unfold rollback_until. intros Hn.
  destruct (rollback_loop suspending d (rev l) [] w) as [errs w1] eqn:E.
  apply rollback_loop_spec in E as (extra & -> & Hs); [|by apply NoDup_ListNoDup, NoDup_rev, NoDup_ListNoDup].
  cbn. destruct extra; cbn; [|done]. intros [= ->]. destruct (Hs eq_refl) as [He Hd].
  split; [done|]. intros i Hi. by rewrite Hd, has_id_rev.
Qed.
End Rollback.

(** ** Resuming keeps the accounts *)

Section Resuming.
Context {W : Type} `{PL : ProcLaws W}.

(** [resume_loop] returns its increments taken back in [v']; when it succeeds
    every process it was given has been resumed or has exited. *)
Definition took_back (l : list Z) (w : W) (v' : list Z) (w' : W) : Prop :=
  NoDup v' /\ (forall i, In i v' -> In i l)
  /\ (forall i, exited w i -> exited w' i)
  /\ forall i, ~ exited w' i -> depth w' i = depth w i - ind (has_id i v').

Definition unmoved (v : list Z) (w : W) (s : list Z * W) : Prop :=
  s.1 = v /\ (forall i, depth s.2 i = depth w i) /\ (forall i, exited w i -> exited s.2 i).

Lemma unmoved_framed v w : framed (unmoved v w).
Proof. intros v1 w1 w2 Hd He (E & D & X). split; [done|]. cbn in *. split; [|eauto].
  intros i. by rewrite Hd. Qed.

(** Step over a read-only operation that may stop the loop. *)
Lemma quiet_bind {A B} (m : M (list Z * W) rstr A) (k : A -> M (list Z * W) rstr B) v w r s :
  (forall P, framed P -> keeps P m) -> mbind m k (v, w) = (r, s) ->
  exists w1, unmoved v w (v, w1)
    /\ ((exists a, k a (v, w1) = (r, s)) \/ (s = (v, w1) /\ exists e, r = Err e)).
Proof.
  intros Hm H. assert (Hu : unmoved v w (m (v, w)).2)
    by (apply Hm; [apply unmoved_framed|done]).
  unfold mbind in H. destruct (m (v, w)) as [[a|e] [v1 w1]]; cbn in Hu;
    destruct Hu as (E & D & X); cbn in E, D, X; subst v1; exists w1; (split; [done|]).
  - left. by exists a.
  - right. injection H as <- <-. eauto.
Qed.

Lemma took_back_nil l w w1 v : unmoved v w (v, w1) -> took_back l w [] w1.
Proof.
  intros (_ & D & X). split; [constructor|]. split; [done|]. split; [done|].
  intros i _. change (has_id i []) with false. cbn in D |- *. rewrite D. lia.
Qed.

Lemma took_back_step l v w w1 v1 w' :
  unmoved v w (v, w1) -> took_back l w1 v1 w' -> took_back l w v1 w'.
Proof.
  intros (_ & D & X) (H1 & H2 & H3 & H4). split; [done|]. split; [done|]. cbn in D, X.
  split; [eauto|]. intros i Hi. by rewrite H4, D.
Qed.

Lemma took_back_weaken p l w v1 w' : took_back l w v1 w' -> took_back (p :: l) w v1 w'.
Proof. intros (H1 & H2 & H). split; [done|]. split; [right; eauto|done]. Qed.

Lemma took_back_cons p l w w1 v1 w' :
  has_id p l = false ->
  (forall i, exited w i -> exited w1 i) ->
  (forall i, ~ exited w1 i -> depth w1 i = depth w i - ind (bool_decide (i = p))) ->
  took_back l w1 v1 w' -> took_back (p :: l) w (p :: v1) w'.
Proof.
  intros Hp He Hd (H1 & H2 & H3 & H4). apply has_id_false in Hp.
  assert (Hpv : ~ In p v1) by eauto.
  split; [constructor; [by rewrite list_elem_of_In|done]|].
  split; [intros i [->|Hi]; [by left|right; eauto]|].
  split; [eauto|]. intros i Hi. apply has_id_false in Hpv.
  rewrite has_id_cons_ind, H4, Hd by eauto. lia.
Qed.

Lemma resume_loop_spec d l v w r v' w' :
  NoDup l -> resume_loop d l (v, w) = (r, (v', w')) ->
  exists v1, v' = v ++ v1 /\ took_back l w v1 w'
    /\ (r = Ok tt -> forall i, In i l -> has_id i v1 = true \/ exited w' i).
Proof.
  intros Hn. revert v w. induction Hn as [|p l Hp Hn IH]; cbn [resume_loop]; intros v w H.
  { injection H as <- <- <-. exists []. rewrite app_nil_r. split; [done|]. split; [|done].
    by apply (took_back_nil [] w w v). }
  rewrite list_elem_of_In, <- has_id_In, not_true_iff_false in Hp.
  apply quiet_bind in H as (w1 & U1 & [[[] H]|[[= -> ->] [e ->]]]);
    [|exists []; rewrite app_nil_r; split; [done|]; split; [by eapply took_back_nil|done]
     |intros P HP; keep_frame HP].
  apply quiet_bind in H as (w2 & U2 & [[[] H]|[[= -> ->] [e ->]]]);
    [|exists []; rewrite app_nil_r; split; [done|]; split;
        [by eapply took_back_step; [done|]; eapply took_back_nil|done]
     |intros P HP; keep_frame HP].
  unfold mbind, resume in H. pose proof (resume_law p w2) as (He & Hd & Hx).
  destruct (w_resume p w2) as [[[|]|e] w3]; cbn [fst snd] in *.
  - apply IH in H as (v1 & -> & Ht & Hall). exists (p :: v1). rewrite <- app_assoc. split; [done|].
    split.
    + do 2 (eapply took_back_step; [done|]). eapply took_back_cons; [done|done| |done].
      intros i _. rewrite Hd. by rewrite (bool_decide_ext (i = p /\ _) (i = p)) by tauto.
    + intros E i [->|Hi].
      * left. apply has_id_In. by left.
      * destruct (Hall E i Hi) as [Hv|]; [left|by right].
        apply has_id_In. right. by apply has_id_In.
  - apply IH in H as (v1 & -> & Ht & Hall). exists v1. split; [done|]. split.
    + do 2 (eapply took_back_step; [done|]). apply took_back_weaken.
      eapply (took_back_step l v w2 w3); [|done]. split; [done|]. split; [|done].
      intros i. cbn. rewrite Hd, bool_decide_eq_false_2 by (by intros []). lia.
    + intros E i [<-|Hi]; [|by apply Hall].
      right. destruct Ht as (_ & _ & Ht & _). auto.
  - injection H as <- <- <-. exists []. rewrite app_nil_r. split; [done|]. split; [|done].
    do 2 (eapply took_back_step; [done|]). eapply (took_back_nil _ w2 w3 v).
    split; [done|]. split; [|done].
    intros i. cbn. rewrite Hd, bool_decide_eq_false_2 by (by intros []). lia.
Qed.

Lemma took_back_framed l w v : framed (fun s => s.1 = v /\ took_back l w v s.2).
Proof.
  intros v1 w1 w2 Hd He [E (H1 & H2 & H3 & H4)]. cbn in *. split; [done|].
  split; [done|]. split; [done|]. split; [eauto|]. intros i Hi. rewrite Hd. eauto.
Qed.

Lemma resume_attempt_spec own d w r v' w' :
  NoDup own -> resume_attempt own d ([], w) = (r, (v', w')) ->
  took_back own w v' w'
  /\ (r = Ok tt -> forall i, In i own -> has_id i v' = true \/ exited w' i).
Proof.
  intros Hn H. unfold resume_attempt, mbind at 1 in H.
  destruct (resume_loop d (rev own) ([], w)) as [r1 [v1 w1]] eqn:El.
  apply resume_loop_spec in El as (v1' & -> & Ht & Hall);
    [|by apply NoDup_ListNoDup, NoDup_rev, NoDup_ListNoDup]. cbn [app] in *.
  assert (Ht' : took_back own w v1' w1).
  { destruct Ht as (H1 & H2 & H3). split; [done|]. split; [|done].
    intros i Hi. apply in_rev. auto. }
  clear Ht. destruct r1 as [[]|e]; [|by injection H as <- <- <-].
  set (tail := (check_cancelled ;! check_deadline d &"resume exceeded the transition deadline")
    : M (list Z * W) rstr unit) in H.
  assert (Hk : forall P, framed P -> keeps P tail)
    by (intros P HP; apply keeps_bind; [keep_frame HP|intros ?; keep_frame HP]).
  pose proof (Hk _ (took_back_framed own w v1') (v1', w1) (conj eq_refl Ht')) as [Ev Hb].
  pose proof (Hk _ (unmoved_framed v1' w1) (v1', w1)
    (conj eq_refl (conj (fun _ => eq_refl) (fun _ h => h)))) as (_ & _ & Hx).
  change (tail (v1', w1) = (r, (v', w'))) in H. rewrite H in Ev, Hb, Hx. cbn in *. subst v'.
  split; [done|]. intros _ i Hi. destruct (Hall eq_refl i) as [|]; [by rewrite <- in_rev|by left|].
  right. auto.
Qed.
End Resuming.

(** ** change keeps the invariant *)

Section Change.
Context {W : Type} `{PL : ProcLaws W}.
Variable base : Z -> Z.

Lemma rollback_accounts (f g : Z -> Z) suspending l w w' :
  shifted suspending l w w' -> accounts base f w ->
  (forall i, f i + sign suspending * ind (has_id i l) = g i) -> accounts base g w'.
Proof. intros [He Hd] Ha E i Hi. rewrite Hd, Ha, <- E by eauto. lia. Qed.

Lemma took_back_accounts l w v w' :
  took_back l w v w' -> accounts base (fun i => ind (has_id i l)) w ->
  accounts base (fun i => ind (has_id i l) - ind (has_id i v)) w'.
Proof. intros (_ & _ & He & Hd) Ha i Hi. rewrite Hd, Ha by eauto. lia. Qed.

Definition degraded (o : TransitionOutcome) : bool :=
  match o with Degraded _ => true | _ => false end.

Lemma failure_not_degraded e r c :
  degraded (failure e r c) = false -> r = Ok tt /\ failure e r c <> Applied.
Proof. destruct r as [[]|]; cbn; [|done]. by destruct c. Qed.

Lemma resume_owned_balanced ps w o ps' w' :
  paused ps = true -> balanced base ps w ->
  resume_owned ps w = (o, ps', w') -> degraded o = false ->
  balanced base ps' w'
  /\ (o = Applied -> paused ps' = false) /\ (o <> Applied -> paused ps' = true).
Proof.
  intros Hp (Hn & _ & Ha). unfold resume_owned.
  pose proof (now_frame w) as [Nd Ne]. destruct (w_now w) as [t w1]. cbn in Nd, Ne.
  destruct (resume_attempt _ _ _) as [r [v w2]] eqn:Er.
  apply resume_attempt_spec in Er as [Ht Hall]; [|done].
  apply (accounts_frame _ _ w w1) in Ha; [|done|by rewrite Ne].
  pose proof (took_back_accounts _ _ _ _ Ht Ha) as Hv.
  destruct r as [[]|e].
  - intros [= <- <- <-] _. split; [|done]. split; [constructor|]. split; [done|].
    intros i Hi. rewrite Hv by done. change (has_id i (owned (Build_PauseState false []))) with false.
    destruct Ht as (_ & Hsub & _ & _).
    destruct (has_id i (owned ps)) eqn:Eo.
    + apply has_id_In in Eo. destruct (Hall eq_refl i Eo) as [->|]; [cbn; lia|done].
    + destruct (has_id i v) eqn:Ev; [|cbn; lia].
      apply has_id_In, Hsub, has_id_In in Ev. congruence.
  - pose proof (now_frame w2) as [Nd2 Ne2]. destruct (w_now w2) as [t2 w3]. cbn in Nd2, Ne2.
    apply (accounts_frame _ _ w2 w3) in Hv; [|done|by rewrite Ne2].
    destruct (rollback_until v true _ w3) as [[[]|e2] w4] eqn:Erb.
    2:{ destruct (w_cancelled w4). intros [= <- <- <-] Hd. discriminate Hd. }
    apply rollback_until_ok in Erb; [|apply Ht].
    assert (Hk : tracks base (owned ps, w4)).
    { split; [done|]. eapply rollback_accounts; [done|done|]. intros i. cbn. lia. }
    pose proof (restore_passes_keeps base MAX_MEMBER_PASSES (t2 + TRANSITION_BUDGET) 0 _ Hk) as Hr.
    unfold restore_paused_members. destruct (restore_passes _ _ _ _) as [rr [own w5]].
    pose proof (cancelled_frame w5) as [Cd Ce]. destruct (w_cancelled w5) as [c w6]. cbn in Cd, Ce, Hr.
    intros [= <- <- <-] Hd. apply failure_not_degraded in Hd as [_ Hd]. cbn [paused].
    split; [|done]. destruct Hr as [Hrn Hra]. split; [done|]. split; [by rewrite Hp|].
    eapply accounts_frame; [done|by rewrite Ce|done].
Qed.

Lemma pause_balanced ps w o ps' w' :
  paused ps = false -> balanced base ps w ->
  change ps true w = (o, ps', w') -> degraded o = false ->
  balanced base ps' w'
  /\ (o = Applied -> paused ps' = true) /\ (o <> Applied -> paused ps' = false).
Proof.
  intros Hp (Hn & Ho & Ha). unfold change. rewrite Hp. cbn [Bool.eqb negb].
  pose proof (cancelled_frame w) as [Cd Ce]. destruct (w_cancelled w) as [c w0]. cbn in Cd, Ce.
  apply (accounts_frame _ _ w w0) in Ha; [|done|by rewrite Ce].
  destruct c; [intros [= <- <- <-] _; split; [by split|by rewrite Hp]|].
  pose proof (now_frame w0) as [Nd Ne]. destruct (w_now w0) as [t w1]. cbn in Nd, Ne.
  apply (accounts_frame _ _ w0 w1) in Ha; [|done|by rewrite Ne].
  rewrite (Ho Hp) in Ha.
  assert (Hk : tracks base ([], w1)) by (split; [constructor|done]).
  apply (pause_attempt_keeps base (t + TRANSITION_BUDGET)) in Hk.
  destruct (pause_attempt _ _) as [[[]|e] [v w2]]; destruct Hk as [Hvn Hv]; cbn in Hvn, Hv.
  - intros [= <- <- <-] _. split; [|done]. split; [done|]. by split.
  - unfold rollback. pose proof (now_frame w2) as [Nd2 Ne2]. destruct (w_now w2) as [t2 w3].
    cbn in Nd2, Ne2. destruct (rollback_until v false _ w3) as [[[]|e2] w4] eqn:Erb;
      pose proof (cancelled_frame w4) as [Cd2 Ce2]; destruct (w_cancelled w4) as [c2 w5];
      cbn in Cd2, Ce2; intros [= <- <- <-] Hd; [|discriminate Hd].
    apply failure_not_degraded in Hd as [Hr Hd].
    split; [|by rewrite Hp]. split; [done|]. split; [done|]. rewrite (Ho Hp).
    apply rollback_until_ok in Erb; [|done].
    eapply (accounts_frame _ _ w4); [done|by rewrite Ce2|].
    eapply rollback_accounts; [done| |].
    + eapply (accounts_frame _ _ w2); [done|by rewrite Ne2|done].
    + intros i. cbn. change (has_id i []) with false. cbn. lia.
Qed.
End Change.

(** C5. A pause or a continue that is not reported as degraded keeps the
    suspend accounting exact: every process that still runs carries one
    increment of NGSM's when [owned] lists it and none otherwise, whatever
    failed, was cancelled, timed out or was spawned meanwhile. The tree is in the
    requested state when the change is applied and in its previous state when it
    is cancelled or rejected. *)
Theorem change_keeps_accounts {W} `{PL : ProcLaws W} (base : Z -> Z) ps pause w o ps' w' :
  balanced base ps w ->
  change ps pause w = (o, ps', w') ->
  degraded o = false ->
  balanced base ps' w'
  /\ (o = Applied -> paused ps' = pause) /\ (o <> Applied -> paused ps' = paused ps).
Proof.
  intros Hb H Hd. destruct (Bool.eqb (paused ps) pause) eqn:Ep.
  - unfold change in H. rewrite Ep in H. apply eqb_prop in Ep.
    pose proof (cancelled_frame w) as [Cd Ce]. destruct (w_cancelled w) as [c w0]. cbn in Cd, Ce.
    assert (ps' = ps /\ w' = w0) as [-> ->] by (destruct c; by injection H as <- <- <-).
    split; [|done]. destruct Hb as (Hn & Ho & Ha). split; [done|]. split; [done|].
    eapply accounts_frame; [done|by rewrite Ce|done].
  - destruct pause.
    + destruct (paused ps) eqn:Epp; [done|]. by apply (pause_balanced base ps w).
    + destruct (paused ps) eqn:Epp; [|done]. unfold change in H. rewrite Epp in H.
      pose proof (cancelled_frame w) as [Cd Ce]. destruct (w_cancelled w) as [c w0]. cbn in Cd, Ce, H.
      assert (Hb' : balanced base ps w0).
      { destruct Hb as (Hn & Ho & Ha). split; [done|]. split; [done|].
        eapply accounts_frame; [done|by rewrite Ce|done]. }
      destruct c; [injection H as <- <- <-; by split|].
      eapply (resume_owned_balanced base); eauto.
Qed.

(** ** A simulated process table *)

Module Sim.
(** [k_dead] have exited, [k_locked] refuse to be suspended, [k_spawn] joins
    the job at the next enumeration, [k_cancel] is when the controller gives
    up; each reading of the clock takes one millisecond. *)
Record Kernel := {
  k_clock : Z; k_cancel : Z; k_depth : Z -> Z;
  k_dead : list Z; k_locked : list Z; k_members : list Z; k_spawn : list Z }.

Definition bump (id d : Z) (k : Kernel) : Kernel :=
  Build_Kernel (k_clock k) (k_cancel k)
    (fun i => if i =? id then k_depth k i + d else k_depth k i)
    (k_dead k) (k_locked k) (k_members k) (k_spawn k).

Definition act (id d : Z) (k : Kernel) : result rstr bool * Kernel :=
  if has_id id (k_dead k) then (Ok false, k)
  else if has_id id (k_locked k) then (Err &"access denied", k)
  else (Ok true, bump id d k).

#[global] Instance sim_world : ProcWorld Kernel := {
  w_now k := (k_clock k,
    Build_Kernel (k_clock k + 1) (k_cancel k) (k_depth k)
      (k_dead k) (k_locked k) (k_members k) (k_spawn k));
  w_cancelled k := (k_cancel k <=? k_clock k, k);
  w_members k := (Ok (k_members k),
    Build_Kernel (k_clock k) (k_cancel k) (k_depth k)
      (k_dead k) (k_locked k) (k_members k ++ k_spawn k) []);
  w_running id k := (Ok (negb (has_id id (k_dead k))), k);
  w_suspend id k := act id 1 k;
  w_resume id k := act id (-1) k }.

Lemma sim_act_law id d k :
  (forall i, In i (k_dead k) -> In i (k_dead (act id d k).2))
  /\ (forall i, k_depth (act id d k).2 i
      = k_depth k i + (if bool_decide (i = id /\ (act id d k).1 = Ok true) then d else 0))
  /\ ((act id d k).1 = Ok false -> In id (k_dead (act id d k).2)).
Proof.
  unfold act. destruct (has_id id (k_dead k)) eqn:Ed; [|destruct (has_id id (k_locked k))];
    cbn [fst snd]; split; try done; split; try done.
  - intros i. rewrite bool_decide_eq_false_2 by (by intros []). lia.
  - intros _. by apply has_id_In.
  - intros i. rewrite bool_decide_eq_false_2 by (by intros []). lia.
  - intros i. cbn. rewrite (bool_decide_ext (i = id /\ _) (i = id)) by tauto.
    destruct (Z.eqb_spec i id), (bool_decide_reflect (i = id)); try done; lia.
Qed.

#[global] Instance sim_laws : ProcLaws Kernel.
Proof.
  refine {| depth := k_depth; exited := fun k i => In i (k_dead k) |}; try done.
  - intros id k. split; [done|]. split; [done|]. cbn. intros [= E%negb_false_iff].
    by apply has_id_In.
  - intros id k. apply (sim_act_law id 1 k).
  - intros id k. destruct (sim_act_law id (-1) k) as (H1 & H2 & H3). split; [exact H1|].
    split; [|exact H3]. intros i. cbn [w_resume sim_world]. rewrite H2.
    destruct (bool_decide _); lia.
Defined.

(** Process 1 runs, 2 has exited, 3 is spawned while 1 is suspended. *)
Definition kernel : Kernel := Build_Kernel 0 1000 (fun i => if i =? 1 then 2 else 0) [2] [] [1; 2] [3].
(** Process 4 refuses to be suspended: the change is rolled back. *)
Definition stubborn : Kernel := Build_Kernel 0 1000 (fun _ => 0) [] [4] [1; 4] [].
End Sim.

Example pause_applies : change PauseState_default true Sim.kernel
  = (Applied, Build_PauseState true [1; 3], (change PauseState_default true Sim.kernel).2).
Proof. vm_compute. reflexivity. Qed.

Lemma change_keeps_accounts_witness :
  let '(o, ps', k') := change PauseState_default true Sim.stubborn in
  o = Rejected &"access denied" /\ balanced (fun _ => 0) ps' k'.
Proof.
  destruct (change PauseState_default true Sim.stubborn) as [[o ps'] k'] eqn:E.
  assert (Ho : o = Rejected &"access denied").
  { transitivity (change PauseState_default true Sim.stubborn).1.1; [by rewrite E|].
    vm_compute. reflexivity. }
  split; [exact Ho|].
  apply (change_keeps_accounts (fun _ => 0) PauseState_default true Sim.stubborn o ps' k').
  - split; [constructor|]. split; [done|]. intros i _. reflexivity.
  - exact E.
  - rewrite Ho. reflexivity.
Defined.
