(* ===== verification/RegCodec.v ===== *)
(** * Registry value codecs: registry [imp.rs], the decoding helpers

    The byte formats of REG_SZ, REG_MULTI_SZ, REG_DWORD and REG_QWORD values,
    the strict decoders, and the comma notation of the single-value commands. *)

From Stdlib Require Import ZArith Lia List.
From S2P Require Import Prelude Text BTree Model.

(** [REG_VALUE_TYPE]: the numbers of the Windows headers. *)
Definition REG_SZ : Z := 1.
Definition REG_EXPAND_SZ : Z := 2.
Definition REG_DWORD : Z := 4.
Definition REG_MULTI_SZ : Z := 7.
Definition REG_QWORD : Z := 11.

(** ** Words and bytes *)

Definition wide_to_bytes (words : list Z) : list Z :=
  flat_map (fun w => [w mod 256; w / 256]) words.

(** [bytes.chunks_exact(2).map(u16::from_le_bytes)] *)
Fixpoint bytes_to_words (b : list Z) : list Z :=
  match b with
  | lo :: hi :: r => (lo + 256 * hi) :: bytes_to_words r
  | _ => []
  end.

(** [{e}] of [FromUtf16Error]. *)
Definition utf16_error : rstr := &"invalid utf-16: lone surrogate found".

Definition odd_length (what : rstr) (b : list Z) : Error :=
  Registry (what ++ &" value has an odd byte length (" ++ to_dec (Z.of_nat (List.length b))
            ++ &") — not valid UTF-16").

Definition nonzero (w : Z) : bool := negb (w =? 0).

Definition utf16_or (message : rstr) (ws : list Z) : result Error rstr :=
  ok_or (from_utf16 ws) (Registry (message ++ utf16_error)).

Definition bytes_to_wide_string (b : list Z) : result Error rstr :=
  if is_empty b then Ok []
  else if Nat.odd (List.length b) then Err (odd_length &"REG_SZ" b)
  else
    let words := bytes_to_words b in
    match position (Z.eqb 0) words with
    | Some fin =>
        if any nonzero (drop (S fin) words)
        then Err (Registry &"REG_SZ value has non-zero data after its NUL terminator — corrupt")
        else utf16_or &"REG_SZ value is not valid UTF-16: " (take fin words)
    | None => utf16_or &"REG_SZ value is not valid UTF-16: " words
    end.

(** The loop over the words: [entry] is [words[start..i]]. *)
Fixpoint multi_loop (words entry : list Z) (out : list rstr) : result Error (list rstr) :=
  match words with
  | [] => Err (Registry &"REG_MULTI_SZ value is missing its block terminator")
  | c :: r =>
      if c =? 0 then
        if is_empty entry then
          if any nonzero r
          then Err (Registry &"REG_MULTI_SZ value has data after its block terminator")
          else Ok out
        else
          let? s := utf16_or &"REG_MULTI_SZ entry is not valid UTF-16: " entry in
          multi_loop r [] (out ++ [s])
      else multi_loop r (entry ++ [c]) out
  end.

Definition bytes_to_wide_multi (b : list Z) : result Error (list rstr) :=
  if is_empty b then Ok []
  else if Nat.odd (List.length b) then Err (odd_length &"REG_MULTI_SZ" b)
  else
    let words := bytes_to_words b in
    if negb (bool_decide (last words = Some 0))
    then Err (Registry &"REG_MULTI_SZ value is not NUL-terminated — corrupt or truncated")
    else multi_loop words [] [].

(** The buffers the writers build. *)
Definition string_bytes (value : rstr) : list Z := wide_to_bytes (encode_utf16 value ++ [0]).
Definition multi_words (values : list rstr) : list Z :=
  flat_map (fun v => encode_utf16 v ++ [0]) values ++ [0].
Definition multi_bytes (values : list rstr) : list Z := wide_to_bytes (multi_words values).

(** ** Numbers *)

(** [to_le_bytes] and [from_le_bytes] of the given width. *)
Fixpoint to_le_bytes (width : nat) (v : Z) : list Z :=
  match width with O => [] | S n => (v mod 256) :: to_le_bytes n (v / 256) end.
Fixpoint from_le_bytes (b : list Z) : Z :=
  match b with [] => 0 | x :: r => x + 256 * from_le_bytes r end.

Definition wrong_size (name kind : rstr) (b : list Z) (expected : rstr) : Error :=
  Registry (&"value " ++ name ++ &" is " ++ kind ++ &" but holds "
            ++ to_dec (Z.of_nat (List.length b)) ++ &" bytes (expected " ++ expected ++ &")").

Definition decode_u32 (name : rstr) (ty : Z) (b : list Z) : result Error Z :=
  if ty =? REG_DWORD then
    if (List.length b =? 4)%nat then Ok (from_le_bytes b)
    else Err (wrong_size name &"REG_DWORD" b &"4")
  else if ty =? REG_QWORD then
    if (List.length b =? 8)%nat then
      let v := from_le_bytes b in
      if u32_max <? v
      then Err (Registry (&"value " ++ name ++ &" (" ++ to_dec v
                          ++ &") exceeds the 32-bit range expected here"))
      else Ok v
    else Err (wrong_size name &"REG_QWORD" b &"8")
  else Err (Registry (&"value " ++ name ++ &" is not numeric")).

(** ** Names *)

Definition decode_registry_name (words : list Z) : result Error rstr :=
  match from_utf16 words with
  | None => Err (Registry &"owned registry name contains invalid UTF-16")
  | Some name =>
      if contains_char c_nul name
      then Err (Registry &"owned registry name contains an embedded NUL")
      else Ok name
  end.

(** ** The comma notation of [get] and [set] *)

Definition escape_entry (e : rstr) : rstr :=
  replace_char c_comma [c_backslash; c_comma]
    (replace_char c_backslash [c_backslash; c_backslash] e).
Definition join_multi_value (entries : list rstr) : rstr :=
  join [c_comma] (map escape_entry entries).

Fixpoint split_loop (chars current : rstr) (entries : list rstr) : list rstr :=
  match chars with
  | [] => entries ++ [current]
  | c :: r =>
      if c =? c_backslash then
        match r with
        | d :: r' =>
            if (d =? c_comma) || (d =? c_backslash) then split_loop r' (current ++ [d]) entries
            else split_loop r (current ++ [c_backslash]) entries
        | [] => split_loop r (current ++ [c_backslash]) entries
        end
      else if c =? c_comma then split_loop r [] (entries ++ [current])
      else split_loop r (current ++ [c]) entries
  end.

Definition split_multi_value (value : rstr) : list rstr :=
  List.filter (fun s => negb (is_empty s)) (split_loop value [] []).

(** ** Lemmas on words and bytes *)

Lemma words_of_wide ws : Forall u16_wf ws -> bytes_to_words (wide_to_bytes ws) = ws.
Proof.
  induction 1 as [|w ws Hw _ IH]; [done|].
  change (wide_to_bytes (w :: ws)) with (w mod 256 :: w / 256 :: wide_to_bytes ws).
  cbn [bytes_to_words]. rewrite IH. f_equal.
  pose proof (Z.div_mod w 256). lia.
Qed.

Lemma length_wide ws : List.length (wide_to_bytes ws) = (2 * List.length ws)%nat.
Proof.
  induction ws as [|w ws IH]; [done|].
  change (wide_to_bytes (w :: ws)) with (w mod 256 :: w / 256 :: wide_to_bytes ws).
  cbn [List.length]. lia.
Qed.

Lemma wide_even ws : Nat.odd (List.length (wide_to_bytes ws)) = false.
Proof. rewrite length_wide. rewrite <- Nat.negb_even, Nat.even_mul. done. Qed.

Lemma wide_nil ws : is_empty (wide_to_bytes ws) = is_empty ws.
Proof. by destruct ws. Qed.

Lemma position_zero_app ws r :
  ~ In 0 ws -> position (Z.eqb 0) (ws ++ 0 :: r) = Some (List.length ws).
Proof.
  induction ws as [|w ws IH]; intros H; [done|]. cbn [app position List.length].
  destruct (Z.eqb_spec 0 w) as [<-|]; [exfalso; apply H; by left|].
  rewrite IH; [done|]. intros Hi. apply H. by right.
Qed.

Lemma nonzero_repeat k : any nonzero (repeat 0 k) = false.
Proof. induction k as [|k IH]; [done|exact IH]. Qed.

Lemma nonzero_none ws : any nonzero ws = false -> ws = repeat 0 (List.length ws).
Proof.
  induction ws as [|w ws IH]; cbn; [done|]. intros H. bool_to_prop.
  unfold nonzero in H. bool_to_prop. subst. by rewrite <- IH.
Qed.

Lemma no_zero_words s : wf_str s -> ~ In c_nul s -> ~ In 0 (encode_utf16 s).
Proof. intros Hs H Hi. apply H. by apply (encode_utf16_zero s Hs). Qed.

(** ** REG_SZ *)

(** What the writer stores for a string, with any NUL padding. *)
Lemma bytes_to_wide_string_padded s k :
  wf_str s -> ~ In c_nul s ->
  bytes_to_wide_string (wide_to_bytes (encode_utf16 s ++ repeat 0 k)) = Ok s.
Proof.
  intros Hs Hn. unfold bytes_to_wide_string. rewrite wide_nil, wide_even.
  assert (Hw : Forall u16_wf (encode_utf16 s ++ repeat 0 k)).
  { apply Forall_app. split; [by apply encode_utf16_words|].
    apply List.Forall_forall. intros x Hx%repeat_spec. subst. unfold u16_wf, u16_max. lia. }
  rewrite words_of_wide by done. unfold utf16_or.
  destruct k as [|k]; cbn [repeat].
  - rewrite app_nil_r. destruct (is_empty (encode_utf16 s)) eqn:Ee.
    { destruct s; [done|]. cbn in Ee. unfold encode_char in Ee. by destruct (z <? 65536). }
    destruct (position _ _) as [p|] eqn:Ep.
    + exfalso. apply (no_zero_words s Hs Hn). clear -Ep. revert p Ep.
      induction (encode_utf16 s) as [|w ws IH]; cbn [position]; intros p Ep; [done|].
      destruct (Z.eqb_spec 0 w); [by left|]. destruct (position _ ws) as [q|]; [|done].
      right. by eapply IH.
    + by rewrite from_encode_utf16.
  - rewrite position_zero_app by (by apply no_zero_words).
    destruct (is_empty _) eqn:Ee; [by destruct (encode_utf16 s)|].
    rewrite drop_app_ge, take_app_length by lia.
    replace (S (List.length (encode_utf16 s)) - List.length (encode_utf16 s))%nat with 1%nat by lia.
    change (drop 1 (0 :: repeat 0 k)) with (repeat 0 k).
    rewrite nonzero_repeat. by rewrite from_encode_utf16.
Qed.

Lemma bytes_to_wide_string_of s :
  wf_str s -> ~ In c_nul s -> bytes_to_wide_string (string_bytes s) = Ok s.
Proof. apply (bytes_to_wide_string_padded s 1). Qed.

(** ** REG_MULTI_SZ *)

Definition storable (v : rstr) : Prop := wf_str v /\ ~ In c_nul v /\ v <> [].

Lemma multi_loop_entry ws r entry out :
  ~ In 0 ws -> multi_loop (ws ++ r) entry out = multi_loop r (entry ++ ws) out.
Proof.
  revert entry. induction ws as [|w ws IH]; intros entry Hw; cbn; [by rewrite app_nil_r|].
  destruct (Z.eqb_spec w 0) as [->|]; [exfalso; apply Hw; by left|].
  rewrite IH, <- app_assoc; [done|]. intros Hi. apply Hw. by right.
Qed.

Lemma multi_loop_ok vs k out :
  Forall storable vs ->
  multi_loop (flat_map (fun v => encode_utf16 v ++ [0]) vs ++ repeat 0 (S k)) [] out
  = Ok (out ++ vs).
Proof.
  revert out. induction vs as [|v vs IH]; intros out H; cbn [flat_map app].
  { cbn. by rewrite nonzero_repeat, app_nil_r. }
  inversion H as [|? ? (Hv & Hn & Hne) Hvs]; subst. rewrite <- !app_assoc.
  rewrite multi_loop_entry by (by apply no_zero_words). cbn [app multi_loop Z.eqb].
  destruct (is_empty (encode_utf16 v)) eqn:Ee.
  { exfalso. apply Hne, encode_utf16_nil. by destruct (encode_utf16 v). }
  unfold utf16_or. rewrite from_encode_utf16 by done. cbn [ok_or rbind].
  rewrite IH by done. by rewrite <- app_assoc.
Qed.

Lemma multi_loop_inv ws entry out vs :
  Forall u16_wf (entry ++ ws) -> ~ In 0 entry ->
  multi_loop ws entry out = Ok vs ->
  exists news k, vs = out ++ news /\ Forall storable news
    /\ entry ++ ws = flat_map (fun v => encode_utf16 v ++ [0]) news ++ repeat 0 (S k).
Proof.
  revert entry out. induction ws as [|w ws IH]; intros entry out Hw He H; cbn in H; [done|].
  destruct (Z.eqb_spec w 0) as [->|Hne].
  - destruct (is_empty entry) eqn:Ee.
    + destruct entry; [|done]. destruct (any nonzero ws) eqn:Ez; [done|].
      injection H as <-. exists [], (List.length ws). rewrite app_nil_r.
      split; [done|]. split; [constructor|]. cbn. f_equal. by apply nonzero_none.
    + apply rbind_ok in H as (s & Hs & H). unfold utf16_or in Hs.
      destruct (from_utf16 entry) as [s'|] eqn:Ef; [|done]. injection Hs as ->.
      apply Forall_app in Hw as [Hwe Hw]. apply encode_from_utf16 in Ef as [<- Hs]; [|done].
      inversion Hw; subst. apply IH in H as (news & k & -> & Hn & Hr); [|done|by intros []].
      exists (s :: news), k. rewrite <- app_assoc. split; [done|]. split.
      * constructor; [|done]. split; [done|]. split.
        { intros Hi. by apply He, encode_utf16_zero. }
        intros ->. done.
      * cbn [app] in Hr. rewrite Hr. cbn [flat_map]. by rewrite <- !app_assoc.
  - apply IH in H as (news & k & -> & Hn & Hr).
    + exists news, k. rewrite <- app_assoc in Hr. done.
    + by rewrite <- app_assoc.
    + intros [Hi|Hi]%in_app_iff; [done|]. destruct Hi as [|[]]; done.
Qed.

Lemma last_repeat_zero ws k : last (ws ++ repeat 0 (S k)) = Some 0.
Proof.
  rewrite last_app. replace (repeat 0 (S k)) with (repeat 0 k ++ [0])
    by (clear; induction k; cbn in *; congruence).
  by rewrite last_snoc.
Qed.

Lemma words_wf b : Forall u8_wf b -> Forall u16_wf (bytes_to_words b).
Proof.
  remember (List.length b) as n eqn:En. assert (Hn : (List.length b <= n)%nat) by lia. clear En.
  revert b Hn. induction n as [|n IH]; intros [|lo [|hi r]] Hn H; try (constructor; fail).
  - cbn in Hn. lia.
  - inversion H as [|? ? H1 Hr]; subst. inversion Hr as [|? ? H2 Hr2]; subst.
    cbn. constructor; [unfold u16_wf, u8_wf, u16_max in *; lia|]. apply IH; [cbn in Hn; lia|done].
Qed.

(** The strict REG_MULTI_SZ decoder accepts exactly the encodings. *)
Lemma bytes_to_wide_multi_spec b vs :
  Forall u8_wf b -> b <> [] -> Nat.even (List.length b) = true ->
  (bytes_to_wide_multi b = Ok vs <->
   Forall storable vs /\
   exists k, bytes_to_words b = flat_map (fun v => encode_utf16 v ++ [0]) vs ++ repeat 0 (S k)).
Proof.
  intros Hb Hne Hev. unfold bytes_to_wide_multi.
  rewrite (proj2 (is_empty_false b)), <- Nat.negb_even, Hev by done. cbn [negb].
  split.
  - case_bool_decide; [|done]. cbn [negb]. intros Hm.
    apply multi_loop_inv in Hm as (news & k & -> & Hn & Hr); [|by apply words_wf|by intros []].
    cbn [app] in *. split; [done|]. by exists k.
  - intros (Hs & k & ->). rewrite bool_decide_eq_true_2 by apply last_repeat_zero.
    cbn [negb]. by apply multi_loop_ok.
Qed.

(** The REG_MULTI_SZ decoder is strict: a non-empty buffer of whole words is
    read as [vs] exactly when it is the encoding of [vs] (entries that are not
    empty and hold no NUL, each NUL-terminated) followed by the block
    terminator and nothing but NUL padding. A truncated, unterminated or
    trailing-garbage value is an error, never a shorter list. *)
Theorem bytes_to_wide_multi_iff b vs :
  Forall u8_wf b -> b <> [] -> Nat.even (List.length b) = true ->
  (bytes_to_wide_multi b = Ok vs <->
   Forall storable vs /\
   exists k, bytes_to_words b = flat_map (fun v => encode_utf16 v ++ [0]) vs ++ repeat 0 (S k)).
Proof. apply bytes_to_wide_multi_spec. Qed.

(** [alpha\0beta]: truncated, and the empty block. *)
Definition sample_block : list Z := multi_bytes [&"A=1"; &"B=2"].
Example multi_truncated :
  bytes_to_wide_multi (wide_to_bytes (&"alpha" ++ [0] ++ &"beta"))
  = Err (Registry &"REG_MULTI_SZ value is not NUL-terminated — corrupt or truncated").
Proof. vm_compute. reflexivity. Qed.

Lemma bytes_to_wide_multi_iff_witness :
  bytes_to_wide_multi sample_block = Ok [&"A=1"; &"B=2"].
Proof.
  apply bytes_to_wide_multi_iff.
  - apply Forall_forall. intros x Hx. vm_compute in Hx.
    repeat (apply elem_of_cons in Hx as [->|Hx]; [unfold u8_wf; lia|]). by apply elem_of_nil in Hx.
  - vm_compute. discriminate.
  - vm_compute. reflexivity.
  - split; [|by exists O].
    repeat constructor; unfold scalar; try lia; try discriminate;
      intros H; vm_compute in H; intuition discriminate.
Defined.

Lemma multi_words_wf vs : Forall storable vs -> Forall u16_wf (multi_words vs).
Proof.
  intros H. unfold multi_words. apply Forall_app.
  assert (u16_wf 0) by (unfold u16_wf, u16_max; lia). split; [|by constructor].
  induction H as [|v vs (Hv & _ & _) _ IH]; cbn; [constructor|].
  apply Forall_app. split; [|done]. apply Forall_app. split; [by apply encode_utf16_words|by constructor].
Qed.

Lemma bytes_to_wide_multi_of vs :
  Forall storable vs -> bytes_to_wide_multi (multi_bytes vs) = Ok vs.
Proof.
  intros H. unfold bytes_to_wide_multi, multi_bytes.
  rewrite wide_nil, wide_even, words_of_wide by (by apply multi_words_wf). unfold multi_words.
  destruct (is_empty _) eqn:Ee; [by destruct (flat_map _ vs)|].
  rewrite bool_decide_eq_true_2 by (apply (last_repeat_zero _ 0)). cbn [negb].
  apply (multi_loop_ok vs 0 []). done.
Qed.

(** ** Numbers *)

Lemma length_le_bytes n v : List.length (to_le_bytes n v) = n.
Proof. revert v. induction n as [|n IH]; intros v; cbn; [done|]. by rewrite IH. Qed.

Lemma from_to_le_bytes n v : 0 <= v < 256 ^ Z.of_nat n -> from_le_bytes (to_le_bytes n v) = v.
Proof.
  revert v. induction n as [|n IH]; intros v Hv; cbn [to_le_bytes from_le_bytes].
  { cbn in Hv. lia. }
  rewrite Nat2Z.inj_succ, Z.pow_succ_r in Hv by lia.
  rewrite IH; [pose proof (Z.div_mod v 256); lia|].
  split; [apply Z.div_pos; lia|apply Z.div_lt_upper_bound; lia].
Qed.

Lemma decode_u32_of name v : u32_wf v -> decode_u32 name REG_DWORD (to_le_bytes 4 v) = Ok v.
Proof.
  intros Hv. unfold decode_u32. cbn [Z.eqb REG_DWORD Pos.eqb]. rewrite length_le_bytes. cbn [Nat.eqb].
  rewrite from_to_le_bytes; [done|]. unfold u32_wf, u32_max in Hv. cbn. lia.
Qed.

(** A number is read from the registry only when nothing is lost: the
    buffer is exactly four bytes of REG_DWORD or eight of REG_QWORD whose value
    fits in 32 bits; every other size, type or larger value is an error. *)
Theorem decode_u32_iff name ty b v :
  Forall u8_wf b ->
  (decode_u32 name ty b = Ok v <->
   from_le_bytes b = v /\
   (ty = REG_DWORD /\ List.length b = 4%nat
    \/ ty = REG_QWORD /\ List.length b = 8%nat /\ u32_wf v)).
Proof.
  intros Hb. unfold decode_u32.
  assert (Hpos : 0 <= from_le_bytes b)
    by (induction Hb as [|x b Hx _ IH]; cbn; unfold u8_wf in *; lia).
  destruct (Z.eqb_spec ty REG_DWORD) as [->|Hd].
  - destruct (Nat.eqb_spec (List.length b) 4) as [E|E]; [|naive_solver].
    split; [intros [= <-]; auto|]. by intros [<- _].
  - destruct (Z.eqb_spec ty REG_QWORD) as [->|Hq]; [|naive_solver].
    destruct (Nat.eqb_spec (List.length b) 8) as [E|E]; [|naive_solver]. cbv zeta.
    destruct (Z.ltb_spec u32_max (from_le_bytes b)).
    + split; [done|]. intros [<- [[? _]|(_ & _ & Hu)]]; [done|]. unfold u32_wf in Hu. lia.
    + split; [|by intros [<- _]]. intros [= <-]. split; [done|]. right. unfold u32_wf. auto.
Qed.

Lemma decode_u32_iff_witness :
  decode_u32 &"AppPriority" REG_QWORD [32; 0; 0; 0; 0; 0; 0; 0] = Ok 32.
Proof.
  apply decode_u32_iff;
    [repeat (constructor; [unfold u8_wf; lia|]); constructor|]. split; [reflexivity|]. right.
  split; [reflexivity|]. split; [reflexivity|]. unfold u32_wf, u32_max. lia.
Defined.

(** ** Comma notation *)

Definition escape_char (c : rchar) : rstr :=
  if c =? c_backslash then [c_backslash; c_backslash]
  else if c =? c_comma then [c_backslash; c_comma] else [c].

Lemma escape_entry_flat e : escape_entry e = flat_map escape_char e.
Proof.
  unfold escape_entry, replace_char. induction e as [|c e IH]; [done|].
  cbn [flat_map]. rewrite flat_map_app, IH. f_equal. unfold escape_char.
  destruct (Z.eqb_spec c c_backslash) as [->|]; [done|].
  cbn [flat_map]. by destruct (c =? c_comma).
Qed.

Lemma split_loop_escaped e r cur out :
  split_loop (escape_entry e ++ r) cur out = split_loop r (cur ++ e) out.
Proof.
  rewrite escape_entry_flat. revert cur. induction e as [|c e IH]; intros cur.
  { by rewrite app_nil_r. }
  cbn [flat_map]. rewrite <- app_assoc.
  replace (cur ++ c :: e) with ((cur ++ [c]) ++ e) by (by rewrite <- app_assoc). rewrite <- IH.
  unfold escape_char. destruct (Z.eqb_spec c c_backslash) as [->|Hb]; [done|].
  destruct (Z.eqb_spec c c_comma) as [->|Hc]; [done|].
  cbn [app split_loop]. by rewrite (proj2 (Z.eqb_neq _ _)), (proj2 (Z.eqb_neq _ _)) by done.
Qed.

Lemma split_loop_join es cur out :
  es <> [] ->
  split_loop (join_multi_value es) cur out
  = out ++ match es with e :: r => (cur ++ e) :: r | [] => [] end.
Proof.
  intros H. unfold join_multi_value. revert cur out. induction es as [|e es IH]; intros cur out; [done|].
  destruct es as [|e2 es].
  - cbn [map join]. rewrite <- (app_nil_r (escape_entry e)), split_loop_escaped. done.
  - change (join [c_comma] (map escape_entry (e :: e2 :: es))) with
      (escape_entry e ++ c_comma :: join [c_comma] (map escape_entry (e2 :: es))).
    rewrite split_loop_escaped. cbn [split_loop]. cbn [Z.eqb c_comma c_backslash Pos.eqb].
    rewrite IH by done. by rewrite <- app_assoc.
Qed.

(** What [get] prints for a multi-string value, [set] stores back: the
    entries survive the comma notation for every content (commas, backslashes,
    UNC paths, trailing blanks), and empty entries, which REG_MULTI_SZ cannot
    hold, are the only ones dropped. *)
Theorem split_join_multi_value es :
  split_multi_value (join_multi_value es) = List.filter (fun s => negb (is_empty s)) es.
Proof.
  unfold split_multi_value. destruct es as [|e es]; [done|].
  rewrite split_loop_join by done. done.
Qed.

Example unc_entry :
  split_multi_value &"DIR=\\\\server\\share,X=a\,b" = [&"DIR=\\server\share"; &"X=a,b"].
Proof. vm_compute. reflexivity. Qed.
