(* ===== verification/RegApi.v ===== *)
(** * The Windows registry as the program calls it: registry [imp.rs], helpers

    [RegApi] lists the calls ([RegOpenKeyEx], [RegQueryValueEx], ...) and the
    invariant-locale case mapping; a key handle is the path it was opened with.
    [RegLaws] states what the calls promise about the stored values. On top of
    the calls stand the program's typed readers, writers and enumerations. *)

From Stdlib Require Import ZArith Lia List.
From S2P Require Import Prelude Text BTree Model RegCodec.

(** [KEY_READ], [KEY_READ | KEY_WRITE] and [parameters_rw_sam()]. *)
Inductive Sam := KeyRead | KeyReadWrite | KeyReconcile.

Abbreviation hkey := (list (list Z)) (only parsing).

Class RegApi (W : Type) := {
  (** [Display] of a Windows error code. *)
  win_message : Z -> rstr;
  (** [LCMapStringEx] with the invariant upper-case mapping. *)
  upper : list Z -> result rstr (list Z);
  reg_open : hkey -> Sam -> W -> result Z unit * W;
  reg_create : hkey -> Sam -> W -> result Z unit * W;
  reg_query_size : hkey -> rstr -> W -> result Z (Z * Z) * W;
  reg_query : hkey -> rstr -> Z -> W -> result Z (Z * list Z) * W;
  reg_set : hkey -> rstr -> Z -> list Z -> W -> result Z unit * W;
  reg_delete_value : hkey -> rstr -> W -> result Z unit * W;
  reg_delete_tree : hkey -> rstr -> W -> result Z unit * W;
  (** index, capacity of the name buffer, capacity of the value buffer if any *)
  reg_enum_value : hkey -> Z -> Z -> option Z -> W -> result Z (list Z * Z * list Z) * W;
  reg_enum_key : hkey -> Z -> Z -> W -> result Z (list Z) * W }.

Definition ERROR_FILE_NOT_FOUND : Z := 2.
Definition ERROR_MORE_DATA : Z := 234.
Definition ERROR_NO_MORE_ITEMS : Z := 259.

(** ** Calls with the program's error mapping *)

Section Calls.
Context {W : Type} `{API : RegApi W}.
Abbreviation Op := (M W Error) (only parsing).

Definition map_reg_error (context : rstr) (code : Z) : Error :=
  if code =? ERROR_FILE_NOT_FOUND then NotFound context
  else Registry (context ++ &": " ++ win_message code).

Definition call {A} (context : rstr) (f : W -> result Z A * W) : Op A :=
  fun w => let '(r, w') := f w in (map_err (map_reg_error context) r, w').

(** [ignore_missing] *)
Definition ignore_missing (m : Op unit) : Op unit :=
  fun w => match m w with
           | (Err (NotFound _), w') => (Ok tt, w')
           | r => r
           end.

(** The recurring [match open_subkey(..) { Err(NotFound) => .. }]. *)
Definition or_missing {A} (m : Op A) : Op (option A) :=
  fun w => match m w with
           | (Ok a, w') => (Ok (Some a), w')
           | (Err (NotFound _), w') => (Ok None, w')
           | (Err e, w') => (Err e, w')
           end.

Definition open_subkey (parent : hkey) (path : rstr) (sam : Sam) : Op hkey :=
  call (&"RegOpenKeyEx(" ++ path ++ &")") (reg_open (parent ++ [path]) sam) ;!
  mret (parent ++ [path]).

Definition create_subkey_under (parent : hkey) (path : rstr) : Op hkey :=
  call (&"RegCreateKeyEx(" ++ path ++ &")") (reg_create (parent ++ [path]) KeyReconcile) ;!
  mret (parent ++ [path]).

Definition query_value_raw (key : hkey) (name : rstr) : Op (Z * list Z) :=
  let! (_, bytes_needed) := call (&"RegQueryValueEx(" ++ name ++ &") size") (reg_query_size key name) in
  call (&"RegQueryValueEx(" ++ name ++ &")") (reg_query key name bytes_needed).

Definition delete_value (key : hkey) (name : rstr) : Op unit :=
  call (&"RegDeleteValue(" ++ name ++ &")") (reg_delete_value key name).
Definition delete_subtree (key : hkey) (subkey : rstr) : Op unit :=
  call (&"RegDeleteTree(" ++ subkey ++ &")") (reg_delete_tree key subkey).

Definition set_raw (key : hkey) (name : rstr) (kind : Z) (b : list Z) : Op unit :=
  call (&"RegSetValueEx(" ++ name ++ &")") (reg_set key name kind b).

(** ** Typed writers *)

Definition write_string_typed (key : hkey) (name value : rstr) (kind : Z) : Op unit :=
  if contains_char c_nul value
  then mfail (Registry (&"value '" ++ name
                        ++ &"' contains an embedded NUL and cannot be stored as REG_SZ"))
  else set_raw key name kind (string_bytes value).

Definition write_string (key : hkey) (name value : rstr) : Op unit :=
  write_string_typed key name value REG_SZ.

Definition write_multi_string (key : hkey) (name : rstr) (values : list rstr) : Op unit :=
  if any (fun v => contains_char c_nul v || is_empty v) values
  then mfail (Registry (&"value '" ++ name ++ &"' has an empty or NUL-containing entry and cannot be stored as REG_MULTI_SZ"))
  else set_raw key name REG_MULTI_SZ (multi_bytes values).

Definition write_u32 (key : hkey) (name : rstr) (value : Z) : Op unit :=
  set_raw key name REG_DWORD (to_le_bytes 4 value).

(** ** Typed readers *)

Definition read_typed_string (key : hkey) (name : rstr) : Op (rstr * Z) :=
  let! (ty, b) := query_value_raw key name in
  if negb (ty =? REG_SZ) && negb (ty =? REG_EXPAND_SZ)
  then mfail (Registry (&"value " ++ name ++ &" is not REG_SZ"))
  else let! s := mlift (bytes_to_wide_string b) in mret (s, ty).

Definition read_string (key : hkey) (name : rstr) : Op rstr :=
  let! (s, _) := read_typed_string key name in mret s.

Definition read_multi_string (key : hkey) (name : rstr) : Op (list rstr) :=
  let! (ty, b) := query_value_raw key name in
  if negb (ty =? REG_MULTI_SZ)
  then mfail (Registry (&"value " ++ name ++ &" is not REG_MULTI_SZ"))
  else mlift (bytes_to_wide_multi b).

Definition read_u32 (key : hkey) (name : rstr) : Op Z :=
  let! (ty, b) := query_value_raw key name in mlift (decode_u32 name ty b).

Definition opt_string (key : hkey) (name : rstr) : Op (option rstr) :=
  or_missing (read_string key name).
Definition opt_multi_string (key : hkey) (name : rstr) : Op (option (list rstr)) :=
  or_missing (read_multi_string key name).
Definition opt_u32 (key : hkey) (name : rstr) : Op (option Z) :=
  or_missing (read_u32 key name).

(** The value, and the set of names found as REG_EXPAND_SZ so far. *)
Definition opt_config_string (key : hkey) (name : rstr) (marked : bset) : Op (option rstr * bset) :=
  let! o := or_missing (read_typed_string key name) in
  mret (match o with
        | Some (value, kind) =>
            (Some value, if kind =? REG_EXPAND_SZ then bs_insert name marked else marked)
        | None => (None, marked)
        end).

(** ** Case identity of names *)

Definition windows_name_key (name : rstr) : result Error (list Z) :=
  let source := encode_utf16 name in
  if is_empty source then Ok []
  else map_err Registry (upper source).

(** ** Enumeration

    The loops end when the system reports no more items; [fuel] bounds the
    rounds (see [enumerate_value_names_all] for how much is enough). *)

Definition NAME_CAP_LIMIT : Z := 65536.
Definition VALUE_CAP_LIMIT : Z := 1048576.

Definition enum_failed (call_name : rstr) (index code : Z) : Error :=
  Registry (call_name ++ &"(index " ++ to_dec index ++ &") failed: WIN32_ERROR " ++ to_dec code).
Definition no_fuel : Error := Registry &"enumeration did not end".

Fixpoint enum_typed_loop (fuel : nat) (key : hkey) (index name_cap value_cap : Z)
    (out : list (rstr * rstr * Z)) : Op (list (rstr * rstr * Z)) :=
  match fuel with
  | O => mfail no_fuel
  | S f =>
      let! ret := fun w => let '(r, w') := reg_enum_value key index name_cap (Some value_cap) w in (Ok r, w') in
      match ret with
      | Err code =>
          if code =? ERROR_NO_MORE_ITEMS then mret out
          else if code =? ERROR_MORE_DATA then
            if (NAME_CAP_LIMIT <=? name_cap) && (VALUE_CAP_LIMIT <=? value_cap)
            then mfail (Registry (&"registry value at index " ++ to_dec index
                                  ++ &" exceeds the supported size"))
            else enum_typed_loop f key index (Z.min (name_cap * 2) NAME_CAP_LIMIT)
                   (Z.min (value_cap * 2) VALUE_CAP_LIMIT) out
          else mfail (enum_failed &"RegEnumValue" index code)
      | Ok (name_words, ty, b) =>
          let! name := mlift (decode_registry_name name_words) in
          if negb (ty =? REG_SZ) && negb (ty =? REG_EXPAND_SZ)
          then mfail (Registry (&"registry value '" ++ name ++ &"' (index " ++ to_dec index
                                ++ &") is not a string (REG type " ++ to_dec ty ++ &")"))
          else
            let! s := mlift (bytes_to_wide_string b) in
            enum_typed_loop f key (index + 1) name_cap value_cap (out ++ [(name, s, ty)])
      end
  end.

Definition enumerate_typed_string_values (fuel : nat) (key : hkey) : Op (list (rstr * rstr * Z)) :=
  enum_typed_loop fuel key 0 256 4096 [].
Definition enumerate_string_values (fuel : nat) (key : hkey) : Op (list (rstr * rstr)) :=
  let! l := enumerate_typed_string_values fuel key in mret (map fst l).

Fixpoint enum_subkey_loop (fuel : nat) (key : hkey) (index name_cap : Z) (out : list rstr)
    : Op (list rstr) :=
  match fuel with
  | O => mfail no_fuel
  | S f =>
      let! ret := fun w => let '(r, w') := reg_enum_key key index name_cap w in (Ok r, w') in
      match ret with
      | Err code =>
          if code =? ERROR_NO_MORE_ITEMS then mret out
          else if code =? ERROR_MORE_DATA then
            if NAME_CAP_LIMIT <=? name_cap
            then mfail (Registry (&"registry subkey name at index " ++ to_dec index
                                  ++ &" exceeds the supported size"))
            else enum_subkey_loop f key index (Z.min (name_cap * 2) NAME_CAP_LIMIT) out
          else mfail (enum_failed &"RegEnumKeyEx" index code)
      | Ok words =>
          let! name := mlift (decode_registry_name words) in
          enum_subkey_loop f key (index + 1) name_cap (out ++ [name])
      end
  end.

Definition enumerate_subkey_names (fuel : nat) (key : hkey) : Op (list rstr) :=
  enum_subkey_loop fuel key 0 256 [].

Fixpoint enum_value_name_loop (fuel : nat) (key : hkey) (index capacity : Z) (out : list rstr)
    : Op (list rstr) :=
  match fuel with
  | O => mfail no_fuel
  | S f =>
      let! ret := fun w => let '(r, w') := reg_enum_value key index capacity None w in (Ok r, w') in
      match ret with
      | Err code =>
          if code =? ERROR_NO_MORE_ITEMS then mret out
          else if (code =? ERROR_MORE_DATA) && (capacity <? 65536)
          then enum_value_name_loop f key index (capacity * 2) out
          else mfail (map_reg_error &"RegEnumValue(names)" code)
      | Ok (words, _, _) =>
          let! name := mlift (decode_registry_name words) in
          enum_value_name_loop f key (index + 1) capacity (out ++ [name])
      end
  end.

Definition enumerate_value_names (fuel : nat) (key : hkey) : Op (list rstr) :=
  enum_value_name_loop fuel key 0 256 [].
End Calls.

(** ** What the calls promise

    [val w K N] is the type and data stored in the key with case-folded path
    [K] under the case-folded name [N]. A call that fails changes nothing; only
    [reg_set] and the deletions change values. *)

Class RegLaws (W : Type) {API : RegApi W} := {
  fold : rstr -> list Z;
  val : W -> list (list Z) -> list Z -> option (Z * list Z);
  name_key_fold : forall n k, windows_name_key n = Ok k -> k = fold n;
  (** On ASCII names the invariant mapping is ASCII case folding. *)
  fold_ascii : forall a b, Forall (fun c => c < 128) a -> Forall (fun c => c < 128) b ->
    (fold a = fold b <-> eq_ignore_ascii_case a b = true);
  open_frame : forall k s w K N, val (reg_open k s w).2 K N = val w K N;
  create_frame : forall k s w K N, val (reg_create k s w).2 K N = val w K N;
  query_size_frame : forall k n w K N, val (reg_query_size k n w).2 K N = val w K N;
  query_frame : forall k n c w K N, val (reg_query k n c w).2 K N = val w K N;
  (** What a query returns is what is stored. *)
  query_law : forall k n c w v, (reg_query k n c w).1 = Ok v -> val w (map fold k) (fold n) = Some v;
  query_missing : forall k n w, (reg_query_size k n w).1 = Err ERROR_FILE_NOT_FOUND ->
    val w (map fold k) (fold n) = None;
  enum_value_frame : forall k i c v w K N, val (reg_enum_value k i c v w).2 K N = val w K N;
  enum_key_frame : forall k i c w K N, val (reg_enum_key k i c w).2 K N = val w K N;
  set_law : forall k n ty b w K N, val (reg_set k n ty b w).2 K N =
    if bool_decide (K = map fold k /\ N = fold n /\ (reg_set k n ty b w).1 = Ok tt)
    then Some (ty, b) else val w K N;
  delete_value_law : forall k n w K N, val (reg_delete_value k n w).2 K N =
    if bool_decide (K = map fold k /\ N = fold n /\ (reg_delete_value k n w).1 = Ok tt)
    then None else val w K N;
  (** The value is absent after the system reports it missing. *)
  delete_value_missing : forall k n w,
    (reg_delete_value k n w).1 = Err ERROR_FILE_NOT_FOUND -> val w (map fold k) (fold n) = None;
  delete_tree_law : forall k n w K N, ~ (map fold k ++ [fold n] `prefix_of` K) ->
    val (reg_delete_tree k n w).2 K N = val w K N }.

(** Operations that leave every value of the keys in [P] as it was. *)
Section Frames.
Context {W : Type} `{L : RegLaws W}.

Definition frames {A} (P : list (list Z) -> Prop) (m : M W Error A) : Prop :=
  forall w K N, P K -> val (m w).2 K N = val w K N.

Lemma frames_ret {A} P (a : A) : frames P (mret a).
Proof. by intros w K N _. Qed.
Lemma frames_fail {A} P e : frames P (mfail (A:=A) e).
Proof. by intros w K N _. Qed.
Lemma frames_lift {A} P (r : result Error A) : frames P (mlift r).
Proof. by intros w K N _. Qed.

Lemma frames_bind {A B} P (m : M W Error A) (k : A -> M W Error B) :
  frames P m -> (forall a, frames P (k a)) -> frames P (mbind m k).
Proof.
  intros Hm Hk w K N HP. unfold mbind. specialize (Hm w K N HP).
  destruct (m w) as [[a|e] w1]; cbn in *; [by rewrite Hk|done].
Qed.

Lemma frames_for_each {A} P (f : A -> M W Error unit) l :
  (forall x, frames P (f x)) -> frames P (mfor_each f l).
Proof.
  intros Hf. induction l as [|x l IH]; cbn; [apply frames_ret|].
  by apply frames_bind; [apply Hf|intros _].
Qed.

Lemma frames_fold {A B} P (f : B -> A -> M W Error B) l b :
  (forall b x, frames P (f b x)) -> frames P (mtry_fold f l b).
Proof.
  intros Hf. revert b. induction l as [|x l IH]; intros b; cbn; [apply frames_ret|].
  apply frames_bind; [apply Hf|]. intros b'. apply IH.
Qed.

Lemma frames_call {A} P c (f : W -> result Z A * W) :
  (forall w K N, P K -> val (f w).2 K N = val w K N) -> frames P (call c f).
Proof.
  intros Hf w K N HP. unfold call. specialize (Hf w K N HP). by destruct (f w).
Qed.

Lemma frames_try {A} P (m : M W Error A) : frames P m -> frames P (mtry (F:=Error) m).
Proof. intros Hm w K N HP. unfold mtry. specialize (Hm w K N HP). by destruct (m w). Qed.

Lemma frames_ignore P m : frames P m -> frames P (ignore_missing m).
Proof.
  intros Hm w K N HP. unfold ignore_missing. specialize (Hm w K N HP).
  destruct (m w) as [[[]|[]] w1]; done.
Qed.

Lemma frames_or_missing {A} P (m : M W Error A) : frames P m -> frames P (or_missing m).
Proof.
  intros Hm w K N HP. unfold or_missing. specialize (Hm w K N HP).
  destruct (m w) as [[a|[]] w1]; done.
Qed.

Lemma frames_if {A} P (b : bool) (m1 m2 : M W Error A) :
  frames P m1 -> frames P m2 -> frames P (if b then m1 else m2).
Proof. by destruct b. Qed.

Lemma frames_open P parent path s : frames P (open_subkey parent path s).
Proof.
  apply frames_bind; [|intros _; apply frames_ret].
  apply frames_call. intros. apply open_frame.
Qed.
Lemma frames_create P parent path : frames P (create_subkey_under parent path).
Proof.
  apply frames_bind; [|intros _; apply frames_ret].
  apply frames_call. intros. apply create_frame.
Qed.
Lemma frames_query P key name : frames P (query_value_raw key name).
Proof.
  apply frames_bind; [|intros []]; apply frames_call; intros;
    [apply query_size_frame|apply query_frame].
Qed.

Lemma frames_enum {A} P (f : W -> result Z A * W) :
  (forall w K N, val (f w).2 K N = val w K N) ->
  frames P (fun w => let '(r, w') := f w in (Ok r, w')).
Proof. intros Hf w K N HP. specialize (Hf w K N). by destruct (f w). Qed.
End Frames.

Create HintDb regframes.
#[export] Hint Resolve frames_ret frames_fail frames_lift frames_ignore frames_or_missing
  frames_open frames_create frames_query frames_try : regframes.

(** Walk through an operation: binds, matches and the hints above. *)
Ltac frame_walk :=
  repeat first
    [ solve [auto with regframes]
    | apply frames_bind; [|intros ?]
    | apply frames_for_each; intros ?
    | apply frames_fold; intros ? ?
    | apply frames_ignore | apply frames_or_missing | apply frames_try
    | match goal with |- frames _ (match ?x with _ => _ end) => destruct x end ].

Section FrameLemmas.
Context {W : Type} `{L : RegLaws W}.

Lemma frames_value_names P fuel key : frames P (enumerate_value_names fuel key).
Proof.
  unfold enumerate_value_names. generalize 0, 256, ([] : list rstr).
  induction fuel as [|f IH]; intros i c out; cbn [enum_value_name_loop]; [auto with regframes|].
  apply frames_bind; [apply frames_enum; intros; apply enum_value_frame|intros ?].
  frame_walk; apply IH.
Qed.

Lemma frames_subkey_names P fuel key : frames P (enumerate_subkey_names fuel key).
Proof.
  unfold enumerate_subkey_names. generalize 0, 256, ([] : list rstr).
  induction fuel as [|f IH]; intros i c out; cbn [enum_subkey_loop]; [auto with regframes|].
  apply frames_bind; [apply frames_enum; intros; apply enum_key_frame|intros ?].
  frame_walk; apply IH.
Qed.

Lemma frames_typed_values P fuel key : frames P (enumerate_typed_string_values fuel key).
Proof.
  unfold enumerate_typed_string_values. generalize 0, 256, 4096, ([] : list (rstr * rstr * Z)).
  induction fuel as [|f IH]; intros i c v out; cbn [enum_typed_loop]; [auto with regframes|].
  apply frames_bind; [apply frames_enum; intros; apply enum_value_frame|intros ?].
  frame_walk; apply IH.
Qed.

(** Operations on values of another key, or on a subtree elsewhere. *)
Lemma frames_set P key name ty b : ~ P (map fold key) -> frames P (set_raw key name ty b).
Proof.
  intros HP. apply frames_call. intros w K N HK. rewrite set_law, bool_decide_eq_false_2; [done|].
  intros (-> & _). done.
Qed.
Lemma frames_delete_value P key name : ~ P (map fold key) -> frames P (delete_value key name).
Proof.
  intros HP. apply frames_call. intros w K N HK.
  rewrite delete_value_law, bool_decide_eq_false_2; [done|]. intros (-> & _). done.
Qed.
Lemma frames_delete_subtree P key sub :
  (forall K, P K -> ~ (map fold key ++ [fold sub] `prefix_of` K)) ->
  frames P (delete_subtree key sub).
Proof. intros HP. apply frames_call. intros w K N HK. apply delete_tree_law. auto. Qed.

Lemma frames_write_string P key name value kind :
  ~ P (map fold key) -> frames P (write_string_typed key name value kind).
Proof.
  intros HP. unfold write_string_typed. apply frames_if; [apply frames_fail|by apply frames_set].
Qed.

(** ** What the readers return *)

Lemma query_value_raw_ok key name w v w' :
  query_value_raw key name w = (Ok v, w') -> val w (map fold key) (fold name) = Some v.
Proof.
  unfold query_value_raw, mbind, call. pose proof (query_size_frame key name w) as Hf.
  destruct (reg_query_size key name w) as [[[ty need]|c] w1]; [|done]. cbn [map_err snd] in *.
  pose proof (query_law key name need w1) as Hq.
  destruct (reg_query key name need w1) as [[v0|c] w2]; [|done]. intros [= <- <-].
  rewrite <- Hf. by apply Hq.
Qed.

(** The typed string stored under a name. *)
Definition string_at (K : list (list Z)) (w : W) (name s : rstr) : Prop :=
  exists ty b, val w K (fold name) = Some (ty, b) /\ (ty = REG_SZ \/ ty = REG_EXPAND_SZ)
    /\ bytes_to_wide_string b = Ok s.

Lemma opt_string_some key name w s w' :
  opt_string key name w = (Ok (Some s), w') -> string_at (map fold key) w name s.
Proof.
  unfold opt_string, or_missing, read_string, read_typed_string, mbind at 1 2.
  destruct (query_value_raw key name w) as [[[ty b]|[]] w1] eqn:Eq; try done.
  apply query_value_raw_ok in Eq.
  destruct (negb (ty =? REG_SZ) && negb (ty =? REG_EXPAND_SZ)) eqn:Et; [done|].
  unfold mbind, mlift. destruct (bytes_to_wide_string b) as [s0|[]] eqn:Eb; try done.
  intros [= <- <-]. exists ty, b. split; [done|]. split; [|done].
  apply andb_false_iff in Et as [Et|Et]; bool_to_prop; auto.
Qed.

Lemma frames_opt_string P key name : frames P (opt_string key name).
Proof. unfold opt_string, read_string, read_typed_string. frame_walk. Qed.
End FrameLemmas.

#[export] Hint Resolve frames_opt_string : regframes.

#[export] Hint Resolve frames_value_names frames_subkey_names frames_typed_values frames_set
  frames_delete_value frames_delete_subtree frames_write_string : regframes.
