(* ===== verification/RegConfig.v ===== *)
(** * The managed configuration in the registry: registry [imp.rs]

    Reading [Parameters] into a [ManagedApplicationConfig], the checks before a
    write, and the write-first reconciliation that stores a configuration. *)

From Stdlib Require Import ZArith Lia List.
From S2P Require Import Prelude Text BTree Model Validate Expansion RegCodec RegApi.

(** ** nssm_keys *)

Definition APPLICATION := &"Application".
Definition APP_PARAMETERS := &"AppParameters".
Definition APP_DIRECTORY := &"AppDirectory".
Definition APP_ENVIRONMENT := &"AppEnvironment".
Definition APP_ENVIRONMENT_EXTRA := &"AppEnvironmentExtra".
Definition APP_EXIT := &"AppExit".
Definition APP_RESTART_DELAY := &"AppRestartDelay".
Definition APP_THROTTLE := &"AppThrottle".
Definition APP_STOP_METHOD_SKIP := &"AppStopMethodSkip".
Definition APP_KILL_CONSOLE_GRACE := &"AppStopMethodConsole".
Definition APP_KILL_WINDOW_GRACE := &"AppStopMethodWindow".
Definition APP_KILL_THREADS_GRACE := &"AppStopMethodThreads".
Definition APP_KILL_PROCESS_TREE := &"AppKillProcessTree".
Definition APP_STDIN := &"AppStdin".
Definition APP_STDOUT := &"AppStdout".
Definition APP_STDERR := &"AppStderr".
Definition APP_STDIO_SHARING := &"ShareMode".
Definition APP_STDIO_DISPOSITION := &"CreationDisposition".
Definition APP_STDIO_FLAGS := &"FlagsAndAttributes".
Definition APP_STDIO_COPY_AND_TRUNCATE := &"CopyAndTruncate".
Definition APP_ROTATE := &"AppRotateFiles".
Definition APP_ROTATE_ONLINE := &"AppRotateOnline".
Definition APP_ROTATE_SECONDS := &"AppRotateSeconds".
Definition APP_ROTATE_BYTES_LOW := &"AppRotateBytes".
Definition APP_ROTATE_BYTES_HIGH := &"AppRotateBytesHigh".
Definition APP_ROTATE_DELAY := &"AppRotateDelay".
Definition APP_TIMESTAMP_LOG := &"AppTimestampLog".
Definition APP_PRIORITY := &"AppPriority".
Definition APP_AFFINITY := &"AppAffinity".
Definition APP_EVENTS := &"AppEvents".

Definition stdio_bases : list rstr := [APP_STDIN; APP_STDOUT; APP_STDERR].
Definition stdio_suffixes : list rstr :=
  [APP_STDIO_SHARING; APP_STDIO_DISPOSITION; APP_STDIO_FLAGS; APP_STDIO_COPY_AND_TRUNCATE].

Definition MANAGED_VALUE_NAMES : list rstr :=
  [APPLICATION; APP_PARAMETERS; APP_DIRECTORY; APP_ENVIRONMENT; APP_ENVIRONMENT_EXTRA;
   APP_PRIORITY; APP_AFFINITY; APP_RESTART_DELAY; APP_THROTTLE; APP_STOP_METHOD_SKIP;
   APP_KILL_CONSOLE_GRACE; APP_KILL_WINDOW_GRACE; APP_KILL_THREADS_GRACE;
   APP_KILL_PROCESS_TREE; APP_STDIN; APP_STDOUT; APP_STDERR; APP_ROTATE; APP_ROTATE_ONLINE;
   APP_ROTATE_SECONDS; APP_ROTATE_BYTES_LOW; APP_ROTATE_BYTES_HIGH; APP_ROTATE_DELAY;
   APP_TIMESTAMP_LOG].

Definition owned_value_names : list rstr :=
  MANAGED_VALUE_NAMES ++ flat_map (fun base => map (fun suffix => base ++ suffix) stdio_suffixes) stdio_bases.

(** ** Exit actions *)

Definition DEFAULT := &"default".

Definition normalize_exit_action_name (name : rstr) : result Error rstr :=
  if is_empty name || eq_ignore_ascii_case name DEFAULT then Ok DEFAULT
  else
    match parse_i32 name with
    | Some code => Ok (to_dec code)
    | None =>
        match parse_u32 name with
        | Some code => Ok (to_dec (as_i32 code))
        | None => Err (InvalidConfig (&"AppExit key '" ++ name ++ &"' is not a 32-bit exit code"))
        end
    end.

Definition insert_exit_action (out : btree ExitActionPolicy) (name : rstr) (a : ExitAction)
    : result Error (btree ExitActionPolicy) :=
  let? canonical := normalize_exit_action_name name in
  match bt_get canonical out with
  | Some previous =>
      if negb (bool_decide (action previous = a))
      then Err (InvalidConfig (&"conflicting AppExit aliases for '" ++ canonical ++ &"'"))
      else Ok out
  | None => Ok (bt_insert canonical (Build_ExitActionPolicy a) out)
  end.

(** The bodies of the loops over a map of exit actions. *)
Definition insert_policy (out : btree ExitActionPolicy) (e : rstr * ExitActionPolicy)
    : result Error (btree ExitActionPolicy) :=
  let '(name, policy) := e in insert_exit_action out name (action policy).

Definition parse_exit_action (value : rstr) : option ExitAction :=
  let v := to_ascii_lowercase (trim value) in
  if str_eqb v &"restart" then Some Restart
  else if str_eqb v &"ignore" then Some Ignore
  else if str_eqb v &"exit" then Some Exit
  else if str_eqb v &"suicide" then Some Suicide
  else None.

Definition exit_action_str (a : ExitAction) : rstr :=
  match a with
  | Restart => &"Restart" | Ignore => &"Ignore" | Exit => &"Exit" | Suicide => &"Suicide"
  end.

(** ** Checks before any mutation *)

Definition require_application (cfg : ManagedApplicationConfig) : result Error unit :=
  if is_some_and (fun app => negb (is_empty (trim app))) (application cfg) then Ok tt
  else Err (InvalidConfig &"managed config requires a non-empty Application value").

Definition check_nul (field value : rstr) : result Error unit :=
  if contains_char c_nul value
  then Err (InvalidConfig (field ++ &" contains an embedded NUL — registry strings cannot carry NULs (the value would be silently truncated or split)"))
  else Ok tt.

Definition check_some (field : rstr) (o : option rstr) : result Error unit :=
  match o with Some v => check_nul field v | None => Ok tt end.

Definition check_entries (field : rstr) (values : list rstr) : result Error unit :=
  for_each (fun '(i, v) => check_nul (field ++ &"[" ++ to_dec (Z.of_nat i) ++ &"]") v)
    (combine (seq 0 (List.length values)) values).

Definition precheck_no_embedded_nuls (cfg : ManagedApplicationConfig) : result Error unit :=
  check_some APPLICATION (application cfg) ;?
  check_some APP_PARAMETERS (app_parameters cfg) ;?
  check_some APP_DIRECTORY (app_directory cfg) ;?
  check_some APP_AFFINITY (affinity cfg) ;?
  check_entries APP_ENVIRONMENT (environment cfg) ;?
  check_entries APP_ENVIRONMENT_EXTRA (environment_extra cfg) ;?
  check_some APP_STDIN (path <$> stdin (io cfg)) ;?
  check_some APP_STDOUT (path <$> stdout (io cfg)) ;?
  check_some APP_STDERR (path <$> stderr (io cfg)) ;?
  for_each (fun name => check_nul (&"AppExit\" ++ name) name) (bt_keys (exit_actions cfg)) ;?
  for_each (fun h =>
    check_nul (&"AppEvents\" ++ event h) (event h) ;?
    check_nul (&"AppEvents\" ++ event h ++ &"\" ++ hook_action h) (hook_action h) ;?
    check_nul (&"AppEvents\" ++ event h ++ &"\" ++ hook_action h ++ &" (command)") (command h))
    (hooks cfg).

(** A variable reference: two percent signs with a non-empty odd piece. *)
Definition has_variable (value : rstr) : bool :=
  any (fun '(index, part) => Nat.odd index && negb (is_empty part))
    (combine (seq 0 (List.length (split_on (Z.eqb c_percent) value))) (split_on (Z.eqb c_percent) value))
  && (2 <=? count_char c_percent value)%nat.

Definition validate_raw_path (cfg : ManagedApplicationConfig) (name value : rstr)
    : result Error unit :=
  if is_expandable_string cfg name then
    if any is_control value
    then Err (InvalidConfig (name ++ &" contains a control character"))
    else if has_variable value then Ok tt
    else validate_absolute_path name value
  else validate_absolute_path name value.

Definition scalar_markers : list rstr :=
  [APPLICATION; APP_PARAMETERS; APP_DIRECTORY; APP_AFFINITY; APP_STDIN; APP_STDOUT; APP_STDERR].

Definition check_marker (marked : rstr) : result Error unit :=
  if any (fun name => eq_ignore_ascii_case marked name) scalar_markers then Ok tt
  else
    match split_on (Z.eqb c_backslash) marked with
    | [c0; c1; c2] =>
        if negb (eq_ignore_ascii_case c0 APP_EVENTS)
        then Err (InvalidConfig &"unknown expandable string metadata key")
        else validate_hook_component c1 &"event" ;? validate_hook_component c2 &"action"
    | _ => Err (InvalidConfig &"unknown expandable string metadata key")
    end.

Definition check_no_empty_entries (name : rstr) (values : list rstr) : result Error unit :=
  if any is_empty values
  then Err (InvalidConfig (name ++ &" cannot contain an empty REG_MULTI_SZ entry"))
  else Ok tt.

Section Config.
Context {W : Type} `{API : RegApi W}.
Abbreviation Op := (M W Error) (only parsing).

(** The loop over the hooks; the map is keyed by case-folded names. *)
Definition check_hook (seen : list (list Z * list Z * rstr)) (h : HookConfig)
    : result Error (list (list Z * list Z * rstr)) :=
  validate_hook_component (event h) &"event" ;?
  validate_hook_component (hook_action h) &"action" ;?
  let? e := windows_name_key (event h) in
  let? a := windows_name_key (hook_action h) in
  match List.find (fun x => bool_decide (x.1 = (e, a))) seen with
  | Some previous =>
      if negb (str_eqb previous.2 (command h))
      then Err (InvalidConfig &"conflicting case-insensitive hook definitions")
      else Ok ((e, a, command h) :: seen)
  | None => Ok ((e, a, command h) :: seen)
  end.

Definition check_path (cfg : ManagedApplicationConfig) (name : rstr) (o : option rstr)
    : result Error unit :=
  match o with Some v => validate_raw_path cfg name v | None => Ok tt end.

Definition preflight_config (cfg : ManagedApplicationConfig)
    : result Error (btree ExitActionPolicy) :=
  require_application cfg ;?
  for_each check_marker (bt_keys (expandable_strings cfg)) ;?
  precheck_no_embedded_nuls cfg ;?
  check_no_empty_entries APP_ENVIRONMENT (environment cfg) ;?
  check_no_empty_entries APP_ENVIRONMENT_EXTRA (environment_extra cfg) ;?
  try_fold check_hook (hooks cfg) [] ;?
  check_path cfg APPLICATION (application cfg) ;?
  check_path cfg APP_DIRECTORY
    (match app_directory cfg with Some d => if is_empty d then None else Some d | None => None end) ;?
  check_path cfg APP_STDIN (path <$> stdin (io cfg)) ;?
  check_path cfg APP_STDOUT (path <$> stdout (io cfg)) ;?
  check_path cfg APP_STDERR (path <$> stderr (io cfg)) ;?
  let? exits := try_fold insert_policy (exit_actions cfg) [] in
  match default_action (restart cfg) with
  | Some a => insert_exit_action exits &"default" a
  | None => Ok exits
  end.

Definition validate_managed_config (cfg : ManagedApplicationConfig) : result Error unit :=
  preflight_config cfg ;? Ok tt.

(** ** Reading *)

Definition opt_flag (key : hkey) (name : rstr) : Op (option bool) :=
  let! o := opt_u32 key name in mret ((fun v => negb (v =? 0)) <$> o).

Definition read_io_stream (parent : hkey) (value_name : rstr) (marked : bset)
    : Op (option IoStream * bset) :=
  let! (o, marked) := opt_config_string parent value_name marked in
  match o with
  | Some p =>
      if is_empty p then mret (None, marked)
      else
        let! share := opt_u32 parent (value_name ++ APP_STDIO_SHARING) in
        let! disposition := opt_u32 parent (value_name ++ APP_STDIO_DISPOSITION) in
        let! flags := opt_u32 parent (value_name ++ APP_STDIO_FLAGS) in
        let! copy := opt_flag parent (value_name ++ APP_STDIO_COPY_AND_TRUNCATE) in
        mret (Some {| path := p; share_mode := share; creation_disposition := disposition;
                      flags_and_attributes := flags; copy_and_truncate := copy |}, marked)
  | None => mret (None, marked)
  end.

Definition read_exit_entry (out : btree ExitActionPolicy) (entry : rstr * rstr)
    : result Error (btree ExitActionPolicy) :=
  let '(name, value) := entry in
  let? action_name := normalize_exit_action_name name in
  match parse_exit_action value with
  | Some a => insert_exit_action out action_name a
  | None => Err (Registry (&"AppExit entry '" ++ action_name
                           ++ &"' has an unrecognized action '" ++ value ++ &"'"))
  end.

Definition read_exit_actions (fuel : nat) (parent : hkey) : Op (btree ExitActionPolicy) :=
  let! k := or_missing (open_subkey parent APP_EXIT KeyRead) in
  match k with
  | None => mret []
  | Some exit_key =>
      let! entries := enumerate_string_values fuel exit_key in
      mlift (try_fold read_exit_entry entries [])
  end.

Definition read_hook (ev : rstr) (acc : list HookConfig * bset) (v : rstr * rstr * Z)
    : result Error (list HookConfig * bset) :=
  let '(out, marked) := acc in
  let '(act, cmd, kind) := v in
  validate_hook_component act &"action" ;?
  Ok (out ++ [Build_HookConfig ev act cmd],
      if kind =? REG_EXPAND_SZ then bs_insert (hook_expansion_key ev act) marked else marked).

Definition read_event (fuel : nat) (events_key : hkey) (acc : list HookConfig * bset) (ev : rstr)
    : Op (list HookConfig * bset) :=
  mlift (validate_hook_component ev &"event") ;!
  let! k := or_missing (open_subkey events_key ev KeyRead) in
  match k with
  | None => mret acc
  | Some event_key =>
      let! values := enumerate_typed_string_values fuel event_key in
      mlift (try_fold (read_hook ev) values acc)
  end.

Definition read_hooks (fuel : nat) (parent : hkey) (marked : bset) : Op (list HookConfig * bset) :=
  let! k := or_missing (open_subkey parent APP_EVENTS KeyRead) in
  match k with
  | None => mret ([], marked)
  | Some events_key =>
      let! names := enumerate_subkey_names fuel events_key in
      mtry_fold (read_event fuel events_key) names ([], marked)
  end.

Definition rotate_bytes (low high : option Z) : option Z :=
  match low, high with
  | None, None => None
  | lo, hi => Some (Z.lor (Z.shiftl (unwrap_or 0 hi) 32) (unwrap_or 0 lo))
  end.

Definition default_of (exits : btree ExitActionPolicy) : option ExitAction :=
  action <$> bt_get &"default" exits.

Definition read_managed_from_key (fuel : nat) (key : hkey) (service : rstr)
    : Op (option ManagedApplicationConfig) :=
  let! (app, marked) := opt_config_string key APPLICATION [] in
  match app with
  | None => mret None
  | Some v =>
      if is_empty (trim v)
      then mfail (InvalidConfig (&"service '" ++ service ++ &"' has an empty `Application` value — its managed configuration is corrupt"))
      else
        let! rotate_low := opt_u32 key APP_ROTATE_BYTES_LOW in
        let! rotate_high := opt_u32 key APP_ROTATE_BYTES_HIGH in
        let! exits := read_exit_actions fuel key in
        let! (parameters, marked) := opt_config_string key APP_PARAMETERS marked in
        let! (directory, marked) := opt_config_string key APP_DIRECTORY marked in
        let! env := opt_multi_string key APP_ENVIRONMENT in
        let! env_extra := opt_multi_string key APP_ENVIRONMENT_EXTRA in
        let! prio := opt_u32 key APP_PRIORITY in
        let! (aff, marked) := opt_config_string key APP_AFFINITY marked in
        let! delay := opt_u32 key APP_RESTART_DELAY in
        let! throttle := opt_u32 key APP_THROTTLE in
        let! skip := opt_u32 key APP_STOP_METHOD_SKIP in
        let! console := opt_u32 key APP_KILL_CONSOLE_GRACE in
        let! window := opt_u32 key APP_KILL_WINDOW_GRACE in
        let! threads := opt_u32 key APP_KILL_THREADS_GRACE in
        let! tree := opt_flag key APP_KILL_PROCESS_TREE in
        let! (sin, marked) := read_io_stream key APP_STDIN marked in
        let! (sout, marked) := read_io_stream key APP_STDOUT marked in
        let! (serr, marked) := read_io_stream key APP_STDERR marked in
        let! stamp := opt_flag key APP_TIMESTAMP_LOG in
        let! rot := opt_flag key APP_ROTATE in
        let! rot_online := opt_u32 key APP_ROTATE_ONLINE in
        let! rot_seconds := opt_u32 key APP_ROTATE_SECONDS in
        let! rot_delay := opt_u32 key APP_ROTATE_DELAY in
        let! (hks, marked) := read_hooks fuel key marked in
        mret (Some {|
          application := Some v; app_parameters := parameters; app_directory := directory;
          environment := unwrap_or [] env; environment_extra := unwrap_or [] env_extra;
          priority := prio; affinity := aff;
          restart := {| restart_delay_ms := delay; throttle_delay_ms := throttle;
                        default_action := default_of exits |};
          shutdown := {| stop_method_skip := skip; kill_console_grace_ms := console;
                         kill_window_grace_ms := window; kill_threads_grace_ms := threads;
                         kill_process_tree := tree |};
          io := {| stdin := sin; stdout := sout; stderr := serr; timestamp_log := stamp |};
          rotation := {| enabled := rot; online := rot_online; seconds := rot_seconds;
                         bytes := rotate_bytes rotate_low rotate_high; rotate_delay_ms := rot_delay |};
          exit_actions := exits; hooks := hks; expandable_strings := marked |})
  end.

(** ** Writing *)

(** [registry_is_expandable]: the loop stops at the first equal marker. *)
Fixpoint marked_loop (identity : list Z) (markers : list rstr) : result Error bool :=
  match markers with
  | [] => Ok false
  | m :: r =>
      let? k := windows_name_key m in
      if bool_decide (k = identity) then Ok true else marked_loop identity r
  end.

Definition registry_is_expandable (cfg : ManagedApplicationConfig) (name : rstr)
    : result Error bool :=
  let? identity := windows_name_key name in
  marked_loop identity (bt_keys (expandable_strings cfg)).

Definition string_kind (cfg : ManagedApplicationConfig) (name : rstr) : result Error Z :=
  let? e := registry_is_expandable cfg name in Ok (if e : bool then REG_EXPAND_SZ else REG_SZ).

Definition write_config_string (key : hkey) (cfg : ManagedApplicationConfig) (name value : rstr)
    : Op unit :=
  let! kind := mlift (string_kind cfg name) in write_string_typed key name value kind.

(** One [put!]: a value name and what is stored under it. *)
Inductive put_value :=
| PutString (v : rstr)
| PutMulti (vs : list rstr)
| PutU32 (v : Z).

Definition write_put (key : hkey) (cfg : ManagedApplicationConfig) (p : rstr * put_value) : Op unit :=
  match p.2 with
  | PutString v => write_config_string key cfg p.1 v
  | PutMulti vs => write_multi_string key p.1 vs
  | PutU32 v => write_u32 key p.1 v
  end.
End Config.

Definition u32_of_bool (b : bool) : Z := if b then 1 else 0.
Definition put_string (name : rstr) (o : option rstr) : rstr * option put_value :=
  (name, PutString <$> o).
Definition put_u32 (name : rstr) (o : option Z) : rstr * option put_value := (name, PutU32 <$> o).
Definition put_flag (name : rstr) (o : option bool) : rstr * option put_value :=
  (name, (fun b => PutU32 (u32_of_bool b)) <$> o).
Definition put_multi (name : rstr) (vs : list rstr) : rstr * option put_value :=
  (name, if is_empty vs then None else Some (PutMulti vs)).

(** [write_io_stream]: nothing for an absent stream. *)
Definition stream_slots (base : rstr) (s : option IoStream) : list (rstr * option put_value) :=
  [put_string base (path <$> s);
   put_u32 (base ++ APP_STDIO_SHARING) (s ≫= share_mode);
   put_u32 (base ++ APP_STDIO_DISPOSITION) (s ≫= creation_disposition);
   put_u32 (base ++ APP_STDIO_FLAGS) (s ≫= flags_and_attributes);
   put_flag (base ++ APP_STDIO_COPY_AND_TRUNCATE) (s ≫= copy_and_truncate)].

(** Phase 1 of [write_into_key], in its order: a value name and what is
    written there, if anything. *)
Definition scalar_slots (cfg : ManagedApplicationConfig) : list (rstr * option put_value) :=
  [put_string APPLICATION (application cfg);
   put_string APP_PARAMETERS (app_parameters cfg);
   put_string APP_DIRECTORY (app_directory cfg);
   put_u32 APP_PRIORITY (priority cfg);
   put_string APP_AFFINITY (affinity cfg);
   put_multi APP_ENVIRONMENT (environment cfg);
   put_multi APP_ENVIRONMENT_EXTRA (environment_extra cfg);
   put_u32 APP_RESTART_DELAY (restart_delay_ms (restart cfg));
   put_u32 APP_THROTTLE (throttle_delay_ms (restart cfg));
   put_u32 APP_STOP_METHOD_SKIP (stop_method_skip (shutdown cfg));
   put_u32 APP_KILL_CONSOLE_GRACE (kill_console_grace_ms (shutdown cfg));
   put_u32 APP_KILL_WINDOW_GRACE (kill_window_grace_ms (shutdown cfg));
   put_u32 APP_KILL_THREADS_GRACE (kill_threads_grace_ms (shutdown cfg));
   put_flag APP_KILL_PROCESS_TREE (kill_process_tree (shutdown cfg));
   put_flag APP_ROTATE (enabled (rotation cfg));
   put_u32 APP_ROTATE_ONLINE (online (rotation cfg));
   put_u32 APP_ROTATE_SECONDS (seconds (rotation cfg));
   put_u32 APP_ROTATE_BYTES_LOW (wrap_u32 <$> bytes (rotation cfg));
   put_u32 APP_ROTATE_BYTES_HIGH ((fun v => wrap_u32 (Z.shiftr v 32)) <$> bytes (rotation cfg));
   put_u32 APP_ROTATE_DELAY (rotate_delay_ms (rotation cfg));
   put_flag APP_TIMESTAMP_LOG (timestamp_log (io cfg))]
  ++ stream_slots APP_STDIN (stdin (io cfg))
  ++ stream_slots APP_STDOUT (stdout (io cfg))
  ++ stream_slots APP_STDERR (stderr (io cfg)).

Definition puts (slots : list (rstr * option put_value)) : list (rstr * put_value) :=
  flat_map (fun s => match s.2 with Some p => [(s.1, p)] | None => [] end) slots.

Section Write.
Context {W : Type} `{API : RegApi W}.
Abbreviation Op := (M W Error) (only parsing).

(** The names in [written] are those of the values put. *)
Definition write_scalars (key : hkey) (cfg : ManagedApplicationConfig) : Op (list rstr) :=
  mfor_each (write_put key cfg) (puts (scalar_slots cfg)) ;!
  mret (map fst (puts (scalar_slots cfg))).

(** *** Phase 2a *)

Definition exit_value_name (name : rstr) : rstr := if str_eqb name &"default" then [] else name.

Definition write_exit_entry (exit_key : hkey) (entry : rstr * ExitActionPolicy) : Op unit :=
  let '(name, policy) := entry in
  let registry_name := exit_value_name name in
  if negb (is_empty registry_name) && is_none (parse_i32 registry_name)
  then mfail (InvalidConfig (&"AppExit key '" ++ name ++ &"' is not a valid i32 exit code — the supervisor would never match it at runtime"))
  else write_string exit_key registry_name (exit_action_str (action policy)).

Definition prune_values (key : hkey) (wanted : list rstr) (existing : list rstr) : Op unit :=
  mfor_each (fun n => if bool_decide (n ∈ wanted) then mret tt
                      else ignore_missing (delete_value key n)) existing.

Definition reconcile_exits (fuel : nat) (key : hkey) (exits : btree ExitActionPolicy) : Op unit :=
  if is_empty exits then ignore_missing (delete_subtree key APP_EXIT)
  else
    let! exit_key := create_subkey_under key APP_EXIT in
    mfor_each (write_exit_entry exit_key) exits ;!
    let! existing := enumerate_value_names fuel exit_key in
    prune_values exit_key (map exit_value_name (bt_keys exits)) existing.

(** *** Phase 2b *)

(** [wanted]: for each case-folded event the case-folded actions. *)
Abbreviation wanted_map := (list (list Z * list Z)) (only parsing).

Definition write_hook (events_key : hkey) (cfg : ManagedApplicationConfig) (wanted : wanted_map)
    (h : HookConfig) : Op wanted_map :=
  let! event_key := create_subkey_under events_key (event h) in
  let! kind := mlift (string_kind cfg (hook_expansion_key (event h) (hook_action h))) in
  write_string_typed event_key (hook_action h) (command h) kind ;!
  let! e := mlift (windows_name_key (event h)) in
  let! a := mlift (windows_name_key (hook_action h)) in
  mret ((e, a) :: wanted).

Definition prune_action (event_key : hkey) (actions : list (list Z)) (existing_action : rstr) : Op unit :=
  let! a := mlift (windows_name_key existing_action) in
  if bool_decide (a ∈ actions) then mret tt
  else ignore_missing (delete_value event_key existing_action).

Definition prune_event (fuel : nat) (events_key : hkey) (wanted : wanted_map) (existing_event : rstr)
    : Op unit :=
  let! e := mlift (windows_name_key existing_event) in
  let actions := map snd (List.filter (fun x => bool_decide (x.1 = e)) wanted) in
  if is_empty actions then ignore_missing (delete_subtree events_key existing_event)
  else
    let! k := or_missing (open_subkey events_key existing_event KeyReconcile) in
    match k with
    | None => mret tt
    | Some event_key =>
        let! existing := enumerate_value_names fuel event_key in
        mfor_each (prune_action event_key actions) existing
    end.

Definition reconcile_hooks (fuel : nat) (key : hkey) (cfg : ManagedApplicationConfig) : Op unit :=
  if is_empty (hooks cfg) then ignore_missing (delete_subtree key APP_EVENTS)
  else
    let! events_key := create_subkey_under key APP_EVENTS in
    let! wanted := mtry_fold (write_hook events_key cfg) (hooks cfg) [] in
    let! existing := enumerate_subkey_names fuel events_key in
    mfor_each (prune_event fuel events_key wanted) existing.

(** *** Phase 2c *)

Definition delete_stale (key : hkey) (written : list rstr) : Op unit :=
  mfor_each (fun n => if bool_decide (n ∈ written) then mret tt
                      else ignore_missing (delete_value key n)) owned_value_names.

(** [check_existing_names] *)
Definition check_event_names (fuel : nat) (events : hkey) (n : rstr) : Op unit :=
  let! k := or_missing (open_subkey events n KeyRead) in
  match k with
  | Some ev => enumerate_value_names fuel ev ;! mret tt
  | None => mret tt
  end.

Definition check_existing_names (fuel : nat) (key : hkey) : Op unit :=
  let! exit := or_missing (open_subkey key APP_EXIT KeyRead) in
  (match exit with
   | Some k => enumerate_value_names fuel k ;! mret tt
   | None => mret tt
   end) ;!
  let! events := or_missing (open_subkey key APP_EVENTS KeyRead) in
  match events with
  | Some k => let! names := enumerate_subkey_names fuel k in
              mfor_each (check_event_names fuel k) names
  | None => mret tt
  end.

Definition write_into_key (fuel : nat) (key : hkey) (cfg : ManagedApplicationConfig) : Op unit :=
  let! exits := mlift (preflight_config cfg) in
  check_existing_names fuel key ;!
  let! written := write_scalars key cfg in
  reconcile_exits fuel key exits ;!
  reconcile_hooks fuel key cfg ;!
  delete_stale key written.

(** *** Scrubbing *)

Definition scrub_step (name : rstr) (m : Op unit) (failures : list rstr) : Op (list rstr) :=
  let! r := mtry (ignore_missing m) in
  mret (match r with
        | Ok _ => failures
        | Err e => failures ++ [name ++ &" (" ++ error_to_string e ++ &")"]
        end).

Definition scrub_managed (key : hkey) : Op unit :=
  let! failures := mtry_fold (fun fs sub => scrub_step sub (delete_subtree key sub) fs)
                     [APP_EXIT; APP_EVENTS] [] in
  let! failures := mtry_fold (fun fs name => scrub_step name (delete_value key name) fs)
                     owned_value_names failures in
  if is_empty failures then mret tt
  else mfail (Registry (&"could not remove managed registry data: " ++ join &"; " failures)).
End Write.
