(* ===== verification/RegExits.v ===== *)
(** * Exit-action names have one meaning: registry [normalize_exit_action_name], [insert_exit_action] *)

From Stdlib Require Import ZArith Lia List.
From S2P Require Import Prelude Text BTree Model RegConfig.

Lemma DEFAULT_lower : to_ascii_lowercase DEFAULT = DEFAULT.
Proof. vm_compute. reflexivity. Qed.

Lemma default_not_number n : i32_wf n -> eq_ignore_ascii_case (to_dec n) DEFAULT = false.
Proof.
  intros Hn. destruct (eq_ignore_ascii_case (to_dec n) DEFAULT) eqn:E; [|done].
  apply eq_ignore_ascii_case_eq in E. rewrite DEFAULT_lower in E.
  destruct (to_dec n) as [|c r] eqn:Ed; [by apply to_dec_not_nil in Ed|].
  assert (Hc : c = 45 \/ 48 <= c <= 57) by (apply (to_dec_chars n); [done|rewrite Ed; by left]).
  assert (Hl : to_ascii_lowercase_char c = 100) 
    by (change DEFAULT with (100 :: &"efault") in E; by injection E).
  unfold to_ascii_lowercase_char in Hl.
  destruct ((65 <=? c) && (c <=? 90)) eqn:Er; [|lia]. bool_to_prop. lia.
Qed.

(** A canonical name is [default] or the decimal form of a 32-bit code. *)
Definition canonical_exit (c : rstr) : Prop := c = DEFAULT \/ exists n, i32_wf n /\ c = to_dec n.

Lemma as_i32_wf z : i32_wf (as_i32 z).
Proof. apply as_i32_range. Qed.

Lemma normalize_canonical name c : normalize_exit_action_name name = Ok c -> canonical_exit c.
Proof.
  unfold normalize_exit_action_name. destruct (_ || _); [intros [= <-]; by left|].
  destruct (parse_i32 name) as [n|] eqn:E1.
  - intros [= <-]. right. exists n. split; [by eapply parse_i32_range|done].
  - destruct (parse_u32 name) as [n|]; [|done]. intros [= <-]. right. exists (as_i32 n).
    split; [apply as_i32_wf|done].
Qed.

Lemma normalize_fixpoint c : canonical_exit c -> normalize_exit_action_name c = Ok c.
Proof.
  intros [->|(n & Hn & ->)]; [vm_compute; reflexivity|].
  unfold normalize_exit_action_name. rewrite default_not_number by done.
  rewrite (proj2 (is_empty_false _)) by apply to_dec_not_nil. cbn [orb].
  by rewrite parse_i32_to_dec.
Qed.

(** The map holds exactly what the entries of [l] say. *)
Definition says (l : list (rstr * ExitActionPolicy)) (m : btree ExitActionPolicy) : Prop :=
  bt_ok m /\ forall c p, bt_get c m = Some p <->
    exists n, In (n, p) l /\ normalize_exit_action_name n = Ok c.

Lemma insert_says l m e m' :
  says l m -> insert_policy m e = Ok m' -> says (l ++ [e]) m'.
Proof.
  destruct e as [n [a]]. intros [Hok Hsay] H. cbn in H. unfold insert_exit_action in H.
  apply rbind_ok in H as (c0 & Hc0 & H).
  assert (Hold : forall c p, (exists n', In (n', p) l /\ normalize_exit_action_name n' = Ok c) ->
    exists n', In (n', p) (l ++ [(n, Build_ExitActionPolicy a)]) /\ normalize_exit_action_name n' = Ok c).
  { intros c p (n' & Hi & Hn). exists n'. rewrite in_app_iff. auto. }
  assert (Hnew : forall c p, (exists n', In (n', p) (l ++ [(n, Build_ExitActionPolicy a)])
      /\ normalize_exit_action_name n' = Ok c) ->
    (exists n', In (n', p) l /\ normalize_exit_action_name n' = Ok c)
    \/ (c = c0 /\ p = Build_ExitActionPolicy a)).
  { intros c p (n' & Hi & Hn). apply in_app_iff in Hi as [Hi|[[= <- <-]|[]]]; [by left; eauto|].
    right. split; [congruence|done]. }
  destruct (bt_get c0 m) as [[a0]|] eqn:Eg.
  - cbn [action] in H. case_bool_decide as Ea; [|done]. injection H as <-. subst a0.
    split; [done|]. intros c p. split; [intros Hg; apply Hold, Hsay, Hg|].
    intros [Hx|[-> ->]]%Hnew; [by apply Hsay|done].
  - injection H as <-. split; [by apply bt_insert_ok|]. intros c p. rewrite bt_get_insert.
    destruct (str_eqb c0 c) eqn:Ec.
    + apply str_eqb_eq in Ec as <-. split.
      * intros [= <-]. exists n. split; [|done]. rewrite in_app_iff. right. by left.
      * intros [Hx|[_ ->]]%Hnew; [|done]. apply Hsay in Hx. congruence.
    + apply str_eqb_neq in Ec. split; [intros Hg; apply Hold, Hsay, Hg|].
      intros [Hx|[-> _]]%Hnew; [by apply Hsay|done].
Qed.

Lemma fold_says l0 l m m' :
  says l0 m -> try_fold insert_policy l m = Ok m' -> says (l0 ++ l) m'.
Proof.
  revert l0 m. induction l as [|e l IH]; intros l0 m Hs H; cbn in H.
  { injection H as <-. by rewrite app_nil_r. }
  apply rbind_ok in H as (m1 & H1 & H). apply (IH (l0 ++ [e])) in H.
  - by rewrite <- app_assoc in H.
  - by eapply insert_says.
Qed.

Lemma says_nil : says [] [].
Proof. split; [constructor|]. intros c p. split; [done|]. by intros (n & [] & _). Qed.

(** Exit actions are unambiguous: when a set of entries is accepted, the
    resulting map gives each canonical name ([default], or the decimal form of
    a signed 32-bit code) exactly the action that every one of its aliases (any
    spelling of the default, [+1], [007], the unsigned form of a negative code)
    was given; entries that disagree are refused. *)
Theorem exit_actions_unambiguous l m :
  try_fold insert_policy l [] = Ok m ->
  says l m /\ forall c, In c (bt_keys m) -> canonical_exit c /\ normalize_exit_action_name c = Ok c.
Proof.
  intros H. apply (fold_says []) in H; [|apply says_nil]. split; [done|].
  intros c (p & Hp)%bt_get_Some_keys. apply H in Hp as (n & _ & Hn).
  apply normalize_canonical in Hn. split; [done|by apply normalize_fixpoint].
Qed.

Definition alias_entries : list (rstr * ExitActionPolicy) :=
  [(&"Default", Build_ExitActionPolicy Restart); (&"4294967295", Build_ExitActionPolicy Exit);
   ([], Build_ExitActionPolicy Restart); (&"-1", Build_ExitActionPolicy Exit)].
Definition alias_map : btree ExitActionPolicy :=
  [(&"-1", Build_ExitActionPolicy Exit); (&"default", Build_ExitActionPolicy Restart)].

Lemma exit_actions_unambiguous_witness :
  try_fold insert_policy alias_entries [] = Ok alias_map /\ says alias_entries alias_map.
Proof.
  split; [vm_compute; reflexivity|].
  apply (exit_actions_unambiguous alias_entries alias_map). vm_compute. reflexivity.
Defined.

Example conflicting_aliases :
  is_ok (try_fold insert_policy
    [(&"-1", Build_ExitActionPolicy Exit); (&"4294967295", Build_ExitActionPolicy Ignore)] []) = false.
Proof. vm_compute. reflexivity. Qed.
