(* ===== verification/RegSafety.v ===== *)
(** * Writes never lose a working configuration: registry [write_into_key]

    The write-first order of [RegConfig.write_into_key], against the promises
    of the registry calls: what a write that stops anywhere leaves behind. *)

From Stdlib Require Import ZArith Lia List.
From S2P Require Import Prelude Text BTree Model Validate Expansion RegCodec RegApi RegConfig.

(** ** The names NGSM owns *)

Definition ascii_name (n : rstr) : bool := forallb (fun c => c <? 128) n.

Lemma owned_ascii : forallb ascii_name owned_value_names = true.
Proof. vm_compute. reflexivity. Qed.

Lemma owned_distinct :
  forallb (fun a => forallb (fun b => implb (eq_ignore_ascii_case a b) (str_eqb a b))
    owned_value_names) owned_value_names = true.
Proof. vm_compute. reflexivity. Qed.

Definition slot_names : list rstr := map fst (scalar_slots ManagedApplicationConfig_default).

Lemma slot_names_eq cfg : map fst (scalar_slots cfg) = slot_names.
Proof. reflexivity. Qed.

Lemma slot_names_owned : forallb (fun n => existsb (str_eqb n) owned_value_names) slot_names = true.
Proof. vm_compute. reflexivity. Qed.

Lemma owned_slot_names : forallb (fun n => existsb (str_eqb n) slot_names) owned_value_names = true.
Proof. vm_compute. reflexivity. Qed.

Lemma slot_names_nodup : NoDup slot_names.
Proof. apply (bool_decide_unpack _). vm_compute. exact I. Qed.

Lemma existsb_str_In n l : existsb (str_eqb n) l = true <-> In n l.
Proof.
  rewrite existsb_exists. split.
  - intros (x & Hx & ->%str_eqb_eq). done.
  - intros H. exists n. split; [done|]. apply str_eqb_refl.
Qed.

Lemma put_slot {cfg n p} : In (n, p) (puts (scalar_slots cfg)) -> In (n, Some p) (scalar_slots cfg).
Proof.
  unfold puts. rewrite in_flat_map. intros ([n' o] & Hs & Hi). cbn in Hi.
  destruct o as [q|]; [|done]. destruct Hi as [[= -> ->]|[]]. done.
Qed.

Lemma put_owned cfg n p : In (n, p) (puts (scalar_slots cfg)) -> In n owned_value_names.
Proof.
  intros H%put_slot%(in_map fst). cbn [fst] in H. rewrite slot_names_eq in H.
  pose proof slot_names_owned as Ho. rewrite forallb_forall in Ho.
  by apply existsb_str_In, Ho.
Qed.

Lemma NoDup_puts slots : NoDup (map fst slots) -> NoDup (map fst (puts slots)).
Proof.
  induction slots as [|[n o] slots IH]; cbn; [done|]. intros [Hn Hs]%NoDup_cons.
  destruct o as [p|]; cbn; [|by apply IH]. apply NoDup_cons. split; [|by apply IH].
  intros Hi. apply Hn. apply list_elem_of_In in Hi. apply list_elem_of_In.
  apply in_map_iff in Hi as ([n' q] & <- & Hq). unfold puts in Hq.
  apply in_flat_map in Hq as ([n2 o2] & Hs2 & Hq). apply in_map_iff. exists (n2, o2).
  split; [|done]. cbn in Hq. destruct o2; [|done]. by destruct Hq as [[= -> ->]|[]].
Qed.

Section Safety.
Context {W : Type} `{L : RegLaws W}.

Lemma fold_owned_inj a b :
  In a owned_value_names -> In b owned_value_names -> fold a = fold b -> a = b.
Proof.
  intros Ha Hb E. pose proof owned_ascii as Hasc. rewrite forallb_forall in Hasc.
  assert (Hc : forall n, In n owned_value_names -> Forall (fun c => c < 128) n).
  { intros n Hn. apply Hasc in Hn. unfold ascii_name in Hn. rewrite forallb_forall in Hn.
    apply List.Forall_forall. intros c Hi%Hn. by bool_to_prop. }
  apply fold_ascii in E; [|by apply Hc|by apply Hc].
  pose proof owned_distinct as Hd. rewrite forallb_forall in Hd.
  pose proof (proj1 (forallb_forall _ _) (Hd a Ha) b Hb) as Hi. cbv beta in Hi. rewrite E in Hi.
  by apply str_eqb_eq.
Qed.

(** ** One put *)

(** What a put stores. *)
Definition encoded (cfg : ManagedApplicationConfig) (n : rstr) (p : put_value)
    : result Error (Z * list Z) :=
  match p with
  | PutString v => let? k := string_kind cfg n in Ok (k, string_bytes v)
  | PutMulti vs => Ok (REG_MULTI_SZ, multi_bytes vs)
  | PutU32 v => Ok (REG_DWORD, to_le_bytes 4 v)
  end.

Definition stored (cfg : ManagedApplicationConfig) (K : list (list Z)) (w : W)
    (n : rstr) (p : put_value) : Prop :=
  exists e, encoded cfg n p = Ok e /\ val w K (fold n) = Some e.

Lemma set_raw_spec key n ty b w r w' :
  set_raw key n ty b w = (r, w') ->
  forall K N, val w' K N
    = if bool_decide (K = map fold key /\ N = fold n /\ r = Ok tt) then Some (ty, b) else val w K N.
Proof.
  unfold set_raw, call. intros H K N. pose proof (set_law key n ty b w K N) as Hs.
  destruct (reg_set key n ty b w) as [[[]|e] w1]; injection H as <- <-; cbn [fst snd] in Hs;
    rewrite Hs; repeat case_bool_decide; naive_solver.
Qed.

Lemma write_put_spec key cfg n p w r w' :
  write_put key cfg (n, p) w = (r, w') ->
  match r with
  | Ok _ => exists e, encoded cfg n p = Ok e /\ forall K N, val w' K N
      = if bool_decide (K = map fold key /\ N = fold n) then Some e else val w K N
  | Err _ => forall K N, val w' K N = val w K N
  end.
Proof.
  assert (Hset : forall ty b, set_raw key n ty b w = (r, w') ->
    match r with
    | Ok _ => forall K N, val w' K N
        = if bool_decide (K = map fold key /\ N = fold n) then Some (ty, b) else val w K N
    | Err _ => forall K N, val w' K N = val w K N
    end).
  { intros ty b H. pose proof (set_raw_spec _ _ _ _ _ _ _ H) as Hs.
    destruct r as [[]|e]; intros K N; rewrite Hs.
    - by rewrite (bool_decide_ext _ (K = map fold key /\ N = fold n)) by tauto.
    - by rewrite bool_decide_eq_false_2 by (by intros (_ & _ & ?)). }
  unfold write_put. cbn [fst snd encoded]. destruct p as [v|vs|v].
  - unfold write_config_string, mbind, mlift, write_string_typed.
    destruct (string_kind cfg n) as [k|e] eqn:Ek; cbn [rbind]; [|by intros [= <- <-]].
    destruct (contains_char c_nul v); [by intros [= <- <-]|]. intros H%Hset.
    destruct r; [|done]. exists (k, string_bytes v). split; [by cbn; rewrite Ek|done].
  - unfold write_multi_string. destruct (any _ vs); [by intros [= <- <-]|]. intros H%Hset.
    destruct r; [by eexists (_, _)|done].
  - unfold write_u32. intros H%Hset. destruct r; [by eexists (_, _)|done].
Qed.

(** ** The loop of puts *)

Lemma write_puts_spec key cfg l w r w' :
  NoDup (map fst l) -> (forall n p, In (n, p) l -> In n owned_value_names) ->
  mfor_each (write_put key cfg) l w = (r, w') ->
  (forall N, ~ In N (map fold (map fst l)) -> val w' (map fold key) N = val w (map fold key) N)
  /\ (forall n p, In (n, p) l -> val w' (map fold key) (fold n) = val w (map fold key) (fold n)
        \/ stored cfg (map fold key) w' n p)
  /\ (r = Ok tt -> forall n p, In (n, p) l -> stored cfg (map fold key) w' n p).
Proof.
  revert w. induction l as [|[n p] l IH]; intros w Hnd Ho H; cbn in H.
  { injection H as <- <-. done. }
  cbn [map fst] in Hnd. apply NoDup_cons in Hnd as [Hn Hnd]. rewrite list_elem_of_In in Hn.
  assert (Hfresh : forall n' p', In (n', p') l -> fold n' <> fold n).
  { intros n' p' Hi E. apply Hn. rewrite <- (fold_owned_inj n' n); [by apply (in_map fst) in Hi| | |done].
    - eapply Ho. by right.
    - eapply Ho. by left. }
  unfold mbind in H. destruct (write_put key cfg (n, p) w) as [[[]|e] w1] eqn:E;
    apply write_put_spec in E; [|injection H as <- <-].
  2:{ split; [|split; [|done]]; intros; rewrite E; auto. }
  destruct E as (e & He & Hw1). apply IH in H as (H1 & H2 & H3); [|done|intros; eapply Ho; by right].
  assert (Hother : forall N, N <> fold n -> val w1 (map fold key) N = val w (map fold key) N).
  { intros N HN. rewrite Hw1, bool_decide_eq_false_2; [done|tauto]. }
  assert (Hthis : stored cfg (map fold key) w' n p).
  { exists e. split; [done|]. rewrite H1, Hw1, bool_decide_eq_true_2; [done|done|].
    intros Hi. apply in_map_iff in Hi as (n' & E' & Hi). apply in_map_iff in Hi as ([n2 p2] & <- & Hi).
    by eapply Hfresh. }
  split; [|split].
  - intros N HN. cbn in HN. rewrite H1, Hother; [done| |]; intros Hi; apply HN; auto.
  - intros n' p' [[= <- <-]|Hi]; [by right|]. destruct (H2 n' p' Hi) as [->|]; [left|by right].
    apply Hother. by eapply Hfresh.
  - intros Hr n' p' [[= <- <-]|Hi]; [done|]. by apply H3.
Qed.

(** ** Deleting what is stale *)

Lemma delete_one_spec key n w r w' :
  ignore_missing (delete_value key n) w = (r, w') ->
  (forall N, N <> fold n -> val w' (map fold key) N = val w (map fold key) N)
  /\ (val w' (map fold key) (fold n) = val w (map fold key) (fold n)
      \/ val w' (map fold key) (fold n) = None)
  /\ (r = Ok tt -> val w' (map fold key) (fold n) = None).
Proof.
  unfold ignore_missing, delete_value, call.
  pose proof (delete_value_law key n w) as Hl. pose proof (delete_value_missing key n w) as Hm.
  destruct (reg_delete_value key n w) as [[[]|c] w1]; cbn [fst snd map_err] in *.
  - intros [= <- <-]. rewrite Hl, bool_decide_eq_true_2 by done. split; [|by auto].
    intros N HN. rewrite Hl, bool_decide_eq_false_2; [done|tauto].
  - assert (Hsame : forall N, val w1 (map fold key) N = val w (map fold key) N).
    { intros N. rewrite Hl, bool_decide_eq_false_2; [done|]. by intros (_ & _ & ?). }
    unfold map_reg_error. destruct (Z.eqb_spec c ERROR_FILE_NOT_FOUND) as [->|Hc];
      intros [= <- <-]; rewrite Hsame; (split; [done|split; [by left|]]); [by rewrite Hm|discriminate].
Qed.

Lemma delete_stale_spec key written l w r w' :
  (forall n, In n l -> In n owned_value_names) ->
  (forall n, In n written -> In n owned_value_names) ->
  mfor_each (fun n => if bool_decide (n ∈ written) then mret tt
                      else ignore_missing (delete_value key n)) l w = (r, w') ->
  (forall N, ~ In N (map fold l) -> val w' (map fold key) N = val w (map fold key) N)
  /\ (forall n, In n written -> val w' (map fold key) (fold n) = val w (map fold key) (fold n))
  /\ (r = Ok tt -> forall n, In n l -> ~ In n written -> val w' (map fold key) (fold n) = None).
Proof.
  intros Hl Hw. revert w. induction l as [|n l IH]; intros w H; cbn in H.
  { injection H as <- <-. done. }
  assert (Hl' : forall n, In n l -> In n owned_value_names) by (intros; apply Hl; by right).
  unfold mbind in H. case_bool_decide as Hin.
  { cbn in H. apply IH in H as (H1 & H2 & H3); [|done]. split; [|split; [done|]].
    - intros N HN. apply H1. intros Hi. apply HN. by right.
    - intros Hr n' [<-|Hi] Hni; [|by apply H3]. by apply list_elem_of_In in Hin. }
  destruct (ignore_missing (delete_value key n) w) as [[[]|e] w1] eqn:E;
    apply delete_one_spec in E as (D1 & D2 & D3).
  - apply IH in H as (H1 & H2 & H3); [|done]. split; [|split].
    + intros N HN. rewrite H1, D1; [done| |]; intros Hi; apply HN; [left|right]; done.
    + intros n' Hn'. rewrite H2, D1; [done| |done].
      intros E. apply Hin, list_elem_of_In. rewrite <- (fold_owned_inj n' n); auto. apply Hl. by left.
    + intros Hr n' [<-|Hi] Hni; [|by apply H3].
      destruct (decide (n ∈ l)) as [Hi|Hi]; rewrite list_elem_of_In in Hi; [by apply H3|].
      rewrite H1; [by apply D3|]. intros Hf. apply in_map_iff in Hf as (n2 & E2 & Hi2).
      apply Hi. rewrite <- (fold_owned_inj n2 n); auto. apply Hl. by left.
  - injection H as <- <-. split; [|split; [|done]].
    + intros N HN. apply D1. intros ->. apply HN. by left.
    + intros n' Hn'. apply D1. intros E. apply Hin, list_elem_of_In.
      rewrite <- (fold_owned_inj n' n); auto. apply Hl. by left.
Qed.

(** ** The reconciliation of the subtrees leaves the values of the key alone *)

Definition only (key : hkey) (K : list (list Z)) : Prop := K = map fold key.

Lemma sub_not_only key n : ~ only key (map fold (key ++ [n])).
Proof.
  unfold only. rewrite map_app. intros H%(f_equal List.length). rewrite length_app in H. cbn in H. lia.
Qed.
Lemma subsub_not_only key n m : ~ only key (map fold ((key ++ [n]) ++ [m])).
Proof.
  unfold only. rewrite !map_app. intros H%(f_equal List.length). rewrite !length_app in H. cbn in H. lia.
Qed.

Lemma only_subtree key sub : forall K, only key K -> ~ (map fold key ++ [fold sub] `prefix_of` K).
Proof.
  intros K -> [r H]. apply (f_equal List.length) in H. rewrite !length_app in H. cbn in H. lia.
Qed.
Lemma only_subtree2 key n sub :
  forall K, only key K -> ~ (map fold (key ++ [n]) ++ [fold sub] `prefix_of` K).
Proof.
  intros K -> [r H]. apply (f_equal List.length) in H. rewrite map_app, !length_app in H. cbn in H. lia.
Qed.

Hint Resolve sub_not_only subsub_not_only only_subtree only_subtree2 : regframes.

Lemma open_subkey_key parent path s w k w' :
  open_subkey parent path s w = (Ok k, w') -> k = parent ++ [path].
Proof.
  unfold open_subkey, mbind, call. destruct (reg_open _ s w) as [[[]|c] w1]; [by intros [= <- <-]|done].
Qed.
Lemma create_subkey_key parent path w k w' :
  create_subkey_under parent path w = (Ok k, w') -> k = parent ++ [path].
Proof.
  unfold create_subkey_under, mbind, call. destruct (reg_create _ _ w) as [[[]|c] w1]; [by intros [= <- <-]|done].
Qed.

(** A handle in the rest of the operation is the path just opened. *)
Lemma frames_bind_create {B} P parent path (k : hkey -> M W Error B) :
  frames P (k (parent ++ [path])) -> frames P (mbind (create_subkey_under parent path) k).
Proof.
  intros Hk w K N HP. unfold mbind.
  pose proof (frames_create P parent path w K N HP) as Hc.
  destruct (create_subkey_under parent path w) as [[k0|e] w1] eqn:E; cbn in *; [|done].
  apply create_subkey_key in E as ->. by rewrite Hk.
Qed.
Lemma frames_bind_open {B} P parent path s (k : option hkey -> M W Error B) :
  frames P (k (Some (parent ++ [path]))) -> frames P (k None) ->
  frames P (mbind (or_missing (open_subkey parent path s)) k).
Proof.
  intros Hk Hn w K N HP. unfold mbind, or_missing.
  pose proof (frames_open P parent path s w K N HP) as Hc.
  destruct (open_subkey parent path s w) as [[k0|e] w1] eqn:E; cbn in Hc.
  - apply open_subkey_key in E as ->. by rewrite Hk.
  - destruct e; cbn; rewrite ?Hn; auto.
Qed.

Lemma frames_reconcile_exits fuel key exits : frames (only key) (reconcile_exits fuel key exits).
Proof.
  unfold reconcile_exits. destruct (is_empty exits); [frame_walk|].
  apply frames_bind_create. unfold prune_values, write_exit_entry, write_string. frame_walk.
Qed.

Lemma frames_reconcile_hooks fuel key cfg : frames (only key) (reconcile_hooks fuel key cfg).
Proof.
  unfold reconcile_hooks. destruct (is_empty (hooks cfg)); [frame_walk|].
  apply frames_bind_create. apply frames_bind; [|intros wanted].
  - apply frames_fold. intros b h. unfold write_hook. apply frames_bind_create. frame_walk.
  - apply frames_bind; [auto with regframes|intros names].
    apply frames_for_each. intros n. unfold prune_event.
    apply frames_bind; [auto with regframes|intros e]. apply frames_if; [frame_walk|].
    apply frames_bind_open; [|frame_walk]. unfold prune_action. frame_walk.
Qed.

Lemma frames_check_existing P fuel key : frames P (check_existing_names fuel key).
Proof. unfold check_existing_names, check_event_names. frame_walk. Qed.

Lemma frames_run {A} P (m : M W Error A) w r w' :
  frames P m -> m w = (r, w') -> forall K N, P K -> val w' K N = val w K N.
Proof. intros Hf H K N HP. specialize (Hf w K N HP). by rewrite H in Hf. Qed.

(** ** The phases of a write *)

Definition same_values (key : hkey) (w w' : W) : Prop :=
  forall N, val w' (map fold key) N = val w (map fold key) N.

Lemma write_into_key_phases fuel key cfg w r w' :
  write_into_key fuel key cfg w = (r, w') ->
  (same_values key w w' /\ r <> Ok tt)
  \/ exists w1 r1 w2, same_values key w w1
     /\ mfor_each (write_put key cfg) (puts (scalar_slots cfg)) w1 = (r1, w2)
     /\ ((r1 <> Ok tt /\ r <> Ok tt /\ w' = w2)
         \/ (r1 = Ok tt /\ exists w3, same_values key w2 w3
             /\ ((w' = w3 /\ r <> Ok tt)
                 \/ delete_stale key (map fst (puts (scalar_slots cfg))) w3 = (r, w')))).
Proof.
  unfold write_into_key, mbind at 1, mlift.
  destruct (preflight_config cfg) as [exits|e]; [|intros [= <- <-]; by left].
  unfold mbind at 1. destruct (check_existing_names fuel key w) as [[[]|e] w1] eqn:E1;
    pose proof (frames_run (only key) _ _ _ _ (frames_check_existing _ fuel key) E1) as F1.
  2:{ intros [= <- <-]. left. split; [|done]. intros N. by apply F1. }
  unfold mbind at 1, write_scalars, mbind at 1.
  destruct (mfor_each _ _ w1) as [r1 w2] eqn:E2. intros H. right.
  exists w1, r1, w2. split; [intros N; by apply F1|]. split; [done|].
  destruct r1 as [[]|e]; [right; split; [done|]|left; by injection H as <- <-].
  cbn [mret] in H. unfold mbind at 1 in H.
  destruct (reconcile_exits fuel key exits w2) as [[[]|e] w3] eqn:E3;
    pose proof (frames_run _ _ _ _ _ (frames_reconcile_exits fuel key exits) E3) as F3.
  2:{ injection H as <- <-. exists w3. split; [intros N; by apply F3|]. by left. }
  unfold mbind at 1 in H.
  destruct (reconcile_hooks fuel key cfg w3) as [[[]|e] w4] eqn:E4;
    pose proof (frames_run _ _ _ _ _ (frames_reconcile_hooks fuel key cfg) E4) as F4;
    exists w4; (split; [intros N; rewrite F4 by done; by apply F3|]); [by right|].
  injection H as <- <-. by left.
Qed.

Lemma write_puts_cfg key cfg w r w' :
  mfor_each (write_put key cfg) (puts (scalar_slots cfg)) w = (r, w') ->
  (forall N, ~ In N (map fold (map fst (puts (scalar_slots cfg)))) ->
     val w' (map fold key) N = val w (map fold key) N)
  /\ (forall n p, In (n, p) (puts (scalar_slots cfg)) ->
        val w' (map fold key) (fold n) = val w (map fold key) (fold n)
        \/ stored cfg (map fold key) w' n p)
  /\ (r = Ok tt -> forall n p, In (n, p) (puts (scalar_slots cfg)) -> stored cfg (map fold key) w' n p).
Proof.
  apply write_puts_spec.
  - apply NoDup_puts. rewrite slot_names_eq. apply slot_names_nodup.
  - apply put_owned.
Qed.

Lemma puts_owned cfg N :
  In N (map fold (map fst (puts (scalar_slots cfg)))) -> In N (map fold owned_value_names).
Proof.
  intros (n & <- & Hn)%in_map_iff. apply in_map_iff in Hn as ([n' p] & <- & Hp).
  apply in_map. by eapply put_owned.
Qed.

Lemma delete_stale_cfg key cfg w r w' :
  delete_stale key (map fst (puts (scalar_slots cfg))) w = (r, w') ->
  (forall N, ~ In N (map fold owned_value_names) -> val w' (map fold key) N = val w (map fold key) N)
  /\ (forall n, In n (map fst (puts (scalar_slots cfg))) ->
        val w' (map fold key) (fold n) = val w (map fold key) (fold n))
  /\ (r = Ok tt -> forall n, In n owned_value_names -> ~ In n (map fst (puts (scalar_slots cfg))) ->
        val w' (map fold key) (fold n) = None).
Proof.
  apply delete_stale_spec; [done|]. intros n Hn. apply in_map_iff in Hn as ([n' p] & <- & Hp).
  by eapply put_owned.
Qed.

(** What a write leaves behind, wherever it stops. *)
Definition write_outcome (key : hkey) (cfg : ManagedApplicationConfig) (w w' : W)
    (r : result Error unit) : Prop :=
  let P := map fold key in
  let all_stored := forall n p, In (n, p) (puts (scalar_slots cfg)) -> stored cfg P w' n p in
  (forall N, ~ In N (map fold owned_value_names) -> val w' P N = val w P N)
  /\ (forall n p, In (n, p) (puts (scalar_slots cfg)) ->
        val w' P (fold n) = val w P (fold n) \/ stored cfg P w' n p)
  /\ ((exists N, val w P N <> None /\ val w' P N = None) -> all_stored)
  /\ (r = Ok tt -> all_stored
        /\ forall n, In n owned_value_names -> ~ In n (map fst (puts (scalar_slots cfg))) ->
             val w' P (fold n) = None).

Lemma stored_same key cfg w w' n p :
  val w' (map fold key) (fold n) = val w (map fold key) (fold n) ->
  stored cfg (map fold key) w n p -> stored cfg (map fold key) w' n p.
Proof. intros E (e & He & Hv). exists e. by rewrite E. Qed.

Lemma write_into_key_outcome fuel key cfg w r w' :
  write_into_key fuel key cfg w = (r, w') -> write_outcome key cfg w w' r.
Proof.
  intros H. unfold write_outcome. apply write_into_key_phases in H as [[Hs Hr]|H].
  { split; [done|]. split; [by left|]. split; [|done]. intros (N & H1 & H2). by rewrite Hs in H2. }
  destruct H as (w1 & r1 & w2 & S1 & Hp & H). apply write_puts_cfg in Hp as (P1 & P2 & P3).
  assert (Q2 : forall n p, In (n, p) (puts (scalar_slots cfg)) ->
    val w2 (map fold key) (fold n) = val w (map fold key) (fold n)
    \/ stored cfg (map fold key) w2 n p).
  { intros n p Hi. rewrite <- S1. by apply P2. }
  assert (Q1 : forall N, ~ In N (map fold owned_value_names) ->
    val w2 (map fold key) N = val w (map fold key) N).
  { intros N HN. rewrite P1; [apply S1|]. intros Hi. apply HN. by eapply puts_owned. }
  destruct H as [(Hr1 & Hr & ->)|(-> & w3 & S3 & H)].
  - split; [done|]. split; [done|]. split; [|done]. intros (N & H1 & H2). exfalso.
    destruct (decide (N ∈ map fold (map fst (puts (scalar_slots cfg))))) as [Hi|Hi];
      rewrite list_elem_of_In in Hi.
    + apply in_map_iff in Hi as (n & <- & Hi). apply in_map_iff in Hi as ([n' p] & <- & Hi).
      destruct (Q2 n' p Hi) as [E|(e & _ & E)]; cbn in *; congruence.
    + rewrite P1, S1 in H2 by done. done.
  - assert (All : forall n p, In (n, p) (puts (scalar_slots cfg)) -> stored cfg (map fold key) w3 n p).
    { intros n p Hi. eapply stored_same; [apply S3|]. by apply P3. }
    destruct H as [[-> Hr]|H].
    + split; [intros N HN; rewrite S3; auto|]. split; [by right; apply All|]. by split.
    + apply delete_stale_cfg in H as (D1 & D2 & D3).
      assert (All' : forall n p, In (n, p) (puts (scalar_slots cfg)) -> stored cfg (map fold key) w' n p).
      { intros n p Hi. eapply stored_same; [|by apply All]. apply D2. by apply (in_map fst) in Hi. }
      split; [intros N HN; rewrite D1, S3; auto|]. split; [by right; apply All'|]. by split; auto.
Qed.


(** ** The marker *)

Definition marked_managed (key : hkey) (w : W) : Prop :=
  exists s, string_at (map fold key) w APPLICATION s /\ trim s <> [].

Lemma preflight_application cfg exits :
  preflight_config cfg = Ok exits ->
  exists app, application cfg = Some app /\ trim app <> [] /\ ~ In c_nul app.
Proof.
  intros H. unfold preflight_config in H. apply rbind_ok in H as ([] & Hr & H).
  apply rbind_ok in H as (u1 & _ & H). apply rbind_ok in H as (u2 & H & _).
  unfold require_application, is_some_and in Hr. destruct (application cfg) as [app|] eqn:Ea; [|done].
  destruct (is_empty (trim app)) eqn:E; [done|]. exists app. split; [done|].
  split; [by apply is_empty_false|].
  unfold precheck_no_embedded_nuls in H. rewrite Ea in H. apply rbind_ok in H as (u3 & H & _).
  cbn [check_some] in H. unfold check_nul in H.
  destruct (contains_char c_nul app) eqn:En; [done|]. by apply contains_char_false.
Qed.

Lemma string_kind_is cfg n k : string_kind cfg n = Ok k -> k = REG_SZ \/ k = REG_EXPAND_SZ.
Proof. unfold string_kind. intros ([] & _ & [= <-])%rbind_ok; auto. Qed.

Lemma write_into_key_preflight fuel key cfg w r w' :
  write_into_key fuel key cfg w = (r, w') ->
  (w' = w /\ r <> Ok tt) \/ exists exits, preflight_config cfg = Ok exits.
Proof.
  unfold write_into_key, mbind at 1, mlift. destruct (preflight_config cfg) as [exits|e]; [by eauto|].
  intros [= <- <-]. by left.
Qed.

(** A managed service stays managed: if the [Application] marker was set
    before a write, it is set to a non-blank program afterwards, whatever the
    outcome of the write. (A Rust string is well formed by its type.) *)
Theorem write_into_key_keeps_marker fuel key cfg w r w' :
  (forall app, application cfg = Some app -> wf_str app) ->
  marked_managed key w -> write_into_key fuel key cfg w = (r, w') -> marked_managed key w'.
Proof.
  intros Hwf (s & (ty & b & Hv & Hty & Hb) & Hs) H.
  destruct (write_into_key_preflight _ _ _ _ _ _ H) as [[-> _]|[exits Hp]]; [by exists s; split; [exists ty, b|]|].
  apply write_into_key_outcome in H as (_ & H & _).
  apply preflight_application in Hp as (app & Ha & Hne & Hn).
  destruct (H APPLICATION (PutString app)) as [E|(e & He & E)].
  - unfold scalar_slots, put_string. rewrite Ha. by left.
  - exists s. split; [|done]. exists ty, b. by rewrite E.
  - cbn [encoded] in He. apply rbind_ok in He as (k & Hk & [= <-]). exists app. split; [|done].
    exists k, (string_bytes app). split; [done|]. split; [by eapply string_kind_is|].
    by apply bytes_to_wide_string_of; auto.
Qed.
End Safety.
