(* ===== verification/RegValues.v ===== *)
(** * Single values and whole configurations of a service: registry [imp.rs], [config_lock.rs]

    The entry points of the registry crate: [set], [get] and [unset] of one
    value by its NSSM name, and create, write and delete of a whole
    configuration, under the writer lock of the service. *)

From Stdlib Require Import ZArith Lia List.
From S2P Require Import Prelude Text BTree Model Validate Expansion RegCodec RegApi RegConfig RegSafety.

Inductive ManagedValueKind := KString | KMultiString | KNumber.
#[export] Instance ManagedValueKind_eq_dec : EqDecision ManagedValueKind.
Proof. solve_decision. Defined.

Record ValueRecord := { kind : ManagedValueKind; value : rstr }.

Definition MANAGED_VALUE_KINDS : list (rstr * ManagedValueKind) :=
  [(APPLICATION, KString); (APP_PARAMETERS, KString); (APP_DIRECTORY, KString);
   (APP_ENVIRONMENT, KMultiString); (APP_ENVIRONMENT_EXTRA, KMultiString);
   (APP_PRIORITY, KNumber); (APP_AFFINITY, KString); (APP_RESTART_DELAY, KNumber);
   (APP_THROTTLE, KNumber); (APP_STOP_METHOD_SKIP, KNumber);
   (APP_KILL_CONSOLE_GRACE, KNumber); (APP_KILL_WINDOW_GRACE, KNumber);
   (APP_KILL_THREADS_GRACE, KNumber); (APP_KILL_PROCESS_TREE, KNumber);
   (APP_STDIN, KString); (APP_STDOUT, KString); (APP_STDERR, KString);
   (APP_ROTATE, KNumber); (APP_ROTATE_ONLINE, KNumber); (APP_ROTATE_SECONDS, KNumber);
   (APP_ROTATE_BYTES_LOW, KNumber); (APP_ROTATE_BYTES_HIGH, KNumber);
   (APP_ROTATE_DELAY, KNumber); (APP_TIMESTAMP_LOG, KNumber)].

Definition attribute_kinds : list (rstr * ManagedValueKind) :=
  flat_map (fun base => map (fun suffix => (base ++ suffix, KNumber)) stdio_suffixes) stdio_bases.

Definition lookup_kind (name : rstr) : result Error (rstr * ManagedValueKind) :=
  let normalized := trim name in
  match List.find (fun e => eq_ignore_ascii_case normalized e.1) MANAGED_VALUE_KINDS with
  | Some e => Ok e
  | None =>
      match List.find (fun e => eq_ignore_ascii_case normalized e.1) attribute_kinds with
      | Some e => Ok e
      | None => Err (InvalidConfig (&"unknown managed value '" ++ name ++ &"'"))
      end
  end.

Definition is_path_value (canonical : rstr) : bool :=
  any (str_eqb canonical) [APPLICATION; APP_DIRECTORY; APP_STDIN; APP_STDOUT; APP_STDERR].
Definition is_stdio_path_value (canonical : rstr) : bool :=
  any (str_eqb canonical) [APP_STDIN; APP_STDOUT; APP_STDERR].
Definition stdio_attribute_names (base : rstr) : list rstr :=
  map (fun suffix => base ++ suffix) stdio_suffixes.

(** ** Mutex name of the writer lock *)

Definition FNV_OFFSET : Z := 0x6c62272e07bb014262b821756295c58d.
Definition FNV_PRIME : Z := 0x0000000001000000000000000000013b.
Definition fnv1a_128 (b : list Z) : Z :=
  fold_left (fun hash byte => (Z.lxor hash byte * FNV_PRIME) mod 2 ^ 128) b FNV_OFFSET.

Section Values.
Context {W : Type} `{API : RegApi W}.
Abbreviation Op := (M W Error) (only parsing).

Definition mutex_name (name : rstr) : result Error (list Z) :=
  validate_service_name name ;?
  let? words := windows_name_key name in
  Ok (encode_utf16 (&"Global\NGSM.Config.v1." ++ to_hex_pad 32 (fnv1a_128 (wide_to_bytes words))) ++ [0]).

(** ** One value in an open key *)

Definition require_managed_marker (key : hkey) : Op unit :=
  let! o := opt_string key APPLICATION in
  if is_some_and (fun v => negb (is_empty (trim v))) o then mret tt
  else mfail (InvalidConfig &"a valid nonempty Application marker is required; native services cannot be modified").

Definition clear_path_value (key : hkey) (canonical : rstr) : Op unit :=
  ignore_missing (delete_value key canonical) ;!
  if is_stdio_path_value canonical
  then mfor_each (fun attr => ignore_missing (delete_value key attr)) (stdio_attribute_names canonical)
  else mret tt.

Definition write_kind (key : hkey) (canonical : rstr) (k : ManagedValueKind) (v : rstr) : Op unit :=
  match k with
  | KString =>
      if is_path_value canonical && negb (str_eqb canonical APPLICATION) && is_empty (trim v)
      then clear_path_value key canonical
      else write_string key canonical v
  | KMultiString => write_multi_string key canonical (split_multi_value v)
  | KNumber =>
      match parse_u32 v with
      | Some parsed => write_u32 key canonical parsed
      | None => mfail (InvalidConfig (canonical ++ &" expects a numeric value, got '" ++ v ++ &"'"))
      end
  end.

Definition set_value_in_key (key : hkey) (name v : rstr) : Op unit :=
  let! (canonical, k) := mlift (lookup_kind name) in
  if str_eqb canonical APPLICATION && is_empty (trim v)
  then mfail (InvalidConfig &"Application must not be set to an empty value — it is the managed-service marker")
  else
    mlift (if is_path_value canonical && negb (is_empty (trim v))
           then validate_absolute_path canonical v else Ok tt) ;!
    require_managed_marker key ;!
    write_kind key canonical k v.

Definition unset_value_in_key (key : hkey) (name : rstr) : Op unit :=
  let! (canonical, _) := mlift (lookup_kind name) in
  if str_eqb canonical APPLICATION
  then mfail (InvalidConfig &"refusing to unset Application — it is the managed-service marker; remove the whole managed config instead")
  else
    require_managed_marker key ;!
    if is_stdio_path_value canonical then clear_path_value key canonical
    else ignore_missing (delete_value key canonical).

Definition get_value_in_key (key : hkey) (canonical : rstr) (k : ManagedValueKind)
    : Op (option ValueRecord) :=
  match k with
  | KString => let! o := or_missing (read_string key canonical) in
               mret (Build_ValueRecord k <$> o)
  | KMultiString => let! o := or_missing (read_multi_string key canonical) in
                    mret ((fun v => Build_ValueRecord k (join_multi_value v)) <$> o)
  | KNumber => let! o := or_missing (read_u32 key canonical) in
               mret ((fun v => Build_ValueRecord k (to_dec v)) <$> o)
  end.

(** ** The writer lock *)

Inductive wait_status := WAIT_OBJECT_0 | WAIT_ABANDONED | WAIT_TIMEOUT | WAIT_FAILED.

(** Creating the named mutex (with its access list), waiting for it, releasing
    it and closing its handle. *)
Record LockApi := {
  lock_create : list Z -> W -> result rstr Z * W;
  lock_wait : Z -> Z -> W -> wait_status * W;
  lock_last_error : W -> rstr;
  lock_release : Z -> W -> W;
  lock_close : Z -> W -> W }.
Variable lock : LockApi.

(** The guard is the handle and whether the previous owner died. *)
Definition lock_with_timeout (name : rstr) (timeout_ms : Z) : Op (Z * bool) :=
  let! mutex := mlift (mutex_name name) in
  let! handle := fun w => let '(r, w') := lock_create lock mutex w in (map_err Registry r, w') in
  fun w =>
    let '(status, w1) := lock_wait lock handle (Z.min timeout_ms (u32_max - 1)) w in
    match status with
    | WAIT_OBJECT_0 => (Ok (handle, false), w1)
    | WAIT_ABANDONED => (Ok (handle, true), w1)
    | WAIT_TIMEOUT =>
        (Err (Registry &"timed out waiting for the service configuration writer lock"),
         lock_close lock handle w1)
    | WAIT_FAILED =>
        (Err (Registry (&"configuration lock wait: " ++ lock_last_error lock w1)),
         lock_close lock handle w1)
    end.

(** [let _guard = lock_service_config(service)?;] and its drop at the end. *)
Definition with_lock {A} (service : rstr) (body : Op A) : Op A :=
  let! (handle, _) := lock_with_timeout service 5000 in
  fun w => let '(r, w1) := body w in (r, lock_close lock handle (lock_release lock handle w1)).

(** ** Entry points *)

Definition service_path (service : rstr) : rstr :=
  &"SYSTEM\CurrentControlSet\Services\" ++ service.
Definition parameters_path (service : rstr) : rstr := service_path service ++ &"\Parameters".

Definition read_managed_config (fuel : nat) (service : rstr) : Op (option ManagedApplicationConfig) :=
  mlift (validate_service_name service) ;!
  let! k := or_missing (open_subkey [] (parameters_path service) KeyRead) in
  match k with
  | None => mret None
  | Some key => read_managed_from_key fuel key service
  end.

Definition set_value (service name v : rstr) : Op unit :=
  mlift (validate_service_name service) ;!
  with_lock service (
    let! key := open_subkey [] (parameters_path service) KeyReadWrite in
    set_value_in_key key name v).

Definition unset_value (service name : rstr) : Op unit :=
  mlift (validate_service_name service) ;!
  with_lock service (
    let! key := open_subkey [] (parameters_path service) KeyReadWrite in
    unset_value_in_key key name).

Definition get_value (service name : rstr) : Op (option ValueRecord) :=
  mlift (validate_service_name service) ;!
  let! (canonical, k) := mlift (lookup_kind name) in
  let! o := or_missing (open_subkey [] (parameters_path service) KeyRead) in
  match o with
  | None => mret None
  | Some key => get_value_in_key key canonical k
  end.

Definition create_managed_under_service (fuel : nat) (service_key : hkey)
    (cfg : ManagedApplicationConfig) : Op unit :=
  mlift (validate_managed_config cfg) ;!
  let! key := create_subkey_under service_key &"Parameters" in
  write_into_key fuel key cfg.

Definition create_managed_config (fuel : nat) (service : rstr) (cfg : ManagedApplicationConfig)
    : Op unit :=
  mlift (validate_service_name service) ;!
  mlift (validate_managed_config cfg) ;!
  with_lock service (
    let! service_key := open_subkey [] (service_path service) KeyReadWrite in
    create_managed_under_service fuel service_key cfg).

Definition write_managed_config (fuel : nat) (service : rstr) (cfg : ManagedApplicationConfig)
    : Op unit :=
  mlift (validate_service_name service) ;!
  mlift (validate_managed_config cfg) ;!
  with_lock service (
    mlift (require_application cfg) ;!
    let! key := open_subkey [] (parameters_path service) KeyReconcile in
    require_managed_marker key ;!
    write_into_key fuel key cfg).

Definition delete_managed_config (service : rstr) : Op unit :=
  mlift (validate_service_name service) ;!
  with_lock service (
    let! k := or_missing (open_subkey [] (parameters_path service) KeyReconcile) in
    match k with
    | None => mret tt
    | Some key => scrub_managed key
    end).
End Values.

(** ** Single-value writes only touch managed services *)

Section Safety.
Context {W : Type} `{L : RegLaws W}.

Lemma lookup_kind_owned name c k : lookup_kind name = Ok (c, k) -> In c owned_value_names.
Proof.
  assert (H1 : forallb (fun e => existsb (str_eqb e.1) owned_value_names) MANAGED_VALUE_KINDS = true)
    by (vm_compute; reflexivity).
  assert (H2 : forallb (fun e => existsb (str_eqb e.1) owned_value_names) attribute_kinds = true)
    by (vm_compute; reflexivity).
  rewrite forallb_forall in H1, H2. unfold lookup_kind.
  destruct (List.find _ MANAGED_VALUE_KINDS) as [e|] eqn:E1.
  - intros [= ->]. apply find_some in E1 as [Hi _]. apply H1 in Hi. by apply existsb_str_In in Hi.
  - destruct (List.find _ attribute_kinds) as [e|] eqn:E2; [|done].
    intros [= ->]. apply find_some in E2 as [Hi _]. apply H2 in Hi. by apply existsb_str_In in Hi.
Qed.

(** The names a change of the value [c] may touch. *)
Definition touched (c : rstr) : list rstr :=
  c :: (if is_stdio_path_value c then stdio_attribute_names c else []).

Lemma touched_not_application c n :
  In c owned_value_names -> c <> APPLICATION -> In n (touched c) -> n <> APPLICATION /\ In n owned_value_names.
Proof.
  assert (H : forallb (fun c => str_eqb c APPLICATION
      || forallb (fun n => negb (str_eqb n APPLICATION) && existsb (str_eqb n) owned_value_names) (touched c))
    owned_value_names = true) by (vm_compute; reflexivity).
  rewrite forallb_forall in H. intros Hc Hne Hn. apply H in Hc.
  apply str_eqb_neq in Hne. rewrite Hne in Hc. cbn [orb] in Hc. rewrite forallb_forall in Hc.
  apply Hc in Hn. apply andb_true_iff in Hn as [Hn Ho]. apply negb_true_iff, str_eqb_neq in Hn.
  by apply existsb_str_In in Ho.
Qed.

Definition leaves_others (key : hkey) (names : list rstr) (w w' : W) : Prop :=
  forall K N, ~ (K = map fold key /\ In N (map fold names)) -> val w' K N = val w K N.

Lemma delete_leaves key n names w :
  In n names -> leaves_others key names w (ignore_missing (delete_value key n) w).2.
Proof.
  intros Hn K N HN. unfold ignore_missing, delete_value, call.
  pose proof (delete_value_law key n w K N) as Hl.
  destruct (reg_delete_value key n w) as [[[]|c] w1]; cbn [fst snd map_err] in *;
    rewrite bool_decide_eq_false_2 in Hl.
  - done.
  - intros (-> & -> & _). apply HN. split; [done|]. by apply in_map.
  - unfold map_reg_error. by destruct (c =? _).
  - by intros (_ & _ & ?).
Qed.

Lemma set_leaves key n ty b names w :
  In n names -> leaves_others key names w (set_raw key n ty b w).2.
Proof.
  intros Hn K N HN. destruct (set_raw key n ty b w) as [r w'] eqn:E. cbn [snd].
  rewrite (set_raw_spec _ _ _ _ _ _ _ E), bool_decide_eq_false_2; [done|].
  intros (-> & -> & _). apply HN. split; [done|]. by apply in_map.
Qed.

Lemma clear_leaves key c w : leaves_others key (touched c) w (clear_path_value key c w).2.
Proof.
  assert (Ht : forall s1 s2 s3, leaves_others key (touched c) s1 s2 ->
    leaves_others key (touched c) s2 s3 -> leaves_others key (touched c) s1 s3).
  { intros s1 s2 s3 H1 H2 K N HN. by rewrite H2, H1. }
  unfold clear_path_value.
  apply (mbind_rel (leaves_others key (touched c))); [done|by apply delete_leaves; left|]. intros _ s' _.
  destruct (is_stdio_path_value c) eqn:Ec; [|done].
  apply (mfor_each_rel (leaves_others key (touched c))); [done|done|]. intros n s Hn. apply delete_leaves.
  right. by rewrite Ec.
Qed.

Lemma write_kind_leaves key c k v w : leaves_others key (touched c) w (write_kind key c k v w).2.
Proof.
  assert (Hc : In c (touched c)) by by left. unfold write_kind. destruct k.
  - destruct (_ && is_empty (trim v)); [apply clear_leaves|].
    unfold write_string, write_string_typed. destruct (contains_char c_nul v); [done|].
    by apply set_leaves.
  - unfold write_multi_string. destruct (any _ _); [done|]. by apply set_leaves.
  - destruct (parse_u32 v); [|done]. by apply set_leaves.
Qed.

Lemma require_marker_spec key w r w' :
  require_managed_marker key w = (r, w') ->
  (forall K N, val w' K N = val w K N) /\ (r = Ok tt -> marked_managed key w).
Proof.
  intros H. split.
  - assert (F : frames (fun _ => True) (require_managed_marker key))
      by (unfold require_managed_marker; frame_walk).
    intros K N. by apply (frames_run _ _ _ _ _ F H).
  - intros ->. unfold require_managed_marker, mbind in H.
    destruct (opt_string key APPLICATION w) as [[o|e] w1] eqn:E; [|done].
    destruct o as [s|]; cbn [is_some_and] in H; [|done].
    destruct (is_empty (trim s)) eqn:Et; [done|]. exists s.
    split; [by eapply opt_string_some|by apply is_empty_false].
Qed.

(** The effect of [set] and [unset]: nothing at all unless the service is
    managed, and then only the value named (and its stdio attributes). *)
Definition single_value_effect (key : hkey) (name : rstr) (w w' : W) : Prop :=
  (forall K N, val w' K N = val w K N)
  \/ marked_managed key w
     /\ exists c k, lookup_kind name = Ok (c, k) /\ leaves_others key (touched c) w w'.

Lemma guarded_effect key name c k (body : M W Error unit) w r w' :
  lookup_kind name = Ok (c, k) ->
  (forall w, leaves_others key (touched c) w (body w).2) ->
  (require_managed_marker key ;! body) w = (r, w') ->
  single_value_effect key name w w'.
Proof.
  intros Hl Hb H. unfold mbind in H.
  destruct (require_managed_marker key w) as [[[]|e] w1] eqn:E;
    apply require_marker_spec in E as [Hs Hm].
  - right. split; [by apply Hm|]. exists c, k. split; [done|]. intros K N HN.
    rewrite <- Hs. specialize (Hb w1 K N HN). by rewrite H in Hb.
  - injection H as <- <-. by left.
Qed.

(** A single-value [set] never turns a native service into a managed one
    and never changes anything else: without a valid [Application] marker the
    registry is unchanged, otherwise at most the named value (with the four
    attributes of a cleared stdio path) changes. *)
Theorem set_value_only_named key name v w r w' :
  set_value_in_key key name v w = (r, w') -> single_value_effect key name w w'.
Proof.
  unfold set_value_in_key, mbind at 1, mlift at 1.
  destruct (lookup_kind name) as [[c k]|e] eqn:El; [|intros [= <- <-]; by left].
  destruct (str_eqb c APPLICATION && is_empty (trim v)); [intros [= <- <-]; by left|].
  unfold mbind at 1, mlift.
  destruct (if _ : bool then validate_absolute_path c v else Ok tt) as [[]|e];
    [|intros [= <- <-]; by left].
  intros H. eapply guarded_effect; [done| |exact H]. intros w0. apply write_kind_leaves.
Qed.

(** [unset] never removes the marker: a managed service still is one
    afterwards, with the same program, whichever value is named. *)
Theorem unset_value_keeps_marker key name w r w' :
  unset_value_in_key key name w = (r, w') ->
  single_value_effect key name w w'
  /\ val w' (map fold key) (fold APPLICATION) = val w (map fold key) (fold APPLICATION).
Proof.
  unfold unset_value_in_key, mbind at 1, mlift at 1.
  destruct (lookup_kind name) as [[c k]|e] eqn:El; [|intros [= <- <-]; split; [by left|done]].
  destruct (str_eqb c APPLICATION) eqn:Ec; [intros [= <- <-]; split; [by left|done]|].
  intros H. assert (Hs : single_value_effect key name w w').
  { eapply guarded_effect; [done| |exact H]. intros w0.
    destruct (is_stdio_path_value c); [apply clear_leaves|]. apply delete_leaves. by left. }
  split; [done|]. destruct Hs as [Hs|(_ & c' & k' & El' & Hs)]; [apply Hs|].
  rewrite El in El'. injection El' as <- <-. apply Hs. intros [_ Hi].
  apply in_map_iff in Hi as (n & E & Hn).
  apply str_eqb_neq in Ec. pose proof (lookup_kind_owned _ _ _ El) as Ho.
  destruct (touched_not_application c n Ho Ec Hn) as [Hne Hno].
  apply Hne. apply fold_owned_inj in E; [done|done|]. vm_compute. by left.
Qed.
End Safety.
