(* ===== verification/RegSim.v ===== *)
(** * A registry in memory, and the properties of writes on it

    An implementation of the calls of [RegApi] over finite maps that satisfies
    [RegLaws]. [h_quota] makes writes fail once it is used up, as a full disk
    or a revoked permission does. *)

From Stdlib Require Import ZArith Lia List.
From S2P Require Import Prelude Text BTree Model Validate Expansion RegCodec RegApi RegConfig RegSafety RegValues.

(** A key and a value keep the spelling they were created with. *)
Record Hive := {
  h_keys : gmap (list (list Z)) rstr;
  h_vals : gmap (list (list Z) * list Z) (rstr * (Z * list Z));
  h_quota : nat }.

Definition sim_fold (n : rstr) : list Z := to_ascii_lowercase (encode_utf16 n).
Definition ERROR_ACCESS_DENIED : Z := 5.

Definition with_keys (ks : gmap (list (list Z)) rstr) (h : Hive) : Hive :=
  Build_Hive ks (h_vals h) (h_quota h).
Definition with_vals (vs : gmap (list (list Z) * list Z) (rstr * (Z * list Z))) (h : Hive) : Hive :=
  Build_Hive (h_keys h) vs (h_quota h).

Definition sim_set (k : hkey) (n : rstr) (ty : Z) (b : list Z) (h : Hive) : result Z unit * Hive :=
  let K := (map sim_fold k, sim_fold n) in
  match h_quota h with
  | O => (Err ERROR_ACCESS_DENIED, h)
  | S q =>
      let spelling := match h_vals h !! K with Some (n', _) => n' | None => n end in
      (Ok tt, Build_Hive (h_keys h) (<[K := (spelling, (ty, b))]> (h_vals h)) q)
  end.

Definition sim_query (k : hkey) (n : rstr) (h : Hive) : result Z (Z * list Z) :=
  match h_vals h !! (map sim_fold k, sim_fold n) with
  | Some (_, v) => Ok v
  | None => Err ERROR_FILE_NOT_FOUND
  end.

Definition sim_values (k : hkey) (h : Hive) : list (rstr * (Z * list Z)) :=
  map snd (List.filter (fun e => bool_decide (e.1.1 = map sim_fold k)) (map_to_list (h_vals h))).

Definition sim_children (k : hkey) (h : Hive) : list rstr :=
  map snd (List.filter (fun e => bool_decide (removelast e.1 = map sim_fold k /\ e.1 <> []))
    (map_to_list (h_keys h))).

(** Buffers that are too small are refused, as the system refuses them. *)
Definition sim_enum_value (k : hkey) (i cap : Z) (vcap : option Z) (h : Hive)
    : result Z (list Z * Z * list Z) :=
  match sim_values k h !! Z.to_nat i with
  | None => Err ERROR_NO_MORE_ITEMS
  | Some (n, (ty, b)) =>
      if (cap <=? utf16_len n)
         || match vcap with Some c => c <? Z.of_nat (List.length b) | None => false end
      then Err ERROR_MORE_DATA
      else Ok (encode_utf16 n, ty, b)
  end.

Definition sim_enum_key (k : hkey) (i cap : Z) (h : Hive) : result Z (list Z) :=
  match sim_children k h !! Z.to_nat i with
  | None => Err ERROR_NO_MORE_ITEMS
  | Some n => if cap <=? utf16_len n then Err ERROR_MORE_DATA else Ok (encode_utf16 n)
  end.

Definition sim_delete_value (k : hkey) (n : rstr) (h : Hive) : result Z unit * Hive :=
  let K := (map sim_fold k, sim_fold n) in
  match h_vals h !! K with
  | Some _ => (Ok tt, with_vals (delete K (h_vals h)) h)
  | None => (Err ERROR_FILE_NOT_FOUND, h)
  end.

Definition sim_delete_tree (k : hkey) (n : rstr) (h : Hive) : result Z unit * Hive :=
  let K := map sim_fold k ++ [sim_fold n] in
  match h_keys h !! K with
  | Some _ =>
      (Ok tt, Build_Hive (filter (fun e => ~ K `prefix_of` e.1) (h_keys h))
                (filter (fun e => ~ K `prefix_of` e.1.1) (h_vals h)) (h_quota h))
  | None => (Err ERROR_FILE_NOT_FOUND, h)
  end.

#[export] Instance sim_api : RegApi Hive := {
  win_message c := to_dec c;
  upper ws := Ok (to_ascii_lowercase ws);
  reg_open k _ h := match h_keys h !! map sim_fold k with
                    | Some _ => (Ok tt, h)
                    | None => (Err ERROR_FILE_NOT_FOUND, h)
                    end;
  reg_create k _ h := match h_keys h !! map sim_fold k with
                      | Some _ => (Ok tt, h)
                      | None => (Ok tt, with_keys (<[map sim_fold k := List.last k []]> (h_keys h)) h)
                      end;
  reg_query_size k n h := (match sim_query k n h with
                           | Ok (ty, b) => Ok (ty, Z.of_nat (List.length b))
                           | Err e => Err e
                           end, h);
  reg_query k n _ h := (sim_query k n h, h);
  reg_set := sim_set;
  reg_delete_value := sim_delete_value;
  reg_delete_tree := sim_delete_tree;
  reg_enum_value k i c v h := (sim_enum_value k i c v h, h);
  reg_enum_key k i c h := (sim_enum_key k i c h, h) }.

Definition sim_val (h : Hive) (K : list (list Z)) (N : list Z) : option (Z * list Z) :=
  snd <$> h_vals h !! (K, N).

Lemma sim_fold_ascii a b :
  Forall (fun c => c < 128) a -> Forall (fun c => c < 128) b ->
  (sim_fold a = sim_fold b <-> eq_ignore_ascii_case a b = true).
Proof.
  assert (He : forall s, Forall (fun c => c < 128) s -> encode_utf16 s = s).
  { intros s H. induction H as [|c s Hc _ IH]; [done|]. unfold encode_utf16 in *. cbn.
    rewrite IH. unfold encode_char. by rewrite (proj2 (Z.ltb_lt _ _)) by lia. }
  intros Ha Hb. unfold sim_fold. rewrite !He by done. symmetry. apply eq_ignore_ascii_case_eq.
Qed.

#[export] Instance sim_reg_laws : RegLaws Hive.
Proof.
  refine {| fold := sim_fold; val := sim_val |}; try done.
  - intros n k. unfold windows_name_key. destruct (encode_utf16 n) eqn:E; cbn; intros [= <-];
      unfold sim_fold; by rewrite E.
  - apply sim_fold_ascii.
  - intros k s h K N. cbn. by destruct (h_keys h !! _).
  - intros k s h K N. cbn. by destruct (h_keys h !! _).
  - intros k n c h v. cbn. unfold sim_query, sim_val. destruct (h_vals h !! _) as [[n' v']|]; [|done].
    by intros [= ->].
  - intros k n h. cbn. unfold sim_query, sim_val. destruct (h_vals h !! _) as [[n' []]|]; done.
  - intros k n ty b h K N. cbn [reg_set sim_api]. unfold sim_set, sim_val.
    destruct (h_quota h) as [|q]; cbn [fst snd h_vals].
    { rewrite bool_decide_eq_false_2; [done|]. by intros (_ & _ & ?). }
    case_bool_decide as E.
    + destruct E as (-> & -> & _). by rewrite lookup_insert_eq.
    + rewrite lookup_insert_ne; [done|]. intros [= <- <-]. by apply E.
  - intros k n h K N. cbn [reg_delete_value sim_api]. unfold sim_delete_value, sim_val.
    destruct (h_vals h !! (map sim_fold k, sim_fold n)) as [v|] eqn:Ev; cbn [fst snd h_vals with_vals].
    + case_bool_decide as E.
      * destruct E as (-> & -> & _). by rewrite lookup_delete_eq.
      * rewrite lookup_delete_ne; [done|]. intros [= <- <-]. by apply E.
    + rewrite bool_decide_eq_false_2; [done|]. by intros (_ & _ & ?).
  - intros k n h. cbn [reg_delete_value sim_api]. unfold sim_delete_value, sim_val.
    destruct (h_vals h !! _) as [v|] eqn:Ev; [done|]. by intros _.
  - intros k n h K N HK. cbn [reg_delete_tree sim_api]. unfold sim_delete_tree, sim_val.
    destruct (h_keys h !! _); [|done]. cbn [snd h_vals].
    destruct (h_vals h !! (K, N)) as [v|] eqn:Ev.
    + by rewrite (map_lookup_filter_Some_2 _ _ _ _ Ev HK).
    + by rewrite map_lookup_filter_None_2 by auto.
Defined.

(** ** Witnesses *)

Definition params : hkey := [&"Parameters"].
Definition hive_of (quota : nat) (vs : list (rstr * (Z * list Z))) : Hive :=
  Build_Hive {[ map sim_fold params := &"Parameters" ]}
    (list_to_map (map (fun e => ((map sim_fold params, sim_fold e.1), (e.1, e.2))) vs)) quota.

(** A managed service with an old program, a stale delay and a foreign value. *)
Definition old_hive (quota : nat) : Hive :=
  hive_of quota [(&"application", (REG_SZ, string_bytes &"C:\old.exe"));
                 (&"AppThrottle", (REG_DWORD, to_le_bytes 4 1500));
                 (&"VendorData", (REG_SZ, string_bytes &"kept"))].

Definition new_config : ManagedApplicationConfig :=
  {| application := Some &"C:\new.exe"; app_parameters := Some &"--serve"; app_directory := None;
     environment := [&"A=1"]; environment_extra := []; priority := Some 32; affinity := None;
     restart := Build_RestartPolicy (Some 10) None (Some Restart);
     shutdown := ShutdownPolicy_default;
     io := Build_IoRedirectionConfig None
       (Some (Build_IoStream &"C:\logs\out.log" (Some 3) None None (Some true))) None None;
     rotation := Build_LogRotationConfig (Some true) None None (Some 8589934597) None;
     exit_actions := [(&"-1", Build_ExitActionPolicy Exit)];
     hooks := [Build_HookConfig &"Start" &"Pre" &"C:\hook.cmd"]; expandable_strings := [] |}.

Definition updated (quota : nat) : result Error unit * Hive :=
  write_into_key 100 params new_config (old_hive quota).

Example update_succeeds :
  let '(r, h) := updated 100 in
  r = Ok tt
  /\ sim_val h (map sim_fold params) (sim_fold APP_THROTTLE) = None
  /\ (read_managed_from_key 100 params &"svc" h).1
     = Ok (Some {| application := Some &"C:\new.exe"; app_parameters := Some &"--serve";
          app_directory := None; environment := [&"A=1"]; environment_extra := [];
          priority := Some 32; affinity := None;
          restart := Build_RestartPolicy (Some 10) None (Some Restart);
          shutdown := ShutdownPolicy_default;
          io := Build_IoRedirectionConfig None
            (Some (Build_IoStream &"C:\logs\out.log" (Some 3) None None (Some true))) None None;
          rotation := Build_LogRotationConfig (Some true) None None (Some 8589934597) None;
          exit_actions := [(&"-1", Build_ExitActionPolicy Exit); (&"default", Build_ExitActionPolicy Restart)];
          hooks := [Build_HookConfig &"Start" &"Pre" &"C:\hook.cmd"]; expandable_strings := [] |}).
Proof. vm_compute. repeat split. Qed.


Lemma write_into_key_keeps_marker_witness :
  marked_managed params (updated 0).2.
Proof.
  apply (write_into_key_keeps_marker 100 params new_config (old_hive 0) (updated 0).1).
  - intros app [= <-]. apply wf_str_b. vm_compute. reflexivity.
  - exists &"C:\old.exe". split; [|vm_compute; discriminate].
    exists REG_SZ, (string_bytes &"C:\old.exe"). split; [vm_compute; reflexivity|].
    split; [by left|]. vm_compute. reflexivity.
  - unfold updated. apply surjective_pairing.
Defined.

(** A native service: [Parameters] without the marker. *)
Definition native_hive : Hive := hive_of 100 [(&"VendorData", (REG_SZ, string_bytes &"kept"))].

Lemma set_value_only_named_witness :
  (set_value_in_key params &" appthrottle " &"250" (old_hive 9)).1 = Ok tt
  /\ (set_value_in_key params &"AppThrottle" &"250" native_hive).2 = native_hive
  /\ single_value_effect params &" appthrottle " (old_hive 9)
       (set_value_in_key params &" appthrottle " &"250" (old_hive 9)).2.
Proof.
  split; [vm_compute; reflexivity|]. split; [vm_compute; reflexivity|].
  eapply set_value_only_named. apply surjective_pairing.
Defined.

Lemma unset_value_keeps_marker_witness :
  let h := (unset_value_in_key params &"APPTHROTTLE" (old_hive 9)).2 in
  sim_val h (map sim_fold params) (sim_fold APP_THROTTLE) = None
  /\ val h (map fold params) (fold APPLICATION) = val (old_hive 9) (map fold params) (fold APPLICATION).
Proof.
  split; [vm_compute; reflexivity|].
  eapply unset_value_keeps_marker. apply surjective_pairing.
Defined.
