(* ===== verification/Win32.v ===== *)
(** * Decisions of the win32 layer: [control.rs], [scm.rs], [process_tree.rs]

    The parts of the SCM wrappers that are decisions rather than calls: what a
    native edit may contain, the dependency block and its reading, who may
    write to the runner's directories, the command line the SCM stores, the
    install transaction, and processor affinity. *)

From Stdlib Require Import ZArith Lia List.
From S2P Require Import Prelude Text BTree Model Validate RegCodec.

(** ** Native settings *)

Inductive InstallStartType := StartManual | StartAutomatic | StartDisabled.
#[export] Instance InstallStartType_eq_dec : EqDecision InstallStartType.
Proof. solve_decision. Defined.

Record ServiceDependencies := { dep_services : list rstr; dep_groups : list rstr }.

Definition deps_is_empty (d : ServiceDependencies) : bool :=
  is_empty (dep_services d) && is_empty (dep_groups d).

Definition validate_service_dependency_name (value : rstr) : result Error unit :=
  if starts_with &"+" value
  then Err (InvalidConfig &"service dependency must not begin with '+'; use a group dependency instead")
  else map_err (fun _ => InvalidConfig &"service dependency entry must be a valid service name (non-empty, at most 256 UTF-16 code units, and no path separators or control characters)")
         (validate_service_name value).

Definition is_group_dependency_path_char (c : rchar) : bool :=
  (c =? c_backslash) || (c =? c_slash) || (c =? c_colon).

Definition validate_group_dependency_name (value : rstr) : result Error unit :=
  if is_empty value then Err (InvalidConfig &"group dependency entry must not be empty")
  else if any is_control value
  then Err (InvalidConfig &"group dependency entry must not contain NUL or control characters")
  else if str_eqb value &"." || str_eqb value &".." || any is_group_dependency_path_char value
  then Err (InvalidConfig &"group dependency entry must not contain path separators or path-like characters")
  else Ok tt.

Definition deps_validate (d : ServiceDependencies) : result Error unit :=
  for_each validate_service_dependency_name (dep_services d) ;?
  for_each validate_group_dependency_name (dep_groups d).

Definition c_plus : rchar := 43.

Definition encode_dependencies (d : ServiceDependencies) : result Error (list Z) :=
  deps_validate d ;?
  if deps_is_empty d then Ok [0; 0]
  else Ok (flat_map (fun s => encode_utf16 s ++ [0]) (dep_services d)
           ++ flat_map (fun g => c_plus :: encode_utf16 g ++ [0]) (dep_groups d) ++ [0]).

Definition validate_account (account : rstr) : result Error unit :=
  if any is_control account
  then Err (InvalidConfig &"service account must not contain NUL or control characters")
  else Ok tt.
Definition validate_password (password : rstr) : result Error unit :=
  if contains_char c_nul password
  then Err (InvalidConfig &"password contains an embedded NUL, which cannot be passed to the SCM")
  else Ok tt.
Definition validate_native_string (field value : rstr) : result Error unit :=
  if contains_char c_nul value
  then Err (InvalidConfig (field ++ &" must not contain an embedded NUL"))
  else Ok tt.

Definition password_needs_account : Error :=
  InvalidConfig &"--password-stdin requires --account so the SCM can apply the password".

(** [if let Some(v) = o { f(v)?; }] *)
Definition if_some {A} (f : A -> result Error unit) (o : option A) : result Error unit :=
  match o with Some v => f v | None => Ok tt end.

Definition validate_native_update (name : rstr) (display_name description : option rstr)
    (dependencies : option ServiceDependencies) (account password : option rstr) : result Error unit :=
  validate_service_name name ;?
  if_some (fun display =>
    validate_native_string &"display name" display ;?
    if 256 <? utf16_len display
    then Err (InvalidConfig &"display name exceeds 256 UTF-16 code units") else Ok tt) display_name ;?
  if_some (validate_native_string &"description") description ;?
  if_some deps_validate dependencies ;?
  if_some validate_account account ;?
  if_some (fun p =>
    validate_password p ;? if is_none account then Err password_needs_account else Ok tt) password.

Record InstallOptions := {
  opt_name : rstr; opt_display_name : rstr; opt_description : option rstr;
  opt_binary_path : rstr; opt_start_type : InstallStartType;
  opt_dependencies : ServiceDependencies; opt_account : option rstr; opt_password : option rstr }.

Definition validate_install_options (o : InstallOptions) : result Error unit :=
  validate_native_update (opt_name o) (Some (opt_display_name o)) (opt_description o)
    (Some (opt_dependencies o)) (opt_account o) (opt_password o) ;?
  validate_native_string &"binary path" (opt_binary_path o).

(** ** The install transaction *)

Definition complete_install {W T} (created : M W Error T) (configure rollback : T -> M W Error unit)
    : M W Error unit :=
  let! service := created in
  let! r := mtry (configure service) in
  match r with
  | Ok _ => mret tt
  | Err primary =>
      let! cleanup := mtry (rollback service) in
      mfail (Scm (match cleanup with
        | Ok _ => &"service installation failed and was rolled back: " ++ error_to_string primary
        | Err e => &"service installation failed (" ++ error_to_string primary
                   ++ &"); rollback also failed (" ++ error_to_string e ++ &")"
        end))
  end.

(** ** Reading the dependency block *)

Fixpoint split_double_null_go (buf entry : list Z) : list rstr :=
  match buf with
  | [] => []
  | c :: r =>
      if c =? 0 then
        if is_empty entry then [] else from_utf16_lossy entry :: split_double_null_go r []
      else split_double_null_go r (entry ++ [c])
  end.
Definition split_double_null (buf : list Z) : list rstr := split_double_null_go buf [].

(** The length of the block in memory, bounded against a missing terminator. *)
Fixpoint double_null_len (mem : list Z) (len : Z) : Z :=
  match mem with
  | a :: ((b :: _) as r) =>
      if (a =? 0) && (b =? 0) then len
      else if 65536 <? len + 1 then len + 1
      else double_null_len r (len + 1)
  | _ => len
  end.

(** [None] is the null pointer; a pointer is the memory it points to. *)
Definition collect_dependencies (ptr : option (list Z)) : list rstr * list rstr :=
  match ptr with
  | None => ([], [])
  | Some mem =>
      let entries := split_double_null (take (Z.to_nat (double_null_len mem 0 + 1)) mem) in
      fold_left (fun '(services, groups) e =>
        match strip_prefix [c_plus] e with
        | Some rest => (services, groups ++ [rest])
        | None => (services ++ [e], groups)
        end) entries ([], [])
  end.

(** ** Classification of SCM numbers *)

Definition classify_startup (start_type : Z) (delayed : bool) : StartupType :=
  if start_type =? 0 then Boot
  else if start_type =? 1 then System
  else if start_type =? 2 then (if delayed then AutomaticDelayed else Automatic)
  else if start_type =? 3 then Manual
  else if start_type =? 4 then Disabled
  else UnknownStartup.

Definition SERVICE_INTERACTIVE_PROCESS : Z := 256.
Definition classify_type (service_type : Z) : ServiceType :=
  let interactive := negb (Z.land service_type SERVICE_INTERACTIVE_PROCESS =? 0) in
  let masked := Z.land service_type (Z.lxor u32_max SERVICE_INTERACTIVE_PROCESS) in
  let has bit := negb (Z.land masked bit =? 0) in
  if has 1 then KernelDriver
  else if has 2 then FileSystemDriver
  else if has 16 then (if interactive then InteractiveProcess else Win32OwnProcess)
  else if has 32 then Win32SharedProcess
  else UnknownType.

Definition classify_state (s : Z) : ServiceState :=
  if s =? 1 then Stopped
  else if s =? 2 then StartPending
  else if s =? 3 then StopPending
  else if s =? 4 then Running
  else if s =? 5 then ContinuePending
  else if s =? 6 then PausePending
  else if s =? 7 then Paused
  else UnknownState.

(** ** Controls *)

Inductive ServiceControlSignal := SigStop | SigPause | SigContinue | SigInterrogate | SigUser (code : Z).
Definition SERVICE_CONTROL_ROTATE : Z := 174.

Definition signal_to_win32 (s : ServiceControlSignal) : Z :=
  match s with SigStop => 1 | SigPause => 2 | SigContinue => 3 | SigInterrogate => 4 | SigUser c => c end.
(** SERVICE_QUERY_STATUS (4) with STOP (32), PAUSE_CONTINUE (64), INTERROGATE
    (128) or USER_DEFINED_CONTROL (256). *)
Definition signal_required_access (s : ServiceControlSignal) : Z :=
  Z.lor 4 (match s with
           | SigStop => 32 | SigPause | SigContinue => 64 | SigInterrogate => 128 | SigUser _ => 256
           end).

(** The check [control_service] makes before anything else. *)
Definition check_signal (s : ServiceControlSignal) : result Error unit :=
  match s with
  | SigUser code =>
      if negb ((128 <=? code) && (code <=? 255))
      then Err (error_other (&"user-defined service control code " ++ to_dec code
        ++ &" is out of range; SCM reserves 128..=255 for user controls"))
      else Ok tt
  | _ => Ok tt
  end.

(** ** The runner's command line *)

(** [None]: the path is not valid Unicode. *)
Definition command_for_validated_runner (name : rstr) (canonical : option rstr) : result Error rstr :=
  match canonical with
  | None => Err (error_other &"runner path contains invalid Unicode and cannot be stored losslessly")
  | Some exe => Ok (quote_windows_arg exe ++ &" run-service " ++ quote_windows_arg name)
  end.

(** The command line stored in the SCM starts exactly the validated runner
    for exactly this service: Windows splits it into the runner's path,
    [run-service] and the service name, whatever characters they contain. *)
Theorem runner_command_exact stay name exe command :
  command_for_validated_runner name (Some exe) = Ok command ->
  split_command_line stay command = [exe; &"run-service"; name].
Proof.
  unfold command_for_validated_runner. intros H.
  assert (command = quote_windows_arg exe ++ &" run-service " ++ quote_windows_arg name) as ->
    by congruence.
  replace (quote_windows_arg exe ++ &" run-service " ++ quote_windows_arg name)
    with (join [32] (map quote_windows_arg [exe; &"run-service"; name])).
  - apply split_quoted_args.
  - assert (Hr : quote_windows_arg &"run-service" = &"run-service") by (vm_compute; reflexivity).
    assert (Hs : &" run-service " = [32] ++ &"run-service" ++ [32]) by (vm_compute; reflexivity).
    cbn [map join]. rewrite Hr, Hs. by rewrite <- !app_assoc.
Qed.

Lemma runner_command_exact_witness :
  split_command_line true (quote_windows_arg &"\\?\C:\Program Files\NGSM\ngsm.exe"
    ++ &" run-service " ++ quote_windows_arg &"My Service")
  = [&"\\?\C:\Program Files\NGSM\ngsm.exe"; &"run-service"; &"My Service"].
Proof. apply runner_command_exact. reflexivity. Defined.

(** ** Processor affinity *)

Definition all_digits (s : rstr) : bool := negb (is_empty s) && forallb is_ascii_digit s.

Definition affinity_invalid : Error :=
  InvalidConfig &"AppAffinity must be CPU IDs/ranges (for example 0-2,4) available in processor group 0".

Definition USIZE_BITS : Z := 64.

(** [for cpu in first..=last { mask |= 1 << cpu }] *)
Definition set_cpus (mask first last : Z) : Z :=
  fold_left (fun m i => Z.lor m (Z.shiftl 1 (first + Z.of_nat i)))
    (seq 0 (Z.to_nat (last - first + 1))) mask.

Definition affinity_part (mask : Z) (part : rstr) : result Error Z :=
  let '(first, last) := match split_once 45 part with Some fl => fl | None => (part, part) end in
  if negb (all_digits first) || negb (all_digits last) then Err affinity_invalid
  else
    let? first := ok_or (parse_u32 first) affinity_invalid in
    let? last := ok_or (parse_u32 last) affinity_invalid in
    if (last <? first) || (USIZE_BITS <=? last) then Err affinity_invalid
    else Ok (set_cpus mask first last).

Definition parse_affinity (value : rstr) (available : Z) : result Error Z :=
  let? mask := try_fold affinity_part (split_on (Z.eqb c_comma) value) 0 in
  if (mask =? 0) || negb (Z.land mask (Z.lxor (2 ^ USIZE_BITS - 1) available) =? 0)
  then Err affinity_invalid else Ok mask.

(** ** The dependency block is read back as written *)

Definition entries_words (es : list rstr) : list Z := flat_map (fun e => encode_utf16 e ++ [0]) es.

Lemma dnl_step a r n :
  r <> [] -> n + 1 <= 65536 -> (a = 0 -> head r <> Some 0) ->
  double_null_len (a :: r) n = double_null_len r (n + 1).
Proof.
  intros Hr Hn Ha. destruct r as [|b r]; [done|]. cbn [double_null_len].
  rewrite (proj2 (Z.ltb_ge _ _)) by lia.
  destruct (Z.eqb_spec a 0) as [->|]; [|done]. destruct (Z.eqb_spec b 0) as [->|]; [|done].
  by destruct (Ha eq_refl).
Qed.

Lemma dnl_nonzero ws tail n :
  ~ In 0 ws -> tail <> [] -> n + Z.of_nat (List.length ws) <= 65536 ->
  double_null_len (ws ++ tail) n = double_null_len tail (n + Z.of_nat (List.length ws)).
Proof.
  intros Hw Ht. revert n. induction ws as [|w ws IH]; intros n Hn; cbn [app List.length].
  { f_equal. cbn. lia. }
  cbn [List.length] in Hn. cbn [In] in Hw.
  rewrite dnl_step; [rewrite IH; [f_equal; lia|tauto|lia]|by destruct ws|lia|intros ->; tauto].
Qed.

Lemma entry_head e r : storable e -> head (encode_utf16 e ++ r) <> Some 0.
Proof.
  intros (Hw & Hn & Hne). destruct (encode_utf16 e) as [|w ws] eqn:E.
  - exfalso. apply Hne. by apply encode_utf16_nil.
  - cbn. intros [= ->]. apply (no_zero_words e Hw Hn). rewrite E. by left.
Qed.

Lemma dnl_entries es rest n :
  Forall storable es -> es <> [] ->
  n + Z.of_nat (List.length (entries_words es)) <= 65536 ->
  double_null_len (entries_words es ++ 0 :: rest) n
  = n + Z.of_nat (List.length (entries_words es)) - 1.
Proof.
  intros H. revert n. induction H as [|e es He Hes IH]; intros n Hne Hn; [done|].
  unfold entries_words in *. cbn [flat_map] in *. rewrite !length_app in *. cbn [List.length] in *.
  rewrite <- !app_assoc. destruct He as (Hw & Hnul & Hne'). pose proof (no_zero_words e Hw Hnul) as Hz.
  rewrite dnl_nonzero by (done || lia). cbn [app].
  destruct es as [|e2 es].
  - cbn [flat_map app double_null_len]. cbn [List.length]. cbn. lia.
  - rewrite dnl_step.
    + rewrite IH by (done || lia). lia.
    + by destruct (flat_map _ _).
    + pose proof (Nat2Z.is_nonneg (List.length (flat_map (fun e => encode_utf16 e ++ [0]) (e2 :: es)))).
      lia.
    + intros _. inversion Hes; subst. cbn [flat_map]. rewrite <- !app_assoc. by apply entry_head.
Qed.

Lemma split_go_entry ws r entry :
  ~ In 0 ws -> split_double_null_go (ws ++ r) entry = split_double_null_go r (entry ++ ws).
Proof.
  revert entry. induction ws as [|w ws IH]; intros entry Hw; cbn; [by rewrite app_nil_r|].
  destruct (Z.eqb_spec w 0) as [->|]; [exfalso; apply Hw; by left|].
  rewrite IH, <- app_assoc; [done|]. intros Hi. apply Hw. by right.
Qed.

Lemma split_entries es : Forall storable es -> split_double_null (entries_words es) = es.
Proof.
  unfold split_double_null, entries_words.
  induction 1 as [|e es (Hw & Hn & Hne) _ IH]; [done|]. cbn [flat_map]. rewrite <- app_assoc.
  rewrite split_go_entry by (by apply no_zero_words). cbn [app split_double_null_go Z.eqb].
  rewrite (proj2 (is_empty_false _)) by (by rewrite encode_utf16_nil).
  rewrite lossy_encode_utf16 by done. by rewrite IH.
Qed.

Definition dependency_entries (d : ServiceDependencies) : list rstr :=
  dep_services d ++ map (cons c_plus) (dep_groups d).

Lemma encode_dependencies_words d w :
  encode_dependencies d = Ok w ->
  w = match dependency_entries d with [] => [0; 0] | es => entries_words es ++ [0] end.
Proof.
  unfold encode_dependencies. intros (u & _ & H)%rbind_ok. unfold dependency_entries, deps_is_empty in *.
  destruct d as [ss gs]. cbn [dep_services dep_groups] in *.
  assert (E : entries_words (ss ++ map (cons c_plus) gs)
    = flat_map (fun s => encode_utf16 s ++ [0]) ss
      ++ flat_map (fun g => c_plus :: encode_utf16 g ++ [0]) gs).
  { unfold entries_words. rewrite flat_map_app. f_equal. clear H.
    induction gs as [|g gs IH]; [done|]. cbn [map flat_map]. by rewrite IH. }
  destruct ss as [|s ss]; [destruct gs as [|g gs]|]; cbn [is_empty andb] in H.
  - injection H as <-. done.
  - assert (w = entries_words ([] ++ map (cons c_plus) (g :: gs)) ++ [0]) as ->; [|done].
    rewrite E, <- app_assoc. congruence.
  - assert (w = entries_words ((s :: ss) ++ map (cons c_plus) gs) ++ [0]) as ->; [|done].
    rewrite E, <- app_assoc. congruence.
Qed.

Lemma any_control_nul s : any is_control s = false -> ~ In c_nul s.
Proof.
  intros H Hi. assert (Ht : any is_control s = true); [|congruence].
  apply existsb_exists. exists c_nul. by split.
Qed.

Lemma service_dependency_ok s :
  validate_service_dependency_name s = Ok tt ->
  s <> [] /\ ~ In c_nul s /\ strip_prefix [c_plus] s = None.
Proof.
  unfold validate_service_dependency_name, starts_with. change &"+" with [c_plus].
  destruct (strip_prefix [c_plus] s); [done|].
  destruct (validate_service_name s) as [[]|] eqn:E; [|done]. intros _.
  apply validate_service_name_ok in E as (Hne & _ & Hf). split; [done|]. split; [|done].
  rewrite List.Forall_forall in Hf. intros Hi. by destruct (Hf _ Hi) as (_ & _ & Hc).
Qed.

Lemma group_dependency_ok g :
  validate_group_dependency_name g = Ok tt -> g <> [] /\ ~ In c_nul g.
Proof.
  unfold validate_group_dependency_name. destruct (is_empty g) eqn:Ee; [done|].
  destruct (any is_control g) eqn:Ec; [done|]. intros _.
  split; [by apply is_empty_false|by apply any_control_nul].
Qed.

Lemma collect_fold ss gs ss0 gs0 :
  Forall (fun s => strip_prefix [c_plus] s = None) ss ->
  fold_left (fun '(services, groups) e =>
    match strip_prefix [c_plus] e with
    | Some rest => (services, groups ++ [rest])
    | None => (services ++ [e], groups)
    end) (ss ++ map (cons c_plus) gs) (ss0, gs0) = (ss0 ++ ss, gs0 ++ gs).
Proof.
  intros H. revert ss0. induction H as [|s ss Hs _ IH]; intros ss0; cbn [app fold_left].
  - rewrite app_nil_r. revert gs0. induction gs as [|g gs IH]; intros gs0; [by rewrite app_nil_r|].
    cbn [map fold_left strip_prefix]. rewrite Z.eqb_refl. rewrite IH. by rewrite <- app_assoc.
  - rewrite Hs, IH. by rewrite <- app_assoc.
Qed.

(** The dependencies of a service survive the SCM: when a dependency list
    is accepted and its block is at most 65536 words long, reading the block
    back from memory (whatever follows it) gives the same services and the
    same groups, in order. *)
Theorem dependencies_roundtrip d w rest :
  Forall wf_str (dep_services d) -> Forall wf_str (dep_groups d) ->
  encode_dependencies d = Ok w -> Z.of_nat (List.length w) <= 65536 ->
  collect_dependencies (Some (w ++ rest)) = (dep_services d, dep_groups d).
Proof.
  intros Hs Hg He Hl. pose proof (encode_dependencies_words d w He) as Ew.
  unfold encode_dependencies in He. apply rbind_ok in He as ([] & Hv & _).
  unfold deps_validate in Hv. apply rbind_ok in Hv as ([] & Hvs & Hvg).
  rewrite for_each_ok, List.Forall_forall in Hvs, Hvg. rewrite List.Forall_forall in Hs, Hg.
  assert (Hst : Forall storable (dependency_entries d)).
  { apply Forall_app. split; apply List.Forall_forall.
    - intros s Hi. destruct (service_dependency_ok s (Hvs s Hi)) as (H1 & H2 & _).
      split; [by apply Hs|done].
    - intros e (g & <- & Hi)%in_map_iff. destruct (group_dependency_ok g (Hvg g Hi)) as [H1 H2].
      split; [|split; [|done]].
      + constructor; [unfold scalar, c_plus; lia|by apply Hg].
      + intros [E|Hn]; [unfold c_plus, c_nul in E; lia|done]. }
  assert (Hfold : Forall (fun s => strip_prefix [c_plus] s = None) (dep_services d)).
  { apply List.Forall_forall. intros s Hi. by apply service_dependency_ok, Hvs. }
  unfold collect_dependencies. destruct (dependency_entries d) as [|e es] eqn:Ed.
  - subst w. cbn. unfold dependency_entries in Ed. apply app_eq_nil in Ed as [E1 E2].
    apply map_eq_nil in E2. by rewrite E1, E2.
  - rewrite Ew, <- app_assoc. rewrite <- Ed in *. subst w. rewrite length_app in Hl. cbn [List.length] in Hl.
    cbn [app]. rewrite dnl_entries; [|done|by rewrite Ed|lia].
    replace (Z.to_nat _) with (List.length (entries_words (dependency_entries d))) by lia.
    rewrite take_app_length. rewrite split_entries by done. by apply (collect_fold _ _ [] []).
Qed.

Definition sample_dependencies : ServiceDependencies :=
  Build_ServiceDependencies [&"Tcpip"; &"LanmanWorkstation"] [&"NetworkProvider"; &"+odd"].

Lemma dependencies_roundtrip_witness :
  let w := [84; 99; 112; 105; 112; 0; 43; 71; 0; 0] in
  encode_dependencies (Build_ServiceDependencies [&"Tcpip"] [&"G"]) = Ok w
  /\ collect_dependencies (Some (w ++ [7; 7; 7])) = ([&"Tcpip"], [&"G"]).
Proof.
  cbv zeta. split; [vm_compute; reflexivity|].
  apply (dependencies_roundtrip (Build_ServiceDependencies [&"Tcpip"] [&"G"])).
  - constructor; [|constructor]. apply wf_str_b. vm_compute. reflexivity.
  - constructor; [|constructor]. apply wf_str_b. vm_compute. reflexivity.
  - vm_compute. reflexivity.
  - cbn. lia.
Defined.

(** ** Affinity masks *)

Lemma set_cpus_bit m f n i :
  0 <= f -> 0 <= i ->
  Z.testbit (fold_left (fun m i => Z.lor m (Z.shiftl 1 (f + Z.of_nat i))) (seq 0 n) m) i
  = Z.testbit m i || ((f <=? i) && (i <? f + Z.of_nat n)).
Proof.
  intros Hf Hi. induction n as [|n IH].
  { change (Z.of_nat 0) with 0. cbn [seq fold_left].
    destruct (Z.leb_spec f i), (Z.ltb_spec i (f + 0)); cbn [andb];
      rewrite ?orb_false_r; first [done | exfalso; lia]. }
  rewrite seq_S, fold_left_app. cbn [fold_left Nat.add]. rewrite Z.lor_spec, IH.
  rewrite Z.shiftl_spec by done.
  assert (Hb : Z.testbit 1 (i - (f + Z.of_nat n)) = (i =? f + Z.of_nat n)).
  { destruct (Z.eqb_spec i (f + Z.of_nat n)) as [->|Hne]; [by rewrite Z.sub_diag|].
    destruct (Z.ltb_spec (i - (f + Z.of_nat n)) 0); [by apply Z.testbit_neg_r|].
    apply Z.bits_above_log2; cbn; lia. }
  rewrite Hb, <- orb_assoc. f_equal. rewrite Nat2Z.inj_succ.
  destruct (Z.leb_spec f i), (Z.ltb_spec i (f + Z.of_nat n)), (Z.eqb_spec i (f + Z.of_nat n)),
    (Z.ltb_spec i (f + Z.succ (Z.of_nat n))); cbn; first [done | exfalso; lia].
Qed.

(** A part of the list names the processors of a range. *)
Definition names_cpus (part : rstr) (first last : Z) : Prop :=
  exists a b, (split_once 45 part = Some (a, b) \/ split_once 45 part = None /\ a = part /\ b = part)
    /\ parse_u32 a = Some first /\ parse_u32 b = Some last /\ first <= last < USIZE_BITS.

Lemma affinity_part_ok mask part mask' :
  affinity_part mask part = Ok mask' ->
  exists first last, names_cpus part first last /\ 0 <= first
    /\ forall i, 0 <= i -> Z.testbit mask' i = Z.testbit mask i || ((first <=? i) && (i <=? last)).
Proof.
  unfold affinity_part. destruct (split_once 45 part) as [[a b]|] eqn:Es; intros H.
  - destruct (negb (all_digits a) || _); [done|].
    destruct (parse_u32 a) as [f|] eqn:Ea; [|done]. destruct (parse_u32 b) as [l|] eqn:Eb; [|done].
    cbn [ok_or rbind] in H. destruct ((l <? f) || (USIZE_BITS <=? l)) eqn:Er; [done|].
    injection H as <-. bool_to_prop. pose proof (parse_unsigned_range _ _ _ Ea) as Hf.
    exists f, l. split; [exists a, b; repeat split; auto|]. split; [lia|]. intros i Hi.
    unfold set_cpus. rewrite set_cpus_bit by lia. f_equal. f_equal.
    destruct (Z.ltb_spec i (f + Z.of_nat (Z.to_nat (l - f + 1)))), (Z.leb_spec i l); first [done | exfalso; lia].
  - destruct (negb (all_digits part) || _); [done|].
    destruct (parse_u32 part) as [f|] eqn:Ea; [|done].
    cbn [ok_or rbind] in H. destruct ((f <? f) || (USIZE_BITS <=? f)) eqn:Er; [done|].
    injection H as <-. bool_to_prop. pose proof (parse_unsigned_range _ _ _ Ea) as Hf.
    exists f, f. split; [exists part, part; repeat split; auto; right; auto|]. split; [lia|]. intros i Hi.
    unfold set_cpus. rewrite set_cpus_bit by lia. f_equal. f_equal.
    destruct (Z.ltb_spec i (f + Z.of_nat (Z.to_nat (f - f + 1)))), (Z.leb_spec i f); first [done | exfalso; lia].
Qed.

Lemma affinity_parts_ok parts m0 mask :
  try_fold affinity_part parts m0 = Ok mask ->
  forall i, 0 <= i -> (Z.testbit mask i = true <-> Z.testbit m0 i = true
    \/ exists part first last, In part parts /\ names_cpus part first last /\ first <= i <= last).
Proof.
  revert m0. induction parts as [|p parts IH]; intros m0 H i Hi; cbn in H.
  { injection H as <-. split; [by left|]. by intros [|(? & ? & ? & [] & _)]. }
  apply rbind_ok in H as (m1 & H1 & H). apply affinity_part_ok in H1 as (f & l & Hp & Hf & Hb).
  rewrite (IH m1 H i Hi), Hb, orb_true_iff, andb_true_iff, Z.leb_le, Z.leb_le by done. split.
  - intros [[Hm|Hr]|(q & f' & l' & Hq & Hn & Hr)]; [by left|right|right].
    + exists p, f, l. split; [by left|done].
    + exists q, f', l'. split; [by right|done].
  - intros [Hm|(q & f' & l' & [->|Hq] & Hn & Hr)]; [by left; left| |].
    + destruct Hp as (a & b & Hs & Ha & Hb' & _). destruct Hn as (a' & b' & Hs' & Ha' & Hb'' & _).
      assert (a = a' /\ b = b') as [<- <-] by (destruct Hs as [Hs|(Hs & -> & ->)],
        Hs' as [Hs'|(Hs' & -> & ->)]; split; congruence).
      left. right. assert (f = f') by congruence. assert (l = l') by congruence. lia.
    + right. by exists q, f', l'.
Qed.

(** An affinity list is accepted only with its exact meaning: the mask has
    the bit of a processor exactly when one of the comma-separated parts names
    it (a number, or a range with first not above last, below 64), it is not
    empty, and every processor in it is available. *)
Theorem parse_affinity_exact value available mask :
  0 <= available < 2 ^ USIZE_BITS ->
  parse_affinity value available = Ok mask ->
  mask <> 0
  /\ (forall i, 0 <= i -> (Z.testbit mask i = true <->
        exists part first last, In part (split_on (Z.eqb c_comma) value)
          /\ names_cpus part first last /\ first <= i <= last))
  /\ (forall i, 0 <= i < USIZE_BITS -> Z.testbit mask i = true -> Z.testbit available i = true).
Proof.
  intros Ha. unfold parse_affinity. intros (m & Hm & H)%rbind_ok.
  destruct ((m =? 0) || negb _) eqn:E; [done|]. injection H as ->. bool_to_prop.
  split; [done|]. split.
  - intros i Hi. rewrite (affinity_parts_ok _ _ _ Hm i Hi), Z.bits_0. naive_solver.
  - intros i Hi Hb. pose proof (f_equal (fun z => Z.testbit z i) H0) as Hz. cbv beta in Hz.
    rewrite Z.land_spec, Z.lxor_spec, Z.bits_0, Hb in Hz.
    replace (2 ^ USIZE_BITS - 1) with (Z.ones USIZE_BITS) in Hz by (rewrite Z.ones_equiv; lia).
    rewrite Z.ones_spec_low in Hz by done. by destruct (Z.testbit available i).
Qed.

Lemma parse_affinity_exact_witness :
  parse_affinity &"0-2,4" 255 = Ok 23 /\ Z.testbit 255 4 = true.
Proof.
  split; [vm_compute; reflexivity|].
  eapply (parse_affinity_exact &"0-2,4" 255 23); [|vm_compute; reflexivity| |].
  - unfold USIZE_BITS. split; [lia|]. vm_compute. reflexivity.
  - unfold USIZE_BITS. lia.
  - vm_compute. reflexivity.
Defined.

Example affinity_refused :
  map (fun s => is_ok (parse_affinity s 255)) [&""; &"8"; &"2-1"; &"+1"; &"0,,1"; &"64"]
  = [false; false; false; false; false; false].
Proof. vm_compute. reflexivity. Qed.
