(* ===== verification/Acl.v ===== *)
(** * Who may replace the runner: win32 [control.rs], the access-control checks

    The decision whether a file, a directory or a volume root is writable only
    by administrators, the parsing of the entries of its access list, and the
    chain of directories above the runner. Security identifiers and descriptors
    are read by the operating system: they are parameters. *)

From Stdlib Require Import ZArith Lia List.
From S2P Require Import Prelude Text BTree Model Validate.

Definition GENERIC_ALL : Z := 0x10000000.
Definition GENERIC_WRITE : Z := 0x40000000.
Definition DELETE : Z := 0x10000.
Definition WRITE_DAC : Z := 0x40000.
Definition WRITE_OWNER : Z := 0x80000.
Definition FILE_WRITE_DATA : Z := 2.
Definition FILE_APPEND_DATA : Z := 4.
Definition FILE_WRITE_EA : Z := 16.
Definition FILE_WRITE_ATTRIBUTES : Z := 256.
Definition FILE_ADD_FILE : Z := 2.
Definition FILE_ADD_SUBDIRECTORY : Z := 4.
Definition FILE_DELETE_CHILD : Z := 64.

Definition lor_all (l : list Z) : Z := fold_left Z.lor l 0.
Definition FILE_DANGEROUS_ACCESS : Z :=
  lor_all [GENERIC_ALL; GENERIC_WRITE; DELETE; WRITE_DAC; WRITE_OWNER; FILE_WRITE_DATA;
           FILE_APPEND_DATA; FILE_WRITE_EA; FILE_WRITE_ATTRIBUTES].
Definition DIRECTORY_DANGEROUS_ACCESS : Z :=
  lor_all [FILE_DANGEROUS_ACCESS; FILE_ADD_FILE; FILE_ADD_SUBDIRECTORY; FILE_DELETE_CHILD].

Inductive AclObjectKind := AclFile | AclDirectory | AclVolumeRoot.
#[export] Instance AclObjectKind_eq_dec : EqDecision AclObjectKind.
Proof. solve_decision. Defined.
Definition kind_label (k : AclObjectKind) : rstr :=
  match k with AclFile => &"file" | AclDirectory => &"directory" | AclVolumeRoot => &"volume root" end.

Inductive AclPrincipal := Trusted (name : rstr) | KnownUntrusted (name : rstr) | UnknownSid.
Definition is_trusted (p : AclPrincipal) : bool := match p with Trusted _ => true | _ => false end.
Definition principal_label (p : AclPrincipal) : rstr :=
  match p with Trusted n | KnownUntrusted n => n | UnknownSid => &"an unknown SID" end.

Record AclAllowedGrant := { principal : AclPrincipal; mask : Z; inherit_only : bool }.

Inductive AclDecisionError :=
| UntrustedOwner (p : AclPrincipal)
| DangerousGrant (p : AclPrincipal) (mask dangerous : Z) (k : AclObjectKind).

Definition dangerous_access_mask (k : AclObjectKind) : Z :=
  match k with
  | AclFile => FILE_DANGEROUS_ACCESS
  | AclDirectory => DIRECTORY_DANGEROUS_ACCESS
  | AclVolumeRoot => lor_all [GENERIC_ALL; WRITE_DAC; WRITE_OWNER; FILE_DELETE_CHILD]
  end.

Fixpoint check_grants (k : AclObjectKind) (grants : list AclAllowedGrant) : result AclDecisionError unit :=
  match grants with
  | [] => Ok tt
  | g :: r =>
      if inherit_only g || is_trusted (principal g) then check_grants k r
      else
        let bits := Z.land (mask g) (dangerous_access_mask k) in
        if negb (bits =? 0) then Err (DangerousGrant (principal g) (mask g) bits k)
        else check_grants k r
  end.

Definition evaluate_acl_decision (owner : AclPrincipal) (grants : list AclAllowedGrant)
    (k : AclObjectKind) : result AclDecisionError unit :=
  if negb (is_trusted owner) then Err (UntrustedOwner owner) else check_grants k grants.

Definition describe_acl_decision_error (e : AclDecisionError) : rstr :=
  match e with
  | UntrustedOwner p => principal_label p ++ &" owns the object and can take over its DACL"
  | DangerousGrant p m d k =>
      principal_label p ++ &" has write/delete/takeover rights on the " ++ kind_label k
      ++ &" (ACE mask 0x" ++ to_hex_pad 8 m ++ &", dangerous bits 0x" ++ to_hex_pad 8 d ++ &")"
  end.

(** ** Access-list entries

    A pointer to an entry is the memory it points to; [None] is null. *)

Definition byte_at (m : list Z) (i : nat) : Z := nth i m 0.
Definition u32_at (m : list Z) (i : nat) : Z :=
  byte_at m i + 256 * byte_at m (i + 1) + 65536 * byte_at m (i + 2) + 16777216 * byte_at m (i + 3).

Definition HEADER_SIZE : nat := 4.
Definition GUID_SIZE : nat := 16.

Definition read_ace_u32 (ace : list Z) (ace_size offset : nat) : result rstr Z :=
  if (ace_size <? offset + 4)%nat
  then Err (&"DACL contains an ACE too small to read a u32 at offset " ++ to_dec (Z.of_nat offset))
  else Ok (u32_at ace offset).

Inductive ace_class := AceAllow | AceAllowObject | AceCompound | AceDeny | AceOther.
Definition classify_ace_type (ace_type : Z) : ace_class :=
  if (ace_type =? 0) || (ace_type =? 9) then AceAllow
  else if (ace_type =? 5) || (ace_type =? 11) then AceAllowObject
  else if ace_type =? 4 then AceCompound
  else if (ace_type =? 1) || (ace_type =? 10) || (ace_type =? 6) || (ace_type =? 12) then AceDeny
  else AceOther.

Definition allowed_ace_sid_offset (ace : list Z) (ace_size : nat) (ace_type : Z) : result rstr nat :=
  match classify_ace_type ace_type with
  | AceAllow => Ok (HEADER_SIZE + 4)%nat
  | AceAllowObject =>
      let flags_offset := (HEADER_SIZE + 4)%nat in
      let? flags := read_ace_u32 ace ace_size flags_offset in
      Ok (flags_offset + 4 + (if negb (Z.land flags 1 =? 0)%Z then GUID_SIZE else 0)
          + (if negb (Z.land flags 2 =? 0)%Z then GUID_SIZE else 0))%nat
  | _ => Err (&"unsupported allow ACE type " ++ to_dec ace_type)
  end.

(** What the operating system says of a security identifier at an address. *)
Record SidApi := {
  IsValidSid : list Z -> bool;
  GetLengthSid : list Z -> nat;
  is_local_system : list Z -> bool;
  is_administrators : list Z -> bool;
  is_trusted_installer_sid : list Z -> result rstr bool;
  is_world : list Z -> bool;
  is_users : list Z -> bool;
  is_authenticated : list Z -> bool;
  is_interactive : list Z -> bool }.

(** A security descriptor as the two query calls report it. *)
Record Dacl := { dacl_valid : bool; dacl_aces : list (result rstr (option (list Z))) }.
Record SecurityInfo := {
  si_owner : option (list Z);
  si_dacl : result rstr (bool * option Dacl) }.

(** A canonical path: its prefix and root, and its normal components. *)
Record CanonPath := { p_root : rstr; p_comps : list rstr }.
Definition path_text (p : CanonPath) : rstr := p_root p ++ join [c_backslash] (p_comps p).

Section Acl.
Variable os : SidApi.

Definition classify_acl_sid (sid : list Z) : result rstr AclPrincipal :=
  if negb (IsValidSid os sid) then Err &"security descriptor contains an invalid SID"
  else if is_local_system os sid then Ok (Trusted &"SYSTEM")
  else if is_administrators os sid then Ok (Trusted &"BUILTIN\Administrators")
  else
    let? installer := is_trusted_installer_sid os sid in
    if installer : bool then Ok (Trusted &"TrustedInstaller")
    else if is_world os sid then Ok (KnownUntrusted &"Everyone")
    else if is_users os sid then Ok (KnownUntrusted &"BUILTIN\Users")
    else if is_authenticated os sid then Ok (KnownUntrusted &"Authenticated Users")
    else if is_interactive os sid then Ok (KnownUntrusted &"Interactive")
    else Ok UnknownSid.

Definition ace_size_of (ace : list Z) : nat := Z.to_nat (byte_at ace 2 + 256 * byte_at ace 3).

Definition allowed_grant_from_ace (ace : option (list Z)) : result rstr (option AclAllowedGrant) :=
  match ace with
  | None => Err &"DACL contains a null ACE pointer"
  | Some ace =>
      let ace_type := byte_at ace 0 in
      let only_inherit := negb (Z.land (byte_at ace 1) 8 =? 0) in
      let ace_size := ace_size_of ace in
      if (ace_size <? HEADER_SIZE)%nat
      then Err (&"DACL contains an ACE with invalid size " ++ to_dec (Z.of_nat ace_size))
      else
        match classify_ace_type ace_type with
        | AceAllow | AceAllowObject =>
            let? m := read_ace_u32 ace ace_size HEADER_SIZE in
            let? sid_offset := allowed_ace_sid_offset ace ace_size ace_type in
            if (ace_size <=? sid_offset)%nat
            then Err (&"DACL contains an ACE whose SID offset " ++ to_dec (Z.of_nat sid_offset)
                      ++ &" exceeds ACE size " ++ to_dec (Z.of_nat ace_size))
            else
              let sid := drop sid_offset ace in
              if negb (IsValidSid os sid)
              then Err &"DACL contains an access-allowed ACE with an invalid SID"
              else
                let sid_len := GetLengthSid os sid in
                if (sid_len =? 0)%nat || (ace_size <? sid_offset + sid_len)%nat
                then Err &"DACL contains an access-allowed ACE with a truncated SID"
                else
                  let? p := classify_acl_sid sid in
                  Ok (Some {| principal := p; mask := m; inherit_only := only_inherit |})
        | AceCompound => Err &"DACL contains an unsupported compound allow ACE"
        | AceDeny => Ok None
        | AceOther => Err (&"DACL contains unsupported ACE type " ++ to_dec ace_type)
        end
  end.

(** The loop over the entries. *)
Fixpoint collect_grants (k : AclObjectKind) (shown : rstr) (index : Z)
    (aces : list (result rstr (option (list Z)))) : result rstr (list AclAllowedGrant) :=
  match aces with
  | [] => Ok []
  | a :: r =>
      let? ace := map_err (fun e => &"cannot read ACE " ++ to_dec index ++ &" for " ++ kind_label k
                                    ++ &" '" ++ shown ++ &"': " ++ e) a in
      let? g := allowed_grant_from_ace ace in
      let? gs := collect_grants k shown (index + 1) r in
      Ok (match g with Some g => g :: gs | None => gs end)
  end.

Variable security_of : CanonPath -> result Z SecurityInfo.

Definition descriptor_error (k : AclObjectKind) (shown what : rstr) : rstr :=
  &"security descriptor for " ++ kind_label k ++ &" '" ++ shown ++ &"' has " ++ what.

Definition validate_path_acl (p : CanonPath) (k : AclObjectKind) : result rstr unit :=
  let shown := path_text p in
  let? sd := map_err (fun status => &"cannot read security descriptor for " ++ kind_label k ++ &" '"
                        ++ shown ++ &"': Win32 error " ++ to_dec status) (security_of p) in
  let? owner := ok_or (si_owner sd) (descriptor_error k shown &"no owner") in
  let? owner_principal := classify_acl_sid owner in
  let? (present, ptr) := map_err (fun e => &"cannot inspect DACL for " ++ kind_label k ++ &" '"
                           ++ shown ++ &"': " ++ e) (si_dacl sd) in
  if negb present then Err (descriptor_error k shown &"no DACL")
  else
    let? dacl := ok_or ptr (descriptor_error k shown &"a null DACL") in
    if negb (dacl_valid dacl) then Err (descriptor_error k shown &"an invalid DACL")
    else
      let? grants := collect_grants k shown 0 (dacl_aces dacl) in
      map_err (fun e => &"unsafe ACL on " ++ kind_label k ++ &" '" ++ shown ++ &"': "
                        ++ describe_acl_decision_error e)
        (evaluate_acl_decision owner_principal grants k).

(** [runner_acl_targets]: the loop over [parent()], on the reversed components. *)
Fixpoint parent_targets (root : rstr) (rev_comps : list rstr) : list (CanonPath * AclObjectKind) :=
  match rev_comps with
  | [] => []
  | _ :: r =>
      if is_empty r then [(Build_CanonPath root [], AclVolumeRoot)]
      else (Build_CanonPath root (rev r), AclDirectory) :: parent_targets root r
  end.

Definition runner_acl_targets (canonical : CanonPath) : list (CanonPath * AclObjectKind) :=
  (canonical, AclFile) :: parent_targets (p_root canonical) (rev (p_comps canonical)).

Definition validate_runner_acl_chain (canonical : CanonPath) : result Error unit :=
  for_each (fun '(p, k) =>
    map_err (fun msg => error_other (&"refusing to install: the NGSM runner location is not administrator-protected: "
      ++ msg ++ &". Copy NGSM into a directory writable only by SYSTEM, BUILTIN\Administrators, or TrustedInstaller."))
      (validate_path_acl p k)) (runner_acl_targets canonical).

(** ** What an accepted chain means *)

(** The reference: an entry that lets nobody untrusted change the object. *)
Definition harmless (k : AclObjectKind) (ace : option (list Z)) : Prop :=
  exists a, ace = Some a /\
    (classify_ace_type (byte_at a 0) = AceDeny
     \/ exists g, allowed_grant_from_ace ace = Ok (Some g)
        /\ (inherit_only g = true \/ is_trusted (principal g) = true
            \/ Z.land (mask g) (dangerous_access_mask k) = 0)).

Definition protected (p : CanonPath) (k : AclObjectKind) : Prop :=
  exists sd owner name dacl,
    security_of p = Ok sd /\ si_owner sd = Some owner /\ classify_acl_sid owner = Ok (Trusted name)
    /\ si_dacl sd = Ok (true, Some dacl) /\ dacl_valid dacl = true
    /\ Forall (fun a => exists ace, a = Ok ace /\ harmless k ace) (dacl_aces dacl).

Lemma check_grants_ok k gs g :
  check_grants k gs = Ok tt -> In g gs ->
  inherit_only g = true \/ is_trusted (principal g) = true
  \/ Z.land (mask g) (dangerous_access_mask k) = 0.
Proof.
  induction gs as [|g' gs IH]; cbn [check_grants]; [done|].
  destruct (inherit_only g' || is_trusted (principal g')) eqn:Et.
  - intros H [<-|Hi]; [|by apply IH]. apply orb_true_iff in Et. tauto.
  - destruct (_ =? 0) eqn:Ez; cbn [negb]; [|done]. intros H [<-|Hi]; [|by apply IH].
    right. right. by apply Z.eqb_eq.
Qed.

Lemma grant_deny ace : allowed_grant_from_ace ace = Ok None ->
  exists a, ace = Some a /\ classify_ace_type (byte_at a 0) = AceDeny.
Proof.
  unfold allowed_grant_from_ace. destruct ace as [a|]; [|done]. intros H. exists a. split; [done|].
  destruct (_ <? HEADER_SIZE)%nat; [done|].
  destruct (classify_ace_type (byte_at a 0)); try done;
    (apply rbind_ok in H as (m & _ & H); apply rbind_ok in H as (o & _ & H);
     destruct (_ <=? o)%nat; [done|]; destruct (negb _); [done|]; destruct (_ || _); [done|];
     by apply rbind_ok in H as (p & _ & H)).
Qed.

Lemma collect_grants_ok k shown i aces gs :
  collect_grants k shown i aces = Ok gs -> check_grants k gs = Ok tt ->
  Forall (fun a => exists ace, a = Ok ace /\ harmless k ace) aces.
Proof.
  revert i gs. induction aces as [|a aces IH]; intros i gs H Hc; [constructor|].
  cbn [collect_grants] in H. apply rbind_ok in H as (ace & Ha & H).
  apply rbind_ok in H as (g & Hg & H). apply rbind_ok in H as (gs' & Hgs & H). injection H as <-.
  destruct a as [ace0|e]; [|done]. injection Ha as ->.
  destruct g as [g|].
  - constructor.
    + exists ace. split; [done|]. destruct ace as [m|]; [|done]. exists m. split; [done|]. right.
      exists g. split; [done|]. eapply check_grants_ok; [done|by left].
    + eapply IH; [done|]. cbn [check_grants] in Hc. destruct (_ || _); [done|].
      by destruct (negb _).
  - constructor; [|by eapply IH].
    exists ace. split; [done|]. apply grant_deny in Hg as (m & -> & Hd). exists m. auto.
Qed.

Lemma validate_path_acl_ok p k : validate_path_acl p k = Ok tt -> protected p k.
Proof.
  unfold validate_path_acl. intros (sd & Hsd & H)%rbind_ok. apply rbind_ok in H as (owner & Ho & H).
  apply rbind_ok in H as (op & Hop & H). apply rbind_ok in H as ([present ptr] & Hd & H).
  destruct present; cbn [negb] in H; [|done]. apply rbind_ok in H as (dacl & Hdacl & H).
  destruct (dacl_valid dacl) eqn:Hv; cbn [negb] in H; [|done].
  apply rbind_ok in H as (gs & Hgs & H). unfold evaluate_acl_decision in H.
  destruct op as [n| |]; try done. cbn [is_trusted negb] in H.
  destruct (check_grants k gs) as [[]|] eqn:Hc; [|done].
  destruct (security_of p) as [sd0|] eqn:E1; [|done]. injection Hsd as ->.
  destruct (si_owner sd) as [o0|] eqn:E2; [|done]. injection Ho as ->.
  destruct (si_dacl sd) as [[pr pt]|] eqn:E3; [|done]. injection Hd as -> ->.
  destruct ptr as [d0|] eqn:E4; [|done]. injection Hdacl as ->.
  exists sd, owner, n, dacl. repeat split; auto. by eapply collect_grants_ok.
Qed.

Lemma parent_targets_all root rc pre post :
  rc = rev (pre ++ post) -> post <> [] ->
  In (Build_CanonPath root pre, if is_empty pre then AclVolumeRoot else AclDirectory)
    (parent_targets root rc).
Proof.
  revert pre post. induction rc as [|c rc IH]; intros pre post H Hp.
  { apply (f_equal (@rev _)) in H. rewrite rev_involutive in H. symmetry in H.
    by apply app_eq_nil in H as [_ ->]. }
  destruct (exists_last Hp) as (post' & x & ->). rewrite app_assoc, rev_app_distr in H.
  injection H as <- ->. cbn [parent_targets]. destruct post' as [|y post'].
  - rewrite app_nil_r in *. rewrite rev_involutive.
    destruct pre as [|z pre]; [by left|]. destruct (is_empty (rev (z :: pre))) eqn:E.
    + apply (f_equal negb) in E. by destruct (rev (z :: pre)) eqn:Er; [apply (f_equal (@List.length _)) in Er;
        rewrite length_rev in Er|].
    + by left.
  - assert (Hin : In (Build_CanonPath root pre, if is_empty pre then AclVolumeRoot else AclDirectory)
        (parent_targets root (rev (pre ++ y :: post')))) by (by apply (IH pre (y :: post'))).
    destruct (is_empty (rev (pre ++ y :: post'))) eqn:E; [|by right].
    destruct (rev (pre ++ y :: post')) eqn:Er; [|done].
    apply (f_equal (@List.length _)) in Er. rewrite length_rev, length_app in Er. cbn in Er. lia.
Qed.

End Acl.

(** ** A machine where administrators own everything *)

Definition sample_sids : SidApi := {|
  IsValidSid s := negb (is_empty s); GetLengthSid s := 1%nat;
  is_local_system s := byte_at s 0 =? 18; is_administrators s := byte_at s 0 =? 32;
  is_trusted_installer_sid s := Ok (byte_at s 0 =? 80); is_world s := byte_at s 0 =? 1;
  is_users s := byte_at s 0 =? 33; is_authenticated s := byte_at s 0 =? 11;
  is_interactive s := byte_at s 0 =? 4 |}.

(** An allow entry for the one-byte identifier [sid] with a mask. *)
Definition sample_ace (sid m : Z) : result rstr (option (list Z)) :=
  Ok (Some [0; 0; 9; 0; m mod 256; (m / 256) mod 256; (m / 65536) mod 256; m / 16777216; sid]).

Definition sample_security (user_mask : Z) (p : CanonPath) : result Z SecurityInfo :=
  Ok {| si_owner := Some [32];
        si_dacl := Ok (true, Some {| dacl_valid := true;
          dacl_aces := [sample_ace 18 GENERIC_ALL; sample_ace 33 user_mask] |}) |}.

Definition sample_runner : CanonPath :=
  Build_CanonPath &"\\?\C:\" [&"Program Files"; &"NGSM"; &"ngsm.exe"].


(** Users may add files to a directory: refused. *)
Example writable_directory_refused :
  is_ok (validate_runner_acl_chain sample_sids (sample_security 2) sample_runner) = false.
Proof. vm_compute. reflexivity. Qed.
