(* ===== verification/Effects.v ===== *)
(** * Programs that call the outside world

    Code whose steps are calls into services it does not control is a [Prog]:
    a tree of calls, each continued by every answer the callee may give.
    [runs p log r] holds when [p] may return [r] after exactly the calls and
    answers of [log]; a theorem about [runs] holds whatever the callees do.
    [interp] executes a program against a concrete callee. *)

From Stdlib Require Import ZArith Lia List.
From S2P Require Import Prelude.

Section Programs.
Context {E : Type -> Type} {Er : Type}.

Inductive Prog (A : Type) : Type :=
| PRet (r : result Er A)
| PCall (X : Type) (e : E X) (k : result Er X -> Prog A).
Arguments PRet {A} r.
Arguments PCall {A X} e k.

(** A call with its answer. *)
Inductive Event : Type := Ev (X : Type) (e : E X) (x : result Er X).
Arguments Ev {X} e x.

Fixpoint pthen {A B} (p : Prog A) (k : result Er A -> Prog B) : Prog B :=
  match p with
  | PRet r => k r
  | PCall e c => PCall e (fun x => pthen (c x) k)
  end.

(** [?]: stop at the first error. *)
Definition pbind {A B} (p : Prog A) (k : A -> Prog B) : Prog B :=
  pthen p (fun r => match r with Ok a => k a | Err e => PRet (Err e) end).

Definition perform {X} (e : E X) : Prog X := PCall e PRet.
Definition plift {A} (r : result Er A) : Prog A := PRet r.
(** [match p { Ok(a) => .., Err(e) => .. }] *)
Definition ptry {A} (p : Prog A) : Prog (result Er A) := pthen p (fun r => PRet (Ok r)).
Definition pmap_err {A} (f : Er -> Er) (p : Prog A) : Prog A :=
  pthen p (fun r => PRet (map_err f r)).
(** [drop] of a guard on every path out of [body]. *)
Definition pfinally {A} (body : Prog A) (cleanup : Prog unit) : Prog A :=
  pthen body (fun r => pthen cleanup (fun _ => PRet r)).

Fixpoint runs {A} (p : Prog A) (log : list Event) (r : result Er A) : Prop :=
  match p with
  | PRet r' => log = [] /\ r = r'
  | PCall e k => exists x log', log = Ev e x :: log' /\ runs (k x) log' r
  end.

Fixpoint interp {A W} (h : forall X, E X -> W -> result Er X * W) (p : Prog A) (w : W)
    : result Er A * list Event * W :=
  match p with
  | PRet r => (r, [], w)
  | PCall e k =>
      let '(x, w1) := h _ e w in
      let '(r, log, w2) := interp h (k x) w1 in
      (r, Ev e x :: log, w2)
  end.

Lemma runs_then {A B} (p : Prog A) (k : result Er A -> Prog B) log r :
  runs (pthen p k) log r <->
  exists l1 l2 a, log = l1 ++ l2 /\ runs p l1 a /\ runs (k a) l2 r.
Proof.
  revert log. induction p as [a|X e c IH]; intros log; cbn.
  - split; [intros H; by exists [], log, a|]. by intros (l1 & l2 & b & -> & [-> ->] & H).
  - split.
    + intros (x & l & -> & H). apply IH in H as (l1 & l2 & a & -> & H1 & H2).
      exists (Ev e x :: l1), l2, a. split; [done|]. split; [|done]. by exists x, l1.
    + intros (l1 & l2 & a & -> & (x & l & -> & H1) & H2). exists x, (l ++ l2).
      split; [done|]. apply IH. by exists l, l2, a.
Qed.

Lemma runs_bind {A B} (p : Prog A) (k : A -> Prog B) log r :
  runs (pbind p k) log r <->
  (exists e, r = Err e /\ runs p log (Err e))
  \/ exists l1 l2 a, log = l1 ++ l2 /\ runs p l1 (Ok a) /\ runs (k a) l2 r.
Proof.
  unfold pbind. rewrite runs_then. split.
  - intros (l1 & l2 & [a|e] & -> & H1 & H2); [right; eauto 10|].
    cbn in H2. destruct H2 as [-> ->]. left. rewrite app_nil_r. eauto.
  - intros [(e & -> & H)|(l1 & l2 & a & -> & H1 & H2)]; [|by exists l1, l2, (Ok a)].
    exists log, [], (Err e). rewrite app_nil_r. by repeat split.
Qed.

Lemma interp_runs {A W} (h : forall X, E X -> W -> result Er X * W) (p : Prog A) w :
  runs p (interp h p w).1.2 (interp h p w).1.1.
Proof.
  revert w. induction p as [r|X e k IH]; intros w; cbn; [done|].
  destruct (h X e w) as [x w1]. specialize (IH x w1).
  destruct (interp h (k x) w1) as [[r log] w2]. cbn in *. eauto.
Qed.

End Programs.

Arguments Prog E Er A : clear implicits.
Arguments Event E Er : clear implicits.
Arguments PRet {E Er A} r.
Arguments PCall {E Er A X} e k.
Arguments Ev {E Er X} e x.

(** ** What may happen, and after what *)

Section Allowed.
Context {A : Type}.
Implicit Types (ok : list A -> A -> Prop).

(** Every call of [log] is allowed by what happened before it. *)
Definition allowed ok (log : list A) : Prop :=
  forall pre e post, log = pre ++ e :: post -> ok pre e.

Fixpoint allowed_from ok (past log : list A) : Prop :=
  match log with
  | [] => True
  | e :: l => ok past e /\ allowed_from ok (past ++ [e]) l
  end.

Lemma allowed_from_spec ok past log :
  allowed_from ok past log -> forall pre e post, log = pre ++ e :: post -> ok (past ++ pre) e.
Proof.
  revert past. induction log as [|x l IH]; intros past H pre e post Hl; [by destruct pre|].
  destruct H as [H1 H2]. destruct pre as [|y pre]; injection Hl as -> ->; [by rewrite app_nil_r|].
  replace (past ++ y :: pre) with ((past ++ [y]) ++ pre) by (by rewrite <- app_assoc). by eapply IH.
Qed.

Lemma allowed_by ok log : allowed_from ok [] log -> allowed ok log.
Proof. intros H pre e post. exact (allowed_from_spec ok [] log H pre e post). Qed.

Lemma allowed_from_app ok past l1 l2 :
  allowed_from ok past l1 -> allowed_from ok (past ++ l1) l2 -> allowed_from ok past (l1 ++ l2).
Proof.
  revert past. induction l1 as [|x l1 IH]; intros past; cbn; [by rewrite app_nil_r|].
  intros [H1 H2] H. split; [done|]. apply IH; [done|]. by rewrite <- app_assoc.
Qed.

Lemma allowed_from_free ok past l : Forall (fun e => forall past, ok past e) l -> allowed_from ok past l.
Proof. intros H. revert past. induction H as [|x l Hx _ IH]; intros past; cbn; auto. Qed.
End Allowed.

Notation "'let@' x ':=' e 'in' k" := (pbind e (fun x => k))
  (at level 10, x pattern, e at level 100, k at level 200) : rust_scope.
Notation "e ';@' k" := (pbind e (fun _ => k))
  (at level 199, right associativity) : rust_scope.

(** Symbolic execution of [H : runs p log r]: each call gets an answer, and the
    code that follows is the one for that answer. *)
Ltac run_step H :=
  cbn beta iota delta [runs perform plift pbind pthen ptry pmap_err pfinally map_err] in H;
  match type of H with
  | ex _ =>
      let x := fresh "x" in let l := fresh "log" in let E := fresh "E" in
      destruct H as (x & l & E & H); subst
  | _ /\ _ => destruct H as [? ?]; subst
  | context [match ?b with _ => _ end] => destruct b eqn:?
  end.
Ltac run_all H := repeat run_step H.

Ltac conj_all := repeat match goal with |- _ /\ _ => split end.

(** Membership of an event in a log that has been written out. *)
Ltac in_past := first [left; reflexivity | right; in_past].
