(* ===== verification/Monitor.v ===== *)
(** * Programs under a monitor

    A monitor follows the calls of a run: [track] is what it remembers, [ok]
    what it demands of a call. [spec P p Q]: from any state in [P], every run of
    [p] makes only calls the monitor accepts and ends in [Q]. *)

From Stdlib Require Import List.
From S2P Require Import Prelude Effects.

Section Monitor.
Context {E : Type -> Type} {Er T : Type}.
Context (track : T -> Event E Er -> T) (ok : T -> Event E Er -> Prop).

Definition watch (t : T) (log : list (Event E Er)) : T := fold_left track log t.
Fixpoint obeys (t : T) (log : list (Event E Er)) : Prop :=
  match log with [] => True | e :: l => ok t e /\ obeys (track t e) l end.

Lemma watch_app t l m : watch t (l ++ m) = watch (watch t l) m.
Proof. apply fold_left_app. Qed.
Lemma obeys_app t l m : obeys t (l ++ m) <-> obeys t l /\ obeys (watch t l) m.
Proof. revert t. induction l as [|e l IH]; intros t; cbn; [tauto|]. rewrite IH. cbn. tauto. Qed.

Definition spec {A} (P : T -> Prop) (p : Prog E Er A) (Q : result Er A -> T -> Prop) : Prop :=
  forall t log r, P t -> runs p log r -> obeys t log /\ Q r (watch t log).

Lemma spec_weaken {A} (P P' : T -> Prop) (p : Prog E Er A) (Q Q' : result Er A -> T -> Prop) :
  spec P' p Q' -> (forall t, P t -> P' t) -> (forall r t, Q' r t -> Q r t) -> spec P p Q.
Proof. intros H HP HQ t log r Ht Hr. destruct (H t log r (HP t Ht) Hr). auto. Qed.
Lemma spec_pre {A} (P P' : T -> Prop) (p : Prog E Er A) Q : spec P' p Q -> (forall t, P t -> P' t) -> spec P p Q.
Proof. intros H HP. by eapply spec_weaken. Qed.

Lemma spec_ret {A} (P : T -> Prop) (Q : result Er A -> T -> Prop) r : (forall t, P t -> Q r t) -> spec P (PRet r) Q.
Proof. intros H t log r' HP [-> ->]. split; [exact I|]. by apply H. Qed.

Lemma spec_perform {A} (P : T -> Prop) (e : E A) (Q : result Er A -> T -> Prop) :
  (forall t x, P t -> ok t (Ev e x) /\ Q x (track t (Ev e x))) -> spec P (perform e) Q.
Proof. intros H t log r HP (x & l & -> & -> & ->). destruct (H t x HP). repeat split; done. Qed.

Lemma spec_bind {A B} (P : T -> Prop) (p : Prog E Er A) (k : A -> Prog E Er B) (R : A -> T -> Prop) Q :
  spec P p (fun r => match r with Ok a => R a | Err e => Q (Err e) end) ->
  (forall a, spec (R a) (k a) Q) -> spec P (pbind p k) Q.
Proof.
  intros Hp Hk t log r HP Hr. apply runs_bind in Hr as [(e & -> & H)|(l1 & l2 & a & -> & H1 & H2)].
  - exact (Hp t log (Err e) HP H).
  - destruct (Hp t l1 (Ok a) HP H1) as [G1 HR]. destruct (Hk a _ l2 r HR H2) as [G2 HQ].
    rewrite watch_app. split; [by apply obeys_app|done].
Qed.

(** A call, and what follows each answer. *)
Lemma spec_call {A B} (P : T -> Prop) (e : E A) (k : A -> Prog E Er B) (R : A -> T -> Prop) Q :
  (forall t a, P t -> ok t (Ev e (Ok a)) /\ R a (track t (Ev e (Ok a)))) ->
  (forall t x, P t -> ok t (Ev e (Err x)) /\ Q (Err x) (track t (Ev e (Err x)))) ->
  (forall a, spec (R a) (k a) Q) -> spec P (pbind (perform e) k) Q.
Proof.
  intros H1 H2 Hk. apply (spec_bind _ _ _ R); [|exact Hk]. apply spec_perform. intros t [a|x] HP; [by apply H1|by apply H2].
Qed.
End Monitor.

Lemma obeys_impl {E Er T} (track : T -> Event E Er -> T) (ok ok' : T -> Event E Er -> Prop) t log :
  (forall t e, ok t e -> ok' t e) -> obeys track ok t log -> obeys track ok' t log.
Proof. intros H. revert t. induction log as [|e l IH]; intros t; [done|]. intros [H1 H2]. split; [by apply H|by apply IH]. Qed.
