(* ===== verification/OpsConfig.v ===== *)
(** * Editing the configuration of a service: servicemanager-ops [edit.rs], [recovery.rs]

    The two read-modify-write transactions on a managed configuration, against
    [ConfigBackend], the trait of the same name in [helpers.rs]; its registry
    implementation; and the laws of a backend from which their atomicity
    follows. *)

From Stdlib Require Import ZArith Lia List.
From S2P Require Import Prelude Text BTree Model Validate Expansion RegApi RegConfig RegValues RegSim Win32.

(** ** specs.rs *)

Record EditSpec := {
  es_name : rstr;
  es_display_name : option rstr;
  es_description : option rstr;
  es_application : option rstr;
  es_app_parameters : option rstr;
  es_app_directory : option rstr;
  es_stdout : option rstr;
  es_stderr : option rstr;
  es_start_type : option InstallStartType;
  es_dependencies : option ServiceDependencies;
  es_account : option rstr;
  es_password : option rstr }.

Record RecoverySpec := {
  rs_name : rstr;
  rs_restart_delay_ms : option Z;
  rs_throttle_delay_ms : option Z;
  rs_default_action : ExitAction;
  rs_exit_actions : btree ExitAction }.

(** The conditions of [edit_with_backend] on the fields that are given. *)
Definition touches_managed (s : EditSpec) : bool :=
  is_some (es_application s) || is_some (es_app_parameters s) || is_some (es_app_directory s)
  || is_some (es_stdout s) || is_some (es_stderr s).
Definition touches_native (s : EditSpec) : bool :=
  is_some (es_display_name s) || is_some (es_description s) || is_some (es_start_type s)
  || is_some (es_dependencies s) || is_some (es_account s) || is_some (es_password s).

Definition has_changes (s : EditSpec) : bool :=
  is_some (es_display_name s) || is_some (es_description s) || is_some (es_application s)
  || is_some (es_app_parameters s) || is_some (es_app_directory s) || is_some (es_stdout s)
  || is_some (es_stderr s) || is_some (es_start_type s) || is_some (es_dependencies s)
  || is_some (es_account s) || is_some (es_password s).

(** ** helpers.rs *)

Class ConfigBackend (W : Type) := {
  read_managed : rstr -> M W Error (option ManagedApplicationConfig);
  write_managed : rstr -> ManagedApplicationConfig -> M W Error unit;
  update_native : EditSpec -> M W Error unit;
  (** [servicemanager_registry::lock_service_config] and the drop of its guard *)
  lock_service_config : rstr -> M W Error (Z * bool);
  lock_drop : Z * bool -> W -> W }.

Definition io_stream (p : rstr) : IoStream := Build_IoStream p None None None None.

Definition message_error (message : rstr) : Error := error_other message.

(** ** edit.rs: the merge *)

Definition merge_stream_path (stream : option IoStream) (p : option rstr) : option IoStream :=
  match p with
  | None => stream
  | Some p =>
      if is_empty p then None
      else match stream with
           | Some s => Some (Build_IoStream p (share_mode s) (creation_disposition s)
                               (flags_and_attributes s) (copy_and_truncate s))
           | None => Some (io_stream p)
           end
  end.

(** The loop that unmarks a cleared stream. *)
Definition unmark_cleared (p : option rstr) (key : rstr) (marks : bset) : bset :=
  if bool_decide (p = Some []) then bt_retain (fun m => negb (eq_ignore_ascii_case m key)) marks else marks.

Definition or_else {A} (new old : option A) : option A :=
  match new with Some a => Some a | None => old end.

Definition merge_managed_fields (m : ManagedApplicationConfig) (s : EditSpec)
    : result Error ManagedApplicationConfig :=
  if is_some_and (fun v => is_empty (trim v)) (es_application s)
  then Err (message_error &"Application path must not be empty.")
  else Ok {|
    application := or_else (es_application s) (application m);
    app_parameters := or_else (es_app_parameters s) (app_parameters m);
    app_directory := or_else (es_app_directory s) (app_directory m);
    environment := environment m; environment_extra := environment_extra m;
    priority := priority m; affinity := affinity m;
    restart := restart m; shutdown := shutdown m;
    io := {| stdin := stdin (io m);
             stdout := merge_stream_path (stdout (io m)) (es_stdout s);
             stderr := merge_stream_path (stderr (io m)) (es_stderr s);
             timestamp_log := timestamp_log (io m) |};
    rotation := rotation m; exit_actions := exit_actions m; hooks := hooks m;
    expandable_strings := unmark_cleared (es_stderr s) &"AppStderr"
                            (unmark_cleared (es_stdout s) &"AppStdout" (expandable_strings m)) |}.

(** ** recovery.rs: keys *)

Definition validate_exit_action_key (s : rstr) : result Error unit :=
  let trimmed := trim s in
  if is_empty trimmed then Err (message_error &"exit-action key must not be empty")
  else if eq_ignore_ascii_case trimmed &"default"
  then Err (message_error &"'default' is not a per-exit-code key; set the default action separately")
  else if any (fun c => is_whitespace c || is_control c) s
  then Err (message_error &"exit-action key must not contain whitespace or control characters")
  else if contains_char c_equals s then Err (message_error &"exit-action key must not contain '='")
  else if contains_char c_nul s then Err (message_error &"exit-action key must not contain NUL")
  else
    let? code := ok_or (parse_i32 s)
      (message_error &"exit-action key must be an i32 exit code (e.g. -1, 0, 1, 2147483647)") in
    let canonical := to_dec code in
    if negb (str_eqb s canonical)
    then Err (message_error (&"exit-action key must use canonical signed decimal spelling; use '"
                             ++ canonical ++ &"'"))
    else Ok tt.

Definition not_managed (name suffix : rstr) : Error :=
  message_error (&"'" ++ name ++ &"' is not an NGSM-managed service" ++ suffix).

Section Transactions.
Context {R W : Type} `{A : RegApi R} `{B : ConfigBackend W}.
Abbreviation Op := (M W Error) (only parsing).

(** [validate.rs]: the shared registry preflight. *)
Definition validate_config (c : ManagedApplicationConfig) : result Error unit :=
  validate_managed_config (W := R) c.

(** [let _guard = lock_service_config(name)?; body] *)
Definition guarded {T} (n : rstr) (body : Op T) : Op T :=
  let! g := lock_service_config n in fun w => let '(r, w1) := body w in (r, lock_drop g w1).

(** ** edit.rs: the transaction *)

Definition rollback_managed (s : EditSpec) (original : ManagedApplicationConfig)
    (error : Error) (native_attempted : bool) : W -> Error * W := fun w =>
  let '(phase, native_status) :=
    if native_attempted
    then (&"native edit", &"Native SCM fields (including account/password) were not rolled back; inspect native configuration for partial application.")
    else (&"managed edit", &"No native SCM changes were attempted.") in
  let '(r, w1) := write_managed (es_name s) original w in
  let restored := match r with
    | Ok _ => &"managed configuration restored"
    | Err rollback => &"managed rollback also failed (" ++ error_to_string rollback
                      ++ &"); managed configuration may be partially applied"
    end in
  (message_error (phase ++ &" failed (" ++ error_to_string error ++ &"); " ++ restored
                  ++ &". " ++ native_status), w1).

(** [if let Err(error) = m { return Err(f(error)); }] with an effectful [f]. *)
Definition or_return (m : Op unit) (f : Error -> W -> Error * W) : Op unit :=
  fun w => match m w with
           | (Ok _, w1) => (Ok tt, w1)
           | (Err e, w1) => let '(e', w2) := f e w1 in (Err e', w2)
           end.

Definition edit_managed_phase (s : EditSpec) (original : ManagedApplicationConfig) : Op unit :=
  if touches_managed s then
    let! managed := mlift (merge_managed_fields original s) in
    mlift (validate_config managed) ;!
    or_return (write_managed (es_name s) managed)
      (fun error => rollback_managed s original error false)
  else mret tt.

Definition edit_native_phase (s : EditSpec) (original : ManagedApplicationConfig) : Op unit :=
  if touches_native s then
    or_return (update_native s)
      (fun error => if touches_managed s then rollback_managed s original error true
                    else fun w => (error, w))
  else mret tt.

Definition edit_with_backend (s : EditSpec) : Op rstr :=
  if negb (has_changes s) then mfail (InvalidConfig &"no edit fields specified")
  else
    mlift (validate_native_update (es_name s) (es_display_name s) (es_description s)
             (es_dependencies s) (es_account s) (es_password s)) ;!
    guarded (es_name s) (
      let! o := read_managed (es_name s) in
      match o with
      | None => mfail (not_managed (es_name s) &" — refusing to edit it")
      | Some original =>
          edit_managed_phase s original ;!
          edit_native_phase s original ;!
          mret (&"Edited '" ++ es_name s ++ &"'.")
      end).

(** ** recovery.rs: the transactions *)

Definition apply_recovery (s : RecoverySpec) (m : ManagedApplicationConfig)
    : ManagedApplicationConfig := {|
  application := application m; app_parameters := app_parameters m;
  app_directory := app_directory m; environment := environment m;
  environment_extra := environment_extra m; priority := priority m; affinity := affinity m;
  restart := {| restart_delay_ms := rs_restart_delay_ms s;
                throttle_delay_ms := rs_throttle_delay_ms s;
                default_action := Some (rs_default_action s) |};
  shutdown := shutdown m; io := io m; rotation := rotation m;
  exit_actions := map (fun ca => (ca.1, Build_ExitActionPolicy ca.2)) (rs_exit_actions s);
  hooks := hooks m; expandable_strings := expandable_strings m |}.

Definition save_rollback (s : RecoverySpec) (original : ManagedApplicationConfig) (error : Error)
    : W -> Error * W := fun w =>
  let '(r, w1) := write_managed (rs_name s) original w in
  let rollback := match r with
    | Ok _ => &"managed configuration restored"
    | Err rollback => &"managed rollback also failed (" ++ error_to_string rollback
                      ++ &"); configuration may be partially applied"
    end in
  (message_error (&"recovery update failed (" ++ error_to_string error ++ &"); " ++ rollback), w1).

Definition save_recovery_with_backend (s : RecoverySpec) : Op rstr :=
  mlift (for_each (fun code =>
    map_err (fun e => message_error (&"exit-action code '" ++ code ++ &"': " ++ error_to_string e))
      (validate_exit_action_key code)) (bt_keys (rs_exit_actions s))) ;!
  guarded (rs_name s) (
    let! o := read_managed (rs_name s) in
    match o with
    | None => mfail (not_managed (rs_name s) &" — refusing to edit its recovery policy")
    | Some original =>
        let managed := apply_recovery s original in
        mlift (validate_config managed) ;!
        or_return (write_managed (rs_name s) managed) (save_rollback s original) ;!
        mret (&"Saved recovery policy for '" ++ rs_name s ++ &"'.")
    end).

Definition read_recovery_with_backend (n : rstr) : Op RecoverySpec :=
  let! o := read_managed n in
  match o with
  | None => mfail (not_managed n [])
  | Some m => mret {|
      rs_name := n;
      rs_restart_delay_ms := restart_delay_ms (restart m);
      rs_throttle_delay_ms := throttle_delay_ms (restart m);
      rs_default_action := unwrap_or Restart (default_action (restart m));
      rs_exit_actions := map (fun cp => (cp.1, action cp.2))
        (List.filter (fun cp => negb (str_eqb cp.1 &"default")) (exit_actions m)) |}
  end.

Definition update_recovery_with_backend (n : rstr) (update : RecoverySpec -> result Error RecoverySpec)
    : Op rstr :=
  guarded n (
    let! current := read_recovery_with_backend n in
    let! s := mlift (update current) in
    if negb (str_eqb (rs_name s) n)
    then mfail (message_error &"a recovery update must keep the requested service name")
    else save_recovery_with_backend s).
End Transactions.

(** ** Keys of exit actions *)

(** A key is accepted exactly when it is the spelling in which the
    supervisor looks up an exit code: the canonical signed decimal form of a
    32-bit integer. No alias ([+1], [007], [-0]), no reserved name and no
    number out of range can be stored as a policy that never matches. *)
Theorem validate_exit_action_key_iff (s : rstr) :
  validate_exit_action_key s = Ok tt <-> exists n, i32_wf n /\ s = to_dec n.
Proof.
  unfold validate_exit_action_key. split.
  - intros H. destruct (is_empty _); [done|]. destruct (eq_ignore_ascii_case _ _); [done|].
    destruct (any _ s); [done|]. destruct (contains_char c_equals s); [done|].
    destruct (contains_char c_nul s); [done|]. inv_bind_as H z E.
    destruct (str_eqb s (to_dec z)) eqn:Es; [|done]. apply str_eqb_eq in Es. exists z.
    split; [|done]. destruct (parse_i32 s) as [z'|] eqn:Ep; [|done].
    apply parse_i32_range in Ep. by injection E as ->.
  - intros (n & Hn & ->).
    assert (Hc : forall c, In c (to_dec n) -> c = 45 \/ 48 <= c <= 57) by (intros c; by apply to_dec_chars).
    assert (Hw : forall c, In c (to_dec n) -> is_whitespace c = false /\ is_control c = false).
    { intros c [->|Hd]%Hc; [done|]. unfold is_whitespace, is_control.
      repeat match goal with |- context [?a =? ?b] => destruct (Z.eqb_spec a b); [lia|] end.
      split; lia. }
    rewrite trim_no_ws by (intros c Hi; by apply Hw).
    destruct (to_dec n) as [|c r] eqn:Ed; [by apply to_dec_not_nil in Ed|]. rewrite <- Ed in *. clear Ed c r.
    destruct (is_empty (to_dec n)) eqn:Ee; [|].
    { destruct (to_dec n) eqn:Ed; [by apply to_dec_not_nil in Ed|done]. }
    destruct (eq_ignore_ascii_case (to_dec n) &"default") eqn:Edef.
    { destruct (to_dec n) as [|c r]; [done|]. destruct (Hc c (or_introl eq_refl)) as [->|Hd]; [done|].
      apply eq_ignore_ascii_case_eq in Edef. injection Edef as Edef _. unfold to_ascii_lowercase_char in Edef.
      case_match_all; bool_to_prop; try done; vm_compute in Edef; lia. }
    destruct (any _ (to_dec n)) eqn:Ea.
    { apply existsb_exists in Ea as (c & Hi & Hb). destruct (Hw c Hi) as [E1 E2]. by rewrite E1, E2 in Hb. }
    assert (contains_char c_equals (to_dec n) = false) as ->
      by (apply contains_char_false; intros Hi%Hc; unfold c_equals in Hi; lia).
    assert (contains_char c_nul (to_dec n) = false) as ->
      by (apply contains_char_false; intros Hi%Hc; unfold c_nul in Hi; lia).
    rewrite parse_i32_to_dec by done. cbn [ok_or rbind]. by rewrite str_eqb_refl.
Qed.

(** [RegistryConfigBackend]: the trait on the registry crate and the SCM. *)
Definition registry_backend {W} `{RegApi W} (lock : LockApi) (fuel : nat)
    (update_native_config : EditSpec -> M W Error unit) : ConfigBackend W := {|
  read_managed := read_managed_config fuel;
  write_managed := write_managed_config lock fuel;
  update_native := update_native_config;
  lock_service_config n := lock_with_timeout lock n 5000;
  lock_drop g w := lock_close lock g.1 (lock_release lock g.1 w) |}.

(** ** What a backend promises

    [key_of] identifies the spellings of a service name, [stored] is what a
    successful read reports, and [canon] the form in which a configuration
    that was written is read back; what was read is already in that form.
    [native_of] is everything the SCM keeps. *)

Class ConfigLaws (W N : Type) `{B : ConfigBackend W} := {
  key_of : rstr -> list Z;
  stored : W -> list Z -> option ManagedApplicationConfig;
  native_of : W -> N;
  canon : ManagedApplicationConfig -> ManagedApplicationConfig;
  canon_law : forall w k c, stored w k = Some c -> canon c = c;
  read_law : forall n w,
    (forall k, stored (read_managed n w).2 k = stored w k)
    /\ native_of (read_managed n w).2 = native_of w
    /\ forall o, (read_managed n w).1 = Ok o -> o = stored w (key_of n);
  write_law : forall n c w,
    native_of (write_managed n c w).2 = native_of w
    /\ (forall k, k <> key_of n -> stored (write_managed n c w).2 k = stored w k)
    /\ ((write_managed n c w).1 = Ok tt -> stored (write_managed n c w).2 (key_of n) = Some (canon c));
  update_law : forall s w k, stored (update_native s w).2 k = stored w k;
  lock_law : forall n w,
    (forall k, stored (lock_service_config n w).2 k = stored w k)
    /\ native_of (lock_service_config n w).2 = native_of w;
  drop_law : forall g w,
    (forall k, stored (lock_drop g w) k = stored w k) /\ native_of (lock_drop g w) = native_of w }.

Section Atomicity.
Context {R W N : Type} `{A : RegApi R} `{L : ConfigLaws W N}.
Implicit Types (w : W) (s : EditSpec) (c : ManagedApplicationConfig).

(** Nothing that is kept differs. *)
Definition same (w w' : W) : Prop :=
  (forall k, stored w' k = stored w k) /\ native_of w' = native_of w.

#[export] Instance same_equiv : Equivalence same.
Proof.
  split; [by intros w|intros w w' [H1 H2]; split; [intros k; by rewrite H1|done]|].
  intros w1 w2 w3 [H1 H2] [H3 H4]. split; [intros k; by rewrite H3, H1|congruence].
Qed.

(** The error says that restoring the configuration failed too. *)
Definition reports_rollback_failure (e : Error) : Prop :=
  exists p reason q, e = message_error (p ++ &"managed rollback also failed (" ++ reason ++ q).

(** The configuration of [n] is what it was, or the error says otherwise; no
    other configuration and no native setting differs. *)
Definition restored (n : rstr) (old : option ManagedApplicationConfig) (e : Error) (w w' : W) : Prop :=
  (stored w' (key_of n) = old \/ reports_rollback_failure e)
  /\ (forall k, k <> key_of n -> stored w' k = stored w k) /\ native_of w' = native_of w.

Lemma guarded_spec {T} n (body : M W Error T) w r w' :
  guarded n body w = (r, w') ->
  ((exists e, r = Err e) /\ same w w')
  \/ exists w1 w2, same w w1 /\ body w1 = (r, w2) /\ same w2 w'.
Proof.
  unfold guarded, mbind. pose proof (lock_law n w) as Hl.
  destruct (lock_service_config n w) as [[g|e] w1]; cbn [fst snd] in Hl; [|intros [= <- <-]; left; eauto].
  destruct (body w1) as [r1 w2] eqn:Eb. intros [= <- <-]. right. exists w1, w2.
  split; [done|]. split; [done|]. apply drop_law.
Qed.

Lemma read_spec n w r w' :
  read_managed n w = (r, w') -> same w w' /\ forall o, r = Ok o -> o = stored w (key_of n).
Proof. intros E. pose proof (read_law n w) as (H1 & H2 & H3). rewrite E in *. by split. Qed.

(** Writing back what was read restores it. *)
Lemma write_back n old w r w' w0 :
  write_managed n old w = (r, w') -> stored w0 (key_of n) = Some old ->
  native_of w' = native_of w /\ (forall k, k <> key_of n -> stored w' k = stored w k)
  /\ (r = Ok tt -> stored w' (key_of n) = Some old).
Proof.
  intros E H. pose proof (write_law n old w) as (H1 & H2 & H3). rewrite E in *.
  cbn [fst snd] in *. split; [done|]. split; [done|]. intros ->. rewrite H3 by done. f_equal. by eapply canon_law.
Qed.

Lemma rollback_spec s old e b w e' w' w0 :
  rollback_managed s old e b w = (e', w') -> stored w0 (key_of (es_name s)) = Some old ->
  restored (es_name s) (Some old) e' w w'.
Proof.
  unfold rollback_managed. intros H Hs.
  destruct (if b then _ else _) as [phase status].
  destruct (write_managed (es_name s) old w) as [r w1] eqn:E.
  apply pair_equal_spec in H as [He ->]. eapply write_back in E as (H1 & H2 & H3); [|done].
  split; [|done]. destruct r as [[]|err]; [left; auto|right].
  rewrite <- He. exists (phase ++ &" failed (" ++ error_to_string e ++ &"); "), (error_to_string err),
    (&"); managed configuration may be partially applied" ++ &". " ++ status).
  reassoc.
Qed.

Lemma or_return_spec (m : M W Error unit) f w r w' :
  or_return m f w = (r, w') ->
  (r = Ok tt /\ m w = (Ok tt, w'))
  \/ exists e w1 e', m w = (Err e, w1) /\ f e w1 = (e', w') /\ r = Err e'.
Proof.
  unfold or_return. destruct (m w) as [[[]|e] w1]; [intros [= <- <-]; by left|].
  destruct (f e w1) as [e' w2] eqn:Ef. intros [= <- <-]. right. by exists e, w1, e'.
Qed.

(** A native edit leaves every configuration alone. *)
Lemma update_spec s w r w' :
  update_native s w = (r, w') -> forall k, stored w' k = stored w k.
Proof. intros E k. pose proof (update_law s w k) as H. by rewrite E in H. Qed.

Lemma edit_managed_spec s old w r w' :
  edit_managed_phase s old w = (r, w') -> stored w (key_of (es_name s)) = Some old ->
  match r with
  | Ok _ =>
      if touches_managed s
      then (exists m, merge_managed_fields old s = Ok m /\ validate_config m = Ok tt
                      /\ stored w' (key_of (es_name s)) = Some (canon m))
           /\ (forall k, k <> key_of (es_name s) -> stored w' k = stored w k)
           /\ native_of w' = native_of w
      else same w w'
  | Err e => restored (es_name s) (Some old) e w w'
  end.
Proof.
  intros H Hs. unfold edit_managed_phase in H. destruct (touches_managed s); [|by injection H as <- <-].
  unfold mbind at 1, mlift at 1 in H. destruct (merge_managed_fields old s) as [m|e] eqn:Em.
  2: { injection H as <- <-. by split; [left|]. }
  unfold mbind at 1, mlift at 1 in H. destruct (validate_config m) as [u1|e] eqn:Ev.
  2: { injection H as <- <-. by split; [left|]. }
  pose proof (write_law (es_name s) m w) as (Hn & Ho & Hw).
  apply or_return_spec in H as [[-> E]|(e & w1 & e' & E & Hr & ->)]; rewrite E in *; cbn [fst snd] in *.
  - split; [|done]. exists m. destruct u1. auto.
  - eapply rollback_spec in Hr as (H1 & H2 & H3); [|done]. split; [done|].
    split; [intros k Hk; by rewrite H2, Ho|congruence].
Qed.

Lemma edit_native_spec s old w r w' w0 :
  edit_native_phase s old w = (r, w') -> stored w0 (key_of (es_name s)) = Some old ->
  (forall k, k <> key_of (es_name s) -> stored w' k = stored w k)
  /\ match r with
     | Ok _ => stored w' (key_of (es_name s)) = stored w (key_of (es_name s))
               /\ if touches_native s then update_native s w = (Ok tt, w') else w' = w
     | Err e =>
         (if touches_managed s
          then stored w' (key_of (es_name s)) = Some old \/ reports_rollback_failure e
          else stored w' (key_of (es_name s)) = stored w (key_of (es_name s)))
         /\ exists e1 w1, update_native s w = (Err e1, w1) /\ native_of w' = native_of w1
     end.
Proof.
  intros H Hs. unfold edit_native_phase in H. destruct (touches_native s); [|by injection H as <- <-].
  apply or_return_spec in H as [[-> E]|(e & w1 & e' & E & Hr & ->)]; pose proof (update_spec _ _ _ _ E) as Hu;
    [by auto|].
  destruct (touches_managed s).
  - eapply rollback_spec in Hr as (H1 & H2 & H3); [|done].
    split; [intros k Hk; by rewrite H2, Hu|]. split; [done|]. by exists e, w1.
  - injection Hr as <- <-. split; [by auto|]. split; [done|]. by exists e, w1.
Qed.

(** What an edit leaves behind. *)
Definition edit_outcome (s : EditSpec) (w w' : W) (r : result Error rstr) : Prop :=
  let k0 := key_of (es_name s) in
  (forall k, k <> k0 -> stored w' k = stored w k)
  /\ match r with
     | Ok _ =>
         exists old, stored w k0 = Some old
         /\ (if touches_managed s
             then exists m, merge_managed_fields old s = Ok m /\ validate_config m = Ok tt
                            /\ stored w' k0 = Some (canon m)
             else stored w' k0 = stored w k0)
         /\ if touches_native s
            then exists w1 w2, native_of w1 = native_of w /\ update_native s w1 = (Ok tt, w2)
                               /\ native_of w' = native_of w2
            else native_of w' = native_of w
     | Err e =>
         (stored w' k0 = stored w k0 \/ reports_rollback_failure e)
         /\ (native_of w' = native_of w
             \/ exists e1 w1 w2, native_of w1 = native_of w /\ update_native s w1 = (Err e1, w2)
                                 /\ native_of w' = native_of w2)
     end.

Lemma edit_phases s old w0 w r w' :
  same w0 w -> stored w0 (key_of (es_name s)) = Some old ->
  (edit_managed_phase s old ;! edit_native_phase s old ;! mret (&"Edited '" ++ es_name s ++ &"'.")) w
    = (r, w') ->
  edit_outcome s w0 w' r.
Proof.
  intros [Hk Hn] Hs H. unfold mbind at 1 in H.
  destruct (edit_managed_phase s old w) as [[u1|e1] w1] eqn:E1;
    (apply edit_managed_spec in E1; [|by rewrite Hk]).
  2: { apply pair_equal_spec in H as [<- <-]. destruct E1 as (H1 & H2 & H3).
       split; [intros k Hne; by rewrite H2, Hk|]. split; [rewrite Hs; by destruct H1; auto|left; congruence]. }
  unfold mbind in H.
  destruct (edit_native_phase s old w1) as [[u2|e2] w2] eqn:E2;
    (eapply edit_native_spec in E2 as [Ho E2]; [|done]);
    apply pair_equal_spec in H as [<- <-]; unfold edit_outcome.
  - destruct E2 as [Hk0 Hnat]. destruct (touches_managed s).
    + destruct E1 as ((m & Hm & Hv & Hst) & Ho1 & Hn1).
      split; [intros k Hne; by rewrite Ho, Ho1, Hk|]. exists old. split; [done|].
      split; [exists m; rewrite Hk0; auto|].
      destruct (touches_native s); [exists w1, w2; split; [congruence|done]|subst; congruence].
    + destruct E1 as [Hs1 Hn1]. split; [intros k Hne; by rewrite Ho, Hs1, Hk|]. exists old.
      split; [done|]. split; [by rewrite Hk0, Hs1, Hk|].
      destruct (touches_native s); [exists w1, w2; split; [congruence|done]|subst; congruence].
  - destruct E2 as [Hst (e1 & w3 & Hu & Hn2)]. destruct (touches_managed s).
    + destruct E1 as (_ & Ho1 & Hn1). split; [intros k Hne; by rewrite Ho, Ho1, Hk|].
      split; [by rewrite Hs|]. right. exists e1, w1, w3. split; [congruence|done].
    + destruct E1 as [Hs1 Hn1]. split; [intros k Hne; by rewrite Ho, Hs1, Hk|].
      split; [left; by rewrite Hst, Hs1, Hk|]. right. exists e1, w1, w3. split; [congruence|done].
Qed.


(** ** The recovery policy *)

(** What saving a policy leaves behind. *)
Definition save_outcome (s : RecoverySpec) (w w' : W) (r : result Error rstr) : Prop :=
  let k0 := key_of (rs_name s) in
  (forall k, k <> k0 -> stored w' k = stored w k) /\ native_of w' = native_of w
  /\ match r with
     | Ok _ => exists old, stored w k0 = Some old
               /\ validate_config (apply_recovery s old) = Ok tt
               /\ stored w' k0 = Some (canon (apply_recovery s old))
     | Err e => stored w' k0 = stored w k0 \/ reports_rollback_failure e
     end.

Lemma save_reject (s : RecoverySpec) e w w' : same w w' -> save_outcome s w w' (Err e).
Proof. intros [H1 H2]. split; [done|]. split; [done|]. by left. Qed.

Lemma save_outcome_same (s : RecoverySpec) r w0 w w' w1 :
  same w0 w -> same w' w1 -> save_outcome s w w' r -> save_outcome s w0 w1 r.
Proof.
  intros [H1 H2] [H3 H4] (K1 & K2 & K3). split; [intros k Hk; by rewrite H3, K1, H1|].
  split; [congruence|]. by rewrite (H3 (key_of (rs_name s))), <- (H1 (key_of (rs_name s))).
Qed.

Lemma save_rollback_spec (s : RecoverySpec) old e w e' w' w0 :
  save_rollback s old e w = (e', w') -> stored w0 (key_of (rs_name s)) = Some old ->
  restored (rs_name s) (Some old) e' w w'.
Proof.
  unfold save_rollback. intros H Hs.
  destruct (write_managed (rs_name s) old w) as [r w1] eqn:E.
  apply pair_equal_spec in H as [He ->]. eapply write_back in E as (H1 & H2 & H3); [|done].
  split; [|done]. destruct r as [[]|err]; [left; auto|right].
  rewrite <- He. exists (&"recovery update failed (" ++ error_to_string e ++ &"); "), (error_to_string err),
    &"); configuration may be partially applied".
  reassoc.
Qed.

Lemma save_recovery_outcome (s : RecoverySpec) w r w' :
  save_recovery_with_backend s w = (r, w') -> save_outcome s w w' r.
Proof.
  unfold save_recovery_with_backend. intros H. unfold mbind at 1, mlift at 1 in H.
  destruct (for_each _ _) as [u|e]; [|apply pair_equal_spec in H as [<- <-]; by apply save_reject].
  apply guarded_spec in H as [[[e ->] H]|(w1 & w2 & H1 & H & H2)]; [by apply save_reject|].
  eapply save_outcome_same; [exact H1|exact H2|]. unfold mbind at 1 in H.
  destruct (read_managed (rs_name s) w1) as [[o|e] w3] eqn:E; apply read_spec in E as [Hs Ho].
  2: { apply pair_equal_spec in H as [<- <-]. by apply save_reject. }
  destruct o as [old|]; [|apply pair_equal_spec in H as [<- <-]; by apply save_reject].
  eapply save_outcome_same; [exact Hs|reflexivity|]. specialize (Ho _ eq_refl).
  rewrite <- (proj1 Hs) in Ho. unfold mbind at 1, mlift at 1 in H.
  destruct (validate_config (apply_recovery s old)) as [u1|e] eqn:Ev.
  2: { apply pair_equal_spec in H as [<- <-]. by apply save_reject. }
  pose proof (write_law (rs_name s) (apply_recovery s old) w3) as (Hn & Hk & Hw).
  unfold mbind in H. destruct (or_return _ _ w3) as [[u2|e] w4] eqn:Er;
    apply pair_equal_spec in H as [<- <-];
    apply or_return_spec in Er as [[Hr Er]|(e0 & w5 & e' & Er & Hrb & Hr)]; try done;
    rewrite Er in *; cbn [fst snd] in *.
  - split; [done|]. split; [done|]. exists old. destruct u1. auto.
  - assert (e = e') as -> by congruence. eapply save_rollback_spec in Hrb as (R1 & R2 & R3); [|done].
    split; [intros k Hne; by rewrite R2, Hk|]. split; [congruence|]. by rewrite <- Ho.
Qed.

(** The policy a configuration holds. *)
Definition policy_of (n : rstr) (m : ManagedApplicationConfig) : RecoverySpec := {|
  rs_name := n;
  rs_restart_delay_ms := restart_delay_ms (restart m);
  rs_throttle_delay_ms := throttle_delay_ms (restart m);
  rs_default_action := unwrap_or Restart (default_action (restart m));
  rs_exit_actions := map (fun cp => (cp.1, action cp.2))
    (List.filter (fun cp => negb (str_eqb cp.1 &"default")) (exit_actions m)) |}.

(** What updating a policy in place leaves behind. *)
Definition update_outcome (n : rstr) (update : RecoverySpec -> result Error RecoverySpec)
    (w w' : W) (r : result Error rstr) : Prop :=
  (forall k, k <> key_of n -> stored w' k = stored w k) /\ native_of w' = native_of w
  /\ match r with
     | Ok _ => exists old (s : RecoverySpec), stored w (key_of n) = Some old
               /\ update (policy_of n old) = Ok s
               /\ rs_name s = n /\ validate_config (apply_recovery s old) = Ok tt
               /\ stored w' (key_of n) = Some (canon (apply_recovery s old))
     | Err e => stored w' (key_of n) = stored w (key_of n) \/ reports_rollback_failure e
     end.

(** A recovery update is applied to the policy that is stored, not to a
    snapshot: on success the update saw the policy of the stored configuration,
    and what is stored now differs from that configuration in the policy
    alone, as the update asked. On failure the configuration is the one that
    was there, unless the error says that restoring it failed as well; native
    settings and other services are never affected. *)
Theorem update_recovery_merges n update w r w' :
  update_recovery_with_backend n update w = (r, w') -> update_outcome n update w w' r.
Proof.
  set (outcome := update_outcome n update).
  assert (Hrej : forall e w w2, same w w2 -> outcome w w2 (Err e)).
  { intros e w0 w2 [H1 H2]. split; [done|]. split; [done|]. by left. }
  assert (Hsame : forall w1 w2 w3 w4 r, same w1 w2 -> same w3 w4 -> outcome w2 w3 r -> outcome w1 w4 r).
  { intros w1 w2 w3 w4 r0 [H1 H2] [H3 H4] (K1 & K2 & K3).
    split; [intros k Hk; by rewrite H3, K1, H1|]. split; [congruence|].
    by rewrite (H3 (key_of n)), <- (H1 (key_of n)). }
  intros H. apply guarded_spec in H as [[[e ->] H]|(w1 & w2 & H1 & H & H2)]; [by apply Hrej|].
  eapply Hsame; [exact H1|exact H2|].
  unfold read_recovery_with_backend in H. unfold mbind at 1 2 in H.
  destruct (read_managed n w1) as [[o|e] w3] eqn:E; apply read_spec in E as [Hs Ho].
  2: { apply pair_equal_spec in H as [<- <-]. by apply Hrej. }
  destruct o as [old|]; [|apply pair_equal_spec in H as [<- <-]; by apply Hrej].
  specialize (Ho _ eq_refl). rewrite <- (proj1 Hs) in Ho. eapply Hsame; [exact Hs|reflexivity|].
  change (mret _ w3) with (Ok (E := Error) (policy_of n old), w3) in H. cbv beta iota in H.
  unfold mbind, mlift in H. destruct (update (policy_of n old)) as [s|e] eqn:Eu.
  2: { apply pair_equal_spec in H as [<- <-]. by apply Hrej. }
  destruct (str_eqb (rs_name s) n) eqn:En; cbn [negb] in H.
  2: { apply pair_equal_spec in H as [<- <-]. by apply Hrej. }
  apply str_eqb_eq in En. apply save_recovery_outcome in H as (K1 & K2 & K3). rewrite En in *.
  split; [done|]. split; [done|]. destruct r as [m|e]; [|done].
  destruct K3 as (old' & F1 & F2 & F3). assert (old' = old) as -> by congruence. eauto 10.
Qed.
End Atomicity.

(** ** A backend in memory

    Each write takes its outcome from a script; a failed one leaves a damaged
    configuration behind. *)

Record Mem := {
  m_configs : gmap (list Z) ManagedApplicationConfig;
  m_script : list bool;
  m_native_works : bool;
  m_display : rstr }.

Definition mem_write (n : rstr) (c : ManagedApplicationConfig) (w : Mem) : result Error unit * Mem :=
  let k := to_ascii_lowercase n in
  match m_script w with
  | false :: r =>
      (Err (Registry &"access denied"),
       Build_Mem (<[k := ManagedApplicationConfig_default]> (m_configs w)) r (m_native_works w) (m_display w))
  | script => (Ok tt, Build_Mem (<[k := c]> (m_configs w)) (tail script) (m_native_works w) (m_display w))
  end.

#[export] Instance mem_backend : ConfigBackend Mem := {
  read_managed n w := (Ok (m_configs w !! to_ascii_lowercase n), w);
  write_managed := mem_write;
  update_native s w :=
    if m_native_works w
    then (Ok tt, Build_Mem (m_configs w) (m_script w) true (unwrap_or (m_display w) (es_display_name s)))
    else (Err (AccessDenied &"ChangeServiceConfig"), w);
  lock_service_config n w := (Ok (0, false), w);
  lock_drop _ w := w }.

#[export] Instance mem_laws : ConfigLaws Mem rstr.
Proof.
  refine {| key_of := to_ascii_lowercase; stored w k := m_configs w !! k; native_of := m_display;
            canon c := c |}; try done.
  - intros n w. cbn. split; [done|]. split; [done|]. by intros o [= <-].
  - intros n c w. cbn [write_managed mem_backend]. unfold mem_write.
    assert (Hk : forall c' k, k <> to_ascii_lowercase n ->
      <[to_ascii_lowercase n := c']> (m_configs w) !! k = m_configs w !! k)
      by (intros c' k Hne; by rewrite lookup_insert_ne).
    destruct (m_script w) as [|[] r]; cbn [fst snd m_configs m_display];
      (split; [done|]; split; [by auto|]; intros E; try done; by rewrite lookup_insert_eq).
  - intros s w k. cbn. by destruct (m_native_works w).
Defined.

Definition edit_sample (native_works : bool) (script : list bool) : Mem :=
  Build_Mem {[ to_ascii_lowercase &"Svc" := new_config ]} script native_works &"Svc".

Definition sample_edit : EditSpec := {|
  es_name := &"Svc"; es_display_name := Some &"My service"; es_description := None;
  es_application := None; es_app_parameters := Some &"--quiet"; es_app_directory := None;
  es_stdout := Some &"C:\logs\new.log"; es_stderr := None; es_start_type := None;
  es_dependencies := None; es_account := None; es_password := None |}.

Definition edited : result Error rstr * Mem :=
  edit_with_backend (R := Hive) sample_edit (edit_sample false []).


Definition sample_update (s : RecoverySpec) : result Error RecoverySpec :=
  Ok {| rs_name := rs_name s; rs_restart_delay_ms := Some 5000;
        rs_throttle_delay_ms := rs_throttle_delay_ms s; rs_default_action := Ignore;
        rs_exit_actions := bt_insert &"3" Exit (rs_exit_actions s) |}.

Definition recovered : result Error rstr * Mem :=
  update_recovery_with_backend (R := Hive) &"Svc" sample_update (edit_sample true []).

(** The policy changes, the program does not. *)
Lemma update_recovery_merges_witness :
  recovered.1 = Ok &"Saved recovery policy for 'Svc'."
  /\ (application <$> m_configs recovered.2 !! to_ascii_lowercase &"Svc") = Some (application new_config)
  /\ update_outcome (R := Hive) &"Svc" sample_update (edit_sample true []) recovered.2 recovered.1.
Proof.
  split; [vm_compute; reflexivity|]. split; [vm_compute; reflexivity|].
  apply update_recovery_merges. unfold recovered. apply surjective_pairing.
Defined.
