(* ===== verification/OpsControl.v ===== *)
(** * Operations on services: servicemanager-ops [lifecycle.rs], [install.rs], [remove.rs], [repair.rs], [rotate.rs], [list.rs], [validate.rs]

    The operations are programs of [Effects] over the calls they make into the
    SCM wrappers and the registry crate; what is proved about their runs holds
    for every answer those calls may give. *)

From Stdlib Require Import ZArith Lia List Permutation.
From S2P Require Import Prelude Text BTree Model Validate RegApi RegConfig RegSim Win32 OpsConfig Effects.

Record NativeService := {
  ns_config : NativeServiceConfig;
  ns_runtime : option ServiceRuntimeState;
  ns_query_error : option rstr }.

(** The calls. Locking yields the guard, unlocking is its drop. *)
Inductive OpsE : Type -> Type :=
| QueryService (n : rstr) : OpsE NativeService
| EnumerateServices : OpsE (list NativeService)
| ReadManaged (n : rstr) : OpsE (option ManagedApplicationConfig)
| CreateManaged (n : rstr) (c : ManagedApplicationConfig) : OpsE unit
| DeleteManaged (n : rstr) : OpsE unit
| StartService (n : rstr) : OpsE unit
| ControlService (n : rstr) (s : ServiceControlSignal) : OpsE ServiceRuntimeState
| BuildRunServiceCommand (n : rstr) : OpsE rstr
| InstallService (o : InstallOptions) : OpsE unit
| RemoveService (n : rstr) : OpsE unit
| RepairServiceRunner (n : rstr) : OpsE unit
| LockConfig (n : rstr) : OpsE Z
| UnlockConfig (guard : Z) : OpsE unit.

Abbreviation OpsProg A := (Prog OpsE Error A) (only parsing).
Abbreviation OpsEvent := (Event OpsE Error) (only parsing).

(** [let _guard = lock_service_config(name)?; body] *)
Definition locked {A} (n : rstr) (body : OpsProg A) : OpsProg A :=
  let@ g := perform (LockConfig n) in pfinally body (perform (UnlockConfig g)).

Definition quoted_name (n : rstr) : rstr := &"'" ++ n ++ &"'".

(** ** helpers.rs *)

Definition definition_of (q : NativeService) (m : option ManagedApplicationConfig) : ServiceDefinition :=
  {| native := ns_config q; managed := m; runtime := ns_runtime q |}.

Definition unreadable (n : rstr) (suffix : rstr) (e : Error) : Error :=
  message_error (quoted_name n ++ &": managed ownership cannot be determined — its managed config is unreadable ("
                 ++ error_to_string e ++ &")" ++ suffix).

Definition ensure_ngsm_managed (n : rstr) : OpsProg unit :=
  let@ q := perform (QueryService n) in
  let@ m := pmap_err (unreadable n []) (perform (ReadManaged n)) in
  if is_managed (definition_of q m) then PRet (Ok tt)
  else PRet (Err (message_error (quoted_name n
         ++ &" is not an NGSM-managed service — refusing the lifecycle operation"))).

Definition ensure_enabled (n : rstr) : OpsProg unit :=
  let@ q := perform (QueryService n) in
  if bool_decide (startup (ns_config q) = Disabled)
  then PRet (Err (message_error (quoted_name n ++ &" is disabled — enable it before starting")))
  else PRet (Ok tt).

(** ** lifecycle.rs *)

Definition start (n : rstr) : OpsProg rstr :=
  ensure_ngsm_managed n ;@ ensure_enabled n ;@ perform (StartService n) ;@
  PRet (Ok (&"Start requested for " ++ quoted_name n ++ &".")).
Definition stop (n : rstr) : OpsProg rstr :=
  ensure_ngsm_managed n ;@ perform (ControlService n SigStop) ;@
  PRet (Ok (&"Stop requested for " ++ quoted_name n ++ &".")).
Definition pause (n : rstr) : OpsProg rstr :=
  ensure_ngsm_managed n ;@ perform (ControlService n SigPause) ;@
  PRet (Ok (&"Pause requested for " ++ quoted_name n ++ &".")).
Definition continue_service (n : rstr) : OpsProg rstr :=
  ensure_ngsm_managed n ;@ perform (ControlService n SigContinue) ;@
  PRet (Ok (&"Continue requested for " ++ quoted_name n ++ &".")).

(** ** rotate.rs *)

Definition rotate (n : rstr) : OpsProg rstr :=
  let@ m := perform (ReadManaged n) in
  match m with
  | Some c =>
      if has_online_rotation c then
        perform (ControlService n (SigUser SERVICE_CONTROL_ROTATE)) ;@
        PRet (Ok (&"Rotate requested for " ++ quoted_name n ++ &"."))
      else PRet (Err (message_error (quoted_name n
             ++ &" does not use online log rotation — its logs rotate on restart, not on demand")))
  | None => PRet (Err (message_error (quoted_name n ++ &" is not an NGSM-managed service")))
  end.

(** ** repair.rs *)

Definition is_stopped (r : option ServiceRuntimeState) : bool :=
  match r with Some s => bool_decide (state s = Stopped) | None => true end.

Definition repair_runner (n : rstr) : OpsProg rstr :=
  let@ q := perform (QueryService n) in
  let@ m := pmap_err (unreadable n &"; refusing to repair runner binding") (perform (ReadManaged n)) in
  let has_managed_config := is_some m in
  let def := definition_of q m in
  if negb (is_managed def) || negb has_managed_config
  then PRet (Err (message_error (quoted_name n
         ++ &" is not an NGSM-managed service with managed configuration — refusing to repair runner binding")))
  else if negb (is_stopped (runtime def))
  then PRet (Err (message_error (quoted_name n
         ++ &" is not stopped — stop it before repairing the runner binding")))
  else
    perform (RepairServiceRunner n) ;@
    PRet (Ok (&"Repaired runner binding for " ++ quoted_name n ++ &".")).

(** ** remove.rs *)

Definition is_managed_for_purge (n : rstr) : OpsProg bool :=
  let@ r := ptry (perform (ReadManaged n)) in
  PRet (Ok (match r with Ok c => is_some c | Err _ => false end)).

Definition remove_ownership (n : rstr) (q : NativeService) : OpsProg unit :=
  let@ m := pmap_err (unreadable n &"; refusing to remove it") (perform (ReadManaged n)) in
  if is_managed (definition_of q m) then PRet (Ok tt)
  else PRet (Err (message_error (quoted_name n ++ &" is not an NGSM-managed service — refusing to remove it"))).

Definition remove (n : rstr) (force_native purge_managed_config : bool) : OpsProg rstr :=
  if negb purge_managed_config
  then PRet (Err (InvalidConfig &"cannot preserve managed config during removal: Windows SCM deletes the service registry subtree, including Parameters. Export or back up the configuration before removing the service; --no-purge-config is unsupported."))
  else
    locked n (
      let@ q := perform (QueryService n) in
      (if force_native then PRet (Ok tt) else remove_ownership n q) ;@
      if negb (is_stopped (ns_runtime q))
      then PRet (Err (message_error (quoted_name n ++ &" is not stopped — stop it before removing it")))
      else
        perform (RemoveService n) ;@
        let@ purge := is_managed_for_purge n in
        (if purge_managed_config && purge
         then pmap_err (fun e => message_error (&"service removed, but managed config cleanup failed: "
                                                ++ error_to_string e)) (perform (DeleteManaged n))
         else PRet (Ok tt)) ;@
        PRet (Ok (&"Removed " ++ quoted_name n ++ &"."))).

(** ** validate.rs *)

Definition install_rotation_requested (r : LogRotationConfig) : bool :=
  bool_decide (enabled r = Some true) || is_some (seconds r) || is_some (bytes r)
  || is_some (rotate_delay_ms r) || is_some_and (fun v => negb (v =? 0)) (online r).

Definition SUPPORTED_HOOK_POINTS : list (rstr * rstr) :=
  [(&"Start", &"Pre"); (&"Start", &"Post"); (&"Stop", &"Pre"); (&"Exit", &"Post");
   (&"Rotate", &"Pre"); (&"Rotate", &"Post"); (&"Power", &"Change"); (&"Power", &"Resume")].

Definition is_supported_hook_point (event action : rstr) : bool :=
  existsb (fun ea => eq_ignore_ascii_case event ea.1 && eq_ignore_ascii_case action ea.2)
    SUPPORTED_HOOK_POINTS.
Definition supported_hook_points_pretty : rstr :=
  join &", " (map (fun ea => ea.1 ++ &"/" ++ ea.2) SUPPORTED_HOOK_POINTS).

Definition check_install_hook (h : HookConfig) : result Error unit :=
  if negb (is_supported_hook_point (event h) (hook_action h))
  then Err (message_error (&"hook uses unsupported event/action '" ++ event h ++ &"/" ++ hook_action h
              ++ &"'; supported points are: " ++ supported_hook_points_pretty))
  else if is_empty (trim (command h))
  then Err (message_error (&"hook " ++ event h ++ &"/" ++ hook_action h
              ++ &" has an empty command — provide a command to run"))
  else Ok tt.

Definition validate_install_config (c : ManagedApplicationConfig) : result Error unit :=
  if install_rotation_requested (rotation c) && is_none (stdout (io c)) && is_none (stderr (io c))
  then Err (message_error &"rotation flags (--rotate-bytes, --rotate-seconds, --rotate-online) require --stdout and/or --stderr; rotation cannot operate without a redirected log stream")
  else if is_some_and (fun online => 2 <? online) (online (rotation c))
  then Err (message_error (&"rotation online mode must be 0 (offline), 1 (online), or 2 (online-asap); got "
              ++ to_dec (unwrap_or 0 (online (rotation c)))))
  else for_each check_install_hook (hooks c).

(** ** install.rs *)

Record InstallSpec := {
  is_name : rstr;
  is_display_name : option rstr;
  is_description : option rstr;
  is_application : rstr;
  is_app_parameters : option rstr;
  is_app_directory : option rstr;
  is_stdout : option rstr;
  is_stderr : option rstr;
  is_rotation : LogRotationConfig;
  is_hooks : list HookConfig;
  is_start_type : InstallStartType;
  is_dependencies : ServiceDependencies;
  is_account : option rstr;
  is_password : option rstr }.

Definition managed_config_from_spec (s : InstallSpec) : ManagedApplicationConfig := {|
  application := Some (is_application s); app_parameters := is_app_parameters s;
  app_directory := is_app_directory s; environment := []; environment_extra := [];
  priority := None; affinity := None; restart := RestartPolicy_default;
  shutdown := ShutdownPolicy_default;
  io := {| stdin := None; stdout := io_stream <$> is_stdout s; stderr := io_stream <$> is_stderr s;
           timestamp_log := None |};
  rotation := is_rotation s; exit_actions := []; hooks := is_hooks s; expandable_strings := [] |}.

Definition install_options (s : InstallSpec) (binary_path : rstr) : InstallOptions := {|
  opt_name := is_name s; opt_display_name := unwrap_or (is_name s) (is_display_name s);
  opt_description := is_description s; opt_binary_path := binary_path;
  opt_start_type := is_start_type s; opt_dependencies := is_dependencies s;
  opt_account := is_account s; opt_password := is_password s |}.

Section Install.
Context {R : Type} `{API : RegApi R}.

Definition install (s : InstallSpec) : OpsProg rstr :=
  if is_empty (trim (is_application s))
  then PRet (Err (message_error &"Application path is required."))
  else
    let managed := managed_config_from_spec s in
    plift (validate_managed_config (W := R) managed) ;@
    plift (validate_install_config managed) ;@
    let@ binary_path := perform (BuildRunServiceCommand (is_name s)) in
    locked (is_name s) (
      perform (InstallService (install_options s binary_path)) ;@
      let@ created := ptry (perform (CreateManaged (is_name s) managed)) in
      match created with
      | Ok _ => PRet (Ok (&"Installed " ++ quoted_name (is_name s) ++ &"."))
      | Err e =>
          let@ removed := ptry (perform (RemoveService (is_name s))) in
          PRet (Err (message_error (match removed with
            | Ok _ => &"install failed, service rolled back: " ++ error_to_string e
            | Err re => &"install failed (" ++ error_to_string e ++ &"); rollback also failed ("
                        ++ error_to_string re ++ &")"
            end)))
      end).
End Install.

(** ** list.rs *)

Section Listing.
(** [str::to_lowercase], the full Unicode mapping. *)
Variable to_lowercase : rstr -> rstr.

Fixpoint annotate (services : list NativeService) : OpsProg (list ServiceDefinition * list rstr) :=
  match services with
  | [] => PRet (Ok ([], []))
  | s :: rest =>
      let n := name (ns_config s) in
      let query_warning := match ns_query_error s with Some w => [n ++ &": " ++ w] | None => [] end in
      let@ r := ptry (perform (ReadManaged n)) in
      let '(m, read_warning) := match r with
        | Ok m => (m, [])
        | Err e => (None, [n ++ &": managed config unreadable (" ++ error_to_string e ++ &")"])
        end in
      let@ (defs, warnings) := annotate rest in
      PRet (Ok (definition_of s m :: defs, query_warning ++ read_warning ++ warnings))
  end.

(** A stable sort by the lower-cased name: [sort_by]. *)
Definition name_le (a b : ServiceDefinition) : bool :=
  match str_cmp (to_lowercase (name (native a))) (to_lowercase (name (native b))) with
  | Gt => false | _ => true
  end.
Fixpoint insert_sorted (d : ServiceDefinition) (l : list ServiceDefinition) : list ServiceDefinition :=
  match l with
  | [] => [d]
  | x :: r => if name_le d x then d :: l else x :: insert_sorted d r
  end.
Definition sort_by_name (l : list ServiceDefinition) : list ServiceDefinition :=
  fold_right insert_sorted [] l.

Definition list_services : OpsProg (list ServiceDefinition * list rstr) :=
  let@ services := perform EnumerateServices in
  let@ (defs, warnings) := annotate services in
  PRet (Ok (sort_by_name defs, warnings)).
End Listing.

(** ** Who may act on a service *)

(** The events of the calls that change a service. *)
Definition controls (e : OpsEvent) : option rstr :=
  match e with
  | Ev (StartService n) _ => Some n
  | Ev (ControlService n _) _ => Some n
  | Ev (RepairServiceRunner n) _ => Some n
  | _ => None
  end.
Definition starts (e : OpsEvent) : bool := match e with Ev (StartService _) _ => true | _ => false end.
Definition repairs (e : OpsEvent) : bool := match e with Ev (RepairServiceRunner _) _ => true | _ => false end.

(** Ownership was confirmed by fresh answers for this very service. *)
Definition ownership_confirmed (n : rstr) (past : list OpsEvent) : Prop :=
  exists q m, In (Ev (QueryService n) (Ok q)) past /\ In (Ev (ReadManaged n) (Ok m)) past
              /\ is_managed (definition_of q m) = true.

Inductive Lifecycle := LStart | LStop | LPause | LContinue | LRepair.
Definition run_lifecycle (op : Lifecycle) : rstr -> OpsProg rstr :=
  match op with
  | LStart => start | LStop => stop | LPause => pause | LContinue => continue_service
  | LRepair => repair_runner
  end.

(** What must have happened before a control is sent. *)
Definition control_allowed (n : rstr) (past : list OpsEvent) (e : OpsEvent) : Prop :=
  (forall m, controls e = Some m -> m = n /\ ownership_confirmed n past)
  /\ (starts e = true -> exists q, In (Ev (QueryService n) (Ok q)) past
                                   /\ startup (ns_config q) <> Disabled)
  /\ (repairs e = true -> exists q c, In (Ev (QueryService n) (Ok q)) past
                                      /\ In (Ev (ReadManaged n) (Ok (Some c))) past
                                      /\ is_stopped (ns_runtime q) = true).

(** Spell out the conditions of the calls of a log that has been written out. *)
Ltac confirm :=
  repeat match goal with
  | H : map_err _ _ = Ok _ |- _ => apply map_err_ok in H; subst
  | H : (_ || _)%bool = false |- _ => apply orb_false_iff in H; destruct H
  | H : negb _ = false |- _ => apply negb_false_iff in H
  | H : bool_decide _ = false |- _ => apply bool_decide_eq_false_1 in H
  | H : (_ && _)%bool = true |- _ => apply andb_true_iff in H; destruct H
  | u : unit |- _ => destruct u
  | H : match ?x with Ok c => is_some c | Err _ => false end = true |- _ =>
      destruct x as [[?|]|]; [clear H|discriminate H|discriminate H]
  end;
  apply allowed_by; cbn [allowed_from app]; conj_all; try exact I.

(** Find the answers a condition asks for among those already given. *)
Ltac from_past :=
  match goal with
  | |- _ /\ _ => split; [|from_past]; from_past
  | |- exists _, _ => eexists; from_past
  | |- ownership_confirmed _ _ => unfold ownership_confirmed; from_past
  | |- In _ _ => in_past
  | |- _ -> _ => let H := fresh in intros H; first [discriminate H | clear H; from_past]
  | |- _ => solve [reflexivity | eassumption | auto]
  end.

Ltac check_control :=
  unfold control_allowed; cbn [controls starts repairs]; conj_all;
  first [solve [intros; discriminate] | intros ? [= <-]; from_past | intros _; from_past].

(** C16. A lifecycle operation acts only on the service it was asked for, and
    only after fresh answers of the SCM and the registry confirmed that NGSM
    owns it, whatever those calls return. A start also requires a fresh answer
    that the service is not disabled; a repair of the runner binding requires a
    readable managed configuration and a stopped service. *)
Theorem lifecycle_requires_ownership op n log r :
  runs (run_lifecycle op n) log r -> allowed (control_allowed n) log.
Proof.
  intros H.
  destruct op; cbn [run_lifecycle] in H;
    unfold start, stop, pause, continue_service, repair_runner, ensure_ngsm_managed, ensure_enabled in H;
    run_all H; confirm; try check_control.
  all: match goal with H : is_some ?m = true |- _ => destruct m; [|done] end;
    cbn [runtime definition_of] in *; check_control.
Qed.

(** ** Removal *)

Definition removes (e : OpsEvent) : option rstr :=
  match e with Ev (RemoveService n) _ => Some n | _ => None end.
Definition purges (e : OpsEvent) : option rstr :=
  match e with Ev (DeleteManaged n) _ => Some n | _ => None end.

(** The writer lock is held: taken, and not given back. *)
Definition lock_held (n : rstr) (past : list OpsEvent) : Prop :=
  (exists g, In (Ev (LockConfig n) (Ok g)) past) /\ forall g x, ~ In (Ev (UnlockConfig g) x) past.

Definition removal_allowed (n : rstr) (force_native : bool) (past : list OpsEvent) (e : OpsEvent) : Prop :=
  (forall m, removes e = Some m ->
     m = n /\ lock_held n past
     /\ exists q, In (Ev (QueryService n) (Ok q)) past /\ is_stopped (ns_runtime q) = true
                  /\ (force_native = false -> ownership_confirmed n past))
  /\ (forall m, purges e = Some m ->
       m = n /\ lock_held n past /\ In (Ev (RemoveService n) (Ok tt)) past
       /\ exists c, In (Ev (ReadManaged n) (Ok (Some c))) past).

Ltac lock_past :=
  split; [eexists; in_past|];
  intros ? ? Hu; repeat (destruct Hu as [[=]|Hu]); contradiction.
Ltac check_removal :=
  unfold removal_allowed; cbn [removes purges]; conj_all;
  first [solve [intros; discriminate]
        | intros ? [= <-]; split; [reflexivity|]; split; [lock_past|from_past]].

(** C17. Removal is guarded, whatever the calls return. A service is deleted
    only under its writer lock, only after a fresh answer that it is stopped,
    and, unless the caller forces it, only after its ownership was confirmed;
    its managed values are scrubbed only after that deletion succeeded, under
    the same lock, and only when they are read back as a managed
    configuration. *)
Theorem remove_is_guarded n force purge log r :
  runs (remove n force purge) log r -> allowed (removal_allowed n force) log.
Proof.
  intros H. unfold remove, remove_ownership, locked, is_managed_for_purge in H.
  destruct force; run_all H; confirm; check_removal.
Qed.

(** ** Installation *)

Definition installs (e : OpsEvent) : option InstallOptions :=
  match e with Ev (InstallService o) _ => Some o | _ => None end.
Definition creates (e : OpsEvent) : option (rstr * ManagedApplicationConfig) :=
  match e with Ev (CreateManaged n c) _ => Some (n, c) | _ => None end.
Definition installed (e : OpsEvent) : bool :=
  match e with Ev (InstallService _) (Ok _) => true | _ => false end.

Section InstallSafety.
Context {R : Type} `{API : RegApi R}.

Definition install_allowed (s : InstallSpec) (past : list OpsEvent) (e : OpsEvent) : Prop :=
  let managed := managed_config_from_spec s in
  (forall o, installs e = Some o ->
     validate_managed_config (W := R) managed = Ok tt /\ validate_install_config managed = Ok tt
     /\ lock_held (is_name s) past
     /\ exists command, o = install_options s command
                        /\ In (Ev (BuildRunServiceCommand (is_name s)) (Ok command)) past)
  /\ (forall nc, creates e = Some nc ->
       nc = (is_name s, managed) /\ lock_held (is_name s) past
       /\ exists o, In (Ev (InstallService o) (Ok tt)) past)
  /\ (forall m, removes e = Some m ->
       m = is_name s /\ lock_held (is_name s) past
       /\ exists o err, In (Ev (InstallService o) (Ok tt)) past
                        /\ In (Ev (CreateManaged (is_name s) managed) (Err err)) past).

(** No service without its configuration is left. *)
Definition install_outcome (s : InstallSpec) (log : list OpsEvent) (r : result Error rstr) : Prop :=
  match r with
  | Ok _ => (exists o, In (Ev (InstallService o) (Ok tt)) log)
            /\ In (Ev (CreateManaged (is_name s) (managed_config_from_spec s)) (Ok tt)) log
            /\ forall e, In e log -> removes e = None
  | Err e =>
      existsb installed log = false
      \/ In (Ev (RemoveService (is_name s)) (Ok tt)) log
      \/ exists p reason q, e = message_error (p ++ &"); rollback also failed (" ++ reason ++ q)
                            /\ exists err, In (Ev (RemoveService (is_name s)) (Err err)) log
  end.

Ltac check_install :=
  unfold install_allowed; cbn [installs creates removes]; conj_all;
  first [solve [intros; discriminate]
        | intros ? [= <-]; conj_all; first [lock_past | from_past]].

Ltac check_outcome :=
  repeat match goal with u : unit |- _ => destruct u end; unfold install_outcome;
  match goal with
  | |- existsb _ _ = false \/ _ =>
      first [left; reflexivity | right; left; solve [from_past] | right; right]
  | |- _ => split; [from_past|]; split; [from_past|];
            intros ? Hi; repeat (destruct Hi as [<-|Hi]; [reflexivity|]); contradiction
  end.

(** C18. Installation is a transaction. The SCM is asked to create the service
    only under the writer lock and only once the whole configuration has
    passed every check; success means the service and its configuration both
    exist; a failure leaves no service behind, or reports that removing it
    failed. A service is only ever removed when this installation created it
    and then could not store its configuration. *)
Theorem install_transaction s log r :
  runs (install s) log r -> allowed (install_allowed s) log /\ install_outcome s log r.
Proof.
  intros H. unfold install, locked in H. run_all H.
  all: split; [confirm; check_install|].
  all: try solve [check_outcome].
  match goal with v : result Error unit, w : result Error unit |- context [match ?y with _ => _ end] =>
    destruct y end; check_outcome.
  exists (&"install failed (" ++ error_to_string e), (error_to_string e0), &")".
  split; [reassoc|eexists; in_past].
Qed.
End InstallSafety.

(** ** Listing *)

Section ListingTheorems.
Variable to_lowercase : rstr -> rstr.

Lemma insert_sorted_perm d l : Permutation (d :: l) (insert_sorted to_lowercase d l).
Proof.
  induction l as [|x l IH]; cbn; [done|]. destruct (name_le to_lowercase d x); [done|].
  rewrite <- IH. constructor.
Qed.
Lemma sort_by_name_perm l : Permutation l (sort_by_name to_lowercase l).
Proof.
  induction l as [|x l IH]; cbn; [done|]. rewrite <- insert_sorted_perm. by constructor.
Qed.

Definition name_order (a b : ServiceDefinition) : Prop := name_le to_lowercase a b = true.

Lemma name_le_total a b : name_le to_lowercase a b = false -> name_order b a.
Proof.
  unfold name_order, name_le. rewrite (str_cmp_antisym (to_lowercase (name (native a)))).
  by destruct (str_cmp _ _).
Qed.
Lemma name_le_trans a b c : name_order a b -> name_order b c -> name_order a c.
Proof.
  unfold name_order, name_le.
  destruct (str_cmp (to_lowercase (name (native a))) _) eqn:E1;
    destruct (str_cmp (to_lowercase (name (native b))) (to_lowercase (name (native c)))) eqn:E2; try done.
  - apply str_cmp_eq in E1 as ->. by rewrite E2.
  - apply str_cmp_eq in E1 as ->. by rewrite E2.
  - apply str_cmp_eq in E2 as <-. by rewrite E1.
  - by rewrite (str_cmp_lt_trans _ _ _ E1 E2).
Qed.

Lemma insert_sorted_ok d l : StronglySorted name_order l -> StronglySorted name_order (insert_sorted to_lowercase d l).
Proof.
  induction l as [|x l IH]; intros H; cbn; [by repeat constructor|].
  destruct (name_le to_lowercase d x) eqn:E.
  - constructor; [done|]. constructor; [done|]. inversion H as [|? ? _ Hx]; subst.
    eapply Forall_impl; [exact Hx|]. intros y. by apply name_le_trans.
  - inversion H as [|? ? Hs Hx]; subst. constructor; [by apply IH|].
    rewrite <- insert_sorted_perm. constructor; [by apply name_le_total|done].
Qed.
Lemma sort_by_name_ok l : StronglySorted name_order (sort_by_name to_lowercase l).
Proof. induction l as [|x l IH]; cbn; [constructor|]. by apply insert_sorted_ok. Qed.

(** The rows and the warnings of the services, in their order. *)
Lemma annotate_spec services log r :
  runs (annotate services) log r ->
  exists defs warnings, r = Ok (defs, warnings) /\ map native defs = map ns_config services
  /\ (forall s w, In s services -> ns_query_error s = Some w ->
        In (name (ns_config s) ++ &": " ++ w) warnings)
  /\ (forall s, In s services -> exists d, In d defs /\ native d = ns_config s /\ runtime d = ns_runtime s
        /\ (In (Ev (ReadManaged (name (ns_config s))) (Ok (managed d))) log
            \/ managed d = None /\ exists e, In (Ev (ReadManaged (name (ns_config s))) (Err e)) log
               /\ In (name (ns_config s) ++ &": managed config unreadable (" ++ error_to_string e ++ &")") warnings)).
Proof.
  revert log r. induction services as [|s rest IH]; intros log r H; cbn [annotate] in H.
  { destruct H as [-> ->]. exists [], []. repeat split; done. }
  unfold ptry, perform in H. cbn [pbind pthen runs] in H.
  destruct H as (x & log' & -> & H). cbn [pbind pthen] in H.
  set (n := name (ns_config s)) in *.
  destruct (match x with Ok m => _ | Err e => _ end) as [m read_warning] eqn:Ex.
  apply runs_bind in H as [(e & -> & H)|(l1 & l2 & [defs ws] & -> & H & H2)].
  { by apply IH in H as (? & ? & ? & _). }
  destruct H2 as [-> ->]. apply IH in H as (defs' & ws' & [= <- <-] & Hn & Hq & Hr).
  rewrite app_nil_r. eexists _, _. split; [reflexivity|]. split; [cbn; by rewrite Hn|]. split.
  - intros s' w [<-|Hi] Hw; rewrite !in_app_iff; [left|right; right; by eapply Hq].
    rewrite Hw. by left.
  - intros s' [<-|Hi].
    + exists (definition_of s m). split; [by left|]. split; [done|]. split; [done|].
      destruct x as [m'|e]; apply pair_equal_spec in Ex as [<- <-]; [left; by left|right].
      split; [done|]. exists e. split; [by left|]. rewrite !in_app_iff. right. left. by left.
    + destruct (Hr s' Hi) as (d & Hd & E1 & E2 & E3). exists d. split; [by right|]. split; [done|].
      split; [done|]. destruct E3 as [E3|(E3 & e & Hl & Hw)]; [left; by right|right].
      split; [done|]. exists e. split; [by right|]. rewrite !in_app_iff. auto.
Qed.

(** Listing never loses a service. It fails only when the enumeration
    itself fails; otherwise the rows are exactly the enumerated services,
    ordered by lower-cased name, each with the managed configuration that was
    read for it, or with none and a warning that names the service and the
    reason; a partial SCM query is warned about as well. *)
Theorem list_services_complete log r :
  runs (list_services to_lowercase) log r ->
  (exists e, r = Err e /\ log = [Ev EnumerateServices (Err e)])
  \/ exists services reads defs warnings,
      log = Ev EnumerateServices (Ok services) :: reads /\ r = Ok (defs, warnings)
      /\ Permutation (map native defs) (map ns_config services)
      /\ StronglySorted name_order defs
      /\ (forall s w, In s services -> ns_query_error s = Some w ->
            In (name (ns_config s) ++ &": " ++ w) warnings)
      /\ forall s, In s services -> exists d, In d defs /\ native d = ns_config s
           /\ (In (Ev (ReadManaged (name (ns_config s))) (Ok (managed d))) reads
               \/ managed d = None /\ exists e, In (Ev (ReadManaged (name (ns_config s))) (Err e)) reads
                  /\ In (name (ns_config s) ++ &": managed config unreadable (" ++ error_to_string e ++ &")")
                       warnings).
Proof.
  unfold list_services, perform. cbn [pbind pthen runs]. intros (x & reads & -> & H).
  destruct x as [services|e]; [right|destruct H as [-> ->]; left; by exists e].
  apply runs_bind in H as [(e & -> & H)|(l1 & l2 & [defs ws] & -> & H & H2)];
    apply annotate_spec in H as (defs' & ws' & E & Hn & Hq & Hr); [done|].
  injection E as <- <-. destruct H2 as [-> ->]. rewrite app_nil_r.
  exists services, l1, (sort_by_name to_lowercase defs), ws. split; [done|]. split; [done|].
  rewrite <- Hn. split; [by apply Permutation_map; symmetry; apply sort_by_name_perm|].
  split; [apply sort_by_name_ok|]. split; [done|].
  intros s (d & Hd & E1 & _ & E3)%Hr. exists d. split; [|done].
  by eapply Permutation_in, Hd; apply sort_by_name_perm.
Qed.
End ListingTheorems.

(** ** A sample system

    One stopped service managed by NGSM; storing a new configuration fails. *)

Definition sample_state (st : ServiceState) : ServiceRuntimeState :=
  Build_ServiceRuntimeState st None None None None.
Definition sample_native (st : ServiceState) : NativeService := {|
  ns_config := native sample_runner; ns_runtime := Some (sample_state st); ns_query_error := None |}.

Definition sample_calls (X : Type) (e : OpsE X) (st : ServiceState) : result Error X * ServiceState :=
  match e in OpsE X return result Error X * ServiceState with
  | QueryService _ => (Ok (sample_native st), st)
  | EnumerateServices => (Ok [sample_native st], st)
  | ReadManaged _ => (Ok (Some new_config), st)
  | CreateManaged _ _ => (Err (AccessDenied &"Parameters"), st)
  | DeleteManaged _ => (Ok tt, st)
  | StartService _ => (Ok tt, Running)
  | ControlService _ _ => (Ok (sample_state Stopped), Stopped)
  | BuildRunServiceCommand n => (command_for_validated_runner n (Some &"C:\ngsm.exe"), st)
  | InstallService _ => (Ok tt, Stopped)
  | RemoveService _ => (Ok tt, st)
  | RepairServiceRunner _ => (Ok tt, st)
  | LockConfig _ => (Ok 7, st)
  | UnlockConfig _ => (Ok tt, st)
  end.
Definition sample_run {A} (p : OpsProg A) : result Error A * list OpsEvent :=
  (interp sample_calls p Stopped).1.

Lemma lifecycle_requires_ownership_witness :
  (sample_run (start &"Foo")).1 = Ok &"Start requested for 'Foo'."
  /\ List.length (sample_run (start &"Foo")).2 = 4%nat
  /\ allowed (control_allowed &"Foo") (sample_run (start &"Foo")).2.
Proof.
  split; [vm_compute; reflexivity|]. split; [vm_compute; reflexivity|].
  apply (lifecycle_requires_ownership LStart &"Foo" _ (sample_run (start &"Foo")).1).
  apply (interp_runs sample_calls (start &"Foo") Stopped).
Defined.

Lemma remove_is_guarded_witness :
  (sample_run (remove &"Foo" false true)).1 = Ok &"Removed 'Foo'."
  /\ map purges (sample_run (remove &"Foo" false true)).2
     = [None; None; None; None; None; Some &"Foo"; None]
  /\ allowed (removal_allowed &"Foo" false) (sample_run (remove &"Foo" false true)).2.
Proof.
  split; [vm_compute; reflexivity|]. split; [vm_compute; reflexivity|].
  apply (remove_is_guarded &"Foo" false true _ (sample_run (remove &"Foo" false true)).1).
  apply (interp_runs sample_calls (remove &"Foo" false true) Stopped).
Defined.

Definition sample_install : InstallSpec := {|
  is_name := &"Foo"; is_display_name := None; is_description := None;
  is_application := &"C:\app\svc.exe"; is_app_parameters := None; is_app_directory := None;
  is_stdout := Some &"C:\logs\out.log"; is_stderr := None;
  is_rotation := Build_LogRotationConfig (Some true) (Some 1) None None None;
  is_hooks := [Build_HookConfig &"start" &"PRE" &"C:\hook.cmd"]; is_start_type := StartAutomatic;
  is_dependencies := Build_ServiceDependencies [] []; is_account := None; is_password := None |}.

(** The configuration cannot be stored: the new service is removed again. *)
Lemma install_transaction_witness :
  (sample_run (install (R := Hive) sample_install)).1
    = Err (Other &"install failed, service rolled back: access denied: Parameters")
  /\ map removes (sample_run (install (R := Hive) sample_install)).2
     = [None; None; None; None; Some &"Foo"; None]
  /\ install_outcome sample_install (sample_run (install (R := Hive) sample_install)).2
       (sample_run (install (R := Hive) sample_install)).1.
Proof.
  split; [vm_compute; reflexivity|]. split; [vm_compute; reflexivity|].
  apply (install_transaction (R := Hive)).
  apply (interp_runs sample_calls (install (R := Hive) sample_install) Stopped).
Defined.

Definition ascii_lower : rstr -> rstr := to_ascii_lowercase.
Definition sample_listing : result Error (list ServiceDefinition * list rstr) * list OpsEvent :=
  sample_run (list_services ascii_lower).

Lemma list_services_complete_witness :
  is_ok sample_listing.1 = true
  /\ exists services reads defs warnings,
      sample_listing.2 = Ev EnumerateServices (Ok services) :: reads /\ sample_listing.1 = Ok (defs, warnings)
      /\ Permutation (map native defs) (map ns_config services).
Proof.
  split; [vm_compute; reflexivity|].
  destruct (list_services_complete ascii_lower sample_listing.2 sample_listing.1
    (interp_runs sample_calls (list_services ascii_lower) Stopped))
    as [(e & He & _)|(services & reads & defs & warnings & H1 & H2 & H3 & _)].
  - exfalso. vm_compute in He. discriminate.
  - exists services, reads, defs, warnings. auto.
Defined.
