(* ===== verification/OpsRestart.v ===== *)
(** * Restarting a service: servicemanager-ops [lifecycle.rs]

    [restart_using] against [RestartBackend], the trait of the same name, with
    its polling wait. A call into the backend may take any time and fail;
    durations are in nanoseconds. *)

From Stdlib Require Import ZArith Lia List.
From S2P Require Import Prelude Text Model OpsConfig Effects.

Record RestartSnapshot := { snap_startup : StartupType; snap_state : option ServiceState }.

Class RestartBackend (W : Type) := {
  ensure_managed : M W Error unit;
  query : M W Error RestartSnapshot;
  stop : M W Error unit;
  start : M W Error unit;
  now : W -> Z;
  sleep : Z -> W -> W }.

(** [Duration::from_millis] *)
Definition millis (ms : Z) : Z := ms * 1000000.

(** [str::contains] *)
Fixpoint contains (needle s : rstr) : bool :=
  starts_with needle s || match s with [] => false | _ :: r => contains needle r end.

Definition is_service_not_active_error (e : Error) : bool :=
  let msg := error_to_string e in
  contains &"0x80070426" msg || contains &"has not been started" msg.

Section Restart.
Context {W : Type} `{B : RestartBackend W}.

(** The [loop]; [None] when the fuel runs out. *)
Fixpoint wait_stopped (fuel : nat) (name : rstr) (stop_timeout_ms began : Z) (w : W)
    : option (result Error unit * W) :=
  match fuel with
  | O => None
  | S fuel =>
      match query w with
      | (Err e, w1) => Some (Err e, w1)
      | (Ok s, w1) =>
          if bool_decide (snap_state s = Some Stopped) then Some (Ok tt, w1)
          else
            let elapsed := sat_sub (now w1) began in
            if millis stop_timeout_ms <=? elapsed
            then Some (Err (message_error (&"'" ++ name ++ &"' did not stop within "
                              ++ to_dec stop_timeout_ms ++ &" ms")), w1)
            else wait_stopped fuel name stop_timeout_ms began
                   (sleep (Z.min (millis 200) (millis stop_timeout_ms - elapsed)) w1)
      end
  end.

(** Stopping a service that is not stopped already. *)
Definition stop_and_wait (fuel : nat) (name : rstr) (stop_timeout_ms : Z) (state : option ServiceState)
    (w : W) : option (result Error unit * W) :=
  let '(stopped, w1) :=
    if bool_decide (state <> Some StopPending)
    then match stop w with
         | (Err e, w1) => (if is_service_not_active_error e then Ok tt else Err e, w1)
         | (Ok _, w1) => (Ok tt, w1)
         end
    else (Ok tt, w) in
  match stopped with
  | Err e => Some (Err e, w1)
  | Ok _ =>
      match wait_stopped fuel name stop_timeout_ms (now w1) w1 with
      | Some (Ok _, w2) => Some (Ok tt, sleep (millis 250) w2)
      | r => r
      end
  end.

Definition restart_using (fuel : nat) (name : rstr) (stop_timeout_ms : Z) (force_native : bool) (w : W)
    : option (result Error rstr * W) :=
  let '(owned, w1) := if force_native then (Ok tt, w) else ensure_managed w in
  match owned with
  | Err e => Some (Err e, w1)
  | Ok _ =>
      match query w1 with
      | (Err e, w2) => Some (Err e, w2)
      | (Ok snapshot, w2) =>
          if bool_decide (snap_startup snapshot = Disabled)
          then Some (Err (message_error (&"'" ++ name ++ &"' is disabled — enable it before restarting")), w2)
          else
            match
              match snap_state snapshot with
              | Some Stopped | None => Some (Ok tt, w2)
              | state => stop_and_wait fuel name stop_timeout_ms state w2
              end
            with
            | None => None
            | Some (Err e, w3) => Some (Err e, w3)
            | Some (Ok _, w3) =>
                match start w3 with
                | (Err e, w4) => Some (Err e, w4)
                | (Ok _, w4) => Some (Ok (&"Restarted '" ++ name ++ &"'."), w4)
                end
            end
      end
  end.
End Restart.

(** ** Recording the calls *)

Inductive RestartCall :=
| CEnsure (r : result Error unit)
| CQuery (r : result Error RestartSnapshot)
| CStop (r : result Error unit)
| CStart (r : result Error unit)
| CSleep (d : Z).

Definition record {W A} (m : M W Error A) (c : result Error A -> RestartCall)
    : M (W * list RestartCall) Error A :=
  fun wl => let '(r, w) := m wl.1 in (r, (w, wl.2 ++ [c r])).

(** The same backend with its calls written down. *)
Definition traced {W} (B : RestartBackend W) : RestartBackend (W * list RestartCall) := {|
  ensure_managed := record ensure_managed CEnsure;
  query := record query CQuery;
  stop := record stop CStop;
  start := record start CStart;
  now wl := now wl.1;
  sleep d wl := (sleep d wl.1, wl.2 ++ [CSleep d]) |}.

(** The successful answers to queries, in order. *)
Definition answers (log : list RestartCall) : list RestartSnapshot :=
  flat_map (fun c => match c with CQuery (Ok s) => [s] | _ => [] end) log.

Definition idle (state : option ServiceState) : bool :=
  match state with Some Stopped | None => true | _ => false end.

(** What must have happened before a service is stopped or started. *)
Definition restart_allowed (force_native : bool) (past : list RestartCall) (c : RestartCall) : Prop :=
  match c with
  | CStop _ =>
      (force_native = false -> In (CEnsure (Ok tt)) past)
      /\ exists s, answers past = [s] /\ snap_startup s <> Disabled
                   /\ idle (snap_state s) = false /\ snap_state s <> Some StopPending
  | CStart _ =>
      (force_native = false -> In (CEnsure (Ok tt)) past)
      /\ exists s l, answers past = s :: l /\ snap_startup s <> Disabled
                     /\ exists t, last (s :: l) = Some t /\ idle (snap_state t) = true
                                  /\ (snap_state t = None -> l = [])
  | _ => True
  end.

Lemma answers_app l1 l2 : answers (l1 ++ l2) = answers l1 ++ answers l2.
Proof. apply flat_map_app. Qed.

Section Protocol.
Context {W : Type} (B : RestartBackend W).

Lemma wait_stopped_log fuel name ms began w log r w' log' :
  wait_stopped (B := traced B) fuel name ms began (w, log) = Some (r, (w', log')) ->
  exists tail, log' = log ++ tail
  /\ Forall (fun c => forall force past, restart_allowed force past c) tail
  /\ (r = Ok tt -> exists s, last (answers tail) = Some s /\ snap_state s = Some Stopped).
Proof.
  revert w log. induction fuel as [|fuel IH]; intros w log; cbn; [done|].
  unfold record at 1. cbn. destruct (query w) as [[s|e] w1]; cbn.
  2: { intros [= <- <- <-]. by exists [CQuery (Err e)]; split; [|split; [repeat constructor|]]. }
  case_bool_decide as Es.
  { intros [= <- <- <-]. exists [CQuery (Ok s)]. split; [done|]. split; [by repeat constructor|].
    intros _. by exists s. }
  destruct (_ <=? _).
  { intros [= <- <- <-]. exists [CQuery (Ok s)]. split; [done|]. by split; [repeat constructor|]. }
  intros H. apply IH in H as (tail & Hl & Ht & Hr). subst log'.
  exists (CQuery (Ok s) :: CSleep (Z.min (millis 200) (millis ms - sat_sub (now w1) began)) :: tail).
  split; [by rewrite <- !app_assoc|]. split; [by repeat constructor|].
  intros E. destruct (Hr E) as (t & Hl & Hst). exists t. split; [|done].
  change (last (s :: answers tail) = Some t). destruct (answers tail); [done|]. exact Hl.
Qed.

(** The calls before the service is started, after [past] with its one answer [s]. *)
Lemma stop_and_wait_log fuel name ms s w past r w' log :
  stop_and_wait (B := traced B) fuel name ms (snap_state s) (w, past) = Some (r, (w', log)) ->
  answers past = [s] ->
  exists tail, log = past ++ tail
  /\ (forall force, (force = false -> In (CEnsure (Ok tt)) past) ->
        snap_startup s <> Disabled -> idle (snap_state s) = false ->
        allowed_from (restart_allowed force) past tail)
  /\ (r = Ok tt -> exists t, last (answers tail) = Some t /\ snap_state t = Some Stopped).
Proof.
  unfold stop_and_wait. cbn [stop traced]. unfold record. cbn [fst snd]. intros H Hs.
  assert (Hw : forall w1 log1 pre, log1 = past ++ pre -> answers pre = [] ->
    match wait_stopped (B := traced B) fuel name ms (now w1) (w1, log1) with
    | Some (Ok _, w2) => Some (Ok tt, sleep (RestartBackend := traced B) (millis 250) w2)
    | r => r
    end = Some (r, (w', log)) ->
    exists tail, log = past ++ pre ++ tail
    /\ Forall (fun c => forall force past, restart_allowed force past c) tail
    /\ (r = Ok tt -> exists t, last (answers (pre ++ tail)) = Some t /\ snap_state t = Some Stopped)).
  { intros w1 log1 pre -> Hpre H1.
    destruct (wait_stopped _ _ _ _ _) as [[[u|e] [w2 log2]]|] eqn:E; [| |done];
      apply wait_stopped_log in E as (tail & -> & Ht & Hr); cbn [sleep traced fst snd] in H1.
    - injection H1 as <- <- <-. exists (tail ++ [CSleep (millis 250)]).
      split; [by rewrite <- !app_assoc|]. split; [apply Forall_app; split; [done|by repeat constructor]|].
      intros _. rewrite !answers_app, Hpre, app_nil_r. apply Hr. by destruct u.
    - injection H1 as <- <- <-. exists tail. split; [by rewrite <- app_assoc|]. by split. }
  case_bool_decide as Ep.
  - destruct (stop w) as [x w1]. cbn [fst snd] in H.
    assert (Hstop : forall force, (force = false -> In (CEnsure (Ok tt)) past) ->
        snap_startup s <> Disabled -> idle (snap_state s) = false -> restart_allowed force past (CStop x)).
    { intros force H1 H2 H3. split; [done|]. by exists s. }
    destruct (match x with Ok _ => _ | Err _ => _ end) as [[u|e] wl] eqn:Ex; 
      assert (wl = (w1, past ++ [CStop x])) as -> by (destruct x; congruence).
    + apply (Hw w1 (past ++ [CStop x]) [CStop x]) in H as (tail & -> & Ht & Hr); [|done|done].
      exists ([CStop x] ++ tail). split; [done|]. split; [|done]. intros force H1 H2 H3.
      split; [by apply Hstop|]. apply allowed_from_free. eapply Forall_impl; [exact Ht|]. auto.
    + injection H as <- <- <-. exists [CStop x]. split; [done|]. split; [|done].
      intros force H1 H2 H3. split; [by apply Hstop|done].
  - apply (Hw w past []) in H as (tail & -> & Ht & Hr); [|by rewrite app_nil_r|done].
    exists tail. split; [done|]. split; [|done]. intros force H1 H2 H3.
    apply allowed_from_free. eapply Forall_impl; [exact Ht|]. auto.
Qed.

Abbreviation free := (Forall (fun c => forall force past, restart_allowed force past c)) (only parsing).

(** The last step: starting, after calls that left the service stopped. *)
Lemma start_log force name past tail s w r w' log :
  match start (RestartBackend := traced B) (w, past ++ tail) with
  | (Err e, w4) => Some (Err e, w4)
  | (Ok _, w4) => Some (Ok (&"Restarted '" ++ name ++ &"'."), w4)
  end = Some (r, (w', log)) ->
  free past -> answers past = [s] -> (force = false -> In (CEnsure (Ok tt)) past) ->
  snap_startup s <> Disabled -> allowed_from (restart_allowed force) past tail ->
  (exists t, last (s :: answers tail) = Some t /\ idle (snap_state t) = true
             /\ (snap_state t = None -> answers tail = [])) ->
  allowed (restart_allowed force) log
  /\ forall m, r = Ok m -> exists past, log = past ++ [CStart (Ok tt)].
Proof.
  cbn [start traced]. unfold record. cbn [fst snd]. intros H Hf Hs Hown Hd Ht Hlast.
  destruct (start w) as [x w1].
  assert (Hlog : log = past ++ tail ++ [CStart x]).
  { rewrite app_assoc. by destruct x; injection H as _ _ <-. }
  split.
  - rewrite Hlog. apply allowed_by. apply allowed_from_app.
    { apply allowed_from_free. eapply Forall_impl; [exact Hf|]. auto. }
    apply allowed_from_app; [done|]. cbn [app allowed_from]. split; [|done].
    split; [intros E; rewrite in_app_iff; auto|].
    exists s, (answers tail). rewrite answers_app, Hs. auto.
  - intros m ->. destruct x as [[]|e]; [|done]. exists (past ++ tail). by rewrite Hlog, app_assoc.
Qed.

(** C23. A restart never harms a service it should leave alone. Whatever the
    calls answer: the service is stopped at most after its ownership was
    confirmed (unless forced), when it is enabled, and when it is running; it
    is started only when it is enabled and the last answer of the SCM was that
    it is stopped (or, without any runtime state, at once); and the operation
    succeeds only if its last call was a successful start. *)
Theorem restart_protocol fuel name ms force w r w' log :
  restart_using (B := traced B) fuel name ms force (w, []) = Some (r, (w', log)) ->
  allowed (restart_allowed force) log
  /\ forall m, r = Ok m -> exists past, log = past ++ [CStart (Ok tt)].
Proof.
  unfold restart_using. intros H.
  destruct (if force then _ else _) as [owned [w1 l1]] eqn:Eo.
  assert (Hl1 : free l1 /\ answers l1 = [] /\ (owned = Ok tt -> force = false -> In (CEnsure (Ok tt)) l1)).
  { destruct force; [injection Eo as <- <- <-; split; [constructor|done]|].
    cbn [ensure_managed traced] in Eo. unfold record in Eo. cbn [fst snd] in Eo.
    destruct (ensure_managed w) as [o w0]. injection Eo as <- <- <-.
    split; [by repeat constructor|]. split; [done|]. intros -> _. by left. }
  destruct Hl1 as (Hf & Ha & Hown).
  assert (Hstop : forall l e, free l -> Some (Err e, (w1, l)) = Some (r, (w1, log)) ->
    allowed (restart_allowed force) log /\ forall m, r = Ok m -> exists past, log = past ++ [CStart (Ok tt)]).
  { intros l e Hl [= <- <-]. split; [|done]. apply allowed_by, allowed_from_free.
    eapply Forall_impl; [exact Hl|]. auto. }
  destruct owned as [[]|e]; [|injection H as <- <- <-; by eapply Hstop].
  specialize (Hown eq_refl).
  cbn [query traced] in H. unfold record in H. cbn [fst snd] in H.
  destruct (query w1) as [x w2].
  assert (Hf2 : free (l1 ++ [CQuery x])) by (apply Forall_app; split; [done|by repeat constructor]).
  destruct x as [s|e]; [|injection H as <- <- <-; by eapply Hstop].
  case_bool_decide as Ed; [injection H as <- <- <-; by eapply Hstop|].
  set (past := l1 ++ [CQuery (Ok s)]) in *.
  assert (Hs : answers past = [s]) by (unfold past; by rewrite answers_app, Ha).
  assert (Hown2 : force = false -> In (CEnsure (Ok tt)) past)
    by (intros E; unfold past; rewrite in_app_iff; auto).
  destruct (match snap_state s with Some Stopped | None => _ | _ => _ end) as [[w3r [w3 l3]]|] eqn:E3; [|done].
  destruct (idle (snap_state s)) eqn:Ei.
  - assert (w3r = Ok tt /\ w3 = w2 /\ l3 = past ++ []) as (-> & -> & ->).
    { rewrite app_nil_r. destruct (snap_state s) as [[]|]; try done; by injection E3 as <- <- <-. }
    eapply start_log; try done. exists s. split; [done|]. auto.
  - assert (E4 : stop_and_wait (B := traced B) fuel name ms (snap_state s) (w2, past) = Some (w3r, (w3, l3)))
      by (destruct (snap_state s) as [[]|]; done).
    apply stop_and_wait_log in E4 as (tail & -> & Hal & Hr); [|done].
    destruct w3r as [[]|e].
    + destruct (Hr eq_refl) as (t & Hl & Hst). eapply start_log; try done; [by apply Hal|].
      exists t. split; [destruct (answers tail); [done|exact Hl]|]. rewrite Hst. split; [done|]. intros [=].
    + injection H as <- <- <-. split; [|done]. apply allowed_by, allowed_from_app; [|by apply Hal].
      apply allowed_from_free. eapply Forall_impl; [exact Hf2|]. auto.
Qed.
End Protocol.

(** ** The wait ends *)

(** Time passes while sleeping, and never backwards. *)
Class ClockLaws (W : Type) `{B : RestartBackend W} := {
  sleep_law : forall d w, 0 <= d -> now w + d <= now (sleep d w);
  query_time : forall w, now w <= now (query w).2;
  stop_time : forall w, now w <= now (stop w).2 }.

Definition restart_fuel (stop_timeout_ms : Z) : nat := Z.to_nat (stop_timeout_ms / 200 + 2).

Section Termination.
Context {W : Type} `{L : ClockLaws W}.

Lemma wait_stopped_ends k fuel name ms began w :
  began <= now w -> millis ms - (now w - began) <= Z.of_nat k * millis 200 -> (k < fuel)%nat ->
  exists r, wait_stopped fuel name ms began w = Some r.
Proof.
  revert k w. induction fuel as [|fuel IH]; intros k w Hb Hk Hf; [lia|]. cbn.
  pose proof (query_time w) as Hq. destruct (query w) as [[s|e] w1]; cbn [fst snd] in Hq; [|eauto].
  case_bool_decide; [eauto|]. unfold sat_sub. rewrite Z.max_r by lia.
  destruct (Z.leb_spec (millis ms) (now w1 - began)); [eauto|].
  set (d := Z.min (millis 200) (millis ms - (now w1 - began))).
  assert (Hd : 0 < d) by (unfold d, millis in *; lia).
  pose proof (sleep_law d w1 ltac:(lia)) as Hs.
  destruct k as [|k]; [unfold millis in *; lia|].
  apply (IH k); [lia| |lia]. unfold d, millis in *. lia.
Qed.

(** A restart always ends. Since every round sleeps until 200 ms have
    passed or the deadline is reached, [timeout / 200 ms + 2] queries are
    enough for any answers of the backend and any delay of its calls. *)
Theorem restart_terminates name ms force w fuel :
  0 <= ms -> (restart_fuel ms <= fuel)%nat -> exists r, restart_using fuel name ms force w = Some r.
Proof.
  intros Hms Hf. unfold restart_using.
  destruct (if force then _ else _) as [[u|e] w1]; [|eauto].
  destruct (query w1) as [[s|e] w2]; [|eauto].
  case_bool_decide; [eauto|].
  assert (Hstop : exists r, stop_and_wait fuel name ms (snap_state s) w2 = Some r).
  { unfold stop_and_wait. destruct (if bool_decide _ then _ else _) as [[u1|e] w3]; [|eauto].
    destruct (wait_stopped_ends (Z.to_nat (ms / 200 + 1)) fuel name ms (now w3) w3) as [[r w4] ->].
    - lia.
    - pose proof (Z.div_mod ms 200). pose proof (Z.mod_pos_bound ms 200).
      pose proof (Z.div_pos ms 200). unfold millis. lia.
    - unfold restart_fuel in Hf. pose proof (Z.div_pos ms 200). lia.
    - destruct r; eauto. }
  assert (Hend : forall o : option (result Error unit * W), (exists r, o = Some r) ->
    exists r, match o with
      | None => None
      | Some (Err e, w3) => Some (Err e, w3)
      | Some (Ok _, w3) => match start w3 with
                           | (Err e, w4) => Some (Err e, w4)
                           | (Ok _, w4) => Some (Ok (&"Restarted '" ++ name ++ &"'."), w4)
                           end
      end = Some r).
  { intros ? [[[u1|e] w3] ->]; [|eauto]. destruct (start w3) as [[]]; eauto. }
  apply Hend. destruct (snap_state s) as [[]|]; eauto.
Qed.
End Termination.

(** ** A service that takes its time *)

(** [p_polls]: the number of queries until the service has stopped. *)
Record Sim := { p_clock : Z; p_polls : nat; p_state : ServiceState; p_startup : StartupType }.

#[export] Instance sim_backend : RestartBackend Sim := {
  ensure_managed w := (Ok tt, w);
  query w := match p_state w, p_polls w with
    | StopPending, S n => (Ok (Build_RestartSnapshot (p_startup w) (Some StopPending)),
                           Build_Sim (p_clock w + millis 1) n StopPending (p_startup w))
    | StopPending, O => (Ok (Build_RestartSnapshot (p_startup w) (Some Stopped)),
                         Build_Sim (p_clock w + millis 1) O Stopped (p_startup w))
    | st, _ => (Ok (Build_RestartSnapshot (p_startup w) (Some st)), w)
    end;
  stop w := (Ok tt, Build_Sim (p_clock w) (p_polls w) StopPending (p_startup w));
  start w := (Ok tt, Build_Sim (p_clock w) (p_polls w) Running (p_startup w));
  now := p_clock;
  sleep d w := Build_Sim (p_clock w + d) (p_polls w) (p_state w) (p_startup w) }.

#[export] Instance sim_clock : ClockLaws Sim.
Proof.
  split.
  - intros d w H. cbn. lia.
  - intros [t n st su]. cbn. destruct st, n; cbn; unfold millis; lia.
  - intros w. cbn. lia.
Qed.

Definition slow_service (polls : nat) : Sim := Build_Sim 0 polls Running Automatic.
Definition restarted (polls : nat) : option (result Error rstr * (Sim * list RestartCall)) :=
  restart_using (B := traced sim_backend) 10 &"Foo" 1000 false (slow_service polls, []).

(** Stopped, waited for over two polls, started. *)
Lemma restart_protocol_witness :
  exists r w log, restarted 2 = Some (r, (w, log)) /\ r = Ok &"Restarted 'Foo'."
  /\ List.length log = 10%nat /\ allowed (restart_allowed false) log.
Proof.
  destruct (restarted 2) as [[r [w log]]|] eqn:E; [|vm_compute in E; discriminate].
  exists r, w, log. split; [reflexivity|].
  assert (Hr : (fst <$> restarted 2) = Some (Ok &"Restarted 'Foo'.")) by (vm_compute; reflexivity).
  assert (Hl : ((fun x => List.length x.2.2) <$> restarted 2) = Some 10%nat) by (vm_compute; reflexivity).
  rewrite E in Hr, Hl. cbn [fst snd fmap option_fmap option_map] in Hr, Hl.
  split; [congruence|]. split; [congruence|].
  exact (proj1 (restart_protocol sim_backend 10 &"Foo" 1000 false (slow_service 2) r w log E)).
Defined.

Lemma restart_terminates_witness :
  restart_fuel 30000 = 152%nat
  /\ exists r, restart_using 152 &"Foo" 30000 false (slow_service 1000) = Some r.
Proof.
  split; [reflexivity|]. apply restart_terminates; [lia|]. vm_compute. lia.
Defined.

Example slow_restart_fails :
  (fst <$> restarted 100) = Some (Err (Other &"'Foo' did not stop within 1000 ms")).
Proof. vm_compute. reflexivity. Qed.
