(* ===== verification/Rotation.v ===== *)
(** * Log rotation: servicemanager-supervisor [rotation.rs]

    One sink owns each log file: its state, the write path, rotation by rename
    and by copy-and-truncate, and the recovery when the file cannot be
    reopened. The file system is an interface; sizes are in bytes, times in
    nanoseconds. *)

From Stdlib Require Import ZArith Lia List.
From S2P Require Import Prelude Text Model.

Abbreviation path := (list Z) (only parsing).
Abbreviation data := (list Z) (only parsing).

(** ** The file system *)

(** [std::fs::OpenOptions] with its Windows extensions. *)
Record OpenOptions := {
  oo_read : bool; oo_write : bool; oo_append : bool;
  oo_create : bool; oo_create_new : bool; oo_truncate : bool;
  oo_share_mode : option Z; oo_custom_flags : option Z }.
Definition no_options : OpenOptions := Build_OpenOptions false false false false false false None None.

Class FileSys (W : Type) := {
  (** [Path::exists] *)
  fs_exists : path -> W -> bool;
  (** [OffsetDateTime::now_utc().format(STAMP_FMT)] *)
  utc_stamp : W -> option rstr;
  (** [Instant::now] *)
  instant_now : W -> Z;
  thread_sleep : Z -> W -> W;
  fs_open : OpenOptions -> path -> M W io_error Z;
  fs_close : Z -> W -> W;
  (** [File::read] into a buffer of the given size *)
  fs_read : Z -> nat -> M W io_error data;
  (** [File::write], which may take a prefix *)
  fs_write : Z -> data -> M W io_error nat;
  fs_write_all : Z -> data -> M W io_error unit;
  fs_sync_all : Z -> M W io_error unit;
  fs_set_len : Z -> Z -> M W io_error unit;
  (** [File::metadata().len()] *)
  fs_len : Z -> M W io_error Z;
  (** [metadata(path)]: length, and the time since [modified()] where known *)
  fs_metadata : path -> M W io_error (Z * option Z);
  fs_remove_file : path -> M W io_error unit;
  (** [MoveFileExW] without [MOVEFILE_REPLACE_EXISTING] *)
  fs_move : path -> path -> M W io_error unit;
  (** [create_dir_all] of the parent, if it is not empty *)
  fs_create_parent : path -> M W io_error unit }.

Definition invalid_input (text : rstr) : io_error := mk_io_error KInvalidInput text.
Definition interrupted : io_error := mk_io_error KInterrupted &"operation interrupted".
Definition timed_out (text : rstr) : io_error := mk_io_error KTimedOut text.
(** Not an error of the program: the bound on a loop of the model was too low. *)
Definition no_fuel : io_error := mk_io_error KOther &"model fuel exhausted".

(** ** Names of rotated files *)

(** The directory, with its separator, and the file name. *)
Fixpoint split_dir (p : path) : path * path :=
  match p with
  | [] => ([], [])
  | c :: r =>
      let '(dir, name) := split_dir r in
      if is_path_separator c || negb (is_empty dir) then (c :: dir, name)
      else (dir, c :: name)
  end.

(** [file_stem] and [extension] of a file name. *)
Fixpoint split_last_dot (s : rstr) : option (rstr * rstr) :=
  match s with
  | [] => None
  | c :: r =>
      match split_last_dot r with
      | Some (a, b) => Some (c :: a, b)
      | None => if c =? 46 then Some ([], r) else None
      end
  end.
Definition stem_and_ext (name : rstr) : rstr * rstr :=
  if str_eqb name &".." then (name, [])
  else match split_last_dot name with
       | Some (a, b) => if is_empty a then (name, []) else (a, b)
       | None => (name, [])
       end.

Definition rotated_candidate (p : path) (stamp suffix : rstr) : path :=
  let '(dir, name) := split_dir p in
  let '(stem, ext) := if is_empty name then (&"log", []) else stem_and_ext name in
  dir ++ stem ++ &"." ++ stamp ++ suffix ++ (if is_empty ext then [] else &"." ++ ext).

Section RotatedName.
Context {W : Type} `{FS : FileSys W}.

(** The loop over the counter. *)
Fixpoint first_free (candidate : Z -> path) (n : Z) (count : nat) (default : path) (w : W) : path :=
  match count with
  | O => default
  | S count => if negb (fs_exists (candidate n) w) then candidate n
               else first_free candidate (n + 1) count default w
  end.

Definition build_rotated_name (p : path) (w : W) : path :=
  let stamp := unwrap_or &"19700101-000000" (utc_stamp w) in
  let first := rotated_candidate p stamp [] in
  if negb (fs_exists first w) then first
  else first_free (fun n => rotated_candidate p stamp (&"-" ++ to_dec n)) 1 9999%nat first w.
End RotatedName.

(** ** Options of a stream *)

Definition same_options (left right : IoStream) : bool :=
  let flags v := match v with Some f => if f =? 0 then 128 else f | None => 128 end in
  (unwrap_or 7 (share_mode left) =? unwrap_or 7 (share_mode right))
  && (unwrap_or 4 (creation_disposition left) =? unwrap_or 4 (creation_disposition right))
  && (flags (flags_and_attributes left) =? flags (flags_and_attributes right))
  && Bool.eqb (unwrap_or false (copy_and_truncate left)) (unwrap_or false (copy_and_truncate right)).

Definition validate_open_options (s : IoStream) : result io_error unit :=
  if is_some_and (fun mode => negb (Z.ldiff mode 7 =? 0)) (share_mode s)
  then Err (invalid_input &"unsupported stream sharing bits")
  else
    let unsupported := Z.lor (Z.lor (Z.lor 0x40000000 0x20000000) 0x04000000) 0x00200000 in
    if negb (Z.land (unwrap_or 0 (flags_and_attributes s)) unsupported =? 0)
    then Err (invalid_input &"overlapped, unbuffered, delete-on-close and open-reparse-point stream flags are unsupported")
    else Ok tt.

Definition validate_output (s : IoStream) (rotation : LogRotationConfig) : result io_error unit :=
  let p := unwrap_or (Model.path s) (strip_prefix &"\\?\" (Model.path s)) in
  (* the byte after the first is a colon *)
  let after_drive := match p with d :: c :: r => if (d <? 128) && (c =? c_colon) then r else p | _ => p end in
  if contains_char c_colon after_drive
  then Err (invalid_input &"alternate data stream log paths are unsupported; use a regular file")
  else
    validate_open_options s ;?
    if is_some_and (fun mode => negb ((1 <=? mode) && (mode <=? 5))) (creation_disposition s)
    then Err (invalid_input &"invalid output creation disposition")
    else if is_some_and (fun mode => (mode =? 2) || (mode =? 5)) (creation_disposition s)
            && (bool_decide (enabled rotation = Some true) || bool_decide (copy_and_truncate s = Some true))
    then Err (invalid_input &"destructive creation dispositions cannot be combined with log rotation/CopyAndTruncate")
    else Ok tt.

Definition validate_input (s : IoStream) : result io_error unit :=
  validate_open_options s ;?
  if is_some_and (fun mode => negb (mode =? 3)) (creation_disposition s)
     || bool_decide (copy_and_truncate s = Some true)
  then Err (invalid_input &"stdin supports only read-only OPEN_EXISTING, without CopyAndTruncate")
  else Ok tt.

Definition apply_open_options (o : OpenOptions) (s : IoStream) : OpenOptions :=
  Build_OpenOptions (oo_read o) (oo_write o) (oo_append o) (oo_create o) (oo_create_new o) (oo_truncate o)
    (Some (unwrap_or 7 (share_mode s))) (Some (unwrap_or 128 (flags_and_attributes s))).

Definition output_options (disposition : Z) : option OpenOptions :=
  if disposition =? 1 then Some (Build_OpenOptions false false true false true false None None)
  else if disposition =? 2 then Some (Build_OpenOptions false true false true false true None None)
  else if disposition =? 3 then Some (Build_OpenOptions false false true false false false None None)
  else if disposition =? 4 then Some (Build_OpenOptions false false true true false false None None)
  else if disposition =? 5 then Some (Build_OpenOptions false true false false false true None None)
  else None.

(** ** Opening and the storage operations *)

(** [?] on the value of a call that owns a handle: the handle is closed. *)
Section Files.
Context {W : Type} `{FS : FileSys W}.
Abbreviation IO := (M W io_error) (only parsing).

Definition open_output (s : IoStream) : IO Z :=
  mlift (validate_open_options s) ;!
  let disposition := unwrap_or 4 (creation_disposition s) in
  (if (disposition =? 1) || (disposition =? 2) || (disposition =? 4)
   then fs_create_parent (Model.path s) else mret tt) ;!
  match output_options disposition with
  | Some o => fs_open (apply_open_options o s) (Model.path s)
  | None => mfail (invalid_input &"invalid stream creation disposition")
  end.

Definition open_input (s : IoStream) : IO Z :=
  mlift (validate_input s) ;!
  fs_open (apply_open_options (Build_OpenOptions true false false false false false None None) s) (Model.path s).

(** A [&dyn Fn() -> bool] that watches a flag somewhere in the world. *)
Abbreviation Cancel := (W -> bool * W) (only parsing).

(** [if cancelled() { return Err(Interrupted) }] *)
Definition check_cancelled (cancelled : Cancel) : IO unit :=
  fun w => let '(c, w1) := cancelled w in (if c then Err interrupted else Ok tt, w1).

(** The trait, as a record of operations. *)
Record RotationIo := {
  io_reopen : path -> IoStream -> IO Z;
  io_rename : path -> path -> IO unit;
  io_write : Z -> data -> IO nat;
  io_copy_archive : path -> path -> Cancel -> IO unit }.

(** The copy loop; [None] when the fuel runs out. *)
Fixpoint copy_loop (fuel : nat) (source destination : Z) (cancelled : Cancel) (w : W)
    : option (result io_error unit * W) :=
  match fuel with
  | O => None
  | S fuel =>
      match check_cancelled cancelled w with
      | (Err e, w1) => Some (Err e, w1)
      | (Ok _, w1) =>
          match fs_read source (64 * 1024) w1 with
          | (Err e, w2) => Some (Err e, w2)
          | (Ok [], w2) => Some (fs_sync_all destination w2)
          | (Ok bytes, w2) =>
              match fs_write_all destination bytes w2 with
              | (Err e, w3) => Some (Err e, w3)
              | (Ok _, w3) => copy_loop fuel source destination cancelled w3
              end
          end
      end
  end.

(** [copy_archive]: both handles are closed on every path out. *)
Definition copy_archive (fuel : nat) (p archive : path) (cancelled : Cancel) : IO unit :=
  let! source := fs_open (Build_OpenOptions true false false false false false None None) p in
  fun w =>
    match fs_open (Build_OpenOptions false true false false true false None None) archive w with
    | (Err e, w1) => (Err e, fs_close source w1)
    | (Ok destination, w1) =>
        match copy_loop fuel source destination cancelled w1 with
        | None => (Err no_fuel, w1)
        | Some (Ok _, w2) => (Ok tt, fs_close source (fs_close destination w2))
        | Some (Err error, w2) =>
            let '(_, w3) := fs_remove_file archive (fs_close destination w2) in
            (Err error, fs_close source w3)
        end
    end.

(** [impl RotationIo for FileIo], with the trait's default methods. *)
Definition FileIo (fuel : nat) : RotationIo := {|
  io_reopen p s := open_output (Build_IoStream p (share_mode s) (Some 4) (flags_and_attributes s) (copy_and_truncate s));
  io_rename p archive := fs_move p archive;
  io_write h bytes := fs_write h bytes;
  io_copy_archive := copy_archive fuel |}.

(** ** One file's state *)

Record RotationState := {
  rs_path : path;
  rs_file : option Z;
  bytes_in_current : Z;
  opened_at : Z;
  rs_config : LogRotationConfig;
  rs_stream : IoStream }.

Definition with_file (f : option Z) (st : RotationState) : RotationState :=
  Build_RotationState (rs_path st) f (bytes_in_current st) (opened_at st) (rs_config st) (rs_stream st).
Definition with_bytes (n : Z) (st : RotationState) : RotationState :=
  Build_RotationState (rs_path st) (rs_file st) n (opened_at st) (rs_config st) (rs_stream st).
Definition with_opened (t : Z) (st : RotationState) : RotationState :=
  Build_RotationState (rs_path st) (rs_file st) (bytes_in_current st) t (rs_config st) (rs_stream st).

(** Operations on the state and the world. *)
Abbreviation Op := (M (RotationState * W) io_error) (only parsing).
Definition on_fs {A} (m : IO A) : Op A := fun '(st, w) => let '(r, w1) := m w in (r, (st, w1)).
Definition get_state : Op RotationState := fun s => (Ok s.1, s).
Definition modify (f : RotationState -> RotationState) : Op unit := fun '(st, w) => (Ok tt, (f st, w)).
Definition ask {A} (f : W -> A) : Op A := fun s => (Ok (f s.2), s).

Variable io : RotationIo.

(** [Duration::as_secs] *)
Definition as_secs (d : Z) : Z := d / 1000000000.

Definition should_rotate_for (st : RotationState) (bytes age : Z) : bool :=
  if negb (bool_decide (enabled (rs_config st) = Some true)) || (bytes =? 0) then false
  else if is_some_and (fun threshold => (0 <? threshold) && (threshold <=? bytes)) (Model.bytes (rs_config st))
  then true
  else is_some_and (fun secs => (0 <? secs) && (secs <=? as_secs age)) (seconds (rs_config st)).

Definition should_rotate (st : RotationState) (w : W) : bool :=
  should_rotate_for st (bytes_in_current st) (sat_sub (instant_now w) (opened_at st)).

(** [let file = reopen(..)?; bytes = file.metadata()?.len(); file = Some(file)] *)
Definition reopen_file : Op unit :=
  let! st := get_state in
  let! h := on_fs (io_reopen io (rs_path st) (rs_stream st)) in
  fun '(st, w) =>
    match fs_len h w with
    | (Ok len, w1) => (Ok tt, (with_file (Some h) (with_bytes len st), w1))
    | (Err e, w1) => (Err e, (st, fs_close h w1))
    end.

Definition state_write_some (bytes : data) : Op nat :=
  let! st := get_state in
  (match rs_file st with
   | Some _ => mret tt
   | None =>
       reopen_file ;!
       let! t := ask instant_now in modify (with_opened t)
   end) ;!
  let! st := get_state in
  match rs_file st with
  | Some h =>
      let! n := on_fs (io_write io h bytes) in
      modify (fun st => with_bytes (sat_add_u64 (bytes_in_current st) (Z.of_nat n)) st) ;!
      mret n
  | None => mret O
  end.

(** [drop(self.file.take())] *)
Definition take_file : Op unit :=
  fun '(st, w) => (Ok tt, (with_file None st, match rs_file st with Some h => fs_close h w | None => w end)).

Definition state_copy_and_truncate (archive : path) (cancelled : Cancel) : Op unit :=
  let! st := get_state in
  on_fs (io_copy_archive io (rs_path st) archive cancelled) ;!
  on_fs (check_cancelled cancelled) ;!
  let! h := on_fs (fs_open (apply_open_options (Build_OpenOptions false true false false false false None None)
                              (rs_stream st)) (rs_path st)) in
  on_fs (fun w => let '(r, w1) := fs_set_len h 0 w in (r, fs_close h w1)).

Definition state_rotate (cancelled : Cancel) : Op (option path) :=
  let! st := get_state in
  let! rotated := ask (build_rotated_name (rs_path st)) in
  on_fs (check_cancelled cancelled) ;!
  (match rs_file st with Some h => on_fs (fs_sync_all h) | None => mret tt end) ;!
  take_file ;!
  let! rotate_result := mtry (
    if bool_decide (copy_and_truncate (rs_stream st) = Some true)
    then state_copy_and_truncate rotated cancelled
    else on_fs (check_cancelled cancelled) ;! on_fs (io_rename io (rs_path st) rotated)) in
  on_fs (check_cancelled cancelled) ;!
  reopen_file ;!
  (if is_ok rotate_result then let! t := ask instant_now in modify (with_opened t) else mret tt) ;!
  match rotate_result with
  | Ok _ => mret (Some rotated)
  | Err e => mfail e
  end.
End Files.

(** ** The sink

    [try_lock] of the mutex around the state; its guard is released at the end
    of the operation. *)

Inductive lock_status := Acquired | Poisoned | WouldBlock.

Record RotationSink := {
  sk_state : RotationState;
  rotation_queued : bool;
  sk_identity : Z * Z;
  sk_options : IoStream;
  sk_canonical : path }.

Definition with_sink_state (st : RotationState) (k : RotationSink) : RotationSink :=
  Build_RotationSink st (rotation_queued k) (sk_identity k) (sk_options k) (sk_canonical k).
Definition with_queued (q : bool) (k : RotationSink) : RotationSink :=
  Build_RotationSink (sk_state k) q (sk_identity k) (sk_options k) (sk_canonical k).

Section Sink.
Context {W : Type} `{FS : FileSys W}.
Variable io : RotationIo (W := W).
Variable try_lock : W -> lock_status * W.
Abbreviation Cancel := (W -> bool * W) (only parsing).
Abbreviation SinkOp := (M (RotationSink * W) io_error) (only parsing).

Definition never : Cancel := fun w => (false, w).

(** Two seconds in rounds of five milliseconds. *)
Definition lock_fuel : nat := 402.
Fixpoint lock_loop (fuel : nat) (cancelled : Cancel) (deadline : Z) (w : W) : result io_error unit * W :=
  match fuel with
  | O => (Err no_fuel, w)
  | S fuel =>
      match check_cancelled cancelled w with
      | (Err e, w1) => (Err e, w1)
      | (Ok _, w1) =>
          match try_lock w1 with
          | (Acquired, w2) => (Ok tt, w2)
          | (Poisoned, w2) => (Err (mk_io_error KOther &"log sink state poisoned"), w2)
          | (WouldBlock, w2) =>
              if deadline <=? instant_now w2 then (Err (timed_out &"log sink is busy"), w2)
              else lock_loop fuel cancelled deadline (thread_sleep 5000000 w2)
          end
      end
  end.
Definition lock (cancelled : Cancel) : SinkOp unit := fun '(k, w) =>
  let '(r, w1) := lock_loop lock_fuel cancelled (instant_now w + 2000000000) w in (r, (k, w1)).

(** An operation on the locked state. *)
Definition with_state {A} (m : M (RotationState * W) io_error A) : SinkOp A := fun '(k, w) =>
  let '(r, (st, w1)) := m (sk_state k, w) in (r, (with_sink_state st k, w1)).

Definition write_some (bytes : data) (cancelled : Cancel) : SinkOp nat :=
  lock cancelled ;! with_state (state_write_some io bytes).

Definition due (offline : bool) : SinkOp bool :=
  lock never ;!
  with_state (
    let! st := get_state in
    if offline then
      let! (len, age) := on_fs (fs_metadata (rs_path st)) in
      mret (should_rotate_for st len (unwrap_or 0 age))
    else ask (should_rotate st)).

Definition has_data : SinkOp bool :=
  lock never ;! with_state (let! st := get_state in mret (0 <? bytes_in_current st)).

Definition queue_rotation : SinkOp bool :=
  fun '(k, w) => (Ok (negb (rotation_queued k)), (with_queued true k, w)).
Definition rotation_handled : SinkOp unit := fun '(k, w) => (Ok tt, (with_queued false k, w)).

Definition rotate (cancelled : Cancel) : SinkOp (option path) :=
  lock cancelled ;!
  let! n := with_state (let! st := get_state in mret (bytes_in_current st)) in
  if n =? 0 then mret None
  else
    let! r := mtry (with_state (state_rotate io cancelled)) in
    rotation_handled ;!
    mlift r.
End Sink.

(** ** What the file system promises

    [file_of] identifies the spellings of a file; [content] is what a file
    holds; [view] is what an open handle refers to. *)

Inductive hmode := AtEnd | Reading (pos : nat) | Elsewhere.

Definition mode_of (o : OpenOptions) : hmode :=
  if oo_append o || oo_create_new o || oo_truncate o then AtEnd
  else if oo_write o then Elsewhere else Reading 0.

Class FileLaws (W : Type) `{FS : FileSys W} := {
  file_of : path -> list Z;
  content : W -> list Z -> option data;
  view : W -> Z -> option (list Z * hmode);
  open_law : forall o p w,
    (forall k, k <> file_of p -> content (fs_open o p w).2 k = content w k)
    /\ match (fs_open o p w).1 with
       | Ok h =>
           view w h = None /\ (forall h', h' <> h -> view (fs_open o p w).2 h' = view w h')
           /\ view (fs_open o p w).2 h = Some (file_of p, mode_of o)
           /\ content (fs_open o p w).2 (file_of p)
              = Some (if oo_truncate o then [] else default [] (content w (file_of p)))
           /\ (oo_create_new o = true -> content w (file_of p) = None)
           /\ (oo_create o || oo_create_new o = false -> content w (file_of p) <> None)
       | Err _ => content (fs_open o p w).2 (file_of p) = content w (file_of p)
                  /\ forall h, view (fs_open o p w).2 h = view w h
       end;
  close_law : forall h w,
    (forall k, content (fs_close h w) k = content w k)
    /\ forall h', h' <> h -> view (fs_close h w) h' = view w h';
  read_law : forall h n w k pos c, (0 < n)%nat ->
    view w h = Some (k, Reading pos) -> content w k = Some c ->
    (forall k', content (fs_read h n w).2 k' = content w k')
    /\ (forall h', h' <> h -> view (fs_read h n w).2 h' = view w h')
    /\ match (fs_read h n w).1 with
       | Ok bytes => bytes = take (List.length bytes) (drop pos c)
                     /\ (bytes = [] -> drop pos c = [])
                     /\ view (fs_read h n w).2 h = Some (k, Reading (pos + List.length bytes))
       | Err _ => True
       end;
  write_law : forall h bytes w k c, view w h = Some (k, AtEnd) -> content w k = Some c ->
    (forall k', k' <> k -> content (fs_write h bytes w).2 k' = content w k')
    /\ (forall h', view (fs_write h bytes w).2 h' = view w h')
    /\ match (fs_write h bytes w).1 with
       | Ok n => (n <= List.length bytes)%nat /\ content (fs_write h bytes w).2 k = Some (c ++ take n bytes)
       | Err _ => content (fs_write h bytes w).2 k = Some c
       end;
  write_all_law : forall h bytes w k c, view w h = Some (k, AtEnd) -> content w k = Some c ->
    (forall k', k' <> k -> content (fs_write_all h bytes w).2 k' = content w k')
    /\ (forall h', view (fs_write_all h bytes w).2 h' = view w h')
    /\ ((fs_write_all h bytes w).1 = Ok tt -> content (fs_write_all h bytes w).2 k = Some (c ++ bytes));
  set_len_law : forall h w k m c, view w h = Some (k, m) -> content w k = Some c ->
    (forall k', k' <> k -> content (fs_set_len h 0 w).2 k' = content w k')
    /\ content (fs_set_len h 0 w).2 k
       = (match (fs_set_len h 0 w).1 with Ok _ => Some [] | Err _ => Some c end);
  sync_law : forall h w,
    (forall k, content (fs_sync_all h w).2 k = content w k)
    /\ forall h', view (fs_sync_all h w).2 h' = view w h';
  len_law : forall h w,
    (forall k, content (fs_len h w).2 k = content w k)
    /\ forall h', view (fs_len h w).2 h' = view w h';
  remove_law : forall p w k, k <> file_of p -> content (fs_remove_file p w).2 k = content w k;
  move_law : forall p q w,
    match (fs_move p q w).1 with
    | Ok _ => content w (file_of q) = None /\ content w (file_of p) <> None
              /\ content (fs_move p q w).2 (file_of q) = content w (file_of p)
              /\ content (fs_move p q w).2 (file_of p) = None
              /\ forall k, k <> file_of p -> k <> file_of q -> content (fs_move p q w).2 k = content w k
    | Err _ => forall k, content (fs_move p q w).2 k = content w k
    end;
  sleep_files : forall d w,
    (forall k, content (thread_sleep d w) k = content w k)
    /\ forall h, view (thread_sleep d w) h = view w h;
  parent_law : forall p w,
    (forall k, content (fs_create_parent p w).2 k = content w k)
    /\ forall h, view (fs_create_parent p w).2 h = view w h }.

(** ** What an implementation of [RotationIo] promises *)

Section IoLaws.
Context {W : Type} `{L : FileLaws W}.
Implicit Types (w : W).

Definition same_files w w' : Prop :=
  (forall k, content w' k = content w k) /\ forall h, view w' h = view w h.

(** Asking whether to stop changes no file. *)
Definition quiet (cancelled : W -> bool * W) : Prop := forall w, same_files w (cancelled w).2.

Record IoLaws (io : RotationIo) : Prop := {
  reopen_io : forall p s w,
    match io_reopen io p s w with
    | (Ok h, w') => (forall k, k <> file_of p -> content w' k = content w k)
                    /\ view w' h = Some (file_of p, AtEnd)
                    /\ content w' (file_of p) = Some (default [] (content w (file_of p)))
    | (Err _, w') => forall k, content w' k = content w k
    end;
  rename_io : forall p q w,
    match io_rename io p q w with
    | (Ok _, w') => content w (file_of q) = None /\ content w (file_of p) <> None
                    /\ content w' (file_of q) = content w (file_of p) /\ content w' (file_of p) = None
                    /\ forall k, k <> file_of p -> k <> file_of q -> content w' k = content w k
    | (Err _, w') => forall k, content w' k = content w k
    end;
  write_io : forall h bytes w k c, view w h = Some (k, AtEnd) -> content w k = Some c ->
    match io_write io h bytes w with
    | (r, w') => (forall k', k' <> k -> content w' k' = content w k')
                 /\ view w' h = view w h
                 /\ match r with
                    | Ok n => (n <= List.length bytes)%nat /\ content w' k = Some (c ++ take n bytes)
                    | Err _ => content w' k = Some c
                    end
    end;
  copy_io : forall p q cancelled w, quiet cancelled ->
    match io_copy_archive io p q cancelled w with
    | (r, w') => (forall k, k <> file_of q -> content w' k = content w k)
                 /\ (content w (file_of q) <> None -> r <> Ok tt /\ content w' (file_of q) = content w (file_of q))
                 /\ (content w (file_of p) = None -> content w' (file_of q) = content w (file_of q))
                 /\ (r = Ok tt -> content w (file_of p) <> None /\ content w' (file_of q) = content w (file_of p))
    end }.

Lemma quiet_check cancelled w r w' :
  quiet cancelled -> check_cancelled cancelled w = (r, w') -> same_files w w'.
Proof.
  intros Hq. unfold check_cancelled. specialize (Hq w). destruct (cancelled w) as [c w1].
  by intros [= _ <-].
Qed.

(** The copy loop writes what it reads, in order, and only to the archive. *)
Lemma copy_loop_spec fuel src dst cancelled ks kd pos c w r w' :
  quiet cancelled -> copy_loop fuel src dst cancelled w = Some (r, w') ->
  src <> dst -> ks <> kd -> view w src = Some (ks, Reading pos) -> view w dst = Some (kd, AtEnd) ->
  content w ks = Some c -> content w kd = Some (take pos c) ->
  (forall k, k <> kd -> content w' k = content w k) /\ (r = Ok tt -> content w' kd = Some c).
Proof.
  intros Hq. revert pos w. induction fuel as [|fuel IH]; intros pos w H Hsd Hk Hs Hd Hc Ht; [done|].
  cbn [copy_loop] in H. destruct (check_cancelled cancelled w) as [[[]|e] w1] eqn:Ec;
    apply quiet_check in Ec as [Hc1 Hv1]; try done.
  2: { injection H as <- <-. by split. }
  pose proof (read_law src (64 * 1024) w1 ks pos c ltac:(lia)) as Hr.
  destruct Hr as (R1 & R2 & R3); [by rewrite Hv1|by rewrite Hc1|].
  destruct (fs_read src (64 * 1024) w1) as [[[|b bs]|e] w2]; cbn [fst snd] in *.
  - destruct R3 as (_ & R3 & _). pose proof (sync_law dst w2) as [S1 S2].
    destruct (fs_sync_all dst w2) as [r2 w3]. injection H as <- <-. cbn [snd] in *.
    split; [intros k Hne; by rewrite S1, R1, Hc1|]. intros _. rewrite S1, R1, Hc1, Ht. f_equal.
    specialize (R3 eq_refl). rewrite <- (take_drop pos c) at 2. by rewrite R3, app_nil_r.
  - destruct R3 as (R3 & _ & R4). set (bytes := b :: bs) in *.
    pose proof (write_all_law dst bytes w2 kd (take pos c)) as Hw.
    destruct Hw as (W1 & W2 & W3); [by rewrite R2, Hv1 by congruence|by rewrite R1, Hc1|].
    destruct (fs_write_all dst bytes w2) as [[[]|e] w3]; cbn [fst snd] in *.
    + apply (IH (pos + List.length bytes)%nat) in H as [H1 H2]; try done.
      * split; [intros k Hne; by rewrite H1, W1, R1, Hc1|]. done.
      * by rewrite W2.
      * rewrite W2, R2, Hv1 by congruence. done.
      * by rewrite W1, R1, Hc1.
      * rewrite W3 by done. f_equal. rewrite (R3 : bytes = _) at 1. by rewrite take_take_drop.
    + injection H as <- <-. split; [intros k Hne; by rewrite W1, R1, Hc1|done].
  - injection H as <- <-. split; [intros k Hne; by rewrite R1, Hc1|done].
Qed.

(** The copy ends: every round but the last one reads a byte. *)
Lemma copy_loop_ends fuel src dst cancelled ks kd pos c w :
  quiet cancelled -> src <> dst -> ks <> kd -> view w src = Some (ks, Reading pos) ->
  view w dst = Some (kd, AtEnd) -> content w ks = Some c -> content w kd <> None ->
  (List.length (drop pos c) < fuel)%nat ->
  copy_loop fuel src dst cancelled w <> None.
Proof.
  intros Hq. revert pos w. induction fuel as [|fuel IH]; intros pos w Hsd Hk Hs Hd Hc Ht Hf; [lia|].
  cbn [copy_loop]. destruct (check_cancelled cancelled w) as [[[]|e] w1] eqn:Ec; [|done].
  apply quiet_check in Ec as [Hc1 Hv1]; [|done].
  destruct (read_law src (64 * 1024) w1 ks pos c ltac:(lia)) as (R1 & R2 & R3);
    [by rewrite Hv1|by rewrite Hc1|].
  destruct (fs_read src (64 * 1024) w1) as [[[|b bs]|e] w2]; cbn [fst snd] in *; [done| |done].
  destruct R3 as (R3 & _ & R4). set (bytes := b :: bs) in *.
  destruct (content w kd) as [d|] eqn:Ed; [|done].
  destruct (write_all_law dst bytes w2 kd d) as (W1 & W2 & W3);
    [by rewrite R2, Hv1 by congruence|by rewrite R1, Hc1|].
  destruct (fs_write_all dst bytes w2) as [[[]|e] w3]; cbn [fst snd] in *; [|done].
  apply (IH (pos + List.length bytes)%nat); try done.
  - by rewrite W2.
  - rewrite W2, R2, Hv1 by congruence. done.
  - by rewrite W1, R1, Hc1.
  - by rewrite W3.
  - assert (Hb : (0 < List.length bytes <= List.length (drop pos c))%nat).
    { split; [cbn; lia|]. rewrite R3 at 1. rewrite length_take. lia. }
    rewrite length_drop in *. lia.
Qed.

Lemma copy_archive_spec fuel p q cancelled w r w' :
  quiet cancelled -> copy_archive fuel p q cancelled w = (r, w') ->
  (forall k, k <> file_of q -> content w' k = content w k)
  /\ (content w (file_of q) <> None -> r <> Ok tt /\ content w' (file_of q) = content w (file_of q))
  /\ (content w (file_of p) = None -> content w' (file_of q) = content w (file_of q))
  /\ (r = Ok tt -> content w (file_of p) <> None /\ content w' (file_of q) = content w (file_of p)).
Proof.
  intros Hq. unfold copy_archive, mbind.
  set (rd := Build_OpenOptions true false false false false false None None).
  set (wr := Build_OpenOptions false true false false true false None None).
  destruct (open_law rd p w) as [O1 O2]. destruct (fs_open rd p w) as [[src|e] w1]; cbn [fst snd] in *.
  2: { intros [= <- <-]. destruct O2 as [O2 _].
       assert (H : forall k, content w1 k = content w k)
         by (intros k; destruct (decide (k = file_of p)) as [->|]; auto).
       split; [done|]. split; [by split|]. by split. }
  destruct O2 as (_ & _ & V1 & C1 & _ & Ex1). specialize (Ex1 eq_refl).
  assert (H1 : forall k, content w1 k = content w k).
  { intros k. destruct (decide (k = file_of p)) as [->|]; [|by apply O1]. rewrite C1. cbn [oo_truncate rd].
    by destruct (content w (file_of p)). }
  destruct (open_law wr q w1) as [O3 O4]. destruct (fs_open wr q w1) as [[dst|e] w2]; cbn [fst snd] in *.
  2: { intros [= <- <-]. destruct (close_law src w2) as [K _]. destruct O4 as [O4 _].
       assert (H : forall k, content (fs_close src w2) k = content w k).
       { intros k. rewrite K. destruct (decide (k = file_of q)) as [->|]; [by rewrite O4, H1|by rewrite O3, H1]. }
       split; [done|]. split; [by split|]. by split. }
  destruct O4 as (Hfresh & Hother & V2 & C2 & Hnew & _). specialize (Hnew eq_refl).
  assert (Hne : src <> dst) by (intros ->; congruence).
  assert (Hk : file_of p <> file_of q) by (intros E; rewrite <- E, H1 in Hnew; contradiction).
  destruct (content w (file_of p)) as [c|] eqn:Ec; [|contradiction].
  rewrite H1 in Hnew. rewrite H1, Hnew in C2. cbn [oo_truncate wr default] in C2.
  destruct (copy_loop fuel src dst cancelled w2) as [[[[]|e] w3]|] eqn:El.
  - eapply (copy_loop_spec _ _ _ _ (file_of p) (file_of q) 0 c) in El as [L1 L2]; try done.
    + intros [= <- <-]. destruct (close_law dst w3) as [K1 _].
      destruct (close_law src (fs_close dst w3)) as [K2 _].
      split; [intros k Hkq; by rewrite K2, K1, L1, O3, H1|]. split; [by rewrite Hnew|]. split; [done|].
      intros _. split; [done|]. by rewrite K2, K1, L2.
    + by rewrite Hother.
    + by rewrite O3, H1.
  - eapply (copy_loop_spec _ _ _ _ (file_of p) (file_of q) 0 c) in El as [L1 _]; try done.
    + destruct (fs_remove_file q (fs_close dst w3)) as [r4 w4] eqn:Er. intros [= <- <-].
      destruct (close_law dst w3) as [K1 _]. destruct (close_law src w4) as [K2 _].
      split; [|split; [by rewrite Hnew|done]].
      intros k Hkq. rewrite K2. pose proof (remove_law q (fs_close dst w3) k Hkq) as Hrm.
      rewrite Er in Hrm. cbn [snd] in Hrm. by rewrite Hrm, K1, L1, O3, H1.
    + by rewrite Hother.
    + by rewrite O3, H1.
  - intros [= <- <-]. split; [intros k Hkq; by rewrite O3, H1|]. split; [by rewrite Hnew|done].
Qed.

Lemma open_output_spec s w r w' :
  creation_disposition s = Some 4 -> open_output s w = (r, w') ->
  match r with
  | Ok h => (forall k, k <> file_of (Model.path s) -> content w' k = content w k)
            /\ view w' h = Some (file_of (Model.path s), AtEnd)
            /\ content w' (file_of (Model.path s)) = Some (default [] (content w (file_of (Model.path s))))
  | Err _ => forall k, content w' k = content w k
  end.
Proof.
  intros Hd. unfold open_output, mbind at 1, mlift. rewrite Hd.
  destruct (validate_open_options s); [|by intros [= <- <-]]. cbn [unwrap_or].
  change ((4 =? 1) || (4 =? 2) || (4 =? 4)) with true. cbv beta iota.
  unfold mbind. pose proof (parent_law (Model.path s) w) as [P1 P2].
  destruct (fs_create_parent (Model.path s) w) as [[u|e] w1]; cbn [snd] in *; [|by intros [= <- <-]].
  change (output_options 4) with (Some (Build_OpenOptions false false true true false false None None)).
  cbv beta iota. set (o := apply_open_options _ s). destruct (open_law o (Model.path s) w1) as [O1 O2].
  intros E. rewrite E in *. cbn [fst snd] in *. destruct r as [h|e].
  - destruct O2 as (_ & _ & V & C & _). split; [intros k Hk; by rewrite O1, P1|]. split; [done|].
    rewrite C. cbn [o apply_open_options oo_truncate]. by rewrite P1.
  - intros k. destruct (decide (k = file_of (Model.path s))) as [->|]; [|by rewrite O1, P1].
    destruct O2 as [O2 _]. by rewrite O2, P1.
Qed.

(** [FileIo] keeps the promises, with its real copy loop. *)
Lemma file_io_laws fuel : IoLaws (FileIo fuel).
Proof.
  split.
  - intros p s w. cbn [io_reopen FileIo].
    destruct (open_output _ w) as [r w'] eqn:E. by apply open_output_spec in E.
  - intros p q w. cbn [io_rename FileIo]. pose proof (move_law p q w) as H.
    by destruct (fs_move p q w) as [[[]|e] w'].
  - intros h bytes w k c Hv Hc. cbn [io_write FileIo]. destruct (write_law h bytes w k c Hv Hc) as (H1 & H2 & H3).
    destruct (fs_write h bytes w) as [r w']; cbn [fst snd] in *. auto.
  - intros p q cancelled w Hq. cbn [io_copy_archive FileIo].
    destruct (copy_archive fuel p q cancelled w) as [r w'] eqn:E. by eapply copy_archive_spec.
Qed.
End IoLaws.

(** ** No byte is lost *)

Section Conservation.
Context {W : Type} `{L : FileLaws W}.
Context (io : RotationIo) (Hio : IoLaws io).
Implicit Types (w : W) (st : RotationState) (archives : list (list Z * data)) (log : data).

Definition bytes_of w (k : list Z) : data := default [] (content w k).
(** The archives, with their bytes, in the order they were made, then the
    active file. *)
Definition logged w (active : list Z) archives : data := concat (map snd archives) ++ bytes_of w active.

Definition active st : list Z := file_of (rs_path st).

(** The state of a sink whose log, over all files, is [log]. *)
Record log_ok (s : RotationState * W) archives log : Prop := {
  lo_nodup : NoDup (active s.1 :: map fst archives);
  lo_exist : Forall (fun e => content s.2 e.1 = Some e.2) archives;
  lo_log : log = logged s.2 (active s.1) archives;
  lo_file : forall h, rs_file s.1 = Some h ->
    view s.2 h = Some (active s.1, AtEnd) /\ content s.2 (active s.1) <> None }.

(** What never changes in a sink's state. *)
Definition same_sink st st' : Prop := rs_path st' = rs_path st /\ rs_stream st' = rs_stream st.

(** No file of the archives is touched. *)
Definition keeps archives w w' : Prop := forall a, In a (map fst archives) -> content w' a = content w a.

Lemma not_active a st w archives log :
  log_ok (st, w) archives log -> In a (map fst archives) -> a <> active st.
Proof.
  intros Hl Hi ->. pose proof (lo_nodup _ _ _ Hl) as H. cbn [fst] in H. inversion H as [|? ? Hnot]; subst.
  apply Hnot. by apply list_elem_of_In.
Qed.

Lemma archived_exists a st w archives log :
  log_ok (st, w) archives log -> In a (map fst archives) -> content w a <> None.
Proof.
  intros Hl Hi. pose proof (lo_exist _ _ _ Hl) as He. rewrite List.Forall_forall in He.
  apply in_map_iff in Hi as (e & <- & Hi). specialize (He e Hi). cbn [snd] in He. by rewrite He.
Qed.

Lemma log_ok_transfer st st' w w' archives log :
  log_ok (st, w) archives log -> rs_path st' = rs_path st ->
  bytes_of w' (active st) = bytes_of w (active st) ->
  keeps archives w w' ->
  (forall h, rs_file st' = Some h -> view w' h = Some (active st, AtEnd) /\ content w' (active st) <> None) ->
  log_ok (st', w') archives log.
Proof.
  intros [H1 H2 H3 H4] Hp Hk Ha Hf. unfold active in *. cbn [fst snd] in *.
  split; unfold active; cbn [fst snd]; rewrite ?Hp; auto.
  - rewrite List.Forall_forall in *. intros e Hi. rewrite Ha by by apply in_map. by apply H2.
  - rewrite H3. unfold logged. by rewrite Hk.
Qed.

(** Nothing happened to any file, and the handle is the same or was dropped. *)
Lemma log_ok_same st st' w w' archives log :
  log_ok (st, w) archives log -> rs_path st' = rs_path st ->
  (forall k, content w' k = content w k) ->
  rs_file st' = None \/ rs_file st' = rs_file st /\ (forall h, view w' h = view w h) ->
  log_ok (st', w') archives log.
Proof.
  intros H Hp Hc Hf. eapply log_ok_transfer; [exact H|done| |by intros a _|].
  - unfold bytes_of. by rewrite Hc.
  - intros h Hh. destruct Hf as [Hf|[Hf Hv]]; [congruence|]. rewrite Hv, Hc.
    apply (lo_file _ _ _ H). cbn [fst]. congruence.
Qed.

(** Reopening finds the file as it was left, or starts it empty. *)
Lemma reopen_ok st w r st' w' archives log :
  reopen_file io (st, w) = (r, (st', w')) -> rs_file st = None -> log_ok (st, w) archives log ->
  log_ok (st', w') archives log /\ same_sink st st' /\ (r = Ok tt -> rs_file st' <> None).
Proof.
  intros H Hn Hl. unfold reopen_file, get_state, on_fs, mbind in H. cbn [fst] in H.
  pose proof (reopen_io io Hio (rs_path st) (rs_stream st) w) as Hr.
  destruct (io_reopen io (rs_path st) (rs_stream st) w) as [[h|e] w1].
  2: { injection H as <- <- <-. split; [|split; [by split|done]].
       eapply log_ok_same; eauto. }
  destruct Hr as (R1 & R2 & R3). destruct (len_law h w1) as [L1 L2].
  assert (Ha : keeps archives w w1) by (intros a Hi; apply R1; by eapply not_active).
  assert (Hb : bytes_of w1 (active st) = bytes_of w (active st)) by (unfold bytes_of, active; by rewrite R3).
  destruct (fs_len h w1) as [[n|e] w2]; cbn [snd] in *; injection H as <- <- <-.
  - split; [|split; [by split|done]]. eapply log_ok_transfer; [exact Hl|done| | |].
    + unfold bytes_of in *. by rewrite L1.
    + intros a Hi. by rewrite L1, Ha.
    + cbn [rs_file with_file]. intros h' [= <-]. rewrite L2, L1. unfold active. by rewrite R2, R3.
  - split; [|split; [by split|done]]. destruct (close_law h w2) as [C1 _].
    eapply log_ok_transfer; [exact Hl|done| | |].
    + unfold bytes_of in *. by rewrite C1, L1.
    + intros a Hi. by rewrite C1, L1, Ha.
    + congruence.
Qed.


Lemma state_write_some_ok bytes st w r st' w' archives log :
  state_write_some io bytes (st, w) = (r, (st', w')) -> log_ok (st, w) archives log ->
  same_sink st st'
  /\ log_ok (st', w') archives (log ++ match r with Ok n => take n bytes | Err _ => [] end)
  /\ match r with Ok n => (n <= List.length bytes)%nat | Err _ => True end.
Proof.
  intros H Hl.
  assert (Hopen : exists r1 st1 w1,
    (match rs_file st with
     | Some _ => mret tt
     | None => reopen_file io ;! let! t := ask instant_now in modify (with_opened t)
     end) (st, w) = (r1, (st1, w1))
    /\ log_ok (st1, w1) archives log /\ same_sink st st1 /\ (r1 = Ok tt -> rs_file st1 <> None)).
  { destruct (rs_file st) as [h|] eqn:Ef.
    - exists (Ok tt), st, w. split; [done|]. split; [done|]. split; [by split|]. congruence.
    - unfold mbind at 1. destruct (reopen_file io (st, w)) as [[[]|e] [st1 w1]] eqn:E;
        eapply reopen_ok in E as (E1 & E2 & E3); try done.
      + eexists _, _, _. split; [reflexivity|]. split; [|split; [done|]; intros _; by apply E3].
        eapply log_ok_same; [exact E1|done|done|right; done].
      + eexists _, _, _. split; [reflexivity|]. split; [done|]. split; [done|]. done. }
  unfold state_write_some in H. unfold mbind at 1, get_state at 1 in H. cbn [fst] in H.
  destruct Hopen as (r1 & st1 & w1 & E & Hl1 & Hs1 & Hf1). unfold mbind at 1 in H. rewrite E in H.
  destruct r1 as [[]|e]; [|injection H as <- <- <-; rewrite app_nil_r; done].
  specialize (Hf1 eq_refl). unfold mbind at 1, get_state in H. cbn [fst] in H.
  destruct (rs_file st1) as [h|] eqn:Ef; [|done].
  destruct (lo_file _ _ _ Hl1 h Ef) as [Hv Hc]. cbn [fst snd] in Hv, Hc.
  destruct (content w1 (active st1)) as [c|] eqn:Ec; [|done].
  pose proof (write_io io Hio h bytes w1 _ c Hv Ec) as Hw.
  unfold mbind at 1, on_fs in H. destruct (io_write io h bytes w1) as [rw w2]. destruct Hw as (W1 & W2 & W3).
  assert (Hsame : keeps archives w1 w2)
    by (intros a Hi; apply W1; by eapply not_active).
  destruct rw as [n|e].
  - destruct W3 as [Hn W3]. injection H as <- <- <-. split; [by split; apply Hs1|]. split; [|done].
    destruct Hl1 as [H1 H2 H3 H4]. split; cbn [fst snd] in *.
    + exact H1.
    + rewrite List.Forall_forall in *. intros e Hi. rewrite Hsame by by apply in_map. by apply H2.
    + rewrite H3. unfold logged. rewrite <- app_assoc. f_equal. unfold bytes_of. cbn. change (active (with_bytes _ st1)) with (active st1). by rewrite Ec, W3.
    + cbn [rs_file with_bytes]. intros h' Eh. assert (h' = h) as -> by congruence.
      change (active (with_bytes _ st1)) with (active st1). by rewrite W2, W3.
  - injection H as <- <- <-. rewrite app_nil_r. split; [done|]. split; [|done].
    eapply log_ok_transfer; [exact Hl1|done| |done|].
    + unfold bytes_of. by rewrite Ec, W3.
    + intros h' Eh. assert (h' = h) as -> by congruence. by rewrite W2, W3.
Qed.

(** The old file becomes the next archive, in full. *)
Lemma log_ok_archived st w st' w' archives log a c :
  log_ok (st, w) archives log -> rs_path st' = rs_path st -> rs_file st' = None ->
  content w (active st) = Some c -> a <> active st -> ~ In a (map fst archives) ->
  content w' a = Some c -> bytes_of w' (active st) = [] -> keeps archives w w' ->
  log_ok (st', w') (archives ++ [(a, c)]) log.
Proof.
  intros [H1 H2 H3 H4] Hp Hf Hc Ha Hn Hca Hb Hk. unfold active in *. cbn [fst snd] in *.
  split; unfold active; cbn [fst snd]; rewrite ?Hp.
  - rewrite map_app. inversion H1 as [|? ? Hx Hy]; subst. constructor.
    + intros Hi. apply elem_of_app in Hi as [Hi|Hi]; [contradiction|]. apply list_elem_of_singleton in Hi. by cbn in Hi.
    + apply NoDup_app. split; [done|]. split; [|apply NoDup_singleton].
      intros x Hi Hx2. apply list_elem_of_singleton in Hx2 as ->. apply Hn. by apply list_elem_of_In.
  - rewrite List.Forall_forall in *. intros x Hi. apply in_app_iff in Hi as [Hi|[<-|[]]]; [|done].
    rewrite Hk by by apply in_map. by apply H2.
  - rewrite H3. unfold logged. rewrite map_app, concat_app, <- app_assoc. f_equal.
    rewrite Hb, app_nil_r. cbn. rewrite app_nil_r. unfold bytes_of. by rewrite Hc.
  - congruence.
Qed.

(** Steps that leave every file alone. *)
Lemma on_fs_check cancelled st w r s' :
  quiet cancelled -> on_fs (check_cancelled cancelled) (st, w) = (r, s') ->
  exists w', s' = (st, w') /\ same_files w w'.
Proof.
  intros Hq. unfold on_fs. destruct (check_cancelled cancelled w) as [r1 w1] eqn:E.
  intros [= <- <-]. apply quiet_check in E; eauto.
Qed.

(** The attempt to move the contents of the active file away, which is closed. *)
Definition attempt (rotated : path) (cancelled : W -> bool * W) (st : RotationState) :
    M (RotationState * W) io_error unit :=
  if bool_decide (copy_and_truncate (rs_stream st) = Some true)
  then state_copy_and_truncate io rotated cancelled
  else on_fs (check_cancelled cancelled) ;! on_fs (io_rename io (rs_path st) rotated).

Lemma copy_and_truncate_ok rotated cancelled st w r st' w' archives log :
  quiet cancelled -> state_copy_and_truncate io rotated cancelled (st, w) = (r, (st', w')) ->
  rs_file st = None -> log_ok (st, w) archives log ->
  st' = st /\ exists new, log_ok (st', w') (archives ++ new) log
                        /\ map fst new = match r with Ok _ => [file_of rotated] | Err _ => [] end.
Proof.
  intros Hq H Hf Hl. unfold state_copy_and_truncate in H. unfold mbind at 1, get_state in H. cbn [fst] in H.
  unfold mbind at 1, on_fs at 1 in H.
  pose proof (copy_io io Hio (rs_path st) rotated cancelled w Hq) as Hcp. fold (active st) in Hcp.
  destruct (io_copy_archive io (rs_path st) rotated cancelled w) as [rc w1].
  destruct Hcp as (K1 & K2 & K3 & K4).
  assert (Hall : content w (file_of rotated) <> None -> forall k, content w1 k = content w k).
  { intros Hne k. destruct (decide (k = file_of rotated)) as [->|]; [by apply K2|by apply K1]. }
  assert (Hact : content w1 (active st) = content w (active st)).
  { destruct (decide (active st = file_of rotated)) as [E|]; [|by apply K1].
    destruct (content w (file_of rotated)) as [x|] eqn:Ex; [by rewrite Hall|].
    rewrite E in *. by rewrite K3. }
  assert (Harch : keeps archives w w1).
  { intros a Hi. destruct (decide (a = file_of rotated)) as [->|]; [|by apply K1].
    apply K2. by eapply archived_exists. }
  assert (Hl1 : log_ok (st, w1) archives log).
  { eapply log_ok_transfer; [exact Hl|done|unfold bytes_of; by rewrite Hact|done|congruence]. }
  destruct rc as [[]|e]; [|injection H as <- <- <-; split; [done|exists []; by rewrite app_nil_r]].
  destruct (K4 eq_refl) as [Hex Hcq]. unfold mbind at 1 in H.
  destruct (on_fs (check_cancelled cancelled) (st, w1)) as [[[]|e] s2] eqn:E2;
    apply on_fs_check in E2 as (w2 & -> & S1 & S2); try done.
  2: { injection H as <- <- <-. split; [done|]. exists []. rewrite app_nil_r.
       split; [eapply log_ok_same; eauto|done]. }
  unfold mbind at 1, on_fs at 1 in H.
  set (o := apply_open_options _ _) in H. destruct (open_law o (rs_path st) w2) as [O1 O2].
  fold (active st) in O1, O2.
  destruct (fs_open o (rs_path st) w2) as [[h|e] w3]; cbn [fst snd] in *.
  2: { injection H as <- <- <-. split; [done|]. exists []. rewrite app_nil_r. split; [|done].
       eapply log_ok_same; [exact Hl1|done| |by left]. intros k. rewrite <- S1.
       destruct (decide (k = active st)) as [->|]; [apply O2|by apply O1]. }
  destruct O2 as (_ & _ & V & C & _). cbn [o apply_open_options oo_truncate] in C.
  assert (H3 : forall k, content w3 k = content w1 k).
  { intros k. destruct (decide (k = active st)) as [->|]; [|by rewrite O1, S1].
    rewrite C, S1, Hact. by destruct (content w (active st)). }
  destruct (content w (active st)) as [c|] eqn:Ec; [|done].
  destruct (set_len_law h w3 _ _ c V) as [T1 T2]; [by rewrite H3, Hact|].
  unfold on_fs in H. destruct (fs_set_len h 0 w3) as [rt w4]; cbn [fst snd] in *.
  destruct (close_law h w4) as [D1 _]. injection H as <- <- <-. split; [done|].
  destruct rt as [[]|e].
  - exists [(file_of rotated, c)]. split; [|done].
    assert (Hrot : content w (file_of rotated) = None).
    { destruct (content w (file_of rotated)) as [x|] eqn:Ex; [|done].
      destruct (K2 ltac:(congruence)) as [? _]. done. }
    assert (Hne : file_of rotated <> active st) by congruence.
    eapply log_ok_archived; [exact Hl1|done|done| | | | | |].
    + by rewrite Hact.
    + done.
    + intros Hi. by apply (archived_exists _ _ _ _ _ Hl Hi).
    + by rewrite D1, T1, H3, Hcq.
    + unfold bytes_of. by rewrite D1, T2.
    + intros k Hi. rewrite D1, T1, H3; [done|]. by eapply not_active.
  - exists []. rewrite app_nil_r. split; [|done].
    eapply log_ok_same; [exact Hl1|done| |by left].
    intros k. rewrite D1. destruct (decide (k = active st)) as [->|]; [by rewrite T2, Hact|by rewrite T1, H3].
Qed.

Lemma attempt_ok rotated cancelled st w r st' w' archives log :
  quiet cancelled -> attempt rotated cancelled st (st, w) = (r, (st', w')) ->
  rs_file st = None -> log_ok (st, w) archives log ->
  st' = st /\ exists new, log_ok (st', w') (archives ++ new) log
                        /\ map fst new = match r with Ok _ => [file_of rotated] | Err _ => [] end.
Proof.
  intros Hq H Hf Hl. unfold attempt in H. case_bool_decide; [by eapply copy_and_truncate_ok|].
  unfold mbind in H.
  destruct (on_fs (check_cancelled cancelled) (st, w)) as [[[]|e] s1] eqn:E1;
    apply on_fs_check in E1 as (w1 & -> & S1 & S2); try done.
  2: { injection H as <- <- <-. split; [done|]. exists []. rewrite app_nil_r.
       split; [eapply log_ok_same; eauto|done]. }
  assert (Hl1 : log_ok (st, w1) archives log) by (eapply log_ok_same; eauto).
  unfold on_fs in H. pose proof (rename_io io Hio (rs_path st) rotated w1) as Hr.
  destruct (io_rename io (rs_path st) rotated w1) as [[[]|e] w2]; injection H as <- <- <-; (split; [done|]).
  - destruct Hr as (R1 & R2 & R3 & R4 & R5). fold (active st) in *.
    destruct (content w1 (active st)) as [c|] eqn:Ec; [|done].
    exists [(file_of rotated, c)]. split; [|done].
    assert (Hne : file_of rotated <> active st) by congruence.
    assert (Hnot : ~ In (file_of rotated) (map fst archives)) by (intros Hi; by apply (archived_exists _ _ _ _ _ Hl1 Hi)).
    eapply log_ok_archived; [exact Hl1|done|done|done|done|done|done| |].
    + unfold bytes_of. by rewrite R4.
    + intros k Hi. apply R5; [by eapply not_active|congruence].
  - exists []. rewrite app_nil_r. split; [|done]. eapply log_ok_same; [exact Hl1|done|exact Hr|by left].
Qed.

Lemma state_rotate_ok cancelled st w r st' w' archives log :
  quiet cancelled -> state_rotate io cancelled (st, w) = (r, (st', w')) -> log_ok (st, w) archives log ->
  same_sink st st'
  /\ exists new, log_ok (st', w') (archives ++ new) log
     /\ match r with Ok (Some a) => map fst new = [file_of a] /\ rs_file st' <> None | Ok None => False | Err _ => True end.
Proof.
  intros Hq H Hl. unfold state_rotate in H. unfold mbind at 1, get_state, mbind at 1, ask at 1 in H.
  cbn [fst snd] in H. set (rotated := build_rotated_name (rs_path st) w) in *.
  assert (Hstop : forall st1 w1 new e, log_ok (st1, w1) (archives ++ new) log -> same_sink st st1 ->
    (Err e, (st1, w1)) = (r, (st', w')) ->
    same_sink st st' /\ exists new, log_ok (st', w') (archives ++ new) log
     /\ match r with Ok (Some a) => map fst new = [file_of a] /\ rs_file st' <> None | Ok None => False | Err _ => True end).
  { intros st1 w1 new e H1 H2 [= <- <- <-]. eauto. }
  unfold mbind at 1 in H.
  destruct (on_fs (check_cancelled cancelled) (st, w)) as [[[]|e] s1] eqn:E1;
    apply on_fs_check in E1 as (w1 & -> & S1 & S2); try done.
  2: { eapply (Hstop st w1 []); [|by split|exact H]. rewrite app_nil_r. eapply log_ok_same; eauto. }
  assert (Hl1 : log_ok (st, w1) archives log) by (eapply log_ok_same; eauto).
  unfold mbind at 1 in H.
  assert (Hsync : exists rs w2, (match rs_file st with Some h => on_fs (fs_sync_all h) | None => mret tt end) (st, w1)
      = (rs, (st, w2)) /\ same_files w1 w2).
  { destruct (rs_file st) as [h|]; [|by exists (Ok tt), w1]. unfold on_fs. pose proof (sync_law h w1) as Hs.
    destruct (fs_sync_all h w1) as [rs w2]. by exists rs, w2. }
  destruct Hsync as (rs & w2 & E2 & S3 & S4). rewrite E2 in H.
  assert (Hl2 : log_ok (st, w2) archives log) by (eapply log_ok_same; eauto).
  destruct rs as [u|e]; [|eapply (Hstop st w2 []); [by rewrite app_nil_r|by split|exact H]].
  unfold mbind at 1, take_file in H. set (st3 := with_file None st) in H.
  set (w3 := match rs_file st with Some h => fs_close h w2 | None => w2 end) in H.
  assert (Hl3 : log_ok (st3, w3) archives log).
  { eapply log_ok_same; [exact Hl2|done| |by left]. intros k. unfold w3.
    destruct (rs_file st) as [h|]; [apply close_law|done]. }
  unfold mbind at 1, mtry in H.
  destruct (attempt rotated cancelled st (st3, w3)) as [rr [st4 w4]] eqn:E4.
  unfold attempt in E4. rewrite E4 in H.
  destruct (attempt_ok rotated cancelled st3 w3 rr st4 w4 archives log Hq) as (-> & new & Hl4 & Hnew);
    [exact E4|done|done|].
  unfold mbind at 1 in H.
  destruct (on_fs (check_cancelled cancelled) (st3, w4)) as [[[]|e] s5] eqn:E5;
    apply on_fs_check in E5 as (w5 & -> & S5 & S6); try done.
  2: { eapply (Hstop st3 w5 new); [|by split|exact H]. eapply log_ok_same; [exact Hl4|done|exact S5|by left]. }
  assert (Hl5 : log_ok (st3, w5) (archives ++ new) log)
    by (eapply log_ok_same; [exact Hl4|done|exact S5|by left]).
  unfold mbind at 1 in H. destruct (reopen_file io (st3, w5)) as [ro [st6 w6]] eqn:E6.
  eapply reopen_ok in E6 as (Hl6 & Hs6 & Hf6); [|done|exact Hl5].
  assert (Hs : same_sink st st6) by exact Hs6.
  destruct ro as [[]|e]; [|by eapply (Hstop st6 w6 new)].
  unfold mbind in H. destruct rr as [[]|e]; cbn [is_ok] in H.
  - injection H as <- <- <-. split; [done|]. exists new. split; [|split; [done|by apply Hf6]].
    eapply log_ok_same; [exact Hl6|done|done|by right].
  - eapply (Hstop st6 w6 new e); [exact Hl6|exact Hs|exact H].
Qed.

(** ** The whole sink *)

Variable try_lock : W -> lock_status * W.
Hypothesis try_lock_files : forall w, same_files w (try_lock w).2.

Lemma lock_loop_files fuel cancelled deadline w :
  quiet cancelled -> same_files w (lock_loop try_lock fuel cancelled deadline w).2.
Proof.
  intros Hq. revert w. induction fuel as [|fuel IH]; intros w; cbn [lock_loop]; [by split|].
  destruct (check_cancelled cancelled w) as [[[]|e] w1] eqn:E; apply quiet_check in E as [S1 S2]; try done.
  pose proof (try_lock_files w1) as [T1 T2].
  assert (Hs : same_files w (try_lock w1).2) by (split; [intros k; by rewrite T1|intros h; by rewrite T2]).
  destruct (try_lock w1) as [[] w2]; cbn [snd] in *; [done|done|].
  destruct (_ <=? _); [done|]. destruct (IH (thread_sleep 5000000 w2)) as [I1 I2].
  destruct (sleep_files 5000000 w2) as [F1 F2], Hs as [H1 H2].
  split; [intros k; by rewrite I1, F1|intros h; by rewrite I2, F2].
Qed.

(** What the supervisor does with a sink. *)
Inductive SinkCall := CallWrite (bytes : data) | CallRotate | CallDue | CallQueue | CallHandled.

(** The bytes a call reports as written. *)
Definition run_call (c : SinkCall) (cancelled : W -> bool * W) : M (RotationSink * W) io_error data :=
  match c with
  | CallWrite bytes =>
      let! r := mtry (write_some io try_lock bytes cancelled) in
      mret (match r with Ok n => take n bytes | Err _ => [] end)
  | CallRotate => let! _ := mtry (rotate io try_lock cancelled) in mret []
  | CallDue => let! _ := mtry (due try_lock false) in mret []
  | CallQueue => let! _ := queue_rotation in mret []
  | CallHandled => rotation_handled ;! mret []
  end.

Fixpoint run_calls (cs : list (SinkCall * (W -> bool * W))) : M (RotationSink * W) io_error data :=
  match cs with
  | [] => mret []
  | (c, cancelled) :: rest =>
      let! written := run_call c cancelled in
      let! more := run_calls rest in
      mret (written ++ more)
  end.

Definition sink_ok (s : RotationSink * W) archives log : Prop := log_ok (sk_state s.1, s.2) archives log.

Lemma sink_ok_lock k w cancelled r s archives log :
  quiet cancelled -> lock try_lock cancelled (k, w) = (r, s) -> sink_ok (k, w) archives log ->
  s.1 = k /\ sink_ok s archives log.
Proof.
  intros Hq. unfold lock. pose proof (lock_loop_files lock_fuel cancelled (instant_now w + 2000000000) w Hq) as [F1 F2].
  destruct (lock_loop _ _ _ _ _) as [r1 w1]. intros [= <- <-] Hl. split; [done|].
  eapply log_ok_same; [exact Hl|done|exact F1|by right].
Qed.

Lemma run_call_ok c cancelled k w r s archives log :
  quiet cancelled -> run_call c cancelled (k, w) = (r, s) -> sink_ok (k, w) archives log ->
  exists written new, r = Ok written /\ sink_ok s (archives ++ new) (log ++ written).
Proof.
  intros Hq H Hl.
  assert (Hsame : forall s1, sink_ok s1 archives log -> sink_ok s1 (archives ++ []) (log ++ []))
    by (intros s1; by rewrite !app_nil_r).
  destruct c; cbn [run_call] in H.
  - unfold mbind at 1, mtry, write_some in H. unfold mbind at 1 in H.
    destruct (lock try_lock cancelled (k, w)) as [[[]|e] [k1 w1]] eqn:El;
      (eapply sink_ok_lock in El as [Hk Hl1]; [|exact Hq|exact Hl]); cbn [fst] in Hk; subst k1.
    2: { injection H as <- <-. exists [], []. split; [done|]. by apply Hsame. }
    unfold with_state in H. destruct (state_write_some io bytes (sk_state k, w1)) as [r2 [st2 w2]] eqn:Ew.
    eapply state_write_some_ok in Ew as (_ & Hw & _); [|exact Hl1]. injection H as <- <-.
    eexists _, []. split; [reflexivity|]. by rewrite app_nil_r.
  - unfold mbind at 1, mtry at 1, rotate in H. unfold mbind at 1 in H.
    destruct (lock try_lock cancelled (k, w)) as [[[]|e] [k1 w1]] eqn:El;
      (eapply sink_ok_lock in El as [Hk Hl1]; [|exact Hq|exact Hl]); cbn [fst] in Hk; subst k1.
    2: { injection H as <- <-. exists [], []. split; [done|]. by apply Hsame. }
    unfold mbind at 1, with_state at 1, mbind at 1, get_state in H. cbn [fst mret] in H.
    assert (Hk : with_sink_state (sk_state k) k = k) by by destruct k. rewrite Hk in H.
    destruct (bytes_in_current (sk_state k) =? 0).
    { injection H as <- <-. exists [], []. split; [done|]. by apply Hsame. }
    unfold mbind at 1, mtry, with_state in H.
    destruct (state_rotate io cancelled (sk_state k, w1)) as [r2 [st2 w2]] eqn:Er.
    eapply state_rotate_ok in Er as (_ & new & Hr & _); [|done|exact Hl1].
    unfold mbind, rotation_handled, mlift in H. injection H as <- <-.
    exists [], new. split; [done|]. by rewrite app_nil_r.
  - unfold mbind at 1, mtry, due in H. unfold mbind at 1 in H.
    destruct (lock try_lock never (k, w)) as [[[]|e] [k1 w1]] eqn:El;
      (eapply sink_ok_lock in El as [Hk Hl1]; [|by intros w2; split|exact Hl]); cbn [fst] in Hk; subst k1;
      unfold with_state, mbind, get_state, ask in H; cbn in H; injection H as <- <-;
      exists [], []; (split; [done|]); apply Hsame; done.
  - unfold mbind, queue_rotation in H. injection H as <- <-. exists [], []. split; [done|]. by apply Hsame.
  - unfold mbind, rotation_handled in H. injection H as <- <-. exists [], []. split; [done|]. by apply Hsame.
Qed.

Lemma run_calls_ok cs k w r s archives log :
  Forall (fun c => quiet c.2) cs -> run_calls cs (k, w) = (r, s) -> sink_ok (k, w) archives log ->
  exists written new, r = Ok written /\ sink_ok s (archives ++ new) (log ++ written).
Proof.
  intros Hq. revert k w r s archives log. induction Hq as [|[c cancelled] cs Hc _ IH]; intros k w r s archives log H Hl.
  { injection H as <- <-. exists [], []. by rewrite !app_nil_r. }
  cbn [run_calls] in H. unfold mbind at 1 in H.
  destruct (run_call c cancelled (k, w)) as [r1 [k1 w1]] eqn:E1.
  eapply run_call_ok in E1 as (wr1 & new1 & -> & H1); [|done|exact Hl].
  unfold mbind at 1 in H. destruct (run_calls cs (k1, w1)) as [r2 s2] eqn:E2.
  eapply IH in E2 as (wr2 & new2 & -> & H2); [|exact H1]. injection H as <- <-.
  exists (wr1 ++ wr2), (new1 ++ new2). split; [done|]. by rewrite !app_assoc in *.
Qed.

End Conservation.

(** ** When to rotate, and under which name *)

(** A sink is due exactly when rotation is enabled, there is something to
    rotate, and a positive size or age threshold is reached. *)
Lemma should_rotate_for_spec st len age :
  should_rotate_for st len age = true <->
  enabled (rs_config st) = Some true /\ len <> 0
  /\ ((exists t, Model.bytes (rs_config st) = Some t /\ 0 < t <= len)
      \/ exists s, seconds (rs_config st) = Some s /\ 0 < s <= as_secs age).
Proof.
  unfold should_rotate_for. rewrite orb_comm.
  destruct (Z.eqb_spec len 0); cbn [orb]; [naive_solver|].
  case_bool_decide; cbn [negb]; [|naive_solver].
  destruct (Model.bytes (rs_config st)) as [t|], (seconds (rs_config st)) as [s|]; cbn [is_some_and];
    repeat match goal with |- context [(?a <? ?b) && (?c <=? ?d)] =>
      destruct (Z.ltb_spec a b), (Z.leb_spec c d); cbn [andb] end; naive_solver lia.
Qed.

Lemma first_free_spec {W} `{FileSys W} candidate n count default w :
  fs_exists (first_free candidate n count default w) w = false
  \/ first_free candidate n count default w = default
     /\ forall i, n <= i < n + Z.of_nat count -> fs_exists (candidate i) w = true.
Proof.
  revert n. induction count as [|count IH]; intros n; cbn [first_free]; [right; split; [done|]; lia|].
  destruct (fs_exists (candidate n) w) eqn:E; cbn [negb]; [|by left].
  destruct (IH (n + 1)) as [?|[H1 H2]]; [by left|]. right. split; [done|]. intros i Hi.
  destruct (decide (i = n)) as [->|]; [done|]. apply H2. lia.
Qed.

(** The name chosen for an archive is free unless all ten thousand are taken. *)
Lemma rotated_name_free {W} `{FileSys W} p w :
  fs_exists (build_rotated_name p w) w = false
  \/ forall i, 1 <= i <= 9999 ->
       fs_exists (rotated_candidate p (unwrap_or &"19700101-000000" (utc_stamp w)) (&"-" ++ to_dec i)) w = true.
Proof.
  unfold build_rotated_name. destruct (fs_exists (rotated_candidate p _ []) w) eqn:E; cbn [negb]; [|by left].
  destruct (first_free_spec (fun n => rotated_candidate p (unwrap_or &"19700101-000000" (utc_stamp w)) (&"-" ++ to_dec n))
    1 9999 (rotated_candidate p (unwrap_or &"19700101-000000" (utc_stamp w)) []) w) as [?|[_ H2]]; [by left|].
  right. intros i Hi. apply H2. change (Z.of_nat 9999) with 9999. lia.
Qed.

Example rotated_names :
  map (fun p => rotated_candidate p &"20250102-030405" &"-2")
    [&"\\?\C:\logs\out.log"; &"C:\logs.d\out"; &"C:\logs\.profile"; &"C:\logs\a.b.txt"]
  = [&"\\?\C:\logs\out.20250102-030405-2.log"; &"C:\logs.d\out.20250102-030405-2";
     &"C:\logs\.profile.20250102-030405-2"; &"C:\logs\a.b.20250102-030405-2.txt"].
Proof. vm_compute. reflexivity. Qed.

(** ** Waiting for the lock ends *)

Class TimeLaws (W : Type) `{FS : FileSys W} := {
  sleep_time : forall d w, 0 <= d -> instant_now w + d <= instant_now (thread_sleep d w) }.

Section LockBound.
Context {W : Type} `{T : TimeLaws W}.
Variable try_lock : W -> lock_status * W.
Variable cancelled : W -> bool * W.
Hypothesis try_lock_time : forall w, instant_now w <= instant_now (try_lock w).2.
Hypothesis cancelled_time : forall w, instant_now w <= instant_now (cancelled w).2.

Lemma lock_loop_bound k fuel deadline w :
  deadline - instant_now w <= Z.of_nat k * 5000000 -> (k < fuel)%nat ->
  (lock_loop try_lock fuel cancelled deadline w).1 <> Err no_fuel.
Proof.
  revert k w. induction fuel as [|fuel IH]; intros k w Hk Hf; [lia|]. cbn [lock_loop].
  unfold check_cancelled. pose proof (cancelled_time w) as Hc. destruct (cancelled w) as [[] w1]; [done|].
  pose proof (try_lock_time w1) as Ht. destruct (try_lock w1) as [[] w2]; cbn [snd] in *; [done|done|].
  destruct (Z.leb_spec deadline (instant_now w2)); [done|].
  pose proof (sleep_time 5000000 w2 ltac:(lia)). destruct k as [|k]; [lia|]. apply (IH k); lia.
Qed.

(** The rounds of [lock] are enough: it ends in the lock, or in one of its own
    errors. *)
Lemma lock_ends k w : (lock try_lock cancelled (k, w)).1 <> Err no_fuel.
Proof.
  assert (Hk : instant_now w + 2000000000 - instant_now w <= Z.of_nat 400 * 5000000)
    by (change (Z.of_nat 400) with 400; lia).
  assert (Hf : (400 < lock_fuel)%nat) by (unfold lock_fuel; lia).
  pose proof (lock_loop_bound 400 lock_fuel _ w Hk Hf) as H. unfold lock.
  by destruct (lock_loop _ _ _ _ _) as [r w1].
Qed.
End LockBound.
