(* ===== verification/RotationSim.v ===== *)
(** * A disk in memory, and a log that survives its faults

    Files and handles are finite maps; [d_faults] is the script of which of
    the operations open, write and move fail. *)

From Stdlib Require Import ZArith Lia List.
From S2P Require Import Prelude Text Model Rotation.

Record Disk := {
  d_files : gmap (list Z) (list Z);
  d_handles : gmap Z (list Z * hmode);
  d_clock : Z;
  d_faults : list bool }.

Definition with_files (f : gmap (list Z) (list Z)) (d : Disk) : Disk :=
  Build_Disk f (d_handles d) (d_clock d) (d_faults d).
Definition with_handles (h : gmap Z (list Z * hmode)) (d : Disk) : Disk :=
  Build_Disk (d_files d) h (d_clock d) (d_faults d).
Definition disk_error : io_error := mk_io_error KPermissionDenied &"injected".

Definition faulty {A} (m : Disk -> result io_error A * Disk) (d : Disk) : result io_error A * Disk :=
  match d_faults d with
  | true :: r => (Err disk_error, Build_Disk (d_files d) (d_handles d) (d_clock d) r)
  | _ :: r => m (Build_Disk (d_files d) (d_handles d) (d_clock d) r)
  | [] => m d
  end.

Definition disk_open (o : OpenOptions) (p : list Z) (d : Disk) : result io_error Z * Disk :=
  let h := fresh (dom (d_handles d)) in
  let opened := with_handles (<[h := (p, mode_of o)]> (d_handles d)) in
  match d_files d !! p with
  | Some c =>
      if oo_create_new o then (Err (mk_io_error KAlreadyExists []), d)
      else (Ok h, opened (with_files (<[p := if oo_truncate o then [] else c]> (d_files d)) d))
  | None =>
      if oo_create o || oo_create_new o then (Ok h, opened (with_files (<[p := []]> (d_files d)) d))
      else (Err (mk_io_error KNotFound []), d)
  end.

Definition disk_append (h : Z) (b : list Z) (d : Disk) : Disk :=
  match d_handles d !! h with
  | Some (k, AtEnd) => match d_files d !! k with
                       | Some c => with_files (<[k := c ++ b]> (d_files d)) d
                       | None => d
                       end
  | _ => d
  end.

(** Two bytes at a time. *)
Definition disk_read (h : Z) (n : nat) (d : Disk) : result io_error (list Z) * Disk :=
  match d_handles d !! h with
  | Some (k, Reading pos) =>
      let b := take (Nat.min n 2) (drop pos (default [] (d_files d !! k))) in
      (Ok b, with_handles (<[h := (k, Reading (pos + List.length b))]> (d_handles d)) d)
  | _ => (Err disk_error, d)
  end.

Definition disk_move (p q : list Z) (d : Disk) : result io_error unit * Disk :=
  match d_files d !! p, d_files d !! q with
  | Some c, None => (Ok tt, with_files (<[q := c]> (delete p (d_files d))) d)
  | _, _ => (Err disk_error, d)
  end.

Definition disk_set_len (h n : Z) (d : Disk) : result io_error unit * Disk :=
  match d_handles d !! h with
  | Some (k, _) => (Ok tt, with_files (<[k := take (Z.to_nat n) (default [] (d_files d !! k))]> (d_files d)) d)
  | None => (Err disk_error, d)
  end.

#[export] Instance disk_fs : FileSys Disk := {
  fs_exists p d := bool_decide (is_Some (d_files d !! p));
  utc_stamp _ := Some &"20250102-030405";
  instant_now := d_clock;
  thread_sleep t d := Build_Disk (d_files d) (d_handles d) (d_clock d + t) (d_faults d);
  fs_open o p := faulty (disk_open o p);
  fs_close h d := with_handles (delete h (d_handles d)) d;
  fs_read := disk_read;
  fs_write h b := faulty (fun d => (Ok (Nat.min 4 (List.length b)), disk_append h (take 4 b) d));
  fs_write_all h b := faulty (fun d => (Ok tt, disk_append h b d));
  fs_sync_all _ d := (Ok tt, d);
  fs_set_len := disk_set_len;
  fs_len h d := (Ok (match d_handles d !! h with
                     | Some (k, _) => Z.of_nat (List.length (default [] (d_files d !! k)))
                     | None => 0
                     end), d);
  fs_metadata p d := (Ok (Z.of_nat (List.length (default [] (d_files d !! p))), Some 0), d);
  fs_remove_file p d := (Ok tt, with_files (delete p (d_files d)) d);
  fs_move p q := faulty (disk_move p q);
  fs_create_parent _ d := (Ok tt, d) }.

Lemma faulty_cases {A} (m : Disk -> result io_error A * Disk) d :
  (exists d1, faulty m d = (Err disk_error, d1) /\ d_files d1 = d_files d /\ d_handles d1 = d_handles d)
  \/ exists d1, faulty m d = m d1 /\ d_files d1 = d_files d /\ d_handles d1 = d_handles d.
Proof. unfold faulty. destruct (d_faults d) as [|[] r]; [right|left|right]; eexists; done. Qed.

Lemma append_files h b d k c :
  d_handles d !! h = Some (k, AtEnd) -> d_files d !! k = Some c ->
  disk_append h b d = with_files (<[k := c ++ b]> (d_files d)) d.
Proof. intros H1 H2. unfold disk_append. by rewrite H1, H2. Qed.

#[export] Instance disk_laws : FileLaws Disk.
Proof.
  refine {| file_of p := p; content d k := d_files d !! k; view d h := d_handles d !! h |}.
  - intros o p w. cbn [fs_open disk_fs].
    destruct (faulty_cases (disk_open o p) w) as [(d & -> & F & H)|(d & -> & F & H)].
    { cbn [fst snd]. rewrite F, H. done. }
    unfold disk_open. rewrite <- F, <- H.
    assert (Hf : d_handles d !! fresh (dom (d_handles d)) = None) by (apply not_elem_of_dom, is_fresh).
    destruct (d_files d !! p) as [c|] eqn:Ec.
    + destruct (oo_create_new o) eqn:En; cbn [fst snd d_files d_handles with_files with_handles].
      * by rewrite Ec.
      * split; [intros k Hk; by rewrite lookup_insert_ne|]. split; [done|].
        split; [intros h' Hh; by rewrite lookup_insert_ne|]. rewrite !lookup_insert_eq. done.
    + destruct (oo_create o || oo_create_new o) eqn:En; cbn [fst snd d_files d_handles with_files with_handles].
      * split; [intros k Hk; by rewrite lookup_insert_ne|]. split; [done|].
        split; [intros h' Hh; by rewrite lookup_insert_ne|]. rewrite !lookup_insert_eq.
        cbn [default]. destruct (oo_truncate o); done.
      * done.
  - intros h w. cbn. split; [done|]. intros h' Hh. by rewrite lookup_delete_ne.
  - intros h n w k pos c Hn Hv Hc. cbn [fs_read disk_fs]. unfold disk_read. rewrite Hv, Hc. cbn.
    set (b := take (n `min` 2) (drop pos c)). split; [done|].
    split; [intros h' Hh; by rewrite lookup_insert_ne|]. split; [|split].
    + unfold b. rewrite length_take. generalize (n `min` 2)%nat as m. intros m.
      destruct (decide (m <= List.length (drop pos c))%nat); [by rewrite Nat.min_l|].
      rewrite Nat.min_r by lia. by rewrite firstn_all, take_ge by lia.
    + unfold b. destruct (drop pos c); [done|]. destruct n; [lia|]. done.
    + by rewrite lookup_insert_eq.
  - intros h b w k c Hv Hc. cbn [fs_write disk_fs].
    destruct (faulty_cases (fun d => (Ok (Nat.min 4 (List.length b)), disk_append h (take 4 b) d)) w)
      as [(d & -> & F & H)|(d & -> & F & H)]; cbn [fst snd].
    { rewrite F, H. done. }
    rewrite (append_files _ _ _ k c) by congruence. cbn [d_files d_handles with_files]. rewrite F, H.
    split; [intros k' Hk; by rewrite lookup_insert_ne|]. split; [done|]. split; [lia|].
    rewrite lookup_insert_eq. do 2 f_equal.
    destruct (decide (4 <= List.length b)%nat); [by rewrite Nat.min_l by lia|].
    rewrite Nat.min_r by lia. by rewrite firstn_all, take_ge by lia.
  - intros h b w k c Hv Hc. cbn [fs_write_all disk_fs].
    destruct (faulty_cases (fun d => (Ok tt, disk_append h b d)) w) as [(d & -> & F & H)|(d & -> & F & H)]; cbn [fst snd].
    { rewrite F, H. done. }
    rewrite (append_files _ _ _ k c) by congruence. cbn [d_files d_handles with_files]. rewrite F, H.
    split; [intros k' Hk; by rewrite lookup_insert_ne|]. split; [done|]. by rewrite lookup_insert_eq.
  - intros h w k m c Hv Hc. cbn [fs_set_len disk_fs]. unfold disk_set_len. rewrite Hv. cbn.
    split; [intros k' Hk; by rewrite lookup_insert_ne|]. by rewrite lookup_insert_eq.
  - done.
  - done.
  - intros p w k Hk. cbn. by rewrite lookup_delete_ne.
  - intros p q w. cbn [fs_move disk_fs].
    destruct (faulty_cases (disk_move p q) w) as [(d & -> & F & H)|(d & -> & F & H)]; [cbn; by rewrite F|].
    unfold disk_move. rewrite <- F.
    destruct (d_files d !! p) as [c|] eqn:Ep; [|by cbn].
    destruct (d_files d !! q) as [c'|] eqn:Eq; [by cbn|]. cbn [fst snd d_files with_files].
    assert (p <> q) by congruence.
    split; [done|]. split; [done|]. rewrite lookup_insert_eq. split; [done|].
    rewrite lookup_insert_ne by congruence. rewrite lookup_delete_eq. split; [done|].
    intros k Hk1 Hk2. by rewrite lookup_insert_ne, lookup_delete_ne.
  - done.
  - done.
Defined.

(** ** A log through a rotation and a failed one *)

Definition sample_stream (copy : option bool) : IoStream := Build_IoStream &"C:\log.txt" None None None copy.
Definition sample_state (copy : option bool) : RotationState :=
  Build_RotationState &"C:\log.txt" None 0 0 LogRotationConfig_default (sample_stream copy).
Definition sample_sink (copy : option bool) : RotationSink :=
  Build_RotationSink (sample_state copy) false (0, 0) (sample_stream copy) &"C:\log.txt".
Definition free_lock (d : Disk) : lock_status * Disk := (Acquired, d).

Definition sample_calls : list (SinkCall * (Disk -> bool * Disk)) :=
  [(CallWrite &"abcdef", never); (CallRotate, never); (CallWrite &"xy", never); (CallRotate, never);
   (CallWrite &"z", never)].

(** The second attempt to move the file away is refused. *)
Definition sample_disk : Disk :=
  Build_Disk ∅ ∅ 0 [false; false; false; false; false; true].
Definition sample_run (copy : option bool) (d : Disk) : result io_error (list Z) * (RotationSink * Disk) :=
  run_calls (FileIo 100) free_lock sample_calls (sample_sink copy, d).

Example rename_run :
  let '(r, (k, d)) := sample_run None sample_disk in
  r = Ok &"abcdxyz"
  /\ d_files d !! &"C:\log.20250102-030405.txt" = Some &"abcd"
  /\ d_files d !! &"C:\log.txt" = Some &"xyz".
Proof. vm_compute. done. Qed.

Example copy_run :
  let '(r, (k, d)) := sample_run (Some true) (Build_Disk ∅ ∅ 0 []) in
  r = Ok &"abcdxyz"
  /\ d_files d !! &"C:\log.20250102-030405.txt" = Some &"abcd"
  /\ d_files d !! &"C:\log.20250102-030405-1.txt" = Some &"xy"
  /\ d_files d !! &"C:\log.txt" = Some &"z".
Proof. vm_compute. done. Qed.

Lemma sample_ok copy d : d_files d = ∅ -> sink_ok (sample_sink copy, d) [] [].
Proof.
  intros Hd. split; cbn.
  - repeat constructor. by intros H%not_elem_of_nil.
  - constructor.
  - unfold logged, bytes_of. cbn. by rewrite Hd.
  - done.
Qed.

