(* ===== verification/Output.v ===== *)
(** * Draining a child's output: servicemanager-supervisor [output.rs]

    The loop that copies one pipe of the child into its log sink, one round at
    a time, against the calls it makes. [ReaderTask] models the task around it.
    Times are in nanoseconds. *)

From Stdlib Require Import ZArith Lia List.
From S2P Require Import Prelude Text Model Rotation.

Definition BUFFER_LIMIT : nat := Z.to_nat 65536.
Definition CHUNK : nat := Z.to_nat 8192.
#[global] Opaque BUFFER_LIMIT CHUNK.
Definition RETRY_DELAY : Z := 100000000.

Record ReaderStats := { written : Z; dropped : Z }.

(** The calls of a reader: the clock, the flag and the deadline shared with the
    owner of the task, the sink, the supervisor's queue, and the pipe. *)
Class PipeApi (W : Type) := {
  now : W -> Z * W;
  sleep : Z -> W -> W;
  is_cancelled : W -> bool * W;
  drain_deadline : W -> option Z * W;
  (** [sink.write_some] *)
  sink_write : list Z -> M W io_error nat;
  (** [sink.due(false).unwrap_or(false)] *)
  sink_due : W -> bool * W;
  queue_rotation : W -> bool * W;
  (** [tx.send(AutoRotate(..)).is_err()] *)
  send_rotate_failed : W -> bool * W;
  rotation_handled : W -> W;
  report : rstr -> W -> W;
  (** [PeekNamedPipe] *)
  available : M W io_error (option nat);
  pipe_read : nat -> M W io_error (list Z) }.

Record PipeState := {
  pending : list Z;
  offset : nat;
  stats : ReaderStats;
  eof : bool;
  retry_at : Z;
  last_diagnostic : option Z }.

(** A round either goes on or returns from the function. *)
Inductive Round := Continue (st : PipeState) | Return (r : result io_error ReaderStats).

Section CopyPipe.
Context {W : Type} `{API : PipeApi W}.

Definition unwritten (st : PipeState) : nat := (List.length (pending st) - offset st)%nat.

Definition count_written (st : PipeState) (n : nat) : PipeState :=
  let o := (offset st + n)%nat in
  let all := (o =? List.length (pending st))%nat in
  {| pending := if all then [] else pending st; offset := if all then O else o;
     stats := {| written := written (stats st) + Z.of_nat n; dropped := dropped (stats st) |};
     eof := eof st; retry_at := retry_at st; last_diagnostic := last_diagnostic st |}.

(** After a write: ask for a rotation when one is due. *)
Definition auto_rotate (w : W) : W :=
  let '(due, w1) := sink_due w in
  if due then
    let '(queued, w2) := queue_rotation w1 in
    if queued then
      let '(failed, w3) := send_rotate_failed w2 in
      if failed then rotation_handled w3 else w3
    else w2
  else w1.

(** After a failed write: report at most every five seconds, and retry later. *)
Definition write_failed (st : PipeState) (error : io_error) (w : W) : PipeState * W :=
  let '(due, w1) := match last_diagnostic st with
    | None => (true, w)
    | Some last => let '(t, w1) := now w in (5000000000 <=? sat_sub t last, w1)
    end in
  let '(diagnostic, w2) :=
    if due : bool then
      let w2 := report (&"write failed; retaining pipe/backpressure and retrying: " ++ io_error_text error) w1 in
      let '(t, w3) := now w2 in (Some t, w3)
    else (last_diagnostic st, w1) in
  let '(t, w3) := now w2 in
  ({| pending := pending st; offset := offset st; stats := stats st; eof := eof st;
      retry_at := t + RETRY_DELAY; last_diagnostic := diagnostic |}, w3).

Definition write_error : io_error := mk_io_error KWriteZero &"write zero".

Definition write_phase (st : PipeState) (w : W) : PipeState * W :=
  if (offset st <? List.length (pending st))%nat then
    let '(t, w1) := now w in
    if retry_at st <=? t then
      match sink_write (drop (offset st) (pending st)) w1 with
      | (Ok (S n), w2) => (count_written st (S n), auto_rotate w2)
      | (Ok O, w2) => write_failed st write_error w2
      | (Err e, w2) => write_failed st e w2
      end
    else (st, w1)
  else (st, w).

Definition with_pending (p : list Z) (o : nat) (st : PipeState) : PipeState :=
  Build_PipeState p o (stats st) (eof st) (retry_at st) (last_diagnostic st).
Definition with_eof (st : PipeState) : PipeState :=
  Build_PipeState (pending st) (offset st) (stats st) true (retry_at st) (last_diagnostic st).

Definition lost_error (what : rstr) (st : PipeState) (e : io_error) : io_error :=
  mk_io_error (io_error_kind e) (what ++ io_error_text e ++ &"; " ++ to_dec (Z.of_nat (unwritten st))
                                 ++ &" buffered bytes lost; unread data may remain").

Definition read_phase (st : PipeState) (w : W) : Round * W :=
  if negb (eof st) && (unwritten st <? BUFFER_LIMIT)%nat then
    let st := if (0 <? offset st)%nat then with_pending (drop (offset st) (pending st)) O st else st in
    let capacity := Nat.min CHUNK (BUFFER_LIMIT - List.length (pending st)) in
    match available w with
    | (Ok (Some O), w1) => (Continue st, w1)
    | (Ok n, w1) =>
        let count := match n with Some n => Nat.min n capacity | None => capacity end in
        match pipe_read count w1 with
        | (Ok [], w2) => (Continue (with_eof st), w2)
        | (Ok bytes, w2) => (Continue (with_pending (pending st ++ bytes) (offset st) st), w2)
        | (Err e, w2) =>
            match io_error_kind e with
            | KInterrupted => (Continue st, w2)
            | KBrokenPipe => (Continue (with_eof st), w2)
            | _ => (Return (Err (lost_error &"pipe read failed: " st e)), w2)
            end
        end
    | (Err e, w1) =>
        match io_error_kind e with
        | KBrokenPipe => (Continue (with_eof st), w1)
        | _ => (Return (Err (lost_error &"pipe availability query failed: " st e)), w1)
        end
    end
  else (Continue st, w).

Definition drain_error (lost : Z) : io_error :=
  mk_io_error KTimedOut (&"output drain incomplete (" ++ to_dec lost ++ &" buffered bytes lost)").

(** The body of the [loop]. *)
Definition copy_round (st : PipeState) (w : W) : Round * W :=
  if eof st && is_empty (pending st) then (Return (Ok (stats st)), w)
  else
    let '(deadline, w1) := drain_deadline w in
    let '(expired, w2) := match deadline with
      | Some d => let '(t, w2) := now w1 in (d <=? t, w2)
      | None => (false, w1)
      end in
    let '(cancelled, w3) := is_cancelled w2 in
    if cancelled || expired then
      let lost := dropped (stats st) + Z.of_nat (unwritten st) in
      (Return (Err (drain_error lost)),
       report (&"drain deadline: " ++ to_dec lost ++ &" buffered bytes lost; unread pipe data may remain") w3)
    else
      let '(st1, w4) := write_phase st w3 in
      if eof st1 && is_empty (pending st1) then (Return (Ok (stats st1)), w4)
      else
        match read_phase st1 w4 with
        | (Return r, w5) => (Return r, w5)
        | (Continue st2, w5) =>
            let '(idle, w6) :=
              if is_empty (pending st2) then (true, w5)
              else let '(t, w6) := now w5 in ((t <? retry_at st2) || eof st2, w6) in
            (Continue st2, if idle : bool then sleep 5000000 w6 else w6)
        end.

Fixpoint copy_loop (rounds : nat) (st : PipeState) (w : W) : Round * W :=
  match rounds with
  | O => (Continue st, w)
  | S rounds =>
      match copy_round st w with
      | (Continue st1, w1) => copy_loop rounds st1 w1
      | r => r
      end
  end.

(** [copy_pipe], stopped after so many rounds if it has not returned. *)
Definition copy_pipe (rounds : nat) (w : W) : Round * W :=
  let '(t, w1) := now w in
  copy_loop rounds {| pending := []; offset := O; stats := {| written := 0; dropped := 0 |};
                      eof := false; retry_at := t; last_diagnostic := None |} w1.
End CopyPipe.

(** ** What the calls promise

    [consumed] is what was taken from the pipe, [accepted] what the sink
    reported as written, which [Rotation] relates to the bytes of the log. *)

Class PipeLaws (W : Type) `{API : PipeApi W} := {
  consumed : W -> list Z;
  accepted : W -> list Z;
  quiet_law : forall w w', 
    (w' = (now w).2 \/ w' = (is_cancelled w).2 \/ w' = (drain_deadline w).2 \/ w' = (sink_due w).2
     \/ w' = (queue_rotation w).2 \/ w' = (send_rotate_failed w).2 \/ w' = rotation_handled w
     \/ w' = (available w).2 \/ (exists d, w' = sleep d w) \/ (exists m, w' = report m w)) ->
    consumed w' = consumed w /\ accepted w' = accepted w;
  sink_law : forall b w,
    consumed (sink_write b w).2 = consumed w
    /\ match (sink_write b w).1 with
       | Ok n => (n <= List.length b)%nat /\ accepted (sink_write b w).2 = accepted w ++ take n b
       | Err _ => accepted (sink_write b w).2 = accepted w
       end;
  read_law : forall n w,
    accepted (pipe_read n w).2 = accepted w
    /\ match (pipe_read n w).1 with
       | Ok b => (List.length b <= n)%nat /\ consumed (pipe_read n w).2 = consumed w ++ b
       | Err _ => consumed (pipe_read n w).2 = consumed w
       end }.

Section Drain.
Context {W : Type} `{L : PipeLaws W}.
Implicit Types (w : W) (st : PipeState).

(** Neither pipe nor sink moved. *)
Definition quiet_step w w' : Prop := consumed w' = consumed w /\ accepted w' = accepted w.

Lemma quiet_refl w : quiet_step w w. Proof. by split. Qed.
Lemma quiet_trans w1 w2 w3 : quiet_step w1 w2 -> quiet_step w2 w3 -> quiet_step w1 w3.
Proof. intros [H1 H2] [H3 H4]. split; congruence. Qed.
Lemma quiet_now w : quiet_step w (now w).2. Proof. apply quiet_law. tauto. Qed.
Lemma quiet_cancelled w : quiet_step w (is_cancelled w).2. Proof. apply quiet_law. tauto. Qed.
Lemma quiet_deadline w : quiet_step w (drain_deadline w).2. Proof. apply quiet_law. tauto. Qed.
Lemma quiet_due w : quiet_step w (sink_due w).2. Proof. apply quiet_law. tauto. Qed.
Lemma quiet_queue w : quiet_step w (queue_rotation w).2. Proof. apply quiet_law. tauto. Qed.
Lemma quiet_send w : quiet_step w (send_rotate_failed w).2. Proof. apply quiet_law. tauto. Qed.
Lemma quiet_handled w : quiet_step w (rotation_handled w). Proof. apply quiet_law. tauto. Qed.
Lemma quiet_available w : quiet_step w (available w).2. Proof. apply quiet_law. tauto. Qed.
Lemma quiet_sleep d w : quiet_step w (sleep d w). Proof. apply quiet_law. do 8 right. left. by exists d. Qed.
Lemma quiet_report m w : quiet_step w (report m w). Proof. apply quiet_law. do 9 right. by exists m. Qed.

(** Take the result of a quiet call apart, keeping that it is quiet. *)
Ltac quiet_call H :=
  let Q := fresh "Q" in pose proof H as Q;
  match type of Q with quiet_step ?w (?f).2 =>
    let w' := fresh "w" in let x := fresh "x" in destruct f as [x w']; cbn [snd] in Q end.
Ltac quiet_chain := repeat (first [eassumption | apply quiet_refl | eapply quiet_trans; [eassumption|]
                                 | eapply quiet_trans; [|eassumption]]).

Context (con0 acc0 : list Z).

(** What left the pipe is what the sink took and what is still pending. *)
Definition split_at st w (a : list Z) : Prop :=
  accepted w = acc0 ++ a /\ consumed w = con0 ++ a ++ drop (offset st) (pending st)
  /\ written (stats st) = Z.of_nat (List.length a) /\ dropped (stats st) = 0.
Definition bounded st : Prop :=
  (offset st <= List.length (pending st) <= BUFFER_LIMIT)%nat.
Definition pipe_ok st w : Prop := bounded st /\ exists a, split_at st w a.

Lemma pipe_ok_quiet st w w' : quiet_step w w' -> pipe_ok st w -> pipe_ok st w'.
Proof.
  intros [Q1 Q2] (Hb & a & H1 & H2 & H3). split; [done|]. exists a. unfold split_at. by rewrite Q1, Q2.
Qed.

(** The same buffer and counts. *)
Definition same_buffer st st' : Prop :=
  pending st' = pending st /\ offset st' = offset st /\ stats st' = stats st.
Lemma pipe_ok_buffer st st' w : same_buffer st st' -> pipe_ok st w -> pipe_ok st' w.
Proof.
  intros (E1 & E2 & E3) (Hb & a & H). unfold pipe_ok, bounded, split_at in *. rewrite E1, E2, E3. eauto.
Qed.

Lemma auto_rotate_quiet w : quiet_step w (auto_rotate w).
Proof.
  unfold auto_rotate. quiet_call (quiet_due w). destruct x; [|done].
  quiet_call (quiet_queue w0). destruct x; [|quiet_chain].
  quiet_call (quiet_send w1). destruct x; [|quiet_chain].
  pose proof (quiet_handled w2). quiet_chain.
Qed.

Lemma write_failed_quiet st e w st' w' :
  write_failed st e w = (st', w') -> same_buffer st st' /\ quiet_step w w'.
Proof.
  unfold write_failed. destruct (last_diagnostic st) as [last|].
  - quiet_call (quiet_now w). destruct (_ <=? _).
    + pose proof (quiet_report (&"write failed; retaining pipe/backpressure and retrying: " ++ io_error_text e) w0).
      quiet_call (quiet_now (report (&"write failed; retaining pipe/backpressure and retrying: " ++ io_error_text e) w0)).
      quiet_call (quiet_now w1). intros [= <- <-]. split; [done|]. quiet_chain.
    + quiet_call (quiet_now w0). intros [= <- <-]. split; [done|]. quiet_chain.
  - pose proof (quiet_report (&"write failed; retaining pipe/backpressure and retrying: " ++ io_error_text e) w).
    quiet_call (quiet_now (report (&"write failed; retaining pipe/backpressure and retrying: " ++ io_error_text e) w)).
    quiet_call (quiet_now w0). intros [= <- <-]. split; [done|]. quiet_chain.
Qed.

Lemma write_phase_ok st w st' w' : write_phase st w = (st', w') -> pipe_ok st w -> pipe_ok st' w' /\ eof st' = eof st.
Proof.
  unfold write_phase. destruct (offset st <? List.length (pending st))%nat eqn:Eo; [|by intros [= <- <-]].
  apply Nat.ltb_lt in Eo. quiet_call (quiet_now w). destruct (_ <=? x); [|intros [= <- <-] Hok; split; [by eapply pipe_ok_quiet|done]].
  intros H Hok. eapply pipe_ok_quiet in Hok; [|exact Q].
  pose proof (sink_law (drop (offset st) (pending st)) w0) as [S1 S2].
  destruct (sink_write (drop (offset st) (pending st)) w0) as [r w1]; cbn [fst snd] in *.
  assert (Hfail : forall e, (forall n, r = Ok n -> n = O) -> write_failed st e w1 = (st', w') ->
    pipe_ok st' w' /\ eof st' = eof st).
  { intros e Hz Hf. assert (Q1 : quiet_step w0 w1).
    { split; [done|]. destruct r as [n|]; [|done]. destruct S2 as [_ S2]. by rewrite (Hz n eq_refl), app_nil_r in S2. }
    pose proof (write_failed_quiet _ _ _ _ _ Hf) as [Hb Q2]. split.
    - eapply pipe_ok_buffer; [exact Hb|]. eapply pipe_ok_quiet; [|exact Hok]. quiet_chain.
    - clear -Hf. unfold write_failed in Hf.
      repeat match type of Hf with context [let '(_, _) := ?x in _] => destruct x end. by injection Hf as <- _. }
  destruct r as [[|n]|e]; [eapply Hfail; [|exact H]; congruence| |eapply Hfail; [done|exact H]].
  apply pair_equal_spec in H as [<- <-]. split; [|done].
  eapply pipe_ok_quiet; [apply auto_rotate_quiet|].
  destruct S2 as [Hn Ha]. rewrite length_drop in Hn. destruct Hok as (Hb & a & A1 & A2 & A3 & A4).
  set (b := drop (offset st) (pending st)) in *. split.
  - unfold bounded, count_written in *. cbn. destruct (Nat.eqb_spec (offset st + S n) (List.length (pending st))); cbn; lia.
  - exists (a ++ take (S n) b). unfold split_at. rewrite Ha, A1, S1, A2.
    split; [by rewrite <- app_assoc|]. split; [|split; [|done]].
    + rewrite <- !app_assoc. do 2 f_equal. unfold count_written. cbn [offset pending].
      destruct (Nat.eqb_spec (offset st + S n) (List.length (pending st))) as [E|E].
      * rewrite drop_nil, app_nil_r. rewrite take_ge; [done|]. unfold b. rewrite length_drop. lia.
      * replace (drop (offset st + S n) (pending st)) with (drop (S n) b) by (unfold b; by rewrite drop_drop).
        by rewrite take_drop.
    + unfold count_written. cbn [stats written]. rewrite A3, length_app, length_take. unfold b. rewrite length_drop. lia.
Qed.

(** An error that says how many bytes are lost. *)
Definition reports_lost (e : io_error) (lost : list Z) : Prop :=
  e = drain_error (Z.of_nat (List.length lost))
  \/ exists kind what, e = mk_io_error kind (what ++ &"; " ++ to_dec (Z.of_nat (List.length lost))
                                             ++ &" buffered bytes lost; unread data may remain").

Definition round_ok (r : Round) w : Prop :=
  match r with
  | Continue st => pipe_ok st w
  | Return (Ok s) => exists a, accepted w = acc0 ++ a /\ consumed w = con0 ++ a
                               /\ s = {| written := Z.of_nat (List.length a); dropped := 0 |}
  | Return (Err e) => exists a lost, accepted w = acc0 ++ a /\ consumed w = con0 ++ a ++ lost
                                     /\ (List.length lost <= BUFFER_LIMIT)%nat /\ reports_lost e lost
  end.

Lemma lost_error_ok st w what e :
  pipe_ok st w -> round_ok (Return (Err (lost_error what st e))) w.
Proof.
  intros ([Hb1 Hb2] & a & H1 & H2 & H3 & H4). exists a, (drop (offset st) (pending st)).
  assert (Hl : List.length (drop (offset st) (pending st)) = unwritten st) by (unfold unwritten; apply length_drop).
  split; [done|]. split; [done|]. split; [unfold unwritten in Hl; lia|].
  right. exists (io_error_kind e), (what ++ io_error_text e). rewrite Hl. unfold lost_error. f_equal. reassoc.
Qed.

Lemma read_phase_ok st w r w' : read_phase st w = (r, w') -> pipe_ok st w -> round_ok r w'.
Proof.
  unfold read_phase. intros H Hok.
  destruct (negb (eof st) && (unwritten st <? BUFFER_LIMIT)%nat) eqn:Ec; [|by injection H as <- <-].
  apply andb_true_iff in Ec as [_ Hroom]. apply Nat.ltb_lt in Hroom.
  set (st1 := if (0 <? offset st)%nat then with_pending (drop (offset st) (pending st)) 0 st else st) in H.
  assert (H1 : pipe_ok st1 w /\ offset st1 = O /\ (List.length (pending st1) < BUFFER_LIMIT)%nat).
  { unfold st1. unfold unwritten in Hroom. destruct Hok as ([Hb1 Hb2] & a & A).
    destruct (Nat.ltb_spec 0 (offset st)).
    - split; [|split; [done|cbn; rewrite length_drop; lia]]. split; [split; [cbn; lia|cbn; rewrite length_drop; lia]|].
      exists a. exact A.
    - assert (offset st = O) as E by lia. split; [|split; [done|lia]]. split; [by split|]. by exists a. }
  clearbody st1. destruct H1 as (Hok1 & Ho & Hlen). clear Hok Hroom.
  set (capacity := Nat.min CHUNK (BUFFER_LIMIT - List.length (pending st1))) in H.
  assert (Hcap : (List.length (pending st1) + capacity <= BUFFER_LIMIT)%nat) by (unfold capacity; lia).
  quiet_call (quiet_available w). assert (Hok2 : pipe_ok st1 w0) by (by eapply pipe_ok_quiet).
  assert (Hread : forall count, (count <= capacity)%nat ->
    match pipe_read count w0 with
    | (Ok [], w2) => (Continue (with_eof st1), w2)
    | (Ok bytes, w2) => (Continue (with_pending (pending st1 ++ bytes) (offset st1) st1), w2)
    | (Err e, w2) => match io_error_kind e with
                     | KInterrupted => (Continue st1, w2)
                     | KBrokenPipe => (Continue (with_eof st1), w2)
                     | _ => (Return (Err (lost_error &"pipe read failed: " st1 e)), w2)
                     end
    end = (r, w') -> round_ok r w').
  { intros count Hcount Hr. destruct (read_law count w0) as [R1 R2].
    destruct (pipe_read count w0) as [[bytes|e] w2]; cbn [fst snd] in *.
    - destruct R2 as [R2 R3].
      assert (Hq : bytes = [] -> pipe_ok st1 w2)
        by (intros ->; rewrite app_nil_r in R3; eapply pipe_ok_quiet; [by split|exact Hok2]).
      destruct bytes as [|b bs]; [injection Hr as <- <-; by apply Hq|].
      apply pair_equal_spec in Hr as [<- <-]. destruct Hok2 as (Hb & a & A1 & A2 & A3 & A4).
      split; [split; cbn [offset pending with_pending]; rewrite length_app; lia|].
      exists a. unfold split_at. cbn [offset pending stats with_pending]. rewrite R1, R3, A1, A2, Ho. cbn [drop].
      by rewrite <- !app_assoc.
    - assert (Hq : pipe_ok st1 w2) by (eapply pipe_ok_quiet; [by split|exact Hok2]).
      destruct (io_error_kind e); apply pair_equal_spec in Hr as [<- <-];
        first [exact Hq | apply lost_error_ok, Hq]. }
  destruct x as [[[|n]|]|e].
  - injection H as <- <-. done.
  - eapply Hread; [|exact H]. lia.
  - eapply Hread; [|exact H]. lia.
  - destruct (io_error_kind e); apply pair_equal_spec in H as [<- <-];
      first [exact Hok2 | apply lost_error_ok, Hok2].
Qed.

Lemma finished_ok st w : pipe_ok st w -> pending st = [] -> round_ok (Return (Ok (stats st))) w.
Proof.
  intros (_ & a & A1 & A2 & A3 & A4) Hp. exists a. rewrite Hp, drop_nil, app_nil_r in A2.
  split; [done|]. split; [done|]. destruct (stats st) as [x y]. cbn in *. by subst.
Qed.

Lemma copy_round_ok st w r w' : copy_round st w = (r, w') -> pipe_ok st w -> round_ok r w'.
Proof.
  unfold copy_round. intros H Hok. destruct (eof st && is_empty (pending st)) eqn:E0.
  { injection H as <- <-. apply andb_true_iff in E0 as [_ E0]. apply finished_ok; [done|]. by destruct (pending st). }
  quiet_call (quiet_deadline w). rename x into deadline.
  assert (Hexp : exists expired w2, match deadline with
      | Some d => let '(t, w2) := now w0 in (d <=? t, w2) | None => (false, w0) end = (expired, w2)
      /\ quiet_step w w2).
  { destruct deadline as [d|]; [|eauto]. quiet_call (quiet_now w0). eexists _, _. split; [reflexivity|]. quiet_chain. }
  destruct Hexp as (expired & w2 & E1 & Q2). rewrite E1 in H. clear E1.
  quiet_call (quiet_cancelled w2). assert (Hok1 : pipe_ok st w1) by (eapply pipe_ok_quiet; [|exact Hok]; quiet_chain).
  destruct (x || expired).
  { apply pair_equal_spec in H as [<- <-].
    set (m := &"drain deadline: " ++ _). eapply pipe_ok_quiet in Hok1; [|apply (quiet_report m)].
    destruct Hok1 as ([Hb1 Hb2] & a & A1 & A2 & A3 & A4). exists a, (drop (offset st) (pending st)).
    assert (Hl : List.length (drop (offset st) (pending st)) = unwritten st) by (unfold unwritten; apply length_drop).
    split; [done|]. split; [done|]. split; [unfold unwritten in Hl; lia|]. left. by rewrite A4, Hl. }
  destruct (write_phase st w1) as [st1 w4] eqn:Ew. apply write_phase_ok in Ew as [Hok2 _]; [|done].
  destruct (eof st1 && is_empty (pending st1)) eqn:E1.
  { injection H as <- <-. apply andb_true_iff in E1 as [_ E1]. apply finished_ok; [done|]. by destruct (pending st1). }
  destruct (read_phase st1 w4) as [[st2|r2] w5] eqn:Er; apply read_phase_ok in Er; try done;
    [|by injection H as <- <-].
  assert (Hidle : exists idle w6, (if is_empty (pending st2) then (true, w5)
      else let '(t, w6) := now w5 in ((t <? retry_at st2) || eof st2, w6)) = (idle, w6) /\ quiet_step w5 w6).
  { destruct (is_empty (pending st2)); [eexists _, _; split; [reflexivity|apply quiet_refl]|].
    quiet_call (quiet_now w5). eauto. }
  destruct Hidle as (idle & w6 & E2 & Q3). rewrite E2 in H. injection H as <- <-.
  eapply pipe_ok_quiet; [|exact Er]. destruct idle; [|done]. eapply quiet_trans; [exact Q3|apply quiet_sleep].
Qed.

Lemma copy_loop_ok rounds st w r w' : copy_loop rounds st w = (r, w') -> pipe_ok st w -> round_ok r w'.
Proof.
  revert st w. induction rounds as [|n IH]; intros st w H Hok; cbn in H; [by injection H as <- <-|].
  destruct (copy_round st w) as [[st1|r1] w1] eqn:E; apply copy_round_ok in E; try done; [by eapply IH|].
  by injection H as <- <-.
Qed.
End Drain.

(** C19. No output is lost silently, none is written twice, none out of order,
    and no more than 64 KiB is held in memory. At every moment, whatever the
    pipe, the sink and the clock do, the bytes taken from the pipe are exactly
    those the sink accepted, in order, followed by those still buffered. When
    the reader ends normally everything that was read has been accepted, and
    counted; when it ends in an error, the message gives the exact number of
    bytes that were read and not stored. *)
Theorem drain_accounts {W} `{L : PipeLaws W} rounds (w : W) r w' :
  copy_pipe rounds w = (r, w') -> round_ok (consumed w) (accepted w) r w'.
Proof.
  unfold copy_pipe. pose proof (quiet_now w) as Q. destruct (now w) as [t w1]. cbn [snd] in Q. intros H.
  eapply copy_loop_ok; [exact H|]. destruct Q as [Q1 Q2]. split; [split; cbn; lia|].
  exists []. unfold split_at. cbn. by rewrite !app_nil_r.
Qed.

(** ** A pipe with a slow sink

    The sink takes three bytes at a time and fails when its script says so. *)

Record Plumbing := {
  p_input : list (list Z);
  p_taken : list Z;
  p_stored : list Z;
  p_faults : list bool;
  p_time : Z;
  p_deadline : option Z }.

Definition pass (t : Z) (p : Plumbing) : Plumbing :=
  Build_Plumbing (p_input p) (p_taken p) (p_stored p) (p_faults p) (p_time p + t) (p_deadline p).

Definition plumbing_write (b : list Z) (p : Plumbing) : result io_error nat * Plumbing :=
  match p_faults p with
  | true :: f => (Err (mk_io_error KTimedOut &"log sink is busy"),
                  Build_Plumbing (p_input p) (p_taken p) (p_stored p) f (p_time p) (p_deadline p))
  | f => (Ok (List.length (take 3 b)),
          Build_Plumbing (p_input p) (p_taken p) (p_stored p ++ take 3 b) (tail f) (p_time p) (p_deadline p))
  end.

Definition plumbing_read (n : nat) (p : Plumbing) : result io_error (list Z) * Plumbing :=
  match p_input p with
  | [] => (Err (mk_io_error KBrokenPipe &"the pipe has been ended"), p)
  | b :: r => (Ok (take n b),
               Build_Plumbing (if is_empty (drop n b) then r else drop n b :: r)
                 (p_taken p ++ take n b) (p_stored p) (p_faults p) (p_time p) (p_deadline p))
  end.

#[export] Instance plumbing_api : PipeApi Plumbing := {
  now p := (p_time p, p);
  sleep d p := pass d p;
  is_cancelled p := (false, p);
  drain_deadline p := (p_deadline p, p);
  sink_write := plumbing_write;
  sink_due p := (false, p);
  queue_rotation p := (true, p);
  send_rotate_failed p := (false, p);
  rotation_handled p := p;
  report _ p := p;
  available p := (match p_input p with
                  | [] => Err (mk_io_error KBrokenPipe &"the pipe has been ended")
                  | b :: _ => Ok (Some (List.length b))
                  end, p);
  pipe_read := plumbing_read }.

#[export] Instance plumbing_laws : PipeLaws Plumbing.
Proof.
  refine {| consumed := p_taken; accepted := p_stored |}.
  - intros w w' H. cbn in H. destruct_or?; subst; try done; destruct H as [? ->]; done.
  - intros b w. cbn. unfold plumbing_write. destruct (p_faults w) as [|[] f]; cbn; (split; [done|]); try done;
      (split; [rewrite length_take; lia|]); f_equal; destruct b as [|? [|? [|? b]]]; reflexivity.
  - intros n w. cbn. unfold plumbing_read. destruct (p_input w) as [|b r]; cbn; [done|].
    split; [done|]. split; [|done]. rewrite length_take. lia.
Defined.

Definition sample_pipe (deadline : option Z) : Plumbing :=
  Build_Plumbing [&"hello "; &"world"] [] [] [false; true; false] 0 deadline.

(** Everything arrives, over a failed write; and with a deadline, what does
    not arrive in time is counted. *)
Lemma drain_accounts_witness :
  (copy_pipe 100 (sample_pipe None)).1 = Return (Ok {| written := 11; dropped := 0 |})
  /\ p_stored (copy_pipe 100 (sample_pipe None)).2 = &"hello world"
  /\ (copy_pipe 100 (sample_pipe (Some 20000000))).1 = Return (Err (drain_error 8))
  /\ round_ok [] [] (copy_pipe 100 (sample_pipe (Some 20000000))).1 (copy_pipe 100 (sample_pipe (Some 20000000))).2.
Proof.
  split; [vm_compute; reflexivity|]. split; [vm_compute; reflexivity|]. split; [vm_compute; reflexivity|].
  exact (drain_accounts 100 (sample_pipe (Some 20000000)) _ _ (surjective_pairing _)).
Defined.
