(* ===== verification/Utf8.v ===== *)
(** * UTF-8: [str::as_bytes] and [str::len]

    The bytes of a Rust string, where the program looks at bytes instead of
    characters, with the injectivity of the encoding. *)

From Stdlib Require Import ZArith Lia List.
From S2P Require Import Prelude Text.

Definition utf8_char (c : rchar) : list Z :=
  if c <? 128 then [c]
  else if c <? 2048 then [192 + c / 64; 128 + c mod 64]
  else if c <? 65536 then [224 + c / 4096; 128 + c / 64 mod 64; 128 + c mod 64]
  else [240 + c / 262144; 128 + c / 4096 mod 64; 128 + c / 64 mod 64; 128 + c mod 64].
Definition as_bytes (s : rstr) : list Z := flat_map utf8_char s.
(** [str::len] *)
Definition str_len (s : rstr) : Z := Z.of_nat (List.length (as_bytes s)).

Lemma as_bytes_app s t : as_bytes (s ++ t) = as_bytes s ++ as_bytes t.
Proof. apply flat_map_app. Qed.

(** The encoding of one character is no proper prefix of another's. *)
Lemma utf8_char_inj c d x y :
  scalar c -> scalar d -> utf8_char c ++ x = utf8_char d ++ y -> c = d /\ x = y.
Proof.
  unfold scalar, utf8_char. intros Hc Hd.
  destruct (Z.ltb_spec c 128), (Z.ltb_spec d 128); cbn [app];
  destruct (Z.ltb_spec c 2048), (Z.ltb_spec d 2048); cbn [app];
  destruct (Z.ltb_spec c 65536), (Z.ltb_spec d 65536); cbn [app];
    try (intros H'; exfalso; lia);
    injection 1; intros; subst;
    try (exfalso; Z.to_euclidean_division_equations; lia);
    (split; [Z.to_euclidean_division_equations; lia|done]).
Qed.

Lemma as_bytes_inj s t : wf_str s -> wf_str t -> as_bytes s = as_bytes t -> s = t.
Proof.
  intros Hs. revert t. induction Hs as [|c s Hc Hs IH]; intros [|d t] Ht H; cbn in H; try done.
  - exfalso. revert H. unfold utf8_char. by repeat case_match.
  - exfalso. revert H. unfold utf8_char. by repeat case_match.
  - inversion Ht; subst. apply utf8_char_inj in H as [-> H]; [|done..]. f_equal. by apply IH.
Qed.

Lemma utf8_char_bytes c : scalar c -> Forall u8_wf (utf8_char c).
Proof.
  unfold scalar, utf8_char, u8_wf. intros Hc.
  destruct (Z.ltb_spec c 128); [repeat constructor; lia|].
  destruct (Z.ltb_spec c 2048); [repeat constructor; Z.to_euclidean_division_equations; lia|].
  destruct (Z.ltb_spec c 65536); repeat constructor; Z.to_euclidean_division_equations; lia.
Qed.

Lemma as_bytes_wf s : wf_str s -> Forall u8_wf (as_bytes s).
Proof.
  induction 1 as [|c s Hc _ IH]; [constructor|]. cbn. apply Forall_app. split; [by apply utf8_char_bytes|done].
Qed.

Example utf8_sample : as_bytes &"é€𝄞" = [195; 169; 226; 130; 172; 240; 157; 132; 158].
Proof. reflexivity. Qed.

(** ** [String::from_utf8_lossy] *)

Definition continuation (b : Z) : bool := (128 <=? b) && (b <=? 191).
(** How many bytes a first byte announces; 0 for a byte that can be none. *)
Definition utf8_width (b : Z) : Z :=
  if b <? 128 then 1
  else if (194 <=? b) && (b <=? 223) then 2
  else if (224 <=? b) && (b <=? 239) then 3
  else if (240 <=? b) && (b <=? 244) then 4
  else 0.
(** The second bytes that continue [b0]: no overlong form, no surrogate, nothing past U+10FFFF. *)
Definition second_byte (b0 b1 : Z) : bool :=
  if b0 =? 224 then (160 <=? b1) && (b1 <=? 191)
  else if b0 =? 237 then (128 <=? b1) && (b1 <=? 159)
  else if b0 =? 240 then (144 <=? b1) && (b1 <=? 191)
  else if b0 =? 244 then (128 <=? b1) && (b1 <=? 143)
  else continuation b1.
Definition replacement : rchar := 65533.

(** Each maximal part of an ill-formed sequence becomes one U+FFFD. *)
Fixpoint from_utf8_lossy (l : list Z) : rstr :=
  match l with
  | [] => []
  | b0 :: r =>
      let n := utf8_width b0 in
      if n =? 1 then b0 :: from_utf8_lossy r
      else if n =? 0 then replacement :: from_utf8_lossy r
      else match r with
      | [] => [replacement]
      | b1 :: r1 =>
          if negb (second_byte b0 b1) then replacement :: from_utf8_lossy r
          else if n =? 2 then ((b0 - 192) * 64 + (b1 - 128)) :: from_utf8_lossy r1
          else match r1 with
          | [] => [replacement]
          | b2 :: r2 =>
              if negb (continuation b2) then replacement :: from_utf8_lossy r1
              else if n =? 3 then ((b0 - 224) * 4096 + (b1 - 128) * 64 + (b2 - 128)) :: from_utf8_lossy r2
              else match r2 with
              | [] => [replacement]
              | b3 :: r3 =>
                  if negb (continuation b3) then replacement :: from_utf8_lossy r2
                  else ((b0 - 240) * 262144 + (b1 - 128) * 4096 + (b2 - 128) * 64 + (b3 - 128)) :: from_utf8_lossy r3
              end
          end
      end
  end.

Lemma utf8_width_spec b n :
  (b < 128 /\ n = 1) \/ (128 <= b <= 191 /\ n = 0) \/ (194 <= b <= 223 /\ n = 2) \/ (224 <= b <= 239 /\ n = 3) \/ (240 <= b <= 244 /\ n = 4) ->
  utf8_width b = n.
Proof.
  unfold utf8_width. destruct (Z.ltb_spec b 128); [lia|].
  destruct (Z.leb_spec 194 b), (Z.leb_spec b 223), (Z.leb_spec 224 b), (Z.leb_spec b 239), (Z.leb_spec 240 b), (Z.leb_spec b 244); cbn; lia.
Qed.
Lemma continuation_iff b : continuation b = true <-> 128 <= b <= 191.
Proof. unfold continuation. rewrite andb_true_iff, !Z.leb_le. done. Qed.

Lemma second_byte_spec b0 b1 : 128 <= b1 <= 191 ->
  (b0 = 224 -> 160 <= b1) -> (b0 = 237 -> b1 <= 159) -> (b0 = 240 -> 144 <= b1) -> (b0 = 244 -> b1 <= 143) ->
  second_byte b0 b1 = true.
Proof.
  intros. unfold second_byte, continuation.
  destruct (Z.eqb_spec b0 224), (Z.eqb_spec b0 237), (Z.eqb_spec b0 240), (Z.eqb_spec b0 244); apply andb_true_intro; rewrite !Z.leb_le; lia.
Qed.

(** The three well-formed forms. *)
Lemma lossy_cons b0 r : from_utf8_lossy (b0 :: r) =
  if utf8_width b0 =? 1 then b0 :: from_utf8_lossy r
  else if utf8_width b0 =? 0 then replacement :: from_utf8_lossy r
  else match r with
  | [] => [replacement]
  | b1 :: r1 =>
      if negb (second_byte b0 b1) then replacement :: from_utf8_lossy r
      else if utf8_width b0 =? 2 then ((b0 - 192) * 64 + (b1 - 128)) :: from_utf8_lossy r1
      else match r1 with
      | [] => [replacement]
      | b2 :: r2 =>
          if negb (continuation b2) then replacement :: from_utf8_lossy r1
          else if utf8_width b0 =? 3 then ((b0 - 224) * 4096 + (b1 - 128) * 64 + (b2 - 128)) :: from_utf8_lossy r2
          else match r2 with
          | [] => [replacement]
          | b3 :: r3 =>
              if negb (continuation b3) then replacement :: from_utf8_lossy r2
              else ((b0 - 240) * 262144 + (b1 - 128) * 4096 + (b2 - 128) * 64 + (b3 - 128)) :: from_utf8_lossy r3
          end
      end
  end.
Proof. reflexivity. Qed.

Ltac lossy_form n :=
  rewrite lossy_cons, (utf8_width_spec _ n) by lia; rewrite second_byte_spec by lia;
  rewrite ?(proj2 (continuation_iff _)) by lia; cbn -[from_utf8_lossy Z.add Z.sub Z.mul]; f_equal; lia.

(** Six bits at a time. *)
Lemma bits_12 c : c / 4096 * 4096 + c / 64 mod 64 * 64 + c mod 64 = c.
Proof.
  pose proof (Z.div_mod c 64 ltac:(lia)). pose proof (Z.div_mod (c / 64) 64 ltac:(lia)) as H2.
  rewrite Z.div_div in H2 by lia. change (64 * 64) with 4096 in H2. lia.
Qed.
Lemma bits_18 c : c / 262144 * 262144 + c / 4096 mod 64 * 4096 + c / 64 mod 64 * 64 + c mod 64 = c.
Proof.
  pose proof (bits_12 c). pose proof (Z.div_mod (c / 4096) 64 ltac:(lia)) as H2.
  rewrite Z.div_div in H2 by lia. change (4096 * 64) with 262144 in H2. lia.
Qed.

Lemma lossy_utf8_char c r : scalar c -> from_utf8_lossy (utf8_char c ++ r) = c :: from_utf8_lossy r.
Proof.
  intros Hc. unfold scalar in Hc. unfold utf8_char.
  pose proof (Z.mod_pos_bound c 64 ltac:(lia)). pose proof (Z.mod_pos_bound (c / 64) 64 ltac:(lia)).
  pose proof (Z.mod_pos_bound (c / 4096) 64 ltac:(lia)).
  destruct (Z.ltb_spec c 128); [|destruct (Z.ltb_spec c 2048); [|destruct (Z.ltb_spec c 65536)]]; cbn [app].
  - by rewrite lossy_cons, (utf8_width_spec _ 1) by lia.
  - pose proof (Z.div_mod c 64 ltac:(lia)). set (p := c / 64) in *. set (q := c mod 64) in *. clearbody p q. lossy_form 2.
  - pose proof (bits_12 c). set (p := c / 4096) in *. set (q := c / 64 mod 64) in *. set (u := c mod 64) in *.
    clearbody p q u. lossy_form 3.
  - pose proof (bits_18 c). set (p := c / 262144) in *. set (q := c / 4096 mod 64) in *. set (t := c / 64 mod 64) in *.
    set (u := c mod 64) in *. clearbody p q t u. lossy_form 4.
Qed.

(** What is well formed decodes to itself. *)
Lemma lossy_as_bytes s : wf_str s -> from_utf8_lossy (as_bytes s) = s.
Proof.
  induction 1 as [|c s Hc _ IH]; [done|]. cbn [as_bytes flat_map]. rewrite lossy_utf8_char by done. by f_equal.
Qed.

(** The rest of a cut character is so many replacements. *)
Lemma lossy_continuations g r : Forall (fun b => continuation b = true) g ->
  from_utf8_lossy (g ++ r) = repeat replacement (length g) ++ from_utf8_lossy r.
Proof.
  induction 1 as [|b g Hb _ IH]; [done|]. cbn [app length repeat]. rewrite <- IH. apply continuation_iff in Hb.
  by rewrite lossy_cons, (utf8_width_spec _ 0) by lia.
Qed.

Lemma utf8_char_tail c k : scalar c -> (0 < k)%nat ->
  Forall (fun b => continuation b = true) (drop k (utf8_char c)) /\ (length (drop k (utf8_char c)) <= 3)%nat.
Proof.
  intros Hc Hk. unfold scalar in Hc. destruct k as [|k]; [lia|]. split.
  - apply (Forall_impl (fun b => 128 <= b <= 191)); [|intros b; unfold continuation; lia]. unfold utf8_char.
    destruct (Z.ltb_spec c 128); [|destruct (Z.ltb_spec c 2048); [|destruct (Z.ltb_spec c 65536)]]; cbn [drop];
      try apply Forall_drop; repeat constructor; Z.to_euclidean_division_equations; lia.
  - rewrite length_drop. unfold utf8_char. destruct (_ <? _); [|destruct (_ <? _); [|destruct (_ <? _)]]; cbn; lia.
Qed.

Lemma drop_as_bytes s k : wf_str s ->
  exists cut rest g, s = cut ++ rest /\ drop k (as_bytes s) = g ++ as_bytes rest
    /\ Forall (fun b => continuation b = true) g /\ (length g <= 3)%nat.
Proof.
  intros Hs. revert k. induction Hs as [|c s Hc Hs IH]; intros k.
  - exists [], [], []. split; [done|]. split; [by destruct k|]. split; [constructor|cbn; lia].
  - destruct k as [|k]; [exists [], (c :: s), []; rewrite drop_0; split; [done|]; split; [done|]; split; [constructor|cbn; lia]|]. cbn [as_bytes flat_map].
    destruct (decide (length (utf8_char c) <= S k)%nat) as [Hl|Hl].
    + rewrite drop_app_ge by done. destruct (IH (S k - length (utf8_char c))%nat) as (cut & rest & g & -> & E & Hg & Hn).
      exists (c :: cut), rest, g. split; [done|]. split; [exact E|by split].
    + rewrite drop_app_le by lia. exists [c], s, (drop (S k) (utf8_char c)). split; [done|]. split; [done|].
      apply utf8_char_tail; [done|lia].
Qed.
