(* ===== verification/BrokerPipe.v ===== *)
(** * The elevated broker: servicemanager-broker [protocol.rs] and [pipe.rs]

    Frames on the pipe, the capability token, admission of work against idle
    shutdown, the slots of workers, the watchdog of one connection, and the
    loop that serves a connection as a program of its calls. JSON is an
    interface; times are in nanoseconds. *)

From Stdlib Require Import ZArith Lia List.
From S2P Require Import Prelude Text Utf8 Model Effects.

Abbreviation bytes := (list Z) (only parsing).

(** ** protocol.rs *)

Definition pipe_name_for (owner_sid pipe_nonce : rstr) : rstr :=
  &"\\.\pipe\NGSM-broker-" ++ owner_sid ++ &"-" ++ pipe_nonce.

(** [serde_json::Value]; a number is kept as its JSON text. *)
Inductive Value :=
| VNull | VBool (b : bool) | VNumber (text : rstr) | VString (s : rstr)
| VArray (l : list Value) | VObject (fields : list (rstr * Value)).

Definition value_get (key : rstr) (v : Value) : option Value :=
  match v with
  | VObject fields => snd <$> find (fun f => str_eqb f.1 key) fields
  | _ => None
  end.
Definition as_str (v : Value) : option rstr := match v with VString s => Some s | _ => None end.

Record Request := { req_id : option rstr; req_token : option rstr; req_op : rstr; req_args : Value }.
Record Response := {
  resp_id : option rstr; resp_status : rstr; resp_result : option Value; resp_error : option rstr }.

Definition response_ok (id : option rstr) (r : Value) : Response :=
  {| resp_id := id; resp_status := &"ok"; resp_result := Some r; resp_error := None |}.
Definition response_err (id : option rstr) (message : rstr) : Response :=
  {| resp_id := id; resp_status := &"error"; resp_result := None; resp_error := Some message |}.

(** The loop over the zipped bytes, [diff |= a ^ b]. *)
Definition byte_diff (expected presented : bytes) : Z :=
  fold_left (fun diff '(a, b) => Z.lor diff (Z.lxor a b)) (combine expected presented) 0.
Definition token_matches (expected : rstr) (presented : option rstr) : bool :=
  match presented with
  | None => false
  | Some presented =>
      if negb (str_len expected =? str_len presented) then false
      else byte_diff (as_bytes expected) (as_bytes presented) =? 0
  end.

(** ** Limits *)

Definition MAX_CONCURRENT_CONNECTIONS : Z := 16.
Definition MAX_BUSY_CONNECTIONS : Z := 1.
Definition MAX_PIPE_INSTANCES : Z := MAX_CONCURRENT_CONNECTIONS + MAX_BUSY_CONNECTIONS + 1.
Definition MAX_FRAME_BYTES : Z := 256 * 1024.
Definition MIN_TOKEN_LEN : Z := 32.
Definition MIN_TOKEN_DISTINCT : Z := 10.
Definition MIN_PIPE_NONCE_LEN : Z := 16.

Definition seconds (s : Z) : Z := s * 1000000000.

Record ConnectionLimits := { io_timeout : Z; lifetime : Z; watchdog_tick : Z }.
Definition ConnectionLimits_default : ConnectionLimits :=
  {| io_timeout := seconds 30; lifetime := seconds 600; watchdog_tick := seconds 2 |}.
(** The limits of a connection that is only told that the broker is busy. *)
Definition busy_limits : ConnectionLimits :=
  {| io_timeout := seconds 2; lifetime := lifetime ConnectionLimits_default;
     watchdog_tick := watchdog_tick ConnectionLimits_default |}.

(** ** Launch parameters *)

Definition count_text (n : Z) : rstr := to_dec n.
Definition chars_count (s : rstr) : Z := Z.of_nat (List.length s).

Definition validate_auth_token (token : rstr) : result Error unit :=
  if chars_count token <? MIN_TOKEN_LEN
  then Err (error_other (&"broker capability token is too short (" ++ count_text (chars_count token)
         ++ &" chars) — at least " ++ count_text MIN_TOKEN_LEN
         ++ &" characters of CSPRNG-generated entropy are required"))
  else if any (fun c => is_whitespace c || is_control c) token
  then Err (error_other &"broker capability token must not contain whitespace or control characters")
  else
    let distinct := Z.of_nat (List.length (remove_dups token)) in
    if distinct <? MIN_TOKEN_DISTINCT
    then Err (error_other (&"broker capability token has only " ++ count_text distinct
           ++ &" distinct characters — it does not look like a randomly-generated secret"))
    else Ok tt.

Definition is_ascii_alphanumeric (c : rchar) : bool := is_ascii_alphabetic c || is_ascii_digit c.
Definition nonce_char (c : rchar) : bool := is_ascii_alphanumeric c || (c =? 45) || (c =? 95).

Definition validate_pipe_nonce (nonce : rstr) : result Error unit :=
  if chars_count nonce <? MIN_PIPE_NONCE_LEN
  then Err (error_other (&"broker pipe nonce is too short (" ++ count_text (chars_count nonce)
         ++ &" chars) — at least " ++ count_text MIN_PIPE_NONCE_LEN ++ &" characters are required"))
  else if negb (forallb nonce_char nonce)
  then Err (error_other &"broker pipe nonce must contain only ASCII letters, digits, '-' or '_'")
  else Ok tt.

Definition build_sddl (owner_sid : rstr) : rstr :=
  &"D:P(A;;0x12019f;;;BA)(A;;0x12019b;;;" ++ owner_sid ++ &")".

(** ** Audit records *)

Definition sanitize_log (s : rstr) : rstr :=
  map (fun c => if is_control c then 65533 else c) (take 256 s)
  ++ (if 256 <? chars_count s then &"…" else []).

Definition audit_record (op target outcome : rstr) (error : option rstr) : Value :=
  VObject ([(&"op", VString op); (&"target", VString target); (&"result", VString outcome)]
           ++ match error with Some e => [(&"error", VString e)] | None => [] end).

(** ** Admission of work *)

Record ActivityState := {
  last_activity : Z; active_work : Z; authenticated_work : Z; draining : bool; shutdown_claimed : bool }.
Definition activity_new (now : Z) : ActivityState := Build_ActivityState now 0 0 false false.

(** [Some] is the guard. *)
Definition admit_at (authenticated : bool) (now : Z) (a : ActivityState) : bool * ActivityState :=
  if draining a || shutdown_claimed a then (false, a)
  else (true, Build_ActivityState (if authenticated then now else last_activity a) (active_work a + 1)
                (authenticated_work a + (if authenticated then 1 else 0)) (draining a) (shutdown_claimed a)).

Definition finish (authenticated : bool) (now : Z) (a : ActivityState) : ActivityState :=
  Build_ActivityState (if authenticated then now else last_activity a) (active_work a - 1)
    (authenticated_work a - (if authenticated then 1 else 0)) (draining a) (shutdown_claimed a).

Definition claim_idle_shutdown (now timeout : Z) (a : ActivityState) : bool * ActivityState :=
  if shutdown_claimed a || negb (authenticated_work a =? 0) then (false, a)
  else
    let drain := (timeout <=? sat_sub now (last_activity a)) || draining a in
    let claimed := drain && (active_work a =? 0) in
    (claimed, Build_ActivityState (last_activity a) (active_work a) (authenticated_work a) drain claimed).

(** ** Slots of workers *)

Definition reserve (limit counter : Z) : option Z := if counter <? limit then Some (counter + 1) else None.
Definition release (counter : Z) : Z := counter - 1.

Record Slots := { active_connections : Z; busy_connections : Z }.
(** What the accept loop does with a connected client: a worker ([false]), a
    busy response ([true]), or an immediate disconnect. *)
Definition accept_slot (s : Slots) : option (bool * Slots) :=
  match reserve MAX_CONCURRENT_CONNECTIONS (active_connections s) with
  | Some n => Some (false, Build_Slots n (busy_connections s))
  | None =>
      match reserve MAX_BUSY_CONNECTIONS (busy_connections s) with
      | Some n => Some (true, Build_Slots (active_connections s) n)
      | None => None
      end
  end.
Definition drop_slot (busy : bool) (s : Slots) : Slots :=
  if busy then Build_Slots (active_connections s) (release (busy_connections s))
  else Build_Slots (release (active_connections s)) (busy_connections s).

(** ** Frames

    What arrives on a pipe comes in pieces of any size; [None] ends the stream
    after them, [Some e] makes further reads fail. A write of no bytes makes a
    read return none, which [read_exact] takes for the end. *)

Definition to_be_bytes (n : Z) : bytes := [n / 16777216 mod 256; n / 65536 mod 256; n / 256 mod 256; n mod 256].
Definition from_be_bytes (b : bytes) : Z := fold_left (fun acc x => acc * 256 + x) b 0.

Definition unexpected_eof : io_error := mk_io_error KUnexpectedEof &"failed to fill whole buffer".

Definition put_back (c : bytes) (r : list bytes) : list bytes := if is_empty c then r else c :: r.

Fixpoint read_exact (last : option io_error) (n : nat) (chunks : list bytes) : result io_error bytes * list bytes :=
  match n with
  | O => (Ok [], chunks)
  | _ =>
      match chunks with
      | [] => (Err (unwrap_or unexpected_eof last), [])
      | [] :: r => (Err unexpected_eof, r)
      | c :: r =>
          if (n <=? List.length c)%nat then (Ok (take n c), put_back (drop n c) r)
          else match read_exact last (n - List.length c) r with
               | (Ok b, r') => (Ok (c ++ b), r')
               | (Err e, r') => (Err e, r')
               end
      end
  end.

Definition ends_stream (e : io_error) : bool :=
  bool_decide (io_error_kind e = KUnexpectedEof) || bool_decide (io_error_kind e = KBrokenPipe).

Definition read_frame (last : option io_error) : M (list bytes) io_error (option bytes) :=
  fun chunks =>
    match read_exact last 4 chunks with
    | (Err e, rest) => (if ends_stream e then Ok None else Err e, rest)
    | (Ok len_buf, rest) =>
        let len := from_be_bytes len_buf in
        if len =? 0 then (Ok (Some []), rest)
        else if MAX_FRAME_BYTES <? len
        then (Err (mk_io_error KInvalidData (&"frame too large: " ++ to_dec len ++ &" bytes")), rest)
        else match read_exact last (Z.to_nat len) rest with
             | (Ok body, rest) => (Ok (Some body), rest)
             | (Err e, rest) => (Err e, rest)
             end
    end.

Definition write_frame {W} (write_all : bytes -> M W io_error unit) (body : bytes) : M W io_error unit :=
  let len := Z.of_nat (List.length body) in
  if u32_max <? len then mfail (mk_io_error KInvalidData &"response frame is too large")
  else write_all (to_be_bytes len) ;! write_all body.

(** ** The watchdog of a connection *)

Record IoWatchState := { waiting_since : option Z; watch_done : bool; watch_timed_out : bool }.
Definition watch_new : IoWatchState := Build_IoWatchState None false false.

Definition begin_io (now : Z) (w : IoWatchState) : result io_error IoWatchState :=
  if watch_timed_out w
  then Err (mk_io_error KTimedOut &"broker connection I/O or lifetime limit exceeded")
  else Ok (Build_IoWatchState (Some now) (watch_done w) (watch_timed_out w)).
Definition end_io (w : IoWatchState) : IoWatchState :=
  Build_IoWatchState None (watch_done w) (watch_timed_out w).
Definition close_watch (w : IoWatchState) : IoWatchState :=
  Build_IoWatchState (waiting_since w) true (watch_timed_out w).

Inductive Verdict := WatchEnds | WatchCancels | WatchWaits.

(** One turn of the loop of [connection_watchdog]. *)
Definition watchdog_round (limits : ConnectionLimits) (started now : Z) (w : IoWatchState) : Verdict * IoWatchState :=
  if watch_done w then (WatchEnds, w)
  else
    let io_stalled := is_some_and (fun since => io_timeout limits <=? sat_sub now since) (waiting_since w) in
    if io_stalled || (lifetime limits <=? sat_sub now started)
    then (WatchCancels, Build_IoWatchState (waiting_since w) (watch_done w) true)
    else (WatchWaits, w).

(** ** Serving a connection *)

(** The calls of a worker; [CallRead] and [CallSend] are [Connection::read]
    and [Connection::send], [OpenConnection] is [Connection::new]. A call's
    error is its text. *)
Inductive PipeE : Type -> Type :=
| OpenConnection : PipeE unit
| CallRead : PipeE (option bytes)
| CallSend (r : Response) (terminal : bool) : PipeE unit
| Admit (authenticated : bool) : PipeE bool
| FinishWork (authenticated : bool) : PipeE unit
| Audit (record : Value) : PipeE unit
| Eprintln (message : rstr) : PipeE unit
| ThreadSleep (ms : Z) : PipeE unit
| Dispatch (r : Request) : PipeE Value
| Disconnect : PipeE unit.
Abbreviation PipeProg A := (Prog PipeE rstr A) (only parsing).
Abbreviation PipeEvent := (Event PipeE rstr) (only parsing).

Inductive FrameOutcome := Authenticated | Rejected.
(** The guard held is that of authenticated work or not. *)
Record PreparedResponse := { response : Response; outcome : FrameOutcome; work : bool }.

(** [serde_json], as far as requests go. *)
Class Serde := { from_slice : bytes -> result rstr Request }.

Section Serve.
Context {SJ : Serde}.

(** [state.activity.admit(..)?] *)
Definition admitted (authenticated : bool) (k : PipeProg (option PreparedResponse)) : PipeProg (option PreparedResponse) :=
  pthen (perform (Admit authenticated)) (fun granted =>
    match granted with Ok true => k | _ => PRet (Ok None) end).

(** A call whose result is not looked at. *)
Definition also {A} (e : PipeE unit) (k : PipeProg A) : PipeProg A := pthen (perform e) (fun _ => k).

Definition process_request (auth_token : rstr) (buf : bytes) : PipeProg (option PreparedResponse) :=
  match from_slice buf with
  | Err e =>
      admitted false (PRet (Ok (Some {|
        response := response_err None (&"invalid request: " ++ e); outcome := Rejected; work := false |})))
  | Ok req =>
      let id := req_id req in
      let op := sanitize_log (req_op req) in
      let target := sanitize_log (unwrap_or &"-" (match value_get &"name" (req_args req) with
                                                  | Some v => as_str v | None => None end)) in
      if negb (token_matches auth_token (req_token req)) then
        admitted false (
          also (Audit (audit_record op target &"rejected" (Some &"invalid capability token"))) (
          also (ThreadSleep 200) (
          PRet (Ok (Some {| response := response_err None &"unauthorized: invalid capability token";
                            outcome := Rejected; work := false |})))))
      else
        admitted true (
          pthen (perform (Dispatch req)) (fun dispatched =>
            match dispatched with
            | Ok value =>
                also (Audit (audit_record op target &"ok" None)) (
                PRet (Ok (Some {| response := response_ok id value; outcome := Authenticated; work := true |})))
            | Err msg =>
                also (Audit (audit_record op target &"error" (Some (sanitize_log msg)))) (
                PRet (Ok (Some {| response := response_err id msg; outcome := Authenticated; work := true |})))
            end))
  end.

Definition is_terminal (o : FrameOutcome) : bool := match o with Rejected => true | Authenticated => false end.

(** One turn of the loop of [handle_connection]: whether it goes on. The guard
    in the prepared response is dropped at the end of the turn. *)
Definition serve_frame (auth_token : rstr) : PipeProg bool :=
  pthen (perform CallRead) (fun frame =>
    match frame with
    | Ok (Some buf) =>
        let@ prepared := process_request auth_token buf in
        match prepared with
        | None => PRet (Ok false)
        | Some p =>
            let terminal := is_terminal (outcome p) in
            pthen (perform (CallSend (response p) terminal)) (fun sent =>
              match sent with
              | Err e => also (Eprintln (&"[broker] response write/drain failed: " ++ e))
                           (also (FinishWork (work p)) (PRet (Ok false)))
              | Ok _ => also (FinishWork (work p)) (PRet (Ok (negb terminal)))
              end)
        end
    | Ok None => PRet (Ok false)
    | Err e => also (Eprintln (&"[broker] dropping connection after frame error: " ++ e)) (PRet (Ok false))
    end).

Fixpoint serve_loop (frames : nat) (auth_token : rstr) : PipeProg unit :=
  match frames with
  | O => PRet (Ok tt)
  | S n => let@ more := serve_frame auth_token in if more then serve_loop n auth_token else PRet (Ok tt)
  end.

(** The connection's drop disconnects the pipe. *)
Definition handle_connection (frames : nat) (auth_token : rstr) : PipeProg unit :=
  pthen (perform OpenConnection) (fun opened =>
    match opened with
    | Err e => also (Eprintln (&"[broker] cannot serve connection: " ++ e)) (PRet (Ok tt))
    | Ok _ => pfinally (serve_loop frames auth_token) (perform Disconnect)
    end).

Definition reject_busy : PipeProg unit :=
  pthen (perform (Admit false)) (fun granted =>
    match granted with
    | Ok true =>
        pfinally (perform OpenConnection ;@
                  pfinally (pmap_err (fun e => &"send busy response: " ++ e)
                              (perform (CallSend (response_err None &"broker is busy") true)))
                           (perform Disconnect))
                 (perform (FinishWork false))
    | _ => also Disconnect (PRet (Ok tt))
    end).
End Serve.

(** ** Reading and sending on a connection

    The watch is shared with the watchdog; the pipe is an interface. *)
Section ConnectionIo.
Context {W : Type} (now : W -> Z) (watch : W -> IoWatchState) (set_watch : IoWatchState -> W -> W).
Variables (pipe_read : M W io_error (option bytes)) (pipe_write : bytes -> M W io_error unit).
Variables (to_vec : Response -> result io_error bytes) (flush_file_buffers : M W io_error unit).

(** [let _waiting = self.watch.begin_io()?; body] *)
Definition waiting {A} (body : M W io_error A) : M W io_error A := fun w =>
  match begin_io (now w) (watch w) with
  | Err e => (Err e, w)
  | Ok wt => let '(r, w1) := body (set_watch wt w) in (r, set_watch (end_io (watch w1)) w1)
  end.

Definition connection_read : M W io_error (option bytes) := waiting pipe_read.

Definition connection_send (r : Response) (terminal : bool) : M W io_error unit :=
  let! body := mlift (to_vec r) in
  waiting (write_frame pipe_write body ;!
           if terminal
           then fun w => let '(r, w1) := flush_file_buffers w in
                         (map_err (fun e => mk_io_error KOther (&"FlushFileBuffers: " ++ io_error_text e)) r, w1)
           else mret tt).
End ConnectionIo.

(** ** The server *)

Inductive ServerE : Type -> Type :=
| ConvertSid (sid : rstr) : ServerE unit
| SpawnIdleWatchdog (timeout_secs : Z) : ServerE unit
| CreateInstance (name sddl : rstr) (first : bool) : ServerE Z
| ConnectClient (pipe : Z) : ServerE unit
| ReserveSlot (busy : bool) : ServerE bool
| SpawnWorker (pipe : Z) (busy : bool) : ServerE unit
| DisconnectClient (pipe : Z) : ServerE unit
| ServerLog (message : rstr) : ServerE unit
| ServerSleep (ms : Z) : ServerE unit.
Abbreviation ServerProg A := (Prog ServerE Error A) (only parsing).
Abbreviation ServerEvent := (Event ServerE Error) (only parsing).

Definition continuing {A} (e : ServerE unit) (k : ServerProg A) : ServerProg A := pthen (perform e) (fun _ => k).

Definition reserved (busy : bool) (yes no : ServerProg bool) : ServerProg bool :=
  pthen (perform (ReserveSlot busy)) (fun r => match r with Ok true => yes | _ => no end).

Definition spawn_worker (pipe : Z) (busy : bool) : ServerProg bool :=
  pthen (perform (SpawnWorker pipe busy)) (fun r =>
    match r with
    | Ok _ => PRet (Ok false)
    | Err e => continuing (ServerLog (&"[broker] could not start connection worker: " ++ error_to_string e)) (PRet (Ok false))
    end).

(** One turn of the accept loop: whether the next instance is still the first. *)
Definition accept_one (pipe_name sddl : rstr) (first : bool) : ServerProg bool :=
  pthen (perform (CreateInstance pipe_name sddl first)) (fun created =>
    match created with
    | Err e =>
        if first then PRet (Err e)
        else continuing (ServerLog (&"[broker] pipe instance create failed: " ++ error_to_string e ++ &" — retrying"))
               (continuing (ServerSleep 500) (PRet (Ok first)))
    | Ok handle =>
        pthen (perform (ConnectClient handle)) (fun connected =>
          match connected with
          | Err e => continuing (ServerLog (&"[broker] ConnectNamedPipe failed: " ++ error_to_string e)) (PRet (Ok false))
          | Ok _ =>
              reserved false (spawn_worker handle false)
                (reserved true (spawn_worker handle true)
                   (continuing (ServerLog &"[broker] all worker and busy-response slots occupied")
                      (continuing (DisconnectClient handle) (PRet (Ok false)))))
          end)
    end).

Fixpoint accept_loop (turns : nat) (pipe_name sddl : rstr) (first : bool) : ServerProg unit :=
  match turns with
  | O => PRet (Ok tt)
  | S n => let@ first := accept_one pipe_name sddl first in accept_loop n pipe_name sddl first
  end.

Definition validate_owner_sid (owner_sid : rstr) : ServerProg unit :=
  pmap_err (fun e => error_other (&"invalid owner SID '" ++ owner_sid ++ &"': " ++ error_to_string e))
    (perform (ConvertSid owner_sid)).

Definition run_server (turns : nat) (owner_sid pipe_nonce : rstr) (idle_timeout_secs : Z) (auth_token : rstr) : ServerProg unit :=
  plift (validate_auth_token auth_token) ;@
  plift (validate_pipe_nonce pipe_nonce) ;@
  validate_owner_sid owner_sid ;@
  (if idle_timeout_secs =? 0 then PRet (Ok tt) else perform (SpawnIdleWatchdog idle_timeout_secs)) ;@
  accept_loop turns (pipe_name_for owner_sid pipe_nonce) (build_sddl owner_sid) true.

(** ** The capability token *)

Lemma byte_diff_zero acc l m :
  List.length l = List.length m -> 
  fold_left (fun diff '(a, b) => Z.lor diff (Z.lxor a b)) (combine l m) acc = 0 <-> acc = 0 /\ l = m.
Proof.
  revert acc m. induction l as [|a l IH]; intros acc [|b m] Hlen; try discriminate Hlen; cbn; [naive_solver|].
  rewrite IH by (cbn in Hlen; lia). rewrite Z.lor_eq_0_iff, Z.lxor_eq_0_iff. naive_solver.
Qed.

(** Only the exact token matches: the comparison of all bytes is equality. *)
Lemma token_matches_iff expected presented :
  wf_str expected -> (forall t, presented = Some t -> wf_str t) ->
  token_matches expected presented = true <-> presented = Some expected.
Proof.
  intros He Hp. destruct presented as [t|]; cbn; [|done]. specialize (Hp t eq_refl).
  unfold str_len, byte_diff. destruct (Z.eqb_spec (Z.of_nat (List.length (as_bytes expected)))
    (Z.of_nat (List.length (as_bytes t)))) as [E|E]; cbn [negb].
  - rewrite Z.eqb_eq, byte_diff_zero by lia. split; [|by intros [= ->]].
    intros [_ H]. f_equal. symmetry. by apply as_bytes_inj.
  - split; [done|]. by intros [= ->].
Qed.

(** ** What a worker does with a frame *)

Section ServeFacts.
Context {SJ : Serde} (auth_token : rstr).
Implicit Types past log : list PipeEvent.

Definition refused (buf : bytes) : Prop :=
  (exists e, from_slice buf = Err e)
  \/ exists req, from_slice buf = Ok req /\ token_matches auth_token (req_token req) = false.

Definition answer (id : option rstr) (dispatched : result rstr Value) : Response :=
  match dispatched with Ok v => response_ok id v | Err m => response_err id m end.

Definition silent (e : PipeEvent) : bool :=
  match e with Ev c _ => match c with CallSend _ true => false | _ => true end end.
Definition no_dispatch (e : PipeEvent) : bool :=
  match e with Ev c _ => match c with Dispatch _ => false | _ => true end end.
Definition live past : Prop := forallb silent past = true.

(** The frame just read, with its request admitted as authenticated work. *)
Definition authorised past (req : Request) : Prop :=
  exists pre buf, past = pre ++ [Ev CallRead (Ok (Some buf)); Ev (Admit true) (Ok true)]
                  /\ from_slice buf = Ok req /\ token_matches auth_token (req_token req) = true.

Definition call_allowed past (e : PipeEvent) : Prop :=
  match e with
  | Ev c _ =>
      match c with
      | CallRead => live past
      | Dispatch req => live past /\ authorised past req
      | CallSend r false =>
          live past /\
          exists pre req x a y, past = pre ++ [Ev (Dispatch req) x; Ev (Audit a) y]
                                /\ authorised pre req /\ r = answer (req_id req) x
      | CallSend r true =>
          live past /\
          exists pre buf mid, past = pre ++ Ev CallRead (Ok (Some buf)) :: mid
                              /\ forallb no_dispatch mid = true /\ refused buf
                              /\ resp_id r = None /\ resp_result r = None
      | _ => True
      end
  end.

Lemma live_app past l : live (past ++ l) <-> live past /\ forallb silent l = true.
Proof. unfold live. by rewrite forallb_app, andb_true_iff. Qed.

Lemma live_snoc past l : live past -> forallb silent l = true -> live (past ++ l).
Proof. intros H1 H2. by apply live_app. Qed.

Lemma authorised_here past buf req :
  from_slice buf = Ok req -> negb (token_matches auth_token (req_token req)) = false ->
  authorised (past ++ [Ev CallRead (Ok (Some buf)); Ev (Admit true) (Ok true)]) req.
Proof. intros H1 H2. apply negb_false_iff in H2. by exists past, buf. Qed.

Lemma refused_here buf :
  (exists e, from_slice buf = Err e)
  \/ (exists req, from_slice buf = Ok req /\ negb (token_matches auth_token (req_token req)) = true) -> refused buf.
Proof. intros [H|(req & H1 & H2)]; [by left|right]. apply negb_true_iff in H2. eauto. Qed.

(** Find the frame of a call in a log that has been written out. *)
Ltac frame_call :=
  rewrite <- ?app_assoc; cbn [app];
  first
  [ exact I | assumption | reflexivity
  | apply live_snoc; [assumption|reflexivity]
  | apply authorised_here; assumption
  | (eexists _, _, _; split; [reflexivity|]; split; [reflexivity|]; split; [|split; reflexivity];
     apply refused_here; eauto)
  | match goal with
    | past : list PipeEvent, E : from_slice ?l = Ok ?q
      |- exists pre req x a y, ?past ++ Ev ?r ?f :: Ev ?ad ?g :: ?tl = _ /\ _ =>
        exists (past ++ [Ev r f; Ev ad g]), q; do 3 eexists;
        split; [rewrite <- app_assoc; reflexivity|]; split; [apply authorised_here; assumption|reflexivity]
    end ].

Lemma serve_frame_ok past log r :
  runs (serve_frame auth_token) log r -> live past ->
  allowed_from call_allowed past log /\ exists more, r = Ok more /\ (more = true -> live (past ++ log)).
Proof.
  unfold serve_frame, process_request, admitted, also. intros H Hl.
  run_all H; cbn [allowed_from app call_allowed outcome response work is_terminal negb];
    (split; [conj_all; frame_call|eexists; split; [reflexivity|intros Hm; first [discriminate Hm|frame_call]]]).
Qed.

Lemma serve_loop_ok frames past log r :
  runs (serve_loop frames auth_token) log r -> live past -> allowed_from call_allowed past log /\ r = Ok tt.
Proof.
  revert past log. induction frames as [|n IH]; intros past log H Hl; cbn [serve_loop] in H; [by destruct H as [-> ->]|].
  apply runs_bind in H as [(e & -> & H)|(l1 & l2 & more & -> & H1 & H2)].
  - apply (serve_frame_ok past) in H as (_ & more & Hm & _); [discriminate Hm|done].
  - apply (serve_frame_ok past) in H1 as (A1 & more' & [= <-] & Hm); [|done]. destruct more.
    + destruct (IH (past ++ l1) l2 H2 (Hm eq_refl)) as [A2 Hr]. split; [by apply allowed_from_app|done].
    + destruct H2 as [-> ->]. split; [by rewrite app_nil_r|done].
Qed.
End ServeFacts.


(** ** Idle shutdown

    The state and the guards that are out, [true] for authenticated work. *)

Inductive ActStep := SAdmit (authenticated : bool) (now : Z) | SFinish (authenticated : bool) (now : Z) | SCheck (now : Z).

Inductive act_step (timeout : Z) : ActivityState * list bool -> ActStep -> ActivityState * list bool -> Prop :=
| step_admit a g auth now ok a' :
    admit_at auth now a = (ok, a') -> act_step timeout (a, g) (SAdmit auth now) (a', if ok then auth :: g else g)
| step_finish a g1 auth g2 now :
    act_step timeout (a, g1 ++ auth :: g2) (SFinish auth now) (finish auth now a, g1 ++ g2)
| step_check a g now c a' :
    claim_idle_shutdown now timeout a = (c, a') -> act_step timeout (a, g) (SCheck now) (a', g).

Inductive act_steps (timeout : Z) : ActivityState * list bool -> list ActStep -> ActivityState * list bool -> Prop :=
| act_refl s : act_steps timeout s [] s
| act_next s1 e s2 tr s3 : act_step timeout s1 e s2 -> act_steps timeout s2 tr s3 -> act_steps timeout s1 (e :: tr) s3.

Definition act_reachable (timeout : Z) (s : ActivityState * list bool) : Prop :=
  exists start tr, act_steps timeout (activity_new start, []) tr s.

Definition is_finish (e : ActStep) : bool := match e with SFinish _ _ => true | _ => false end.
Definition finishes (tr : list ActStep) : nat := List.length (List.filter is_finish tr).
Definition authenticated_guards (g : list bool) : Z := Z.of_nat (List.length (List.filter (fun b => b) g)).

(** The counters count the guards, so they never go below zero; a claimed
    shutdown leaves no work. *)
Record act_ok (s : ActivityState * list bool) : Prop := {
  ok_active : active_work s.1 = Z.of_nat (List.length s.2);
  ok_auth : authenticated_work s.1 = authenticated_guards s.2;
  ok_claimed : shutdown_claimed s.1 = true -> s.2 = [] }.

Lemma act_step_ok timeout s e s' : act_step timeout s e s' -> act_ok s -> act_ok s'.
Proof.
  destruct 1 as [a g auth now ok a' H|a g1 auth g2 now|a g now c a' H]; intros [O1 O2 O3]; cbn [fst snd] in *.
  - unfold admit_at in H. destruct (draining a || shutdown_claimed a) eqn:E; injection H as <- <-; [by split|].
    apply orb_false_iff in E as [_ E]. split; cbn [fst snd active_work authenticated_work shutdown_claimed List.length].
    + lia.
    + unfold authenticated_guards in *. destruct auth; cbn; lia.
    + congruence.
  - unfold authenticated_guards in *. rewrite List.filter_app, length_app in O2. rewrite length_app in O1.
    split; cbn [fst snd finish active_work authenticated_work shutdown_claimed].
    + rewrite length_app. cbn in O1. lia.
    + unfold authenticated_guards. rewrite List.filter_app, length_app. destruct auth; cbn in *; lia.
    + intros H. specialize (O3 H). by destruct g1.
  - unfold claim_idle_shutdown in H. destruct (_ || _) eqn:E; injection H as <- <-; [by split|].
    split; cbn; [done..|]. intros H. apply andb_true_iff in H as [_ H]. apply Z.eqb_eq in H.
    destruct g; [done|]. cbn in O1. lia.
Qed.

Lemma act_steps_ok timeout s tr s' : act_steps timeout s tr s' -> act_ok s -> act_ok s'.
Proof. induction 1 as [|s1 e s2 tr s3 H _ IH]; [done|]. intros Hs. by eapply IH, act_step_ok. Qed.

Lemma act_reachable_ok timeout s : act_reachable timeout s -> act_ok s.
Proof. intros (start & tr & H). eapply act_steps_ok; [exact H|by split]. Qed.

Lemma draining_step timeout s e s' :
  act_step timeout s e s' -> draining s.1 = true ->
  draining s'.1 = true /\ (List.length s'.2 + (if is_finish e then 1 else 0) = List.length s.2)%nat.
Proof.
  destruct 1 as [a g auth now ok a' H|a g1 auth g2 now|a g now c a' H]; cbn [fst snd is_finish]; intros Hd.
  - unfold admit_at in H. rewrite Hd in H. injection H as <- <-. split; [done|]. cbn. lia.
  - split; [done|]. rewrite !length_app. cbn. lia.
  - unfold claim_idle_shutdown in H. destruct (_ || _); injection H as <- <-; cbn; rewrite ?Hd, ?orb_true_r; (split; [done|lia]).
Qed.

Lemma draining_steps timeout s tr s' :
  act_steps timeout s tr s' -> draining s.1 = true ->
  draining s'.1 = true /\ (List.length s'.2 + finishes tr = List.length s.2)%nat.
Proof.
  unfold finishes. induction 1 as [s|s1 e s2 tr s3 H _ IH]; cbn; [by rewrite Nat.add_0_r|]. intros Hd.
  apply draining_step in H as [H1 H2]; [|done]. destruct (IH H1) as [H3 H4]. split; [done|]. destruct (is_finish e); cbn; lia.
Qed.

(** Once a shutdown is claimed nothing changes. *)
Lemma claimed_steps timeout s tr s' :
  act_steps timeout s tr s' -> s.2 = [] -> shutdown_claimed s.1 = true ->
  s'.2 = [] /\ shutdown_claimed s'.1 = true /\ finishes tr = O.
Proof.
  induction 1 as [|s1 e s2 tr s3 H _ IH]; [done|]. intros E1 E2.
  destruct H as [a g auth now ok a' H|a g1 auth g2 now|a g now c a' H]; cbn [fst snd] in *.
  - unfold admit_at in H. rewrite E2, orb_true_r in H. injection H as <- <-. by apply IH.
  - by destruct g1.
  - unfold claim_idle_shutdown in H. rewrite E2 in H. injection H as <- <-. by apply IH.
Qed.

Lemma no_authenticated g : ~ In true g -> authenticated_guards g = 0.
Proof. unfold authenticated_guards. induction g as [|[] g IH]; cbn; [done|tauto|]. intros H. apply IH. tauto. Qed.

(** C21. The broker exits once it is idle, and only then. As soon as a check
    finds no authenticated work and none finished within the timeout, nothing
    more is admitted, so no traffic can postpone the exit: the work still out
    can only finish, and once it has, the next check claims the shutdown, if
    none did before. A shutdown is never claimed while work is out. *)
Theorem idle_shutdown_reached timeout a g now tr a' g' :
  act_reachable timeout (a, g) -> act_steps timeout (a, g) (SCheck now :: tr) (a', g') ->
  ~ In true g -> timeout <= sat_sub now (last_activity a) ->
  (List.length g' + finishes tr = List.length g)%nat
  /\ (shutdown_claimed a' = true -> g' = [])
  /\ (finishes tr = List.length g ->
      shutdown_claimed a' = true \/ forall now', (claim_idle_shutdown now' timeout a').1 = true).
Proof.
  intros Hr Hs Hg Ht. apply act_reachable_ok in Hr. inversion Hs as [|s1 e [a1 g1] tr' s3 H1 H2]; subst.
  pose proof (act_step_ok _ _ _ _ H1 Hr) as Hok1. pose proof (act_steps_ok _ _ _ _ H2 Hok1) as Hok'.
  inversion H1 as [| |? ? ? c ? Hc]; subst. pose proof (ok_auth _ Hr) as Ha. cbn in Ha.
  rewrite no_authenticated in Ha by done.
  unfold claim_idle_shutdown in Hc. rewrite Ha in Hc. destruct (shutdown_claimed a) eqn:Ec; cbn in Hc.
  { injection Hc as <- <-. pose proof (ok_claimed _ Hr Ec) as Hnil. cbn in Hnil. subst.
    destruct (claimed_steps _ _ _ _ H2 eq_refl Ec) as (X1 & X2 & X3). cbn in X1, X2. subst. rewrite X3. auto. }
  apply Z.leb_le in Ht. rewrite Ht in Hc. cbn in Hc. injection Hc as <- <-.
  apply draining_steps in H2 as [Hd Hlen]; [|done].
  cbn [fst snd] in *. split; [done|]. split; [apply (ok_claimed _ Hok')|]. intros Hf.
  destruct (shutdown_claimed a') eqn:Ec'; [by left|right]. intros now'.
  assert (List.length g' = O) as Hz by lia. destruct g'; [|done].
  pose proof (ok_auth _ Hok') as Ea. pose proof (ok_active _ Hok') as Ew. cbn in Ea, Ew.
  unfold claim_idle_shutdown. rewrite Ec', Ea, Ew, Hd. cbn. by rewrite orb_true_r.
Qed.

(** ** Frames *)

Definition pieces (chunks : list bytes) : Prop := Forall (fun c => c <> [] /\ Forall u8_wf c) chunks.
(** A writer that collects what is written. *)
Definition append (b : bytes) : M bytes io_error unit := fun w => (Ok tt, w ++ b).

Lemma put_back_pieces c r : Forall u8_wf c -> pieces r -> pieces (put_back c r).
Proof. intros H1 H2. unfold put_back. destruct c; cbn; [done|]. constructor; [by split|done]. Qed.

Lemma concat_put_back c r : concat (put_back c r) = c ++ concat r.
Proof. by destruct c. Qed.

Lemma read_exact_enough last n chunks :
  pieces chunks -> (n <= List.length (concat chunks))%nat ->
  exists rest, read_exact last n chunks = (Ok (take n (concat chunks)), rest)
               /\ concat rest = drop n (concat chunks) /\ pieces rest.
Proof.
  intros Hp. revert n. induction Hp as [|c r [Hc Hw] Hr IH]; intros n Hn; cbn [concat List.length] in Hn.
  { assert (n = O) as -> by lia. exists []. split; [done|]. split; [done|constructor]. }
  destruct n as [|n]; [exists (c :: r); split; [done|]; split; [done|by constructor]|].
  destruct c as [|x c]; [done|]. cbn [read_exact]. rewrite length_app in Hn.
  destruct (Nat.leb_spec (S n) (List.length (x :: c))) as [E|E].
  - exists (put_back (drop (S n) (x :: c)) r). cbn [concat]. rewrite take_app_le, drop_app_le, concat_put_back by done.
    split; [done|]. split; [done|]. apply put_back_pieces; [by apply Forall_drop|done].
  - destruct (IH (S n - List.length (x :: c))%nat) as (rest & E1 & E2 & E3); [lia|]. rewrite E1. exists rest.
    cbn [concat]. rewrite take_app_ge, drop_app_ge by lia. by split.
Qed.

Lemma read_exact_short last n chunks :
  pieces chunks -> (List.length (concat chunks) < n)%nat ->
  read_exact last n chunks = (Err (unwrap_or unexpected_eof last), []).
Proof.
  intros Hp. revert n. induction Hp as [|c r [Hc _] Hr IH]; intros n Hn; cbn [concat List.length] in Hn.
  { destruct n; [lia|done]. }
  rewrite length_app in Hn. destruct n as [|n]; [lia|]. destruct c as [|x c]; [done|]. cbn [read_exact].
  destruct (Nat.leb_spec (S n) (List.length (x :: c))); [lia|]. by rewrite IH by lia.
Qed.

Lemma from_to_be_bytes n : 0 <= n <= u32_max -> from_be_bytes (to_be_bytes n) = n.
Proof. unfold u32_max, from_be_bytes, to_be_bytes. cbn. intros H. Z.to_euclidean_division_equations. lia. Qed.

Lemma to_from_be_bytes a b c d :
  Forall u8_wf [a; b; c; d] ->
  to_be_bytes (from_be_bytes [a; b; c; d]) = [a; b; c; d] /\ 0 <= from_be_bytes [a; b; c; d] <= u32_max.
Proof.
  unfold u8_wf, u32_max, to_be_bytes, from_be_bytes. cbn [fold_left]. intros H.
  repeat match goal with H : Forall _ (_ :: _) |- _ => apply Forall_cons in H as [? H] end.
  split; [|lia]. do 3 (f_equal; [Z.to_euclidean_division_equations; lia|]). f_equal. Z.to_euclidean_division_equations; lia.
Qed.

Lemma concat_pieces chunks : pieces chunks -> Forall u8_wf (concat chunks).
Proof. induction 1 as [|c r [_ H] _ IH]; cbn; [constructor|by apply Forall_app]. Qed.

Lemma write_frame_append b :
  (Z.of_nat (List.length b) <= u32_max) ->
  write_frame append b [] = (Ok tt, to_be_bytes (Z.of_nat (List.length b)) ++ b).
Proof. intros H. unfold write_frame. apply Z.ltb_ge in H. by rewrite H. Qed.

(** The header of a stream that has one. *)
Lemma read_header last chunks :
  pieces chunks -> (4 <= List.length (concat chunks))%nat ->
  exists a b c d rest, read_exact last 4 chunks = (Ok [a; b; c; d], rest) /\ pieces rest
    /\ concat chunks = [a; b; c; d] ++ concat rest /\ Forall u8_wf [a; b; c; d].
Proof.
  intros Hp Hn. destruct (read_exact_enough last 4 chunks Hp Hn) as (rest & E & D & P).
  pose proof (concat_pieces _ Hp) as Hw. destruct (concat chunks) as [|a [|b [|c [|d l]]]]; cbn in Hn; try lia.
  exists a, b, c, d, rest. rewrite E, D. cbn. split; [done|]. split; [done|]. split; [done|].
  by apply (Forall_take _ 4) in Hw.
Qed.

(** C22. A frame is read exactly when the stream starts with one: whatever
    pieces the bytes arrive in, the body returned is the one that writing it as
    a frame puts at the head of the stream, the rest of the stream is left
    unread, and a body is never longer than 256 KiB. *)
Theorem read_frame_iff last chunks body suffix :
  pieces chunks ->
  (exists rest, read_frame last chunks = (Ok (Some body), rest) /\ concat rest = suffix /\ pieces rest)
  <-> Z.of_nat (List.length body) <= MAX_FRAME_BYTES
      /\ exists frame, write_frame append body [] = (Ok tt, frame) /\ concat chunks = frame ++ suffix.
Proof.
  intros Hp. destruct (Nat.lt_ge_cases (List.length (concat chunks)) 4) as [Hs|Hs].
  { unfold read_frame. rewrite read_exact_short by done. split.
    - intros (rest & H & _). destruct (ends_stream _); discriminate H.
    - intros (Hl & frame & Hf & Hc). rewrite write_frame_append in Hf by (unfold MAX_FRAME_BYTES, u32_max in *; lia).
      injection Hf as <-. rewrite Hc, !length_app in Hs. cbn in Hs. lia. }
  destruct (read_header last chunks Hp Hs) as (a & b & c & d & rest & E & P & C & W).
  destruct (to_from_be_bytes a b c d W) as [T R]. unfold read_frame. rewrite E.
  set (len := from_be_bytes [a; b; c; d]) in *. clearbody len. split.
  - intros (rest' & H & <- & P'). revert H. destruct (Z.eqb_spec len 0) as [E0|E0].
    { intros [= <- <-]. cbn. split; [unfold MAX_FRAME_BYTES; lia|]. eexists. split; [by apply write_frame_append|].
      cbn. rewrite <- T, E0 in C. exact C. }
    destruct (Z.ltb_spec MAX_FRAME_BYTES len) as [|Hm]; [discriminate|].
    destruct (Nat.lt_ge_cases (List.length (concat rest)) (Z.to_nat len)) as [Hn|Hn];
      [by rewrite read_exact_short|].
    destruct (read_exact_enough last _ rest P Hn) as (rest2 & -> & D & P2). intros [= <- <-].
    assert (Hl : Z.of_nat (List.length (take (Z.to_nat len) (concat rest))) = len) by (rewrite length_take; lia).
    rewrite Hl. split; [done|]. eexists. split; [apply write_frame_append; unfold MAX_FRAME_BYTES, u32_max in *; lia|].
    rewrite Hl, T, D, C, <- app_assoc. by rewrite take_drop.
  - intros (Hl & frame & Hf & Hc). rewrite write_frame_append in Hf by (unfold MAX_FRAME_BYTES, u32_max in *; lia).
    apply pair_equal_spec in Hf as [_ <-]. rewrite C, <- app_assoc in Hc.
    apply app_inj_1 in Hc as [Hh Hc]; [|done].
    assert (len = Z.of_nat (List.length body)) as ->.
    { rewrite <- T in Hh. apply (f_equal from_be_bytes) in Hh. revert Hh.
      rewrite !from_to_be_bytes by (unfold MAX_FRAME_BYTES, u32_max in *; lia). done. }
    destruct (Z.eqb_spec (Z.of_nat (List.length body)) 0) as [E0|E0].
    { destruct body; [|done]. exists rest. by split. }
    destruct (Z.ltb_spec MAX_FRAME_BYTES (Z.of_nat (List.length body))); [lia|]. rewrite Nat2Z.id.
    destruct (read_exact_enough last (List.length body) rest P) as (rest2 & -> & D & P2).
    { rewrite Hc, length_app. lia. }
    exists rest2. rewrite D, Hc, take_app_length, drop_app_length. by split.
Qed.

(** ** How long a client can hold a worker

    [watched l n w]: the watchdog last woke at [l], it is [n] now. It waits for
    at most one tick, and the worker begins and ends its input and output. *)

Section Watched.
Variables (limits : ConnectionLimits) (started : Z).

Inductive watched : Z -> Z -> IoWatchState -> Prop :=
| watched_new : watched started started watch_new
| watched_begin l n t w w' :
    watched l n w -> n <= t <= l + watchdog_tick limits -> begin_io t w = Ok w' -> watched l t w'
| watched_end l n t w :
    watched l n w -> n <= t <= l + watchdog_tick limits -> watched l t (end_io w)
| watched_close l n t w :
    watched l n w -> n <= t <= l + watchdog_tick limits -> watched l t (close_watch w)
| watched_pass l n t w :
    watched l n w -> n <= t <= l + watchdog_tick limits -> watched l t w
| watched_wake l n t w :
    watched l n w -> n <= t <= l + watchdog_tick limits ->
    watched t t (watchdog_round limits started t w).2.

Definition alive (w : IoWatchState) : Prop := watch_timed_out w = false /\ watch_done w = false.

Lemma watched_last l n w :
  0 < io_timeout limits -> 0 < lifetime limits -> watched l n w -> alive w ->
  started <= l <= n /\ n <= l + Z.max 0 (watchdog_tick limits) /\ l - started < lifetime limits
  /\ forall since, waiting_since w = Some since -> l - since < io_timeout limits.
Proof.
  intros Hio Hlife. induction 1 as [|l n t w w' Hw IH Ht Hb|l n t w Hw IH Ht|l n t w Hw IH Ht|l n t w Hw IH Ht|l n t w Hw IH Ht];
    intros [A1 A2].
  - cbn. conj_all; try lia. discriminate.
  - unfold begin_io in Hb. destruct (watch_timed_out w) eqn:E; [discriminate Hb|]. injection Hb as <-. cbn in A2.
    destruct IH as (I1 & I2 & I3 & I4); [by split|]. conj_all; try lia. cbn. intros since [= <-]. lia.
  - destruct IH as (I1 & I2 & I3 & I4); [by split|]. conj_all; try lia. discriminate.
  - discriminate A2.
  - destruct IH as (I1 & I2 & I3 & I4); [by split|]. conj_all; try lia. done.
  - unfold watchdog_round in *. destruct (watch_done w) eqn:Ed; [cbn in A2; congruence|].
    destruct (_ || _) eqn:E; cbn in A1, A2; [discriminate A1|].
    destruct IH as (I1 & I2 & I3 & I4); [by split|]. apply orb_false_iff in E as [E1 E2].
    unfold sat_sub in *. conj_all; try lia. cbn. intros since Hs. rewrite Hs in E1. cbn in E1. lia.
Qed.
End Watched.

(** A client cannot hold a worker for long. As long as the watchdog has
    neither cancelled the connection nor seen it closed, the connection is
    younger than its lifetime plus one tick, and a read or write that is waiting
    has waited less than the time allowed for it plus one tick; after it has
    been cancelled no read or write begins. *)
Theorem connection_time_bounded limits started l n w :
  0 < io_timeout limits -> 0 < lifetime limits -> 0 <= watchdog_tick limits -> watched limits started l n w ->
  (alive w -> n - started < lifetime limits + watchdog_tick limits
              /\ forall since, waiting_since w = Some since -> n - since < io_timeout limits + watchdog_tick limits)
  /\ (watch_timed_out w = true -> forall t, exists e, begin_io t w = Err e).
Proof.
  intros Hio Hlife Htick Hw. split.
  - intros Ha. destruct (watched_last _ _ _ _ _ Hio Hlife Hw Ha) as (I1 & I2 & I3 & I4).
    split; [lia|]. intros since Hs. specialize (I4 since Hs). lia.
  - intros Hto t. unfold begin_io. rewrite Hto. eauto.
Qed.

(** ** Workers *)

(** The workers running: [true] for one that only reports a busy broker. *)
Inductive serving : Slots -> list bool -> Prop :=
| serving_none : serving (Build_Slots 0 0) []
| serving_accept s ws busy s' : serving s ws -> accept_slot s = Some (busy, s') -> serving s' (busy :: ws)
| serving_drop s ws1 busy ws2 : serving s (ws1 ++ busy :: ws2) -> serving (drop_slot busy s) (ws1 ++ ws2).

Definition busy_count (ws : list bool) : Z := authenticated_guards ws.

Lemma guards_app g1 b g2 :
  authenticated_guards (g1 ++ b :: g2) = authenticated_guards (g1 ++ g2) + (if b then 1 else 0).
Proof. unfold authenticated_guards. rewrite !List.filter_app, !length_app. destruct b; cbn; lia. Qed.

(** The counters count the workers, and with the listener the pipe never
    needs more instances than the system was asked for. *)
Lemma workers_bounded s ws :
  serving s ws ->
  busy_connections s = busy_count ws /\ active_connections s + busy_connections s = Z.of_nat (List.length ws)
  /\ 0 <= active_connections s <= MAX_CONCURRENT_CONNECTIONS /\ 0 <= busy_connections s <= MAX_BUSY_CONNECTIONS
  /\ Z.of_nat (List.length ws) + 1 <= MAX_PIPE_INSTANCES.
Proof.
  assert (Hc : forall ws, 0 <= busy_count ws <= Z.of_nat (List.length ws)).
  { intros l. unfold busy_count, authenticated_guards. pose proof (List.filter_length_le (fun b : bool => b) l). lia. }
  intros H. induction H as [|s ws busy s' H IH Ha|s ws1 busy ws2 H IH]; [by vm_compute| |].
  - destruct IH as (I1 & I2 & I3 & I4 & I5). unfold accept_slot, reserve in Ha.
    unfold busy_count in *. change (busy :: ws) with ([] ++ busy :: ws) at 1. rewrite guards_app. cbn [List.length app].
    unfold MAX_PIPE_INSTANCES, MAX_CONCURRENT_CONNECTIONS, MAX_BUSY_CONNECTIONS in *.
    destruct (Z.ltb_spec (active_connections s) 16); [|destruct (Z.ltb_spec (busy_connections s) 1)];
      [injection Ha as <- <-; cbn; lia..|discriminate Ha].
  - destruct IH as (I1 & I2 & I3 & I4 & I5). unfold busy_count in *. rewrite guards_app in I1.
    rewrite length_app in I2, I5. rewrite length_app. cbn [List.length] in *.
    pose proof (Hc (ws1 ++ ws2)) as H1. rewrite length_app in H1. unfold busy_count in H1.
    unfold MAX_PIPE_INSTANCES, MAX_CONCURRENT_CONNECTIONS, MAX_BUSY_CONNECTIONS, drop_slot, release in *. destruct busy; cbn; lia.
Qed.

(** ** The server's loop *)

(** An instance is created for this name only, after the launch parameters
    passed their checks; a worker gets a connected client and holds a slot. *)
Definition server_allowed (owner_sid pipe_nonce auth_token : rstr) (past : list ServerEvent) (e : ServerEvent) : Prop :=
  match e with
  | Ev c _ =>
      match c with
      | CreateInstance name sddl _ =>
          validate_auth_token auth_token = Ok tt /\ validate_pipe_nonce pipe_nonce = Ok tt
          /\ In (Ev (ConvertSid owner_sid) (Ok tt)) past
          /\ name = pipe_name_for owner_sid pipe_nonce /\ sddl = build_sddl owner_sid
      | SpawnWorker pipe busy =>
          exists pre, past = pre ++ [Ev (ReserveSlot busy) (Ok true)] /\ In (Ev (ConnectClient pipe) (Ok tt)) pre
      | _ => True
      end
  end.

Lemma accept_one_ok owner_sid pipe_nonce auth_token first past log r :
  validate_auth_token auth_token = Ok tt -> validate_pipe_nonce pipe_nonce = Ok tt ->
  In (Ev (ConvertSid owner_sid) (Ok tt)) past ->
  runs (accept_one (pipe_name_for owner_sid pipe_nonce) (build_sddl owner_sid) first) log r ->
  allowed_from (server_allowed owner_sid pipe_nonce auth_token) past log.
Proof.
  intros Ht Hn Hs H. unfold accept_one, reserved, spawn_worker, continuing in H.
  run_all H; cbn [allowed_from server_allowed app];
    repeat match goal with u : unit |- _ => destruct u end; conj_all;
    first [exact I | done
          | eexists; split; [reflexivity|]; rewrite <- ?app_assoc; apply in_or_app; right; cbn [app In]; auto].
Qed.

Lemma accept_loop_ok turns owner_sid pipe_nonce auth_token first past log r :
  validate_auth_token auth_token = Ok tt -> validate_pipe_nonce pipe_nonce = Ok tt ->
  In (Ev (ConvertSid owner_sid) (Ok tt)) past ->
  runs (accept_loop turns (pipe_name_for owner_sid pipe_nonce) (build_sddl owner_sid) first) log r ->
  allowed_from (server_allowed owner_sid pipe_nonce auth_token) past log.
Proof.
  intros Ht Hn. revert first past log.
  induction turns as [|n IH]; intros first past log Hs H; cbn [accept_loop] in H; [by destruct H as [-> _]|].
  apply runs_bind in H as [(e & -> & H)|(l1 & l2 & first' & -> & H1 & H2)]; [by eapply accept_one_ok|].
  apply allowed_from_app; [by eapply accept_one_ok|]. eapply IH; [|exact H2]. apply in_or_app. by left.
Qed.

Lemma run_server_guarded turns owner_sid pipe_nonce idle_timeout_secs auth_token log r :
  runs (run_server turns owner_sid pipe_nonce idle_timeout_secs auth_token) log r ->
  allowed (server_allowed owner_sid pipe_nonce auth_token) log.
Proof.
  intros H. apply allowed_by. unfold run_server in H.
  apply runs_bind in H as [(e & -> & H)|(l1 & l2 & [] & -> & [-> Ht] & H)]; [by destruct H as [-> _]|].
  apply runs_bind in H as [(e & -> & H)|(l1 & l3 & [] & -> & [-> Hn] & H)]; [by destruct H as [-> _]|].
  apply runs_bind in H as [(e & -> & H)|(l1 & l4 & [] & -> & H1 & H)];
    [unfold validate_owner_sid in H; run_all H; cbn; auto|].
  unfold validate_owner_sid in H1. cbn in H1. destruct H1 as ([[]|] & l & -> & -> & E); [clear E|done].
  split; [exact I|]. cbn [app].
  apply runs_bind in H as [(e & -> & H)|(l5 & l6 & [] & -> & H1 & H)].
  { destruct (_ =? 0); run_all H; cbn; auto. }
  apply allowed_from_app; [destruct (_ =? 0); run_all H1; cbn; auto|].
  eapply accept_loop_ok; [by rewrite Ht|by rewrite Hn|by left|exact H].
Qed.

(** ** Samples *)

Definition sample_token : rstr := &"0123456789abcdef0123456789abcdef".
Definition sample_request (token : rstr) : Request :=
  {| req_id := Some &"7"; req_token := Some token; req_op := &"ping"; req_args := VObject [] |}.

(** One byte stands for a request with the token, another for one without. *)
#[local] Instance sample_serde : Serde := {
  from_slice b := match b with
                  | [1] => Ok (sample_request sample_token)
                  | [2] => Ok (sample_request &"guess")
                  | _ => Err &"expected value at line 1 column 1"
                  end }.

(** The frames a client sends, one by one. *)
Definition sample_peer (X : Type) (e : PipeE X) (frames : list bytes) : result rstr X * list bytes :=
  match e with
  | CallRead => match frames with [] => (Ok None, []) | f :: r => (Ok (Some f), r) end
  | CallSend _ _ | FinishWork _ | Audit _ | Eprintln _ | ThreadSleep _ | Disconnect | OpenConnection => (Ok tt, frames)
  | Admit _ => (Ok true, frames)
  | Dispatch _ => (Ok (VObject [(&"pong", VBool true)]), frames)
  end.

Definition sample_connection (frames : list bytes) : result rstr unit * list PipeEvent :=
  (interp sample_peer (handle_connection 10 sample_token) frames).1.

Definition dispatches (log : list PipeEvent) : nat :=
  List.length (List.filter (fun e => negb (no_dispatch e)) log).


(** One error response is draining when the broker has been idle for a minute. *)
Definition draining_start : ActivityState := Build_ActivityState 0 1 0 false false.
Lemma draining_reachable : act_reachable 60 (draining_start, [false]).
Proof. exists 0, [SAdmit false 10]. eapply act_next; [apply (step_admit 60 _ _ false 10 true); reflexivity|apply act_refl]. Qed.

Lemma idle_shutdown_reached_witness :
  (claim_idle_shutdown 75 60 (Build_ActivityState 0 0 0 true false)).1 = true
  /\ (shutdown_claimed (Build_ActivityState 0 0 0 true false) = true
      \/ forall now', (claim_idle_shutdown now' 60 (Build_ActivityState 0 0 0 true false)).1 = true).
Proof.
  split; [reflexivity|].
  apply (idle_shutdown_reached 60 draining_start [false] 61 [SAdmit false 62; SFinish false 70] _ []).
  - exact draining_reachable.
  - eapply act_next; [apply (step_check 60 _ _ 61 false); reflexivity|].
    eapply act_next; [apply (step_admit 60 _ _ false 62 false); reflexivity|].
    eapply act_next; [apply (step_finish 60 _ [] false [] 70)|apply act_refl].
  - by intros [H|[]].
  - vm_compute. discriminate.
  - reflexivity.
Defined.

(** A frame of two bytes that arrives in four pieces. *)
Lemma read_frame_iff_witness :
  read_frame None [[0; 0]; [0; 2; 104]; [105; 0]; [0]] = (Ok (Some [104; 105]), [[0]; [0]])
  /\ exists frame, write_frame append [104; 105] [] = (Ok tt, frame)
                   /\ concat [[0; 0]; [0; 2; 104]; [105; 0]; [0]] = frame ++ [0; 0].
Proof.
  split; [reflexivity|].
  apply (read_frame_iff None [[0; 0]; [0; 2; 104]; [105; 0]; [0]] [104; 105] [0; 0]).
  - repeat constructor; unfold u8_wf; try done; lia.
  - exists [[0]; [0]]. split; [reflexivity|]. split; [reflexivity|]. repeat constructor; unfold u8_wf; try done; lia.
Defined.

(** A read that starts after one second is still waiting at the second tick. *)
Lemma connection_time_bounded_witness :
  watched ConnectionLimits_default 0 (seconds 2) (seconds 4) (Build_IoWatchState (Some (seconds 1)) false false)
  /\ seconds 4 - seconds 1 < io_timeout ConnectionLimits_default + watchdog_tick ConnectionLimits_default.
Proof.
  assert (H : watched ConnectionLimits_default 0 (seconds 2) (seconds 4)
                (Build_IoWatchState (Some (seconds 1)) false false)).
  { apply (watched_pass _ _ _ (seconds 2)); [|by vm_compute].
    apply (watched_wake ConnectionLimits_default 0 0 (seconds 1) (seconds 2) (Build_IoWatchState (Some (seconds 1)) false false));
      [|by vm_compute].
    eapply watched_begin; [apply watched_new|by vm_compute|reflexivity]. }
  split; [exact H|].
  refine (proj2 (proj1 (connection_time_bounded ConnectionLimits_default 0 (seconds 2) (seconds 4) _ _ _ _ H) _) _ eq_refl);
    by vm_compute.
Defined.
