(* ===== verification/BrokerHandlers.v ===== *)
(** * Operations of the broker: servicemanager-broker [handlers.rs]

    Each operation translates its JSON arguments into calls of the operations
    crate, or, when the request forces it, of the SCM wrappers directly. The
    deserialisers that serde derives are an interface. *)

From Stdlib Require Import ZArith Lia List.
From S2P Require Import Prelude Text BTree Model Win32 OpsConfig Effects OpsControl BrokerPipe.

(** ** Arguments *)

Record LifecycleArgs := { la_name : rstr; la_force_native : bool }.
Record RemoveArgs := { ra_name : rstr; ra_force_native : bool }.
Inductive ListFilterArg := FilterManaged | FilterAll.
Record InstallArgs := {
  ia_name : rstr; ia_application : rstr; ia_app_parameters : option rstr; ia_app_directory : option rstr;
  ia_display_name : option rstr; ia_description : option rstr; ia_start_type : rstr;
  ia_stdout : option rstr; ia_stderr : option rstr; ia_hooks : list HookConfig; ia_rotation : LogRotationConfig;
  ia_depend_on_services : list rstr; ia_depend_on_groups : list rstr; ia_account : option rstr }.
Record EditArgs := {
  ea_name : rstr; ea_application : option rstr; ea_app_parameters : option rstr; ea_app_directory : option rstr;
  ea_display_name : option rstr; ea_description : option rstr; ea_start_type : option rstr;
  ea_stdout : option rstr; ea_stderr : option rstr;
  ea_depend_on_services : list rstr; ea_depend_on_groups : list rstr; ea_clear_dependencies : bool;
  ea_account : option rstr; ea_force_native : bool }.
Record OpRecoverySetArgs := {
  rsa_name : rstr; rsa_restart_delay_ms : option Z; rsa_throttle_delay_ms : option Z;
  rsa_default_action : ExitAction; rsa_exit_actions : option (btree ExitAction) }.

(** [servicemanager_win32::ProcessInfo] *)
Record ProcessInfo := { pi_pid : Z; pi_parent_pid : Z; pi_image_name : rstr }.

(** What serde derives: the [Deserialize] of the argument structs, with the
    text of its errors, and the [Serialize] of model types. *)
Class Codec := {
  de_name : Value -> result rstr rstr;
  de_lifecycle : Value -> result rstr LifecycleArgs;
  de_remove : Value -> result rstr RemoveArgs;
  de_list : Value -> result rstr ListFilterArg;
  de_install : Value -> result rstr InstallArgs;
  de_edit : Value -> result rstr EditArgs;
  de_recovery_set : Value -> result rstr OpRecoverySetArgs;
  ser_definition : ServiceDefinition -> result rstr Value;
  ser_definitions : list ServiceDefinition -> Value;
  ser_action : ExitAction -> Value;
  ser_processes : list ProcessInfo -> Value }.

(** ** The calls *)

Inductive HandlerE : Type -> Type :=
| OpsList : HandlerE (list ServiceDefinition * list rstr)
| OpsInstall (s : InstallSpec) : HandlerE rstr
| OpsRemove (n : rstr) (force_native purge : bool) : HandlerE rstr
| OpsStart (n : rstr) : HandlerE rstr
| OpsStop (n : rstr) : HandlerE rstr
| OpsRestart (n : rstr) (timeout_ms : Z) (force_native : bool) : HandlerE rstr
| OpsEdit (s : EditSpec) : HandlerE rstr
| OpsRepairRunner (n : rstr) : HandlerE rstr
| OpsRotate (n : rstr) : HandlerE rstr
| OpsPause (n : rstr) : HandlerE rstr
| OpsContinue (n : rstr) : HandlerE rstr
| OpsReadRecovery (n : rstr) : HandlerE RecoverySpec
| OpsSaveRecovery (s : RecoverySpec) : HandlerE rstr
| RegReadManaged (n : rstr) : HandlerE (option ManagedApplicationConfig)
| ScmQuery (n : rstr) : HandlerE NativeService
| ScmStart (n : rstr) : HandlerE unit
| ScmControl (n : rstr) (s : ServiceControlSignal) : HandlerE ServiceRuntimeState
| ScmUpdateNative (n : rstr) (display_name description : option rstr) (start : option InstallStartType)
    (dependencies : option ServiceDependencies) (account password : option rstr) : HandlerE unit
| EnumerateDescendants (pid : Z) : HandlerE (list ProcessInfo).
Abbreviation HandlerProg A := (Prog HandlerE Error A) (only parsing).
Abbreviation HandlerEvent := (Event HandlerE Error) (only parsing).

(** ** Helpers *)

Definition parse_args {A} (r : result rstr A) : result Error A :=
  map_err (fun e => error_other (&"invalid args: " ++ e)) r.

Definition reject_broker_password_fields (args : Value) : result Error unit :=
  if is_some (value_get &"password" args) || is_some (value_get &"password_stdin" args)
  then Err (InvalidConfig &"broker requests do not accept service account passwords; use the CLI with --password-stdin")
  else Ok tt.

Definition dependencies_from_args (services groups : list rstr) : result Error ServiceDependencies :=
  let dependencies := {| dep_services := services; dep_groups := groups |} in
  deps_validate dependencies ;? Ok dependencies.

Definition parse_start_type (s : rstr) : result Error InstallStartType :=
  let lower := to_ascii_lowercase s in
  if str_eqb lower &"manual" then Ok StartManual
  else if str_eqb lower &"automatic" then Ok StartAutomatic
  else if str_eqb lower &"disabled" then Ok StartDisabled
  else Err (error_other (&"unknown start_type '" ++ lower ++ &"'")).

(** [format!("{:?}", state)]: the name of the constructor. *)
Definition state_debug (s : ServiceState) : rstr :=
  match s with
  | Stopped => &"Stopped" | StartPending => &"StartPending" | StopPending => &"StopPending"
  | Running => &"Running" | ContinuePending => &"ContinuePending" | PausePending => &"PausePending"
  | Paused => &"Paused" | UnknownState => &"Unknown"
  end.

Inductive PostOpState := Known (s : rstr) | NoRuntime | QueryFailed (e : rstr).

Definition post_op_state (n : rstr) : HandlerProg PostOpState :=
  pthen (perform (ScmQuery n)) (fun r =>
    match r with
    | Ok snap => match ns_runtime snap with
                 | Some rt => PRet (Ok (Known (state_debug (state rt))))
                 | None => PRet (Ok NoRuntime)
                 end
    | Err e => PRet (Ok (QueryFailed (error_to_string e)))
    end).

(** [body] is the fields of an object; inserting adds the field. *)
Definition apply_post_op_state (body : list (rstr * Value)) (st : PostOpState) : Value :=
  match st with
  | Known s => VObject (body ++ [(&"state", VString s)])
  | NoRuntime => VObject (body ++ [(&"state", VString [])])
  | QueryFailed err =>
      VObject (body ++ [(&"state", VNull); (&"warning", VString (&"post-op state query failed: " ++ err))])
  end.

Section Handlers.
Context {C : Codec}.

(** ** Operations *)

Definition op_list (args : Value) : HandlerProg Value :=
  let@ filter := plift (parse_args (de_list args)) in
  let@ (all_defs, warnings) := perform OpsList in
  let keep d := match filter with FilterManaged => is_managed d | FilterAll => true end in
  PRet (Ok (VObject [(&"services", ser_definitions (List.filter keep all_defs));
                     (&"warnings", VArray (map VString warnings))])).

Definition op_dump (args : Value) : HandlerProg Value :=
  let@ n := plift (parse_args (de_name args)) in
  let@ q := perform (ScmQuery n) in
  let@ m := perform (RegReadManaged n) in
  plift (map_err error_other (ser_definition (definition_of q m))).

Definition install_spec (a : InstallArgs) (start_type : InstallStartType) (dependencies : ServiceDependencies) : InstallSpec := {|
  is_name := ia_name a; is_display_name := ia_display_name a; is_description := ia_description a;
  is_application := ia_application a; is_app_parameters := ia_app_parameters a; is_app_directory := ia_app_directory a;
  is_stdout := ia_stdout a; is_stderr := ia_stderr a; is_rotation := ia_rotation a; is_hooks := ia_hooks a;
  is_start_type := start_type; is_dependencies := dependencies; is_account := ia_account a; is_password := None |}.

Definition op_install (args : Value) : HandlerProg Value :=
  plift (reject_broker_password_fields args) ;@
  let@ a := plift (parse_args (de_install args)) in
  let@ start_type := plift (parse_start_type (ia_start_type a)) in
  let@ dependencies := plift (dependencies_from_args (ia_depend_on_services a) (ia_depend_on_groups a)) in
  perform (OpsInstall (install_spec a start_type dependencies)) ;@
  PRet (Ok (VObject [(&"installed", VString (ia_name a))])).

Definition op_remove (args : Value) : HandlerProg Value :=
  let@ a := plift (parse_args (de_remove args)) in
  perform (OpsRemove (ra_name a) (ra_force_native a) true) ;@
  PRet (Ok (VObject [(&"removed", VString (ra_name a))])).

Definition op_start (args : Value) : HandlerProg Value :=
  let@ a := plift (parse_args (de_lifecycle args)) in
  (if la_force_native a then perform (ScmStart (la_name a))
   else perform (OpsStart (la_name a)) ;@ PRet (Ok tt)) ;@
  PRet (Ok (VObject [(&"started", VString (la_name a))])).

(** The shape shared by stop, pause and continue. *)
Definition control_op (args : Value) (signal : ServiceControlSignal) (call : rstr -> HandlerE rstr) (key : rstr) : HandlerProg Value :=
  let@ a := plift (parse_args (de_lifecycle args)) in
  let body := [(key, VString (la_name a))] in
  if la_force_native a then
    let@ st := perform (ScmControl (la_name a) signal) in
    PRet (Ok (VObject (body ++ [(&"state", VString (state_debug (state st)))])))
  else
    perform (call (la_name a)) ;@
    let@ st := post_op_state (la_name a) in
    PRet (Ok (apply_post_op_state body st)).

Definition op_stop (args : Value) : HandlerProg Value := control_op args SigStop OpsStop &"stopped".
Definition op_pause (args : Value) : HandlerProg Value := control_op args SigPause OpsPause &"paused".
Definition op_continue (args : Value) : HandlerProg Value := control_op args SigContinue OpsContinue &"continued".

Definition op_restart (args : Value) : HandlerProg Value :=
  let@ a := plift (parse_args (de_lifecycle args)) in
  perform (OpsRestart (la_name a) 30000 (la_force_native a)) ;@
  PRet (Ok (VObject [(&"restarted", VString (la_name a))])).

Definition edit_dependencies (a : EditArgs) : result Error (option ServiceDependencies) :=
  if ea_clear_dependencies a then Ok (Some {| dep_services := []; dep_groups := [] |})
  else if is_empty (ea_depend_on_services a) && is_empty (ea_depend_on_groups a) then Ok None
  else let? d := dependencies_from_args (ea_depend_on_services a) (ea_depend_on_groups a) in Ok (Some d).

Definition edit_start_type (a : EditArgs) : result Error (option InstallStartType) :=
  match ea_start_type a with
  | Some s => let? t := parse_start_type s in Ok (Some t)
  | None => Ok None
  end.

Definition edit_spec (a : EditArgs) (start : option InstallStartType) (dependencies : option ServiceDependencies) : EditSpec := {|
  es_name := ea_name a; es_display_name := ea_display_name a; es_description := ea_description a;
  es_application := ea_application a; es_app_parameters := ea_app_parameters a; es_app_directory := ea_app_directory a;
  es_stdout := ea_stdout a; es_stderr := ea_stderr a; es_start_type := start; es_dependencies := dependencies;
  es_account := ea_account a; es_password := None |}.

Definition edit_any_managed (a : EditArgs) : bool :=
  is_some (ea_application a) || is_some (ea_app_parameters a) || is_some (ea_app_directory a)
  || is_some (ea_stdout a) || is_some (ea_stderr a).
Definition edit_want_native (a : EditArgs) (dependencies : option ServiceDependencies) : bool :=
  is_some (ea_display_name a) || is_some (ea_description a) || is_some (ea_start_type a)
  || is_some dependencies || is_some (ea_account a).

Definition op_edit (args : Value) : HandlerProg Value :=
  plift (reject_broker_password_fields args) ;@
  let@ a := plift (parse_args (de_edit args)) in
  if ea_clear_dependencies a && (negb (is_empty (ea_depend_on_services a)) || negb (is_empty (ea_depend_on_groups a)))
  then PRet (Err (InvalidConfig &"clear_dependencies cannot be combined with depend_on_services or depend_on_groups"))
  else
    let@ dependencies := plift (edit_dependencies a) in
    if ea_force_native a && edit_any_managed a
    then PRet (Err (error_other &"--force-native cannot be combined with managed-field flags (application, app_parameters, app_directory, stdout, stderr). Run two separate edit calls — one with force_native for native-only fields, and one without it for managed fields."))
    else
      let@ start := plift (edit_start_type a) in
      (if ea_force_native a && edit_want_native a dependencies
       then perform (ScmUpdateNative (ea_name a) (ea_display_name a) (ea_description a) start dependencies (ea_account a) None)
       else perform (OpsEdit (edit_spec a start dependencies)) ;@ PRet (Ok tt)) ;@
      PRet (Ok (VObject [(&"edited", VString (ea_name a))])).

Definition op_repair_runner (args : Value) : HandlerProg Value :=
  let@ n := plift (parse_args (de_name args)) in
  perform (OpsRepairRunner n) ;@
  PRet (Ok (VObject [(&"repaired", VString n); (&"runner", VBool true)])).

Definition op_rotate (args : Value) : HandlerProg Value :=
  let@ n := plift (parse_args (de_name args)) in
  perform (OpsRotate n) ;@
  let@ st := post_op_state n in
  PRet (Ok (apply_post_op_state [(&"rotated", VString n)] st)).

Definition not_running (n : rstr) : Error :=
  error_other (&"service '" ++ n ++ &"' is not running (no PID reported)").

Definition op_processes (args : Value) : HandlerProg Value :=
  let@ n := plift (parse_args (de_name args)) in
  let@ snap := perform (ScmQuery n) in
  let@ p := plift (ok_or (match ns_runtime snap with Some r => pid r | None => None end) (not_running n)) in
  let@ descendants := perform (EnumerateDescendants p) in
  PRet (Ok (VObject [(&"service", VString n); (&"root_pid", VNumber (to_dec p));
                     (&"processes", ser_processes descendants)])).

Definition opt_number (o : option Z) : Value := match o with Some n => VNumber (to_dec n) | None => VNull end.

Definition op_recovery_get (args : Value) : HandlerProg Value :=
  let@ n := plift (parse_args (de_name args)) in
  let@ spec := perform (OpsReadRecovery n) in
  PRet (Ok (VObject [(&"service", VString (rs_name spec));
                     (&"restart_delay_ms", opt_number (rs_restart_delay_ms spec));
                     (&"throttle_delay_ms", opt_number (rs_throttle_delay_ms spec));
                     (&"default_action", ser_action (rs_default_action spec));
                     (&"exit_actions", VObject (map (fun kv => (kv.1, ser_action kv.2)) (rs_exit_actions spec)))])).

Definition check_exit_code (code : rstr) : result Error unit :=
  map_err (fun e => error_other (&"exit-action code '" ++ code ++ &"': " ++ error_to_string e)) (validate_exit_action_key code).

Definition recovery_spec (a : OpRecoverySetArgs) : RecoverySpec := {|
  rs_name := rsa_name a; rs_restart_delay_ms := rsa_restart_delay_ms a;
  rs_throttle_delay_ms := rsa_throttle_delay_ms a; rs_default_action := rsa_default_action a;
  rs_exit_actions := unwrap_or [] (rsa_exit_actions a) |}.

Definition op_recovery_set (args : Value) : HandlerProg Value :=
  let@ a := plift (parse_args (de_recovery_set args)) in
  plift (for_each (fun kv => check_exit_code kv.1) (unwrap_or [] (rsa_exit_actions a))) ;@
  let@ msg := perform (OpsSaveRecovery (recovery_spec a)) in
  PRet (Ok (VObject [(&"saved", VString (rsa_name a)); (&"message", VString msg)])).

(** ** Dispatch *)

Inductive Operation :=
| OpPing | OpList | OpDump | OpInstall | OpRemove | OpStart | OpStop | OpRestart | OpEdit | OpRepair
| OpRotate | OpProcesses | OpPause | OpContinue | OpRecoveryGet | OpRecoverySet.

(** The strings the [match] knows. *)
Definition operations : list (rstr * Operation) :=
  [(&"ping", OpPing); (&"list", OpList); (&"dump", OpDump); (&"install", OpInstall); (&"remove", OpRemove);
   (&"start", OpStart); (&"stop", OpStop); (&"restart", OpRestart); (&"edit", OpEdit);
   (&"repair_runner", OpRepair); (&"rotate", OpRotate); (&"processes", OpProcesses); (&"pause", OpPause);
   (&"continue", OpContinue); (&"recovery_get", OpRecoveryGet); (&"recovery_set", OpRecoverySet)].
Definition operation_of (op : rstr) : option Operation := snd <$> find (fun e => str_eqb e.1 op) operations.

Definition run_operation (op : Operation) (args : Value) : HandlerProg Value :=
  match op with
  | OpPing => PRet (Ok (VObject [(&"pong", VBool true)]))
  | OpList => op_list args | OpDump => op_dump args | OpInstall => op_install args | OpRemove => op_remove args
  | OpStart => op_start args | OpStop => op_stop args | OpRestart => op_restart args | OpEdit => op_edit args
  | OpRepair => op_repair_runner args | OpRotate => op_rotate args | OpProcesses => op_processes args
  | OpPause => op_pause args | OpContinue => op_continue args
  | OpRecoveryGet => op_recovery_get args | OpRecoverySet => op_recovery_set args
  end.

Definition dispatch_inner (req : Request) : HandlerProg Value :=
  match operation_of (req_op req) with
  | Some op => run_operation op (req_args req)
  | None => PRet (Err (error_other (&"unknown op '" ++ req_op req ++ &"'")))
  end.

(** [dispatch] turns the error into its text. *)
Definition dispatch (req : Request) : HandlerProg (result rstr Value) :=
  pthen (dispatch_inner req) (fun r => PRet (Ok (map_err error_to_string r))).
End Handlers.

(** ** What a request may do *)

Section HandlerFacts.
Context {C : Codec}.

Definition names_password (args : Value) : bool :=
  is_some (value_get &"password" args) || is_some (value_get &"password_stdin" args).

(** The request asks for a control of [n], bypassing the ownership check or not. *)
Definition asks_control (req : Request) (n : rstr) (force_native : bool) : Prop :=
  de_lifecycle (req_args req) = Ok {| la_name := n; la_force_native := force_native |}.

Definition call_requested (req : Request) (e : HandlerEvent) : Prop :=
  match e with
  | Ev c _ =>
      match c with
      | OpsInstall s =>
          operation_of (req_op req) = Some OpInstall /\ names_password (req_args req) = false /\ is_password s = None
          /\ exists a, de_install (req_args req) = Ok a /\ is_name s = ia_name a /\ is_application s = ia_application a
      | OpsRemove n force purge =>
          operation_of (req_op req) = Some OpRemove /\ purge = true
          /\ de_remove (req_args req) = Ok {| ra_name := n; ra_force_native := force |}
      | OpsStart n => operation_of (req_op req) = Some OpStart /\ asks_control req n false
      | OpsStop n => operation_of (req_op req) = Some OpStop /\ asks_control req n false
      | OpsPause n => operation_of (req_op req) = Some OpPause /\ asks_control req n false
      | OpsContinue n => operation_of (req_op req) = Some OpContinue /\ asks_control req n false
      | OpsRestart n _ force => operation_of (req_op req) = Some OpRestart /\ asks_control req n force
      | ScmStart n => operation_of (req_op req) = Some OpStart /\ asks_control req n true
      | ScmControl n s =>
          asks_control req n true
          /\ In (operation_of (req_op req), s) [(Some OpStop, SigStop); (Some OpPause, SigPause); (Some OpContinue, SigContinue)]
      | OpsEdit s =>
          operation_of (req_op req) = Some OpEdit /\ names_password (req_args req) = false /\ es_password s = None
          /\ exists a, de_edit (req_args req) = Ok a /\ es_name s = ea_name a
                       /\ (ea_force_native a = true -> touches_managed s = false /\ touches_native s = false)
      | ScmUpdateNative n _ _ _ _ _ password =>
          operation_of (req_op req) = Some OpEdit /\ names_password (req_args req) = false /\ password = None
          /\ exists a, de_edit (req_args req) = Ok a /\ n = ea_name a /\ ea_force_native a = true /\ edit_any_managed a = false
      | OpsRepairRunner n => operation_of (req_op req) = Some OpRepair /\ de_name (req_args req) = Ok n
      | OpsRotate n => operation_of (req_op req) = Some OpRotate /\ de_name (req_args req) = Ok n
      | OpsSaveRecovery s =>
          operation_of (req_op req) = Some OpRecoverySet
          /\ Forall (fun kv => validate_exit_action_key kv.1 = Ok tt) (rs_exit_actions s)
          /\ exists a, de_recovery_set (req_args req) = Ok a /\ s = recovery_spec a
      | _ => True
      end
  end.

(** Calls that change something. *)
Definition changes (e : HandlerEvent) : bool :=
  match e with
  | Ev c _ =>
      match c with
      | OpsList | OpsReadRecovery _ | RegReadManaged _ | ScmQuery _ | EnumerateDescendants _ => false
      | _ => true
      end
  end.

Lemma parse_args_ok {A} (r : result rstr A) a : parse_args r = Ok a -> r = Ok a.
Proof. apply map_err_ok. Qed.

Lemma no_password args u : reject_broker_password_fields args = Ok u -> names_password args = false.
Proof. unfold reject_broker_password_fields, names_password. by destruct (_ || _). Qed.

(** The guard of [edit] leaves nothing to change to a forced edit that
    delegates. *)
Lemma forced_edit_empty a start dependencies :
  ea_force_native a && edit_any_managed a = false -> ea_force_native a && edit_want_native a dependencies = false ->
  edit_start_type a = Ok start -> ea_force_native a = true ->
  touches_managed (edit_spec a start dependencies) = false /\ touches_native (edit_spec a start dependencies) = false.
Proof.
  unfold edit_any_managed, edit_want_native, edit_start_type, touches_managed, touches_native.
  intros H1 H2 Hs Hf. rewrite Hf in H1, H2. cbn [andb] in H1, H2. cbn [edit_spec es_application es_app_parameters
    es_app_directory es_stdout es_stderr es_display_name es_description es_start_type es_dependencies es_account es_password].
  split; [exact H1|]. rewrite orb_false_r. destruct (ea_start_type a); [cbn in H2; by rewrite !orb_true_r in H2|].
  injection Hs as <-. exact H2.
Qed.

Lemma forced_edit_native a : ea_force_native a && edit_any_managed a = false -> ea_force_native a = true -> edit_any_managed a = false.
Proof. by destruct (ea_force_native a). Qed.

Lemma checked_codes m : for_each (fun kv : rstr * ExitAction => check_exit_code kv.1) m = Ok tt ->
  Forall (fun kv => validate_exit_action_key kv.1 = Ok tt) m.
Proof.
  rewrite for_each_ok. intros H. eapply Forall_impl; [exact H|]. intros kv Hk. unfold check_exit_code in Hk. by apply map_err_ok in Hk.
Qed.

Definition requested (req : Request) (log : list HandlerEvent) : Prop :=
  Forall (call_requested req) log /\ (List.length (List.filter changes log) <= 1)%nat.

(** Show that a call that has been written out was asked for. *)
Ltac asked :=
  repeat match goal with
  | H : parse_args _ = Ok _ |- _ => apply parse_args_ok in H
  | H : reject_broker_password_fields _ = Ok _ |- _ => apply no_password in H
  | H : for_each _ _ = Ok ?u |- _ => destruct u; apply checked_codes in H
  | a : LifecycleArgs |- _ => destruct a as [? []]
  | a : RemoveArgs |- _ => destruct a
  end; cbn [la_name la_force_native ra_name ra_force_native] in *;
  try discriminate;
  cbn [call_requested]; unfold asks_control; conj_all;
  first
  [ exact I | eassumption | reflexivity
  | (match goal with H : operation_of _ = _ |- _ => rewrite H end; cbn; auto 6)
  | (eexists; conj_all; [eassumption|reflexivity..])
  | (eexists; conj_all; [eassumption|reflexivity|..];
     match goal with H : _ && _ = true |- _ => apply andb_true_iff in H as [? ?] end;
     first [assumption|by eapply forced_edit_native])
  | (eexists; conj_all; [eassumption|reflexivity|by apply forced_edit_empty]) ].

Lemma operation_requested req op log r :
  operation_of (req_op req) = Some op -> runs (run_operation op (req_args req)) log r -> requested req log.
Proof.
  intros Hop H. unfold requested.
  destruct op; cbn [run_operation] in H;
    unfold op_list, op_dump, op_install, op_remove, op_start, op_stop, op_pause, op_continue, control_op, op_restart,
      op_edit, op_repair_runner, op_rotate, op_processes, op_recovery_get, op_recovery_set, post_op_state in H;
    run_all H; (split; [|cbn; lia]); repeat (apply Forall_cons; split); try apply Forall_nil_2; asked.
Qed.
End HandlerFacts.


(** ** Samples *)

Definition no_args {A} (_ : Value) : result rstr A := Err &"missing field".
Definition named (v : Value) : result rstr rstr :=
  match value_get &"name" v with Some (VString n) => Ok n | _ => Err &"missing field `name`" end.
Definition forced (v : Value) : bool :=
  match value_get &"force_native" v with Some (VBool b) => b | _ => false end.

#[local] Instance sample_codec : Codec := {
  de_name := named;
  de_lifecycle v := let? n := named v in Ok {| la_name := n; la_force_native := forced v |};
  de_remove v := let? n := named v in Ok {| ra_name := n; ra_force_native := forced v |};
  de_list _ := Ok FilterManaged;
  de_install := no_args; de_edit := no_args; de_recovery_set := no_args;
  ser_definition _ := Ok VNull; ser_definitions _ := VArray []; ser_action _ := VNull; ser_processes _ := VArray [] }.

Definition sample_stop (force_native : bool) : Request :=
  {| req_id := None; req_token := None; req_op := &"stop";
     req_args := VObject [(&"name", VString &"web"); (&"force_native", VBool force_native)] |}.

Definition sample_scm (X : Type) (e : HandlerE X) (w : unit) : result Error X * unit :=
  (match e in HandlerE X return result Error X with
   | OpsStop _ => Ok &"Stop requested."
   | ScmControl _ _ => Ok (Build_ServiceRuntimeState StopPending None None None None)
   | ScmQuery _ => Err (Scm &"busy")
   | _ => Err (Scm &"unused")
   end, w).
Definition sample_dispatch (req : Request) : result Error (result rstr Value) * list HandlerEvent :=
  (interp sample_scm (dispatch req) tt).1.

