(* ===== verification/LaunchEnv.v ===== *)
(** * What a generation is launched with: servicemanager-supervisor [lib.rs], environment and launch configuration

    The environment of the child and of hooks, the effective launch
    configuration with its checks, and the restart delay. Environment strings
    are UTF-16; the comparison of their names is the operating system's. *)

From Stdlib Require Import ZArith Lia List.
From S2P Require Import Prelude Text BTree Model Validate Expansion Rotation.

Inductive SupervisorError :=
| MissingApplication
| SpawnFailed (application : rstr) (e : io_error)
| OpenLog (p : rstr) (e : io_error)
| OpenStdin (p : rstr) (e : io_error)
| SupIo (e : io_error)
| SupCore (e : Error)
| Degraded (s : rstr).

Definition invalid (message : rstr) : SupervisorError := SupCore (InvalidConfig message).

(** [OsString] on Windows, as the program sees it through [encode_wide]. *)
Abbreviation wide := (list Z) (only parsing).
Abbreviation EnvVars := (list (list Z * list Z)) (only parsing).

Definition is_ascii (s : wide) : bool := forallb (fun c => (0 <=? c) && (c <? 128)) s.

(** [CompareStringOrdinal(left, right, ignore case) == CSTR_EQUAL] *)
Class OsNames := {
  env_name_eq : wide -> wide -> bool;
  (** [CharUpper]-like folding is applied to each side before comparing. *)
  env_name_fold : wide -> wide;
  env_name_law : forall a b, env_name_eq a b = true <-> env_name_fold a = env_name_fold b;
  env_name_ascii : forall a b, is_ascii a = true -> is_ascii b = true -> env_name_eq a b = eq_ignore_ascii_case a b }.

Definition DEFAULT_RESTART_DELAY_MS : Z := 0.
Definition DEFAULT_THROTTLE_DELAY_MS : Z := 1500.
Definition THROTTLE_THRESHOLD_MS : Z := 1500.

(** [lived] in nanoseconds; the delay in milliseconds. *)
Definition restart_delay (c : ManagedApplicationConfig) (lived : Z) : Z :=
  let mandatory := unwrap_or DEFAULT_RESTART_DELAY_MS (restart_delay_ms (restart c)) in
  let throttle := if lived / 1000000 <? THROTTLE_THRESHOLD_MS
                  then unwrap_or DEFAULT_THROTTLE_DELAY_MS (throttle_delay_ms (restart c)) else 0 in
  Z.max mandatory throttle.

Definition parse_env_entry (entry : rstr) : result SupervisorError (rstr * rstr) :=
  match split_once c_equals entry with
  | None => Err (invalid &"environment entry must be NAME=VALUE")
  | Some (name, value) =>
      if is_empty name || contains_char c_nul name || contains_char c_nul value
      then Err (invalid &"environment entry has an empty name or embedded NUL")
      else Ok (name, value)
  end.

Section Environment.
Context {N : OsNames}.

(** [environment.retain(|(key, _)| !env_name_eq(key, name))] *)
Definition forget (environment : EnvVars) (name : rstr) : EnvVars :=
  List.filter (fun kv => negb (env_name_eq kv.1 (encode_utf16 name))) environment.

Definition set_environment (environment : EnvVars) (name value : rstr) : EnvVars :=
  forget environment name ++ [(encode_utf16 name, encode_utf16 value)].

Definition lookup_environment (environment : EnvVars) (name : rstr) : option rstr :=
  match find (fun kv => env_name_eq kv.1 (encode_utf16 name)) environment with
  | Some kv => from_utf16 kv.2
  | None => None
  end.

(** [vars_os] is the environment of the supervisor itself. *)
Definition effective_environment (vars_os : EnvVars) (c : ManagedApplicationConfig) : result SupervisorError EnvVars :=
  let initial := if is_empty (environment c) then vars_os else [] in
  try_fold (fun env entry => let? (name, value) := parse_env_entry entry in Ok (set_environment env name value))
    (environment c ++ environment_extra c) initial.

(** ** The environment of a hook *)

Definition hook_variables : list rstr :=
  [&"NGSM_SERVICE_NAME"; &"NGSM_EVENT"; &"NGSM_APPLICATION"; &"NGSM_APPLICATION_PID"; &"NGSM_EXIT_CODE";
   &"NGSM_POWER_EVENT_TYPE"].

Definition set_opt (environment : EnvVars) (name : rstr) (value : option rstr) : EnvVars :=
  match value with Some v => set_environment environment name v | None => environment end.

(** The part of [fire_hook] that builds the environment; [where] is
    [event/action]. *)
Definition hook_environment (environment : EnvVars) (service where_ : rstr) (application : option rstr)
    (pid exit power : option Z) : EnvVars :=
  let env := fold_left forget hook_variables environment in
  let env := set_environment env &"NGSM_SERVICE_NAME" service in
  let env := set_environment env &"NGSM_EVENT" where_ in
  let env := set_opt env &"NGSM_APPLICATION" application in
  let env := set_opt env &"NGSM_APPLICATION_PID" (to_dec <$> pid) in
  let env := set_opt env &"NGSM_EXIT_CODE" (to_dec <$> exit) in
  set_opt env &"NGSM_POWER_EVENT_TYPE" (to_dec <$> power).

(** ** The launch configuration *)

Definition is_hook_key (name : rstr) : bool :=
  (10 <=? List.length name)%nat && eq_ignore_ascii_case (take 10 name) &"AppEvents\".

(** Hook expansion is left to the hooks. *)
Definition launch_fields (c : ManagedApplicationConfig) : ManagedApplicationConfig :=
  {| application := application c; app_parameters := app_parameters c; app_directory := app_directory c;
     environment := environment c; environment_extra := environment_extra c; priority := priority c;
     affinity := affinity c; restart := restart c; shutdown := shutdown c; io := io c; rotation := rotation c;
     exit_actions := exit_actions c; hooks := hooks c;
     expandable_strings := bt_retain (fun name => negb (is_hook_key name)) (expandable_strings c) |}.

Definition check_path (label text : rstr) : result SupervisorError unit :=
  map_err SupCore (validate_absolute_path label text).

Definition check_stream (label : rstr) (input : bool) (rotation : LogRotationConfig) (s : option IoStream)
    : result SupervisorError unit :=
  match s with
  | None => Ok tt
  | Some s =>
      check_path label (Model.path s) ;?
      map_err SupIo (if input then validate_input s else validate_output s rotation)
  end.

Definition check_launch (c : ManagedApplicationConfig) : result SupervisorError unit :=
  if bool_decide (timestamp_log (io c) = Some true)
  then Err (invalid &"AppTimestampLog is unsupported; the application must timestamp its output")
  else if is_some_and (fun delay => negb (delay =? 0)) (rotate_delay_ms (rotation c))
  then Err (invalid &"nonzero AppRotateDelay is unsupported; rotation does not add an artificial delay")
  else
    let? application := ok_or (application c) MissingApplication in
    check_path &"application" application ;?
    match app_directory c with
    | Some d => if is_empty d then Ok tt else check_path &"app_directory" d
    | None => Ok tt
    end ;?
    check_stream &"stdin" true (rotation c) (stdin (io c)) ;?
    check_stream &"stdout" false (rotation c) (stdout (io c)) ;?
    check_stream &"stderr" false (rotation c) (stderr (io c)).

(** [prepare_launch], after the environment: the launch configuration. *)
Definition launch_config (environment : EnvVars) (c : ManagedApplicationConfig)
    : result SupervisorError ManagedApplicationConfig :=
  let? config := map_err SupCore (resolve_expandable_strings (launch_fields c) (lookup_environment environment)) in
  check_launch config ;? Ok config.

(** ** What the environment holds *)

Definition same_name (a b : rstr) : bool := env_name_eq (encode_utf16 a) (encode_utf16 b).

(** The value the last entry for a name gives. *)
Definition configured (entries : list rstr) (name : rstr) : option rstr :=
  fold_left (fun acc e => match parse_env_entry e with
                          | Ok (n, v) => if same_name n name then Some v else acc
                          | Err _ => acc
                          end) entries None.

Definition occurrences (environment : EnvVars) (name : rstr) : nat :=
  List.length (List.filter (fun kv => env_name_eq kv.1 (encode_utf16 name)) environment).

Lemma env_eq_l a b x : env_name_eq a b = true -> env_name_eq a x = env_name_eq b x.
Proof. intros H. apply env_name_law in H. apply eq_true_iff_eq. rewrite !env_name_law. by rewrite H. Qed.

Lemma env_eq_r a b x : env_name_eq a b = true -> env_name_eq x a = env_name_eq x b.
Proof. intros H. apply env_name_law in H. apply eq_true_iff_eq. rewrite !env_name_law. by rewrite H. Qed.

Lemma env_eq_sym a b : env_name_eq a b = env_name_eq b a.
Proof. apply eq_true_iff_eq. rewrite !env_name_law. split; intros ->; done. Qed.

Lemma env_eq_refl a : env_name_eq a a = true.
Proof. by apply env_name_law. Qed.

Lemma find_forget environment n name :
  find (fun kv => env_name_eq kv.1 (encode_utf16 name)) (forget environment n)
  = if same_name n name then None else find (fun kv => env_name_eq kv.1 (encode_utf16 name)) environment.
Proof.
  unfold forget, same_name. induction environment as [|[k v] env IH]; cbn; [by destruct (env_name_eq _ _)|].
  destruct (env_name_eq k (encode_utf16 n)) eqn:E; cbn [negb].
  - rewrite IH. destruct (env_name_eq (encode_utf16 n) (encode_utf16 name)) eqn:E2; [done|].
    by rewrite (env_eq_l _ _ _ E), E2.
  - cbn. rewrite IH. destruct (env_name_eq (encode_utf16 n) (encode_utf16 name)) eqn:E2; [|done].
    rewrite <- (env_eq_r _ _ k E2), E. done.
Qed.

Lemma lookup_forget environment n name :
  lookup_environment (forget environment n) name
  = if same_name n name then None else lookup_environment environment name.
Proof. unfold lookup_environment. rewrite find_forget. by destruct (same_name n name). Qed.

Lemma find_app {A} (p : A -> bool) l m : find p (l ++ m) = match find p l with Some x => Some x | None => find p m end.
Proof. induction l as [|x l IH]; cbn; [done|]. by destruct (p x). Qed.

Lemma lookup_set environment n v name :
  wf_str v -> lookup_environment (set_environment environment n v) name
              = if same_name n name then Some v else lookup_environment environment name.
Proof.
  intros Hv. unfold set_environment. unfold lookup_environment at 1. rewrite find_app, find_forget. cbn.
  unfold lookup_environment, same_name. destruct (env_name_eq (encode_utf16 n) (encode_utf16 name)) eqn:E.
  - by apply from_encode_utf16.
  - by destruct (find _ environment).
Qed.

Lemma occurrences_forget environment n name :
  occurrences (forget environment n) name = if same_name n name then O else occurrences environment name.
Proof.
  unfold occurrences, forget, same_name. induction environment as [|[k v] env IH]; cbn; [by destruct (env_name_eq _ _)|].
  destruct (env_name_eq k (encode_utf16 n)) eqn:E; cbn [negb].
  - rewrite IH. rewrite (env_eq_l _ _ _ E). by destruct (env_name_eq (encode_utf16 n) (encode_utf16 name)).
  - cbn. destruct (env_name_eq (encode_utf16 n) (encode_utf16 name)) eqn:E2.
    + rewrite <- (env_eq_r _ _ k E2), E. exact IH.
    + destruct (env_name_eq k (encode_utf16 name)); cbn; by rewrite IH.
Qed.

Lemma occurrences_set environment n v name :
  occurrences (set_environment environment n v) name = if same_name n name then 1%nat else occurrences environment name.
Proof.
  unfold set_environment. pose proof (occurrences_forget environment n name) as H. unfold occurrences, same_name in *.
  rewrite List.filter_app, length_app, H. cbn. destruct (env_name_eq _ _); cbn; lia.
Qed.

Lemma parse_env_entry_wf entry n v : wf_str entry -> parse_env_entry entry = Ok (n, v) -> wf_str v.
Proof.
  unfold parse_env_entry. destruct (split_once c_equals entry) as [[a b]|] eqn:E; [|done].
  apply split_once_Some in E as [-> _]. destruct (_ || _); [done|]. intros H [= <- <-].
  apply Forall_app in H as [_ H]. by inversion H.
Qed.

Definition configure (name : rstr) (acc : option rstr) (e : rstr) : option rstr :=
  match parse_env_entry e with Ok (n, v) => if same_name n name then Some v else acc | Err _ => acc end.

Lemma configure_acc entries name acc :
  fold_left (configure name) entries acc
  = match configured entries name with Some v => Some v | None => acc end.
Proof.
  unfold configured. fold (configure name). revert acc.
  induction entries as [|e entries IH] using rev_ind; intros acc; [done|].
  rewrite !fold_left_app. cbn. unfold configure at 1 3. destruct (parse_env_entry e) as [[n v]|]; [|apply IH].
  by destruct (same_name n name).
Qed.

Lemma configured_snoc entries e name : configured (entries ++ [e]) name = configure name (configured entries name) e.
Proof. unfold configured. by rewrite fold_left_app. Qed.

Definition set_entry (env : EnvVars) (entry : rstr) : result SupervisorError EnvVars :=
  let? (name, value) := parse_env_entry entry in Ok (set_environment env name value).

(** The loop of [effective_environment] over the entries it has seen. *)
Lemma set_entries entries env0 :
  Forall wf_str entries ->
  match try_fold set_entry entries env0 with
  | Ok env =>
      Forall (fun e => is_ok (parse_env_entry e) = true) entries
      /\ forall name,
          lookup_environment env name
          = match configured entries name with Some v => Some v | None => lookup_environment env0 name end
          /\ occurrences env name = match configured entries name with Some _ => 1%nat | None => occurrences env0 name end
  | Err e => exists entry, In entry entries /\ parse_env_entry entry = Err e
  end.
Proof.
  induction entries as [|e entries IH] using rev_ind; intros Hw; [by cbn|].
  apply Forall_app in Hw as [Hw He]. specialize (IH Hw). rewrite try_fold_app.
  destruct (try_fold set_entry entries env0) as [env|err]; cbn [rbind try_fold].
  - destruct IH as [Hok IH]. unfold set_entry. destruct (parse_env_entry e) as [[n v]|err] eqn:Ee; cbn.
    + apply Forall_inv in He. pose proof (parse_env_entry_wf _ _ _ He Ee) as Hv. split.
      * apply Forall_app. split; [done|]. constructor; [by rewrite Ee|constructor].
      * intros name. rewrite lookup_set, occurrences_set, configured_snoc by done. unfold configure. rewrite Ee.
        destruct (IH name) as [-> ->]. by destruct (same_name n name).
    + exists e. split; [apply in_or_app; right; by left|done].
  - destruct IH as (entry & Hin & Hp). exists entry. split; [apply in_or_app; by left|done].
Qed.

(** ** The variables NGSM sets for a hook *)

Lemma same_name_ascii a b :
  is_ascii (encode_utf16 a) = true -> is_ascii (encode_utf16 b) = true ->
  same_name a b = eq_ignore_ascii_case (encode_utf16 a) (encode_utf16 b).
Proof. apply env_name_ascii. Qed.

Lemma same_name_as a b name : same_name a name = true -> same_name b name = same_name b a.
Proof. unfold same_name. intros H. symmetry. by apply env_eq_r. Qed.

Lemma lookup_set_opt environment n v name :
  (forall t, v = Some t -> wf_str t) ->
  lookup_environment (set_opt environment n v) name
  = match v with Some t => if same_name n name then Some t else lookup_environment environment name
            | None => lookup_environment environment name end.
Proof. intros H. destruct v as [t|]; cbn; [|done]. apply lookup_set. by apply H. Qed.

Lemma lookup_forget_all names environment name :
  lookup_environment (fold_left forget names environment) name
  = if existsb (fun n => same_name n name) names then None else lookup_environment environment name.
Proof.
  revert environment. induction names as [|n names IH]; intros environment; cbn; [done|].
  rewrite IH, lookup_forget. by destruct (same_name n name), (existsb _ names).
Qed.

Definition hook_values (service where_ : rstr) (application : option rstr) (pid exit power : option Z) : list (rstr * option rstr) :=
  [(&"NGSM_SERVICE_NAME", Some service); (&"NGSM_EVENT", Some where_); (&"NGSM_APPLICATION", application);
   (&"NGSM_APPLICATION_PID", to_dec <$> pid); (&"NGSM_EXIT_CODE", to_dec <$> exit);
   (&"NGSM_POWER_EVENT_TYPE", to_dec <$> power)].

Lemma to_dec_wf n : wf_str (to_dec n).
Proof.
  assert (H : forall m, 0 <= m -> wf_str (dec_digits (Z.to_nat (Z.log2 m)) m)).
  { intros m Hm. eapply Forall_impl; [exact (dec_digits_digits _ m (conj Hm (log2_fuel m Hm)))|].
    intros c Hc. unfold is_ascii_digit in Hc. unfold scalar. lia. }
  unfold to_dec. destruct (Z.ltb_spec n 0); [|by apply H]. constructor; [unfold scalar; lia|apply H; lia].
Qed.

Lemma hook_values_wf service where_ application pid exit power :
  wf_str service -> wf_str where_ -> (forall a, application = Some a -> wf_str a) ->
  Forall (fun nv => forall t, nv.2 = Some t -> wf_str t) (hook_values service where_ application pid exit power).
Proof.
  intros H1 H2 H3. unfold hook_values.
  assert (Hn : forall (o : option Z) t, to_dec <$> o = Some t -> wf_str t)
    by (intros [m|] t; [intros [= <-]; apply to_dec_wf|done]).
  repeat constructor; cbn [snd]; eauto; by intros t [= <-].
Qed.

Definition set_all (values : list (rstr * option rstr)) (environment : EnvVars) : EnvVars :=
  fold_left (fun env nv => set_opt env nv.1 nv.2) values environment.

Definition value_of (values : list (rstr * option rstr)) (name : rstr) (default : option rstr) : option rstr :=
  match find (fun nv => same_name nv.1 name) values with
  | Some (_, Some v) => Some v
  | _ => default
  end.

Lemma lookup_set_all values environment name :
  ForallOrdPairs (fun x y => same_name x.1 y.1 = false) values ->
  Forall (fun nv => forall t, nv.2 = Some t -> wf_str t) values ->
  lookup_environment (set_all values environment) name = value_of values name (lookup_environment environment name).
Proof.
  intros Hd. revert environment. induction Hd as [|[n v] values Hn _ IH]; intros environment Hw; [done|].
  inversion Hw as [|? ? Hv Hw']; subst. cbn [set_all fold_left fst snd]. rewrite IH by done. unfold value_of. cbn [find fst].
  rewrite lookup_set_opt by exact Hv. destruct (same_name n name) eqn:E; [|by destruct v].
  assert (find (fun nv => same_name nv.1 name) values = None) as ->.
  { clear -Hn E. induction Hn as [|[m w] values Hm _ IH]; cbn in *; [done|].
    unfold same_name in *. by rewrite <- (env_eq_r _ _ (encode_utf16 m) E), env_eq_sym, Hm. }
  by destruct v.
Qed.

Lemma hook_environment_values environment service where_ application pid exit power :
  hook_environment environment service where_ application pid exit power
  = set_all (hook_values service where_ application pid exit power) (fold_left forget hook_variables environment).
Proof. unfold hook_environment, set_all, hook_values. cbn [fold_left fst snd set_opt]. reflexivity. Qed.

Lemma hook_values_names service where_ application pid exit power :
  map fst (hook_values service where_ application pid exit power) = hook_variables.
Proof. unfold hook_values, hook_variables. cbn [map fst]. reflexivity. Qed.

(** What a hook finds in its environment. *)
Lemma hook_environment_lookup environment service where_ application pid exit power name :
  wf_str service -> wf_str where_ -> (forall a, application = Some a -> wf_str a) ->
  lookup_environment (hook_environment environment service where_ application pid exit power) name
  = match find (fun nv => same_name nv.1 name) (hook_values service where_ application pid exit power) with
    | Some nv => nv.2
    | None => lookup_environment environment name
    end.
Proof.
  intros H1 H2 H3.
  rewrite hook_environment_values, lookup_set_all, lookup_forget_all.
  - rewrite <- (hook_values_names service where_ application pid exit power).
    unfold value_of. generalize (hook_values service where_ application pid exit power). intros l.
    induction l as [|[n v] l IH]; cbn; [done|]. destruct (same_name n name); cbn; [by destruct v|exact IH].
  - unfold hook_values.
    repeat (apply FOP_cons;
      [repeat (apply List.Forall_cons;
         [cbn [fst]; rewrite same_name_ascii by (vm_compute; reflexivity); vm_compute; reflexivity|]);
       apply List.Forall_nil|]); apply FOP_nil.
  - by apply hook_values_wf.
Qed.

Lemma effective_environment_entries vars_os c :
  effective_environment vars_os c
  = try_fold set_entry (environment c ++ environment_extra c) (if is_empty (environment c) then vars_os else []).
Proof. done. Qed.
End Environment.

(** The environment of the application and of its hooks is the configured
    one. It is built exactly when every entry is NAME=VALUE with a name and no
    NUL, and the error is that of a bad entry. A name then has the value of its
    last entry and occurs once; a name without an entry has the supervisor's
    own value if no base environment is configured, and none otherwise. In a
    hook's environment each NGSM variable is what NGSM says of this event, never
    a stale or configured value, and everything else is unchanged. *)
Theorem effective_environment_spec {N : OsNames} vars_os c :
  Forall wf_str (environment c ++ environment_extra c) ->
  match effective_environment vars_os c with
  | Err e => exists entry, In entry (environment c ++ environment_extra c) /\ parse_env_entry entry = Err e
  | Ok env =>
      Forall (fun e => is_ok (parse_env_entry e) = true) (environment c ++ environment_extra c)
      /\ (forall name,
            lookup_environment env name
            = match configured (environment c ++ environment_extra c) name with
              | Some v => Some v
              | None => if is_empty (environment c) then lookup_environment vars_os name else None
              end
            /\ (configured (environment c ++ environment_extra c) name <> None -> occurrences env name = 1%nat))
      /\ forall service where_ app pid exit power name,
           wf_str service -> wf_str where_ -> (forall a, app = Some a -> wf_str a) ->
           lookup_environment (hook_environment env service where_ app pid exit power) name
           = match find (fun nv => same_name nv.1 name) (hook_values service where_ app pid exit power) with
             | Some nv => nv.2
             | None => lookup_environment env name
             end
  end.
Proof.
  intros Hw. rewrite effective_environment_entries.
  pose proof (set_entries _ (if is_empty (environment c) then vars_os else []) Hw) as H.
  destruct (try_fold set_entry _ _) as [env|e]; [|exact H]. destruct H as [H1 H2].
  split; [exact H1|]. split; [|intros; by apply hook_environment_lookup]. intros name.
  destruct (H2 name) as [-> ->]. destruct (configured _ name); [done|].
  split; [by destruct (is_empty (environment c))|done].
Qed.

(** The delay before a restart: never below the mandatory delay, the throttle
    only for a child that lived shorter than the threshold. *)
Lemma restart_delay_bounds c lived :
  unwrap_or 0 (restart_delay_ms (restart c)) <= restart_delay c lived
  /\ (THROTTLE_THRESHOLD_MS * 1000000 <= lived -> 0 <= unwrap_or 0 (restart_delay_ms (restart c)) ->
      restart_delay c lived = unwrap_or 0 (restart_delay_ms (restart c)))
  /\ (lived < THROTTLE_THRESHOLD_MS * 1000000 -> unwrap_or 1500 (throttle_delay_ms (restart c)) <= restart_delay c lived).
Proof.
  unfold restart_delay, THROTTLE_THRESHOLD_MS, DEFAULT_RESTART_DELAY_MS, DEFAULT_THROTTLE_DELAY_MS.
  destruct (Z.ltb_spec (lived / 1000000) 1500) as [E|E]; Z.to_euclidean_division_equations; lia.
Qed.

(** ** Samples *)

#[local] Instance ascii_names : OsNames.
Proof.
  refine {| env_name_eq := eq_ignore_ascii_case; env_name_fold := to_ascii_lowercase |}.
  - apply eq_ignore_ascii_case_eq.
  - done.
Defined.

Definition sample_environment (entries : list rstr) : ManagedApplicationConfig :=
  let d := ManagedApplicationConfig_default in
  {| application := application d; app_parameters := app_parameters d; app_directory := app_directory d;
     environment := entries; environment_extra := [&"path=C:\tools"; &"NGSM_EXIT_CODE=0"]; priority := priority d;
     affinity := affinity d; restart := restart d; shutdown := shutdown d; io := io d; rotation := rotation d;
     exit_actions := exit_actions d; hooks := hooks d; expandable_strings := expandable_strings d |}.

(** The later spelling of a name wins; a hook's exit code is the real one. *)
Lemma effective_environment_spec_witness :
  exists env, effective_environment [] (sample_environment [&"PATH=C:\Windows"; &"LANG=de"]) = Ok env
    /\ lookup_environment env &"Path" = Some &"C:\tools"
    /\ lookup_environment (hook_environment env &"web" &"Exit/Post" None None (Some 3) None) &"ngsm_exit_code" = Some &"3".
Proof.
  pose proof (effective_environment_spec [] (sample_environment [&"PATH=C:\Windows"; &"LANG=de"])) as H.
  eexists. split; [vm_compute; reflexivity|].
  destruct H as (_ & H1 & H2); [repeat (constructor; [by apply wf_str_b|]); constructor|].
  split; [exact (proj1 (H1 &"Path"))|].
  refine (H2 &"web" &"Exit/Post" None None (Some 3) None &"ngsm_exit_code" _ _ _);
    [by apply wf_str_b|by apply wf_str_b|done].
Defined.
