(* ===== verification/Supervisor.v ===== *)
(** * The supervisor: servicemanager-supervisor [lib.rs]

    Generations of the managed application, control messages, hooks, rotation
    requests, graceful stop and cleanup. The supervisor's own fields are a
    record; everything it shares with other threads or asks of the operating
    system (the stop flag, the channel, the observed exit of a child, the job,
    sinks, readers, hooks and the event log) is a call. Times are in
    nanoseconds. Each loop has a bound; a loop that reaches it ends in
    [no_more_fuel], which the program itself never returns. *)

From Stdlib Require Import ZArith Lia List.
From S2P Require Import Prelude Text BTree Model Validate Expansion Effects Transition Rotation LaunchEnv.

Definition ms (n : Z) : Z := n * 1000000.
Definition secs (n : Z) : Z := n * 1000000000.

Definition DEFAULT_CONSOLE_GRACE_MS : Z := 1500.
Definition DEFAULT_WINDOW_GRACE_MS : Z := 1500.
Definition DEFAULT_THREADS_GRACE_MS : Z := 1500.
Definition STOP_METHOD_SKIP_CONSOLE : Z := 1.
Definition STOP_METHOD_SKIP_WINDOW : Z := 2.
Definition STOP_METHOD_SKIP_THREADS : Z := 4.
Definition STOP_METHOD_SKIP_TERMINATE : Z := 8.
Definition CONTROL_POLL : Z := ms 25.
Definition DRAIN_BUDGET : Z := secs 5.
Definition SHUTDOWN_BUDGET : Z := secs 90.

(** ** Data *)

Inductive ExitReason := ReasonStopped | ReasonChildExited | ReasonSpawnFailed | ReasonSuicide (exit_code : Z).
Inductive StartupStatus := StatusRunning | StatusQuiesced.

(** A transition is known by a number. *)
Inductive SupervisorMessage :=
| MStop | MRotate | MPause (request : Z) | MContinue (request : Z) | MPowerEvent (event : Z)
| MChildExited (generation : Z) | MAutoRotate (generation : Z) | MReaderFailed (generation : Z).
Inductive Received := Got (m : SupervisorMessage) | Nothing | Disconnected.

Record ObservedExit := { oe_code : Z; oe_observed : Z; oe_timestamp : rstr; oe_error : option rstr }.

Record Generation := { g_id : Z; g_pid : Z; g_started : Z; g_watcher : bool; g_recorded : bool }.

(** ** hooks.rs: points *)

Inductive HookPoint :=
| StartPre | StartPost | StopPre | ExitPost | RotatePre | RotatePost | PowerChange | PowerResume.
#[export] Instance HookPoint_eq_dec : EqDecision HookPoint.
Proof. solve_decision. Defined.

Definition hook_event (p : HookPoint) : rstr :=
  match p with
  | StartPre | StartPost => &"Start"
  | StopPre => &"Stop"
  | ExitPost => &"Exit"
  | RotatePre | RotatePost => &"Rotate"
  | PowerChange | PowerResume => &"Power"
  end.
Definition hook_point_action (p : HookPoint) : rstr :=
  match p with
  | StartPre | RotatePre | StopPre => &"Pre"
  | StartPost | RotatePost | ExitPost => &"Post"
  | PowerChange => &"Change"
  | PowerResume => &"Resume"
  end.

Definition is_resume_event (event_type : Z) : bool :=
  (event_type =? 18) || (event_type =? 6) || (event_type =? 8) || (event_type =? 7).

Definition HOOK_TIMEOUT : Z := secs 30.

Definition find_hook (hooks : list HookConfig) (p : HookPoint) : option HookConfig :=
  find (fun h => eq_ignore_ascii_case (event h) (hook_event p)
                 && eq_ignore_ascii_case (hook_action h) (hook_point_action p)) hooks.

(** [HookRuntime], with the hook it is for; [hc_terminal] hooks run on while
    the supervisor is stopping. *)
Record HookCall := {
  hc_point : HookPoint; hc_hook : HookConfig; hc_environment : EnvVars; hc_directory : option rstr;
  hc_deadline : Z; hc_terminal : bool; hc_generation : Z }.

(** The lines of the event log. *)
Inductive LogLine :=
| LStarted (pid : Z) (ts : rstr) | LRestarted (pid delay_ms : Z) (ts : rstr)
| LExited (exit_code lived_ms : Z) (ts : rstr) | LThrottled (delay_ms : Z) | LStopped.

(** The command of a generation. *)
Record LaunchCommand := {
  lc_application : rstr; lc_arguments : option rstr; lc_directory : option rstr; lc_environment : EnvVars;
  lc_new_process_group : bool }.

(** A text, or a text followed by an error. *)
Inductive ReportText := RText (t : rstr) | RError (prefix : rstr) (e : SupervisorError).

(** ** Calls *)

Inductive SupE : Type -> Type :=
| Now : SupE Z
| Sleep (ns : Z) : SupE unit
| Stopping : SupE bool
| RequestStop : SupE unit
| RecvTimeout (ns : Z) : SupE Received
| TryRecv : SupE Received
| SendStartup (s : StartupStatus) : SupE unit
(** [PauseState::change], for a request or for the stop itself *)
| ChangePause (job : option Z) (pause : bool) (request : option Z) : SupE TransitionOutcome
| CancelRequest (request : Z) : SupE unit
| RejectRequest (request : Z) (reason : rstr) : SupE unit
| IsPaused : SupE bool
| ClearPause : SupE unit
| NewJob : SupE Z
| JobMembers (job : Z) : SupE (list Z)
| JobTerminate (job : Z) : SupE unit
| JobWaitEmpty (job ns : Z) : SupE unit
| JobIsEmpty (job : Z) : SupE bool
| SpawnChild (c : LaunchCommand) : SupE Z
| AssignChild (job child : Z) : SupE unit
| PinChild (job child : Z) : SupE unit
| ConfigureChild (child : Z) (priority : option Z) (affinity : option rstr) : SupE unit
| ResumeChild (child : Z) : SupE bool
| KillChild (child : Z) : SupE unit
| TryWaitChild (child : Z) : SupE bool
| GenExit (generation : Z) : SupE (option ObservedExit)
| RootRunning (generation : Z) : SupE bool
| RootTerminate (generation : Z) : SupE unit
| ObserveUnwatched (generation : Z) : SupE unit
| StartWatcher (generation child : Z) : SupE unit
| WatcherFinished (generation : Z) : SupE bool
| JoinWatcher (generation : Z) : SupE unit
| CtrlBreak (pid : Z) : SupE unit
| WmClose (pid : Z) : SupE unit
| WmQuit (pid : Z) : SupE unit
(** [IoTask]s: opening the sinks, and one rotation *)
| SpawnOpenTask (out err : option IoStream) (rotation : LogRotationConfig) : SupE unit
| WaitOpenTask (budget : Z) : SupE (result SupervisorError (option Z * option Z * list Z))
| SpawnRotationTask (sink : Z) : SupE unit
| WaitRotationTask (budget : Z) : SupE (result SupervisorError bool)
| SinkDue (sink : Z) (offline : bool) : SupE bool
| SinkHasData (sink : Z) : SupE bool
| SinkHandled (sink : Z) : SupE unit
| ChildStdio (sink : Z) : SupE unit
| OpenPipe : SupE unit
| SpawnReader (label : rstr) (sink generation : Z) : SupE Z
| ReaderFinish (reader deadline : Z) : SupE unit
| OpenStdinFile (s : IoStream) : SupE unit
| VarsOs : SupE EnvVars
| Timestamp : SupE rstr
| RunHook (h : HookCall) : SupE unit
| Report (operation : rstr) (generation : Z) (message : ReportText) : SupE unit
| WriteLog (l : LogLine) : SupE unit
| TerminalReady : SupE unit
| TerminalReleased : SupE bool.

Abbreviation SupProg A := (Prog SupE SupervisorError A) (only parsing).
Abbreviation SupEvent := (Event SupE SupervisorError) (only parsing).

(** ** The supervisor's fields *)

Record Sup := {
  sv_name : rstr;
  sv_config : ManagedApplicationConfig;
  sv_launch : option ManagedApplicationConfig;
  sv_environment : EnvVars;
  sv_generation : option Generation;
  sv_next : Z;
  sv_last_exit : option Z;
  sv_sinks : list Z;
  sv_readers : list Z;
  sv_open_task : bool;
  sv_rotation_task : bool;
  sv_startup_reported : bool;
  sv_terminal : bool;
  sv_stop_hook_fired : bool;
  sv_stopped_recorded : bool;
  sv_shutdown_deadline : option Z;
  sv_job : option Z }.

(** Assignments to a field. *)
Definition set_launch (x : option ManagedApplicationConfig) (s : Sup) : Sup :=
    Build_Sup (sv_name s) (sv_config s) x (sv_environment s) (sv_generation s) (sv_next s) (sv_last_exit s)
    (sv_sinks s) (sv_readers s) (sv_open_task s) (sv_rotation_task s) (sv_startup_reported s) (sv_terminal s)
    (sv_stop_hook_fired s) (sv_stopped_recorded s) (sv_shutdown_deadline s) (sv_job s).
Definition set_environment (x : EnvVars) (s : Sup) : Sup :=
    Build_Sup (sv_name s) (sv_config s) (sv_launch s) x (sv_generation s) (sv_next s) (sv_last_exit s) (sv_sinks s)
    (sv_readers s) (sv_open_task s) (sv_rotation_task s) (sv_startup_reported s) (sv_terminal s) (sv_stop_hook_fired
    s) (sv_stopped_recorded s) (sv_shutdown_deadline s) (sv_job s).
Definition set_generation (x : option Generation) (s : Sup) : Sup :=
    Build_Sup (sv_name s) (sv_config s) (sv_launch s) (sv_environment s) x (sv_next s) (sv_last_exit s) (sv_sinks s)
    (sv_readers s) (sv_open_task s) (sv_rotation_task s) (sv_startup_reported s) (sv_terminal s) (sv_stop_hook_fired
    s) (sv_stopped_recorded s) (sv_shutdown_deadline s) (sv_job s).
Definition set_next (x : Z) (s : Sup) : Sup :=
    Build_Sup (sv_name s) (sv_config s) (sv_launch s) (sv_environment s) (sv_generation s) x (sv_last_exit s)
    (sv_sinks s) (sv_readers s) (sv_open_task s) (sv_rotation_task s) (sv_startup_reported s) (sv_terminal s)
    (sv_stop_hook_fired s) (sv_stopped_recorded s) (sv_shutdown_deadline s) (sv_job s).
Definition set_last_exit (x : option Z) (s : Sup) : Sup :=
    Build_Sup (sv_name s) (sv_config s) (sv_launch s) (sv_environment s) (sv_generation s) (sv_next s) x (sv_sinks
    s) (sv_readers s) (sv_open_task s) (sv_rotation_task s) (sv_startup_reported s) (sv_terminal s)
    (sv_stop_hook_fired s) (sv_stopped_recorded s) (sv_shutdown_deadline s) (sv_job s).
Definition set_sinks (x : list Z) (s : Sup) : Sup :=
    Build_Sup (sv_name s) (sv_config s) (sv_launch s) (sv_environment s) (sv_generation s) (sv_next s) (sv_last_exit
    s) x (sv_readers s) (sv_open_task s) (sv_rotation_task s) (sv_startup_reported s) (sv_terminal s)
    (sv_stop_hook_fired s) (sv_stopped_recorded s) (sv_shutdown_deadline s) (sv_job s).
Definition set_readers (x : list Z) (s : Sup) : Sup :=
    Build_Sup (sv_name s) (sv_config s) (sv_launch s) (sv_environment s) (sv_generation s) (sv_next s) (sv_last_exit
    s) (sv_sinks s) x (sv_open_task s) (sv_rotation_task s) (sv_startup_reported s) (sv_terminal s)
    (sv_stop_hook_fired s) (sv_stopped_recorded s) (sv_shutdown_deadline s) (sv_job s).
Definition set_open_task (x : bool) (s : Sup) : Sup :=
    Build_Sup (sv_name s) (sv_config s) (sv_launch s) (sv_environment s) (sv_generation s) (sv_next s) (sv_last_exit
    s) (sv_sinks s) (sv_readers s) x (sv_rotation_task s) (sv_startup_reported s) (sv_terminal s)
    (sv_stop_hook_fired s) (sv_stopped_recorded s) (sv_shutdown_deadline s) (sv_job s).
Definition set_rotation_task (x : bool) (s : Sup) : Sup :=
    Build_Sup (sv_name s) (sv_config s) (sv_launch s) (sv_environment s) (sv_generation s) (sv_next s) (sv_last_exit
    s) (sv_sinks s) (sv_readers s) (sv_open_task s) x (sv_startup_reported s) (sv_terminal s) (sv_stop_hook_fired s)
    (sv_stopped_recorded s) (sv_shutdown_deadline s) (sv_job s).
Definition set_startup_reported (x : bool) (s : Sup) : Sup :=
    Build_Sup (sv_name s) (sv_config s) (sv_launch s) (sv_environment s) (sv_generation s) (sv_next s) (sv_last_exit
    s) (sv_sinks s) (sv_readers s) (sv_open_task s) (sv_rotation_task s) x (sv_terminal s) (sv_stop_hook_fired s)
    (sv_stopped_recorded s) (sv_shutdown_deadline s) (sv_job s).
Definition set_stop_hook_fired (x : bool) (s : Sup) : Sup :=
    Build_Sup (sv_name s) (sv_config s) (sv_launch s) (sv_environment s) (sv_generation s) (sv_next s) (sv_last_exit
    s) (sv_sinks s) (sv_readers s) (sv_open_task s) (sv_rotation_task s) (sv_startup_reported s) (sv_terminal s) x
    (sv_stopped_recorded s) (sv_shutdown_deadline s) (sv_job s).
Definition set_stopped_recorded (x : bool) (s : Sup) : Sup :=
    Build_Sup (sv_name s) (sv_config s) (sv_launch s) (sv_environment s) (sv_generation s) (sv_next s) (sv_last_exit
    s) (sv_sinks s) (sv_readers s) (sv_open_task s) (sv_rotation_task s) (sv_startup_reported s) (sv_terminal s)
    (sv_stop_hook_fired s) x (sv_shutdown_deadline s) (sv_job s).
Definition set_shutdown_deadline (x : option Z) (s : Sup) : Sup :=
    Build_Sup (sv_name s) (sv_config s) (sv_launch s) (sv_environment s) (sv_generation s) (sv_next s) (sv_last_exit
    s) (sv_sinks s) (sv_readers s) (sv_open_task s) (sv_rotation_task s) (sv_startup_reported s) (sv_terminal s)
    (sv_stop_hook_fired s) (sv_stopped_recorded s) x (sv_job s).
Definition set_job (x : option Z) (s : Sup) : Sup :=
    Build_Sup (sv_name s) (sv_config s) (sv_launch s) (sv_environment s) (sv_generation s) (sv_next s) (sv_last_exit
    s) (sv_sinks s) (sv_readers s) (sv_open_task s) (sv_rotation_task s) (sv_startup_reported s) (sv_terminal s)
    (sv_stop_hook_fired s) (sv_stopped_recorded s) (sv_shutdown_deadline s) x.

(** [Supervisor::new], with [terminal_gate] taken or not. *)
Definition sup_new (name : rstr) (config : ManagedApplicationConfig) (terminal : bool) : Sup := {|
  sv_name := name; sv_config := config; sv_launch := None; sv_environment := []; sv_generation := None;
  sv_next := 0; sv_last_exit := None; sv_sinks := []; sv_readers := []; sv_open_task := false;
  sv_rotation_task := false; sv_startup_reported := false; sv_terminal := terminal; sv_stop_hook_fired := false;
  sv_stopped_recorded := false; sv_shutdown_deadline := None; sv_job := None |}.

(** ** The monad

    A body reads and writes the fields, calls, and may stop early with an error;
    the fields keep what was assigned before. *)

Definition SM (A : Type) : Type := Sup -> SupProg (result SupervisorError A * Sup).

Definition sret {A} (a : A) : SM A := fun s => PRet (Ok (Ok a, s)).
Definition sfail {A} (e : SupervisorError) : SM A := fun s => PRet (Ok (Err e, s)).
Definition sbind {A B} (m : SM A) (k : A -> SM B) : SM B :=
  fun s => pthen (m s) (fun r =>
    match r with
    | Ok (Ok a, s') => k a s'
    | Ok (Err e, s') => PRet (Ok (Err e, s'))
    | Err e => PRet (Err e)
    end).
(** The result of a body, error or not. *)
Definition stry {A} (m : SM A) : SM (result SupervisorError A) :=
  fun s => pthen (m s) (fun r =>
    match r with
    | Ok (x, s') => PRet (Ok (Ok x, s'))
    | Err e => PRet (Err e)
    end).
Definition slift {A} (r : result SupervisorError A) : SM A := fun s => PRet (Ok (r, s)).
Definition sget {A} (f : Sup -> A) : SM A := fun s => PRet (Ok (Ok (f s), s)).
Definition smod (f : Sup -> Sup) : SM unit := fun s => PRet (Ok (Ok tt, f s)).
(** A fallible call. *)
Definition call {X} (e : SupE X) : SM X := fun s => pthen (perform e) (fun r => PRet (Ok (r, s))).
(** A call that cannot fail, or whose failure counts as [d]. *)
Definition ask {X} (d : X) (e : SupE X) : SM X :=
  fun s => pthen (perform e) (fun r => PRet (Ok (Ok (match r with Ok x => x | Err _ => d end), s))).
Definition tell (e : SupE unit) : SM unit := ask tt e.

Notation "'let&' x ':=' e 'in' k" := (sbind e (fun x => k))
  (at level 10, x pattern, e at level 100, k at level 200) : rust_scope.
Notation "e ';&' k" := (sbind e (fun _ => k))
  (at level 199, right associativity) : rust_scope.

Fixpoint sfor {A} (l : list A) (f : A -> SM unit) : SM unit :=
  match l with
  | [] => sret tt
  | x :: l' => f x ;& sfor l' f
  end.

Definition no_more_fuel : SupervisorError := Degraded &"model fuel exhausted".

(** [error.to_string()] of the error below the supervisor's own. *)
Definition inner_text (e : SupervisorError) : rstr :=
  match e with
  | MissingApplication => &"application path is not configured"
  | SpawnFailed p e => &"spawn " ++ p ++ &": " ++ io_error_text e
  | OpenLog p e => &"open log file " ++ p ++ &": " ++ io_error_text e
  | OpenStdin p e => &"open stdin file " ++ p ++ &": " ++ io_error_text e
  | SupIo e => io_error_text e
  | SupCore e => error_to_string e
  | Degraded s => s
  end.
Definition degrade (e : SupervisorError) : SupervisorError := Degraded (inner_text e).
(** [m.map_err(|error| Degraded(error.to_string()))] *)
Definition degrading {A} (m : SM A) : SM A := let& r := stry m in slift (map_err degrade r).

Section Supervision.
Context {N : OsNames}.

(** ** Small queries *)

Definition stopping : SM bool := ask false Stopping.
Definition now : SM Z := ask 0 Now.
Definition report (operation : rstr) (m : ReportText) : SM unit :=
  let& n := sget sv_next in tell (Report operation n m).

Definition generation_exit : SM (option ObservedExit) :=
  let& g := sget sv_generation in
  match g with Some g => ask None (GenExit (g_id g)) | None => sret None end.

(** [Generation::alive] of the generation there is, if any. *)
Definition generation_alive : SM bool :=
  let& g := sget sv_generation in
  match g with
  | None => sret false
  | Some g =>
      let& e := ask None (GenExit (g_id g)) in
      if is_some e then sret false else ask false (RootRunning (g_id g))
  end.

Definition current_pid : SM (option Z) :=
  let& g := sget sv_generation in
  let& alive := generation_alive in
  sret (if alive then g_pid <$> g else None).

(** ** Hooks *)

Definition terminal_hook (p : HookPoint) : bool := match p with StopPre | ExitPost => true | _ => false end.

Definition hook_invocation (c : ManagedApplicationConfig) (h : HookConfig) : ManagedApplicationConfig :=
  let d := ManagedApplicationConfig_default in
  let key := hook_expansion_key (event h) (hook_action h) in
  {| application := application d; app_parameters := app_parameters d; app_directory := app_directory d;
     environment := environment d; environment_extra := environment_extra d; priority := priority d;
     affinity := affinity d; restart := restart d; shutdown := shutdown d; io := io d; rotation := rotation d;
     exit_actions := exit_actions d; hooks := [h];
     expandable_strings := if is_expandable_string c key then bs_insert key [] else [] |}.

Definition nonempty_directory (c : ManagedApplicationConfig) : option rstr :=
  match app_directory c with Some d => if is_empty d then None else Some d | None => None end.

(** From the environment on; [where_] is [event/action]. *)
Definition invoke_hook (p : HookPoint) (h : HookConfig) (env : EnvVars) (pid exit power : option Z) : SM unit :=
  let& s := sget (fun s => s) in
  let where_ := hook_event p ++ &"/" ++ hook_point_action p in
  let config := unwrap_or (sv_config s) (sv_launch s) in
  let env := hook_environment env (sv_name s) where_ (application config) pid exit power in
  let& deadline := match sv_shutdown_deadline s with
                   | Some d => sret d
                   | None => let& t := now in sret (t + HOOK_TIMEOUT)
                   end in
  match resolve_expandable_strings (hook_invocation (sv_config s) h) (lookup_environment env) with
  | Err e => report &"hook expansion" (RError [] (SupCore e))
  | Ok invocation =>
      tell (RunHook {| hc_point := p; hc_hook := List.hd h (hooks invocation); hc_environment := env;
                       hc_directory := nonempty_directory config; hc_deadline := deadline;
                       hc_terminal := terminal_hook p; hc_generation := sv_next s |})
  end.

Definition fire_hook (p : HookPoint) (pid exit power : option Z) : SM unit :=
  let& st := stopping in
  if st && negb (terminal_hook p) then sret tt
  else
    let& s := sget (fun s => s) in
    match find_hook (hooks (sv_config s)) p with
    | None => sret tt
    | Some h =>
        if is_empty (sv_environment s) then
          let& vars := ask [] VarsOs in
          match effective_environment vars (sv_config s) with
          | Ok env => invoke_hook p h env pid exit power
          | Err e => report &"hook environment" (RError (hook_event p ++ &"/" ++ hook_point_action p ++ &" skipped: ") e)
          end
        else invoke_hook p h (sv_environment s) pid exit power
    end.

(** ** Rotation *)

(** One turn of the loop of [rotate_sinks]: whether it goes on. *)
Definition rotate_sink (force offline : bool) (sink : Z) : SM bool :=
  let& st := stopping in
  if st then sret false
  else
    let& due := if force then call (SinkHasData sink) else call (SinkDue sink offline) in
    if negb due then tell (SinkHandled sink) ;& sret true
    else
      let& pid := current_pid in
      fire_hook RotatePre pid None None ;&
      let& st := stopping in
      if st then sret false
      else
        call (SpawnRotationTask sink) ;&
        smod (set_rotation_task true) ;&
        let& rotated := degrading (call (WaitRotationTask (secs 30))) in
        smod (set_rotation_task false) ;&
        match rotated with
        | Ok true => let& pid := current_pid in fire_hook RotatePost pid None None
        | Ok false => sret tt
        | Err e => report &"log rotation" (RError [] e)
        end ;&
        tell (SinkHandled sink) ;& sret true.

Fixpoint rotate_each (force offline : bool) (sinks : list Z) : SM unit :=
  match sinks with
  | [] => sret tt
  | k :: rest => let& more := rotate_sink force offline k in if more then rotate_each force offline rest else sret tt
  end.

Definition rotate_sinks (force offline : bool) : SM unit :=
  let& sinks := sget sv_sinks in rotate_each force offline sinks.

Definition finish_filesystem_tasks : SM unit :=
  let& o := sget sv_open_task in
  (if o then degrading (call (WaitOpenTask 0)) ;& smod (set_open_task false) else sret tt) ;&
  let& r := sget sv_rotation_task in
  if r then degrading (call (WaitRotationTask 0)) ;& smod (set_rotation_task false) else sret tt.

(** ** Waiting for the child *)

Definition exit_observed_and_tree_empty : SM bool :=
  let& e := generation_exit in
  if is_some e then
    let& j := sget sv_job in
    match j with None => sret true | Some j => ask false (JobIsEmpty j) end
  else sret false.

(** [observe_unwatched_child]: polls a child no watcher waits for. *)
Definition observe_unwatched_child : SM unit :=
  let& g := sget sv_generation in
  match g with
  | Some g => if g_watcher g then sret tt else tell (ObserveUnwatched (g_id g))
  | None => sret tt
  end.

Fixpoint wait_for_exit_until (fuel : nat) (deadline : Z) : SM bool :=
  match fuel with
  | O => sfail no_more_fuel
  | S fuel =>
      let& t := now in
      if t <? deadline then
        observe_unwatched_child ;&
        let& over := exit_observed_and_tree_empty in
        if over then sret true
        else
          let& t := now in
          tell (Sleep (Z.min CONTROL_POLL (sat_sub deadline t))) ;&
          wait_for_exit_until fuel deadline
      else exit_observed_and_tree_empty
  end.

Definition wait_for_exit (fuel : nat) (duration : Z) : SM bool :=
  let& t := now in
  let deadline := t + duration in
  let& d := sget sv_shutdown_deadline in
  wait_for_exit_until fuel (match d with Some stop => Z.min deadline (if stop <? secs 40 then stop else stop - secs 40) | None => deadline end).

(** [kill_owned_child]: at most two seconds of polling after the kill. *)
Fixpoint reap_owned_child (fuel : nat) (child deadline : Z) : SM unit :=
  match fuel with
  | O => sfail no_more_fuel
  | S fuel =>
      let& t := now in
      if t <? deadline then
        let& running := ask false (TryWaitChild child) in
        if running then tell (Sleep CONTROL_POLL) ;& reap_owned_child fuel child deadline else sret tt
      else sret tt
  end.
Definition kill_owned_child (fuel : nat) (child : Z) : SM unit :=
  tell (KillChild child) ;& let& t := now in reap_owned_child fuel child (t + secs 2).

(** ** Recording and cleanup *)

Definition record_child_exit : SM unit :=
  let& g := sget sv_generation in
  match g with
  | None => sret tt
  | Some g =>
      if g_recorded g then sret tt
      else
        let& e := generation_exit in
        match e with
        | None => sret tt
        | Some e =>
            smod (set_generation (Some {| g_id := g_id g; g_pid := g_pid g; g_started := g_started g;
                                          g_watcher := g_watcher g; g_recorded := true |})) ;&
            smod (set_last_exit (Some (oe_code e))) ;&
            tell (WriteLog (LExited (oe_code e) (sat_sub (oe_observed e) (g_started g) / 1000000) (oe_timestamp e))) ;&
            match oe_error e with Some t => report &"child wait" (RText t) | None => sret tt end ;&
            fire_hook ExitPost (Some (g_pid g)) (Some (oe_code e)) None
        end
  end.

(** The job, terminated and confirmed empty; it is dropped either way. *)
Definition cleanup_job : SM unit :=
  let& j := sget sv_job in
  match j with
  | None => sret tt
  | Some j =>
      smod (set_job None) ;&
      let& terminated := stry (call (JobTerminate j) ;& call (JobWaitEmpty j (secs 2))) in
      match terminated with
      | Ok _ => sret tt
      | Err e => report &"generation tree cleanup" (RError [] e) ;& sfail (degrade e)
      end
  end.

Fixpoint wait_watcher (fuel : nat) (generation deadline : Z) : SM unit :=
  match fuel with
  | O => sfail no_more_fuel
  | S fuel =>
      let& finished := ask false (WatcherFinished generation) in
      if finished then sret tt
      else
        let& t := now in
        if t <? deadline then tell (Sleep CONTROL_POLL) ;& wait_watcher fuel generation deadline else sret tt
  end.

Definition forget_watcher (g : Generation) : Generation :=
  {| g_id := g_id g; g_pid := g_pid g; g_started := g_started g; g_watcher := false; g_recorded := g_recorded g |}.

Definition join_watcher (fuel : nat) : SM unit :=
  let& g := sget sv_generation in
  match g with
  | Some g =>
      if g_watcher g then
        smod (set_generation (Some (forget_watcher g))) ;&
        let& t := now in
        wait_watcher fuel (g_id g) (t + secs 1) ;&
        let& finished := ask false (WatcherFinished (g_id g)) in
        if negb finished then sfail (Degraded &"exit watcher did not finish after publishing exit")
        else
          let& joined := stry (call (JoinWatcher (g_id g))) in
          match joined with Ok _ => sret tt | Err _ => sfail (Degraded &"exit watcher panicked") end
      else sret tt
  | None => sret tt
  end.

(** Every reader is finished; the last failure is kept. *)
Fixpoint finish_readers (readers : list Z) (deadline : Z) (failure : option SupervisorError)
    : SM (option SupervisorError) :=
  match readers with
  | [] => sret failure
  | r :: rest =>
      let& finished := stry (call (ReaderFinish r deadline)) in
      finish_readers rest deadline (match finished with Ok _ => failure | Err e => Some e end)
  end.

Definition cleanup_generation (fuel : nat) : SM unit :=
  cleanup_job ;&
  finish_filesystem_tasks ;&
  let& g := sget sv_generation in
  (if is_some g then
     let& t := now in
     let& over := wait_for_exit_until fuel (t + secs 2) in
     if over then sret tt else sfail (Degraded &"contained child did not finish before cleanup deadline")
   else sret tt) ;&
  join_watcher fuel ;&
  let& t := now in
  let& readers := sget sv_readers in
  let& failure := finish_readers readers (t + DRAIN_BUDGET) None in
  (if is_none failure then
     let& st := stopping in
     let& c := sget sv_config in
     if negb st && has_online_rotation c then rotate_sinks false false else sret tt
   else sret tt) ;&
  record_child_exit ;&
  match failure with
  | Some e => report &"output drain" (RError [] e) ;& sfail e
  | None =>
      smod (set_readers []) ;& smod (set_generation None) ;& smod (set_sinks []) ;& tell ClearPause
  end.

(** ** Starting a generation *)

Definition confirm_startup (status : StartupStatus) : SM unit :=
  let& reported := sget sv_startup_reported in
  if reported then sret tt
  else
    let& st := stopping in
    if st then sret tt else tell (SendStartup status) ;& smod (set_startup_reported true).

Definition prepare_launch : SM unit :=
  let& c := sget sv_config in
  let& vars := ask [] VarsOs in
  let& env := slift (effective_environment vars c) in
  smod (set_environment env) ;&
  let& config := slift (launch_config env c) in
  smod (set_launch (Some config)).

Definition attach_pipe_sink (label : rstr) (sink : Z) : SM unit :=
  call OpenPipe ;&
  let& generation := sget sv_next in
  let& reader := call (SpawnReader label sink generation) in
  let& readers := sget sv_readers in smod (set_readers (readers ++ [reader])).

Definition is_online (c : ManagedApplicationConfig) : bool :=
  bool_decide (enabled (rotation c) = Some true) && is_some_and (fun mode => negb (mode =? 0)) (online (rotation c)).

Definition attach_stream (c : ManagedApplicationConfig) (label : rstr) (sink : option Z) : SM unit :=
  match sink with
  | None => sret tt
  | Some k => if is_online c then attach_pipe_sink label k else call (ChildStdio k)
  end.

(** The sinks of the generation, opened by a file task. *)
Definition open_sinks (c : ManagedApplicationConfig) : SM (option Z * option Z) :=
  call (SpawnOpenTask (stdout (io c)) (stderr (io c)) (rotation c)) ;&
  smod (set_open_task true) ;&
  let& opened := degrading (call (WaitOpenTask (secs 30))) in
  smod (set_open_task false) ;&
  let& (out, err, sinks) := slift opened in
  smod (set_sinks sinks) ;& sret (out, err).

Definition stop_skip (c : ManagedApplicationConfig) : Z := unwrap_or 0 (stop_method_skip (shutdown c)).
Definition skips (skip bit : Z) : bool := negb (Z.land skip bit =? 0).

Definition launch_command (c : ManagedApplicationConfig) (application : rstr) (env : EnvVars) : LaunchCommand := {|
  lc_application := application; lc_arguments := app_parameters c; lc_directory := nonempty_directory c;
  lc_environment := env; lc_new_process_group := negb (skips (stop_skip c) STOP_METHOD_SKIP_CONSOLE) |}.

(** The child assigned to the job, pinned and configured; killed otherwise. *)
Definition contain_child (fuel : nat) (c : ManagedApplicationConfig) (job child : Z) : SM unit :=
  let& contained := stry (call (AssignChild job child) ;& call (PinChild job child) ;&
                          call (ConfigureChild child (priority c) (affinity c))) in
  match contained with
  | Ok _ => sret tt
  | Err e => kill_owned_child fuel child ;& sfail e
  end.

Definition resume_child (fuel : nat) (child : Z) : SM unit :=
  let& resumed := stry (call (ResumeChild child)) in
  match resumed with
  | Ok true => sret tt
  | Ok false => kill_owned_child fuel child ;& sfail (invalid &"child exited before its initial resume")
  | Err e => kill_owned_child fuel child ;& sfail e
  end.

(** From the resumed child on. *)
Definition publish_generation (child started : Z) (timestamp : rstr) (first : bool) (last_delay : Z) : SM bool :=
  let& id := sget sv_next in
  smod (set_generation (Some {| g_id := id; g_pid := child; g_started := started; g_watcher := false; g_recorded := false |})) ;&
  let& watcher := stry (call (StartWatcher id child)) in
  (if first then tell (WriteLog (LStarted child timestamp))
   else tell (WriteLog (LRestarted child (last_delay / 1000000) timestamp))) ;&
  slift watcher ;&
  smod (set_generation (Some {| g_id := id; g_pid := child; g_started := started; g_watcher := true; g_recorded := false |})) ;&
  let& st := stopping in
  if st then sret false
  else
    fire_hook StartPost (Some child) None None ;&
    let& st := stopping in
    if st then sret false
    else
      let& alive := generation_alive in
      (if alive then confirm_startup StatusRunning else sret tt) ;& sret true.

(** From the opened sinks on. *)
Definition launch_child (fuel : nat) (job : Z) (c : ManagedApplicationConfig) (out err : option Z) (first : bool) (last_delay : Z) : SM bool :=
  let& application := slift (ok_or (application c) MissingApplication) in
  let& env := sget sv_environment in
  attach_stream c &"stdout" out ;&
  attach_stream c &"stderr" err ;&
  match stdin (io c) with Some s => call (OpenStdinFile s) | None => sret tt end ;&
  let& st := stopping in
  if st then sret false
  else
    let& child := call (SpawnChild (launch_command c application env)) in
    contain_child fuel c job child ;&
    let& st := stopping in
    if st then kill_owned_child fuel child ;& sret false
    else
      let& started := now in
      let& timestamp := ask [] Timestamp in
      resume_child fuel child ;&
      publish_generation child started timestamp first last_delay.

(** [Ok false]: the supervisor is stopping. *)
Definition start_generation (fuel : nat) (first : bool) (last_delay : Z) : SM bool :=
  let& st := stopping in
  if st then sret false
  else
    prepare_launch ;&
    fire_hook StartPre None None None ;&
    let& st := stopping in
    if st then sret false
    else
      let& job := call NewJob in
      smod (set_job (Some job)) ;&
      let& launch := sget sv_launch in
      let& c := slift (ok_or launch MissingApplication) in
      let& (out, err) := open_sinks c in
      rotate_sinks false true ;&
      let& st := stopping in
      if st then sret false else launch_child fuel job c out err first last_delay.

(** ** Controls *)

Definition change_pause (pause : bool) (request : Z) : SM unit :=
  let& j := sget sv_job in
  let& outcome := ask Cancelled (ChangePause j pause (Some request)) in
  match outcome with Transition.Degraded e => sfail (Degraded e) | _ => sret tt end.

(** Does a message speak of the generation there is? *)
Definition is_current (id : Z) : SM bool :=
  let& g := sget sv_generation in sret (is_some_and (fun g => g_id g =? id) g).

Definition handle_control (m : SupervisorMessage) : SM unit :=
  let& st := stopping in
  if st then
    match m with MPause r | MContinue r => tell (CancelRequest r) | _ => sret tt end
  else
    match m with
    | MStop => tell RequestStop
    | MPause r => change_pause true r
    | MContinue r => change_pause false r
    | MRotate =>
        let& c := sget sv_config in
        if has_online_rotation c then rotate_sinks true false
        else report &"rotate" (RText &"no online log sinks; offline rotation occurs at startup")
    | MAutoRotate id => let& cur := is_current id in if cur then rotate_sinks false false else sret tt
    | MReaderFailed id =>
        let& cur := is_current id in
        if cur then sfail (SupIo (mk_io_error KOther &"generation output reader failed")) else sret tt
    | MPowerEvent e =>
        let& pid := current_pid in
        fire_hook (if is_resume_event e then PowerResume else PowerChange) pid None (Some e)
    | MChildExited _ => sret tt
    end.

Definition receive_control (delay : Z) : SM unit :=
  let& st := stopping in
  if st then sret tt
  else
    let& r := ask Nothing (RecvTimeout delay) in
    match r with
    | Got m => handle_control m
    | Nothing => sret tt
    | Disconnected => tell RequestStop
    end.

(** The messages that are waiting, at most 32: [false] once stopping. *)
Fixpoint drain_messages (n : nat) : SM bool :=
  match n with
  | O => sret true
  | S n =>
      let& r := ask Nothing TryRecv in
      match r with
      | Disconnected => tell RequestStop ;& sret false
      | Nothing => sret true
      | Got m =>
          handle_control m ;&
          let& st := stopping in
          if st then sret false else drain_messages n
      end
  end.

(** [sleep_or_stop]: [false] once the supervisor is stopping. While paused, the
    sleep does not end. *)
Fixpoint sleep_until (fuel : nat) (deadline : Z) : SM bool :=
  match fuel with
  | O => sfail no_more_fuel
  | S fuel =>
      let& st := stopping in
      if st then sret false
      else
        let& go_on := drain_messages 32 in
        if negb go_on then sret false
        else
          let& paused := ask false IsPaused in
          let& over := if paused then sret false else let& t := now in sret (deadline <=? t) in
          if over then sret true
          else
            let& paused := ask false IsPaused in
            let& remaining := if paused then sret CONTROL_POLL
                              else let& t := now in sret (Z.min (sat_sub deadline t) CONTROL_POLL) in
            receive_control remaining ;&
            sleep_until fuel deadline
  end.
Definition sleep_or_stop (fuel : nat) (delay : Z) : SM bool := let& t := now in sleep_until fuel (t + delay).

Fixpoint wait_for_stop_quiesced (fuel : nat) : SM ExitReason :=
  match fuel with
  | O => sfail no_more_fuel
  | S fuel =>
      let& st := stopping in
      if st then sret ReasonStopped else receive_control CONTROL_POLL ;& wait_for_stop_quiesced fuel
  end.

(** ** Stopping *)

Definition ask_members (close : bool) : SM unit :=
  let& j := sget sv_job in
  let& members := match j with Some j => call (JobMembers j) | None => sret [] end in
  sfor members (fun process =>
    let& r := stry (call (if close then WmClose process else WmQuit process)) in
    match r with Ok _ => sret tt | Err e => report &"graceful window/thread control" (RError [] e) end).

(** One graceful method with its grace period: [true] when the child is gone. *)
Definition graceful_method (fuel : nat) (skip bit grace : Z) (close : bool) : SM bool :=
  if skips skip bit then sret false else ask_members close ;& wait_for_exit fuel (ms grace).

Definition console_method (fuel : nat) (skip grace pid : Z) : SM bool :=
  if skips skip STOP_METHOD_SKIP_CONSOLE then sret false
  else
    let& alive := generation_alive in
    if negb alive then sret false
    else
      let& sent := stry (call (CtrlBreak pid)) in
      match sent with
      | Err e => report &"CTRL+BREAK" (RError [] e) ;& sret false
      | Ok _ => wait_for_exit fuel (ms grace)
      end.

Definition terminate_child (skip : Z) (whole_tree : bool) (generation : Z) : SM unit :=
  if skips skip STOP_METHOD_SKIP_TERMINATE then sret tt
  else if whole_tree then
    let& j := sget sv_job in match j with Some j => call (JobTerminate j) | None => sret tt end
  else call (RootTerminate generation).

Definition stop_methods (fuel : nat) (g : Generation) : SM unit :=
  let& c := sget sv_config in
  let skip := stop_skip c in
  let grace d o := unwrap_or d o in
  let& gone := console_method fuel skip (grace DEFAULT_CONSOLE_GRACE_MS (kill_console_grace_ms (shutdown c))) (g_pid g) in
  if gone then sret tt
  else
    let& gone := graceful_method fuel skip STOP_METHOD_SKIP_WINDOW
                   (grace DEFAULT_WINDOW_GRACE_MS (kill_window_grace_ms (shutdown c))) true in
    if gone then sret tt
    else
      let& gone := graceful_method fuel skip STOP_METHOD_SKIP_THREADS
                     (grace DEFAULT_THREADS_GRACE_MS (kill_threads_grace_ms (shutdown c))) false in
      if gone then sret tt
      else
        terminate_child skip (unwrap_or true (kill_process_tree (shutdown c))) (g_id g) ;&
        wait_for_exit fuel (secs 2) ;& sret tt.

Definition stop_child_gracefully (fuel : nat) : SM unit :=
  let& e := generation_exit in
  match e with
  | Some e => smod (set_last_exit (Some (oe_code e)))
  | None =>
      let& g := sget sv_generation in
      match g with
      | None => sret tt
      | Some g =>
          let& j := sget sv_job in
          let& resumed := ask Applied (ChangePause j false None) in
          match resumed with
          | Transition.Degraded _ | Rejected _ =>
              report &"stop" (RText &"could not restore the suspended tree; forcing contained cleanup")
          | _ => stop_methods fuel g
          end
      end
  end.

Definition finish_stop (fuel : nat) : SM ExitReason :=
  let& d := sget sv_shutdown_deadline in
  match d with
  | Some _ => sret tt
  | None => let& t := now in smod (set_shutdown_deadline (Some (t + SHUTDOWN_BUDGET)))
  end ;&
  let& fired := sget sv_stop_hook_fired in
  (if fired then sret tt
   else smod (set_stop_hook_fired true) ;& let& pid := current_pid in fire_hook StopPre pid None None) ;&
  let& graceful := stry (stop_child_gracefully fuel) in
  let& cleanup := stry (cleanup_generation fuel) in
  let& recorded := sget sv_stopped_recorded in
  (if recorded then sret tt else smod (set_stopped_recorded true) ;& tell (WriteLog LStopped)) ;&
  slift graceful ;& slift cleanup ;& sret ReasonStopped.

(** ** Generations *)

Definition default_exit_action (c : ManagedApplicationConfig) : ExitAction := unwrap_or Restart (default_action (restart c)).

(** The action for an exit code. *)
Definition action_for (c : ManagedApplicationConfig) (code : Z) : ExitAction :=
  match bt_get (to_dec code) (exit_actions c) with
  | Some policy => action policy
  | None => default_exit_action c
  end.

(** Waits for the exit of the generation: [None] once stopping. The exit is
    published once, so the code's second read of it gives the same. *)
Fixpoint monitor (fuel : nat) : SM (option ObservedExit) :=
  match fuel with
  | O => sfail no_more_fuel
  | S n =>
      let& st := stopping in
      if st then sret None
      else
        let& e := generation_exit in
        if is_some e then sret e else receive_control CONTROL_POLL ;& monitor n
  end.

(** What a turn of the loop over generations leads to. *)
Inductive Turn := Again (last_delay : Z) | Done (r : ExitReason) | Quiesce.

(** After a failed start. *)
Definition start_failed (fuel : nat) (e : SupervisorError) (last_delay : Z) : SM Turn :=
  let& c := sget sv_config in
  report &"startup/spawn" (RError [] e) ;&
  cleanup_generation fuel ;&
  let& st := stopping in
  if st then sret (Done ReasonStopped)
  else
    match default_exit_action c with
    | Suicide => sret (Done (ReasonSuicide (-1)))
    | Exit => sfail e
    | _ =>
        let& go_on := sleep_or_stop fuel (ms (unwrap_or DEFAULT_THROTTLE_DELAY_MS (throttle_delay_ms (restart c)))) in
        sret (if go_on then Again last_delay else Done ReasonStopped)
    end.

(** After the exit of a generation that had started. *)
Definition generation_ended (fuel : nat) (started : Z) (e : ObservedExit) : SM Turn :=
  let& c := sget sv_config in
  let lived := sat_sub (oe_observed e) started in
  cleanup_generation fuel ;&
  let& st := stopping in
  if st then sret (Done ReasonStopped)
  else
    match action_for c (oe_code e) with
    | Restart =>
        let delay := ms (restart_delay c lived) in
        (if delay =? 0 then sret tt else tell (WriteLog (LThrottled (delay / 1000000)))) ;&
        let& go_on := sleep_or_stop fuel delay in
        sret (if go_on then Again delay else Done ReasonStopped)
    | Ignore => confirm_startup StatusQuiesced ;& sret Quiesce
    | Exit => sret (Done ReasonChildExited)
    | Suicide => sret (Done (ReasonSuicide (oe_code e)))
    end.

(** One turn: the next generation is started, watched and cleaned up. *)
Definition generation_turn (fuel : nat) (first : bool) (last_delay : Z) : SM (Turn * bool) :=
  let& go_on := sleep_or_stop fuel 0 in
  if negb go_on then sret (Done ReasonStopped, first)
  else
    let& n := sget sv_next in
    smod (set_next (wrap_u64 (n + 1))) ;&
    let& started := stry (start_generation fuel first last_delay) in
    match started with
    | Ok false => sret (Done ReasonStopped, first)
    | Err e => let& t := start_failed fuel e last_delay in sret (t, first)
    | Ok true =>
        let& e := monitor fuel in
        let& g := sget sv_generation in
        match e, g with
        | Some e, Some g => let& t := generation_ended fuel (g_started g) e in sret (t, false)
        | _, _ => sret (Done ReasonStopped, false)
        end
    end.

Fixpoint run_generations (turns fuel : nat) (first : bool) (last_delay : Z) : SM ExitReason :=
  match turns with
  | O => sfail no_more_fuel
  | S n =>
      let& (turn, first) := generation_turn fuel first last_delay in
      match turn with
      | Done r => sret r
      | Quiesce => wait_for_stop_quiesced fuel
      | Again delay => run_generations n fuel first delay
      end
  end.

(** ** run *)

(** The bounded handoff to the runner. *)
Fixpoint await_release (fuel : nat) (deadline : Z) : SM unit :=
  match fuel with
  | O => sfail no_more_fuel
  | S fuel =>
      let& released := ask false TerminalReleased in
      if released then sret tt
      else
        let& t := now in
        if t <? deadline then tell (Sleep CONTROL_POLL) ;& await_release fuel deadline else sret tt
  end.

Fixpoint reject_pending (n : nat) : SM unit :=
  match n with
  | O => sret tt
  | S n =>
      let& r := ask Nothing TryRecv in
      match r with
      | Got (MPause t) | Got (MContinue t) => tell (RejectRequest t &"supervisor has stopped") ;& reject_pending n
      | Got _ => reject_pending n
      | Nothing | Disconnected => sret tt
      end
  end.

(** [result = self.finish_stop(..)] if a stop was asked for and is not recorded. *)
Definition stop_if_asked (fuel : nat) (result : Prelude.result SupervisorError ExitReason)
    : SM (Prelude.result SupervisorError ExitReason) :=
  let& st := stopping in
  let& recorded := sget sv_stopped_recorded in
  if st && negb recorded then stry (finish_stop fuel) else sret result.

Definition handoff (fuel : nat) (result : Prelude.result SupervisorError ExitReason)
    : SM (Prelude.result SupervisorError ExitReason) :=
  let& terminal := sget sv_terminal in
  if negb terminal then sret result
  else
    tell TerminalReady ;&
    let& t := now in
    await_release fuel (t + secs 5) ;&
    let& released := ask false TerminalReleased in
    (if released then sret tt
     else report &"terminal handoff" (RText &"runner did not commit within the bounded handoff deadline")) ;&
    stop_if_asked fuel result.

Definition run (turns fuel : nat) : SM ExitReason :=
  let& result := stry (run_generations turns fuel true 0) in
  let& st := stopping in
  let& result := if st then stry (finish_stop fuel)
                 else let& cleaned := stry (cleanup_generation fuel) in
                      sret (match cleaned with Ok _ => result | Err e => Err e end) in
  let& result := stop_if_asked fuel result in
  let& result := handoff fuel result in
  reject_pending (Z.to_nat 1024) ;&
  match result with Err e => report &"terminal failure" (RError [] e) | Ok _ => sret tt end ;&
  slift result.
End Supervision.
