(* ===== verification/SupervisorSafety.v ===== *)
(** * What the supervisor's calls obey

    A monitor follows the calls of a run: the jobs that may still hold
    processes, the readers that have not delivered, whether a start is recorded
    without its exit, whether the stop is recorded, and what has been observed
    of the stop flag and of exits. A small logic of triples carries the
    invariants through the operations of [Supervisor]. *)

From Stdlib Require Import ZArith Lia List.
From S2P Require Import Prelude Text BTree Model Expansion Effects Transition Rotation LaunchEnv Supervisor.

(** ** The monitor *)

Record Resources := {
  open_jobs : list Z; open_readers : list Z; child_up : bool; stop_recorded : bool; stop_hook_run : bool }.
Record Track := { res : Resources; stop_flag : bool; exits : list (Z * ObservedExit); codes : list Z }.
Definition track_init : Track := Build_Track (Build_Resources [] [] false false false) false [] [].

Definition remove_one (x : Z) (l : list Z) : list Z :=
  match position (Z.eqb x) l with Some i => take i l ++ drop (S i) l | None => l end.

Definition with_res (f : Resources -> Resources) (t : Track) : Track := Build_Track (f (res t)) (stop_flag t) (exits t) (codes t).
Definition set_up (b : bool) (r : Resources) : Resources :=
  Build_Resources (open_jobs r) (open_readers r) b (stop_recorded r) (stop_hook_run r).

Definition exit_of (t : Track) (g : Z) : option ObservedExit := snd <$> find (fun x => x.1 =? g) (exits t).

Definition track_line (l : LogLine) (r : Resources) : Resources :=
  match l with
  | LStarted _ _ | LRestarted _ _ _ => set_up true r
  | LExited _ _ _ => set_up false r
  | LThrottled _ => r
  | LStopped => Build_Resources (open_jobs r) (open_readers r) (child_up r) true (stop_hook_run r)
  end.

Definition track (t : Track) (e : SupEvent) : Track :=
  match e with
  | Ev c x =>
      match c in SupE X return result SupervisorError X -> Track with
      | NewJob => fun x =>
          match x with
          | Ok j => with_res (fun r => Build_Resources (j :: open_jobs r) (open_readers r) (child_up r) (stop_recorded r) (stop_hook_run r)) t
          | Err _ => t
          end
      | JobWaitEmpty j _ => fun x =>
          match x with
          | Ok _ => with_res (fun r => Build_Resources (remove_one j (open_jobs r)) (open_readers r) (child_up r) (stop_recorded r) (stop_hook_run r)) t
          | Err _ => t
          end
      | SpawnReader _ _ _ => fun x =>
          match x with
          | Ok k => with_res (fun r => Build_Resources (open_jobs r) (open_readers r ++ [k]) (child_up r) (stop_recorded r) (stop_hook_run r)) t
          | Err _ => t
          end
      | ReaderFinish k _ => fun x =>
          match x with
          | Ok _ => with_res (fun r => Build_Resources (open_jobs r) (remove_one k (open_readers r)) (child_up r) (stop_recorded r) (stop_hook_run r)) t
          | Err _ => t
          end
      | WriteLog l => fun _ => with_res (track_line l) t
      | RunHook h => fun _ =>
          if bool_decide (hc_point h = StopPre)
          then with_res (fun r => Build_Resources (open_jobs r) (open_readers r) (child_up r) (stop_recorded r) true) t else t
      | RequestStop => fun _ => Build_Track (res t) true (exits t) (codes t)
      | Stopping => fun x => match x with Ok true => Build_Track (res t) true (exits t) (codes t) | _ => t end
      | StartWatcher g _ => fun _ => Build_Track (res t) (stop_flag t) (List.filter (fun x => negb (x.1 =? g)) (exits t)) (codes t)
      | GenExit g => fun x =>
          match x with
          | Ok (Some e) => Build_Track (res t) (stop_flag t) ((g, e) :: exits t) (oe_code e :: codes t)
          | _ => t
          end
      | _ => fun _ => t
      end x
  end.
Definition tracked (t : Track) (log : list SupEvent) : Track := fold_left track log t.

(** A generation's containment is created only when nothing of the previous one
    is left; nothing is started, and only hooks that belong to stopping are run,
    once a stop has been seen; the event log alternates between starts and
    exits, is throttled only in between, and says stopped once, last. *)
Definition call_ok (t : Track) {X} (e : SupE X) : Prop :=
  match e with
  | NewJob => open_jobs (res t) = [] /\ open_readers (res t) = [] /\ child_up (res t) = false /\ stop_flag t = false
  | SpawnChild _ => (exists j, open_jobs (res t) = [j]) /\ stop_flag t = false
  | RunHook h =>
      (hc_point h = StopPre -> stop_hook_run (res t) = false)
      /\ (terminal_hook (hc_point h) = false -> stop_flag t = false)
  | WriteLog l =>
      stop_recorded (res t) = false
      /\ match l with
         | LStarted _ _ | LRestarted _ _ _ | LThrottled _ => child_up (res t) = false
         | LExited _ _ _ => child_up (res t) = true
         | LStopped => True
         end
  | _ => True
  end.
Definition event_ok (t : Track) (e : SupEvent) : Prop := match e with Ev c _ => call_ok t c end.

(** What the other threads keep to: the stop flag is never reset, and the exit
    of a child is published once. *)
Definition event_fair (t : Track) (e : SupEvent) : Prop :=
  match e with
  | Ev c x =>
      match c in SupE X return result SupervisorError X -> Prop with
      | Stopping => fun x => stop_flag t = true -> x = Ok true
      | GenExit g => fun x => forall e, exit_of t g = Some e -> x = Ok (Some e)
      | _ => fun _ => True
      end x
  end.

Fixpoint good (t : Track) (log : list SupEvent) : Prop :=
  match log with [] => True | e :: l => event_ok t e /\ good (track t e) l end.
Fixpoint fair (t : Track) (log : list SupEvent) : Prop :=
  match log with [] => True | e :: l => event_fair t e /\ fair (track t e) l end.

Lemma tracked_app t l m : tracked t (l ++ m) = tracked (tracked t l) m.
Proof. apply fold_left_app. Qed.
Lemma good_app t l m : good t (l ++ m) <-> good t l /\ good (tracked t l) m.
Proof. revert t. induction l as [|e l IH]; intros t; cbn; [tauto|]. rewrite IH. cbn. tauto. Qed.
Lemma fair_app t l m : fair t (l ++ m) <-> fair t l /\ fair (tracked t l) m.
Proof. revert t. induction l as [|e l IH]; intros t; cbn; [tauto|]. rewrite IH. cbn. tauto. Qed.

(** ** Triples *)

Abbreviation Pred := (Track -> Sup -> Prop) (only parsing).

Definition triple {A} (P : Pred) (m : SM A) (Q : result SupervisorError A -> Pred) : Prop :=
  forall t s log r, P t s -> runs (m s) log r -> fair t log ->
    exists x s', r = Ok (x, s') /\ good t log /\ Q x (tracked t log) s'.

Section Rules.
Context {A B : Type}.

Lemma triple_weaken (P P' : Pred) (m : SM A) (Q Q' : result SupervisorError A -> Pred) :
  triple P' m Q' -> (forall t s, P t s -> P' t s) -> (forall x t s, Q' x t s -> Q x t s) -> triple P m Q.
Proof.
  intros H Hp Hq t s log r HP Hr Hf. destruct (H t s log r (Hp _ _ HP) Hr Hf) as (x & s' & -> & Hg & H1). eauto 10.
Qed.

Lemma triple_ret (P : Pred) (Q : result SupervisorError A -> Pred) a :
  (forall t s, P t s -> Q (Ok a) t s) -> triple P (sret a) Q.
Proof. intros H t s log r HP [-> ->] _. eexists _, _. split; [reflexivity|]. split; [exact I|]. by apply H. Qed.

Lemma triple_fail (P : Pred) (Q : result SupervisorError A -> Pred) e :
  (forall t s, P t s -> Q (Err e) t s) -> triple P (sfail e) Q.
Proof. intros H t s log r HP [-> ->] _. eexists _, _. split; [reflexivity|]. split; [exact I|]. by apply H. Qed.

Lemma triple_lift (P : Pred) (Q : result SupervisorError A -> Pred) x :
  (forall t s, P t s -> Q x t s) -> triple P (slift x) Q.
Proof. intros H t s log r HP [-> ->] _. eexists _, _. split; [reflexivity|]. split; [exact I|]. by apply H. Qed.

Lemma triple_get (P : Pred) (f : Sup -> A) (Q : result SupervisorError A -> Pred) :
  (forall t s, P t s -> Q (Ok (f s)) t s) -> triple P (sget f) Q.
Proof. intros H t s log r HP [-> ->] _. eexists _, _. split; [reflexivity|]. split; [exact I|]. by apply H. Qed.

Lemma triple_mod (P : Pred) f (Q : result SupervisorError unit -> Pred) :
  (forall t s, P t s -> Q (Ok tt) t (f s)) -> triple P (smod f) Q.
Proof. intros H t s log r HP [-> ->] _. eexists _, _. split; [reflexivity|]. split; [exact I|]. by apply H. Qed.

Lemma triple_call (P : Pred) (e : SupE A) (Q : result SupervisorError A -> Pred) :
  (forall t s, P t s -> call_ok t e) ->
  (forall t s x, P t s -> event_fair t (Ev e x) -> Q x (track t (Ev e x)) s) ->
  triple P (call e) Q.
Proof.
  intros H1 H2 t s log r HP (x & l & -> & -> & ->) [Hf _]. eexists _, _. split; [reflexivity|].
  split; [split; [exact (H1 t s HP)|exact I]|]. by apply (H2 t s x).
Qed.

Lemma triple_ask (P : Pred) (d : A) (e : SupE A) (Q : result SupervisorError A -> Pred) :
  (forall t s, P t s -> call_ok t e) ->
  (forall t s x, P t s -> event_fair t (Ev e x) -> Q (Ok (match x with Ok a => a | Err _ => d end)) (track t (Ev e x)) s) ->
  triple P (ask d e) Q.
Proof.
  intros H1 H2 t s log r HP (x & l & -> & -> & ->) [Hf _]. eexists _, _. split; [reflexivity|].
  split; [split; [exact (H1 t s HP)|exact I]|]. by apply (H2 t s x).
Qed.

Lemma triple_bind (P : Pred) (m : SM A) (k : A -> SM B) (R : A -> Pred) (Q : result SupervisorError B -> Pred) :
  triple P m (fun x => match x with Ok a => R a | Err e => Q (Err e) end) ->
  (forall a, triple (R a) (k a) Q) -> triple P (sbind m k) Q.
Proof.
  intros Hm Hk t s log r HP Hr Hf. unfold sbind in Hr. apply runs_then in Hr as (l1 & l2 & a & -> & H1 & H2).
  apply fair_app in Hf as [F1 F2]. destruct (Hm t s l1 a HP H1 F1) as (x & s' & -> & G1 & HQ). destruct x as [b|e].
  - destruct (Hk b _ s' l2 r HQ H2 F2) as (x & s2 & -> & G2 & HQ2). exists x, s2. split; [done|].
    rewrite tracked_app. split; [by apply good_app|done].
  - destruct H2 as [-> ->]. exists (Err e), s'. rewrite app_nil_r. by split.
Qed.

Lemma triple_try (P : Pred) (m : SM A) (Q : result SupervisorError (result SupervisorError A) -> Pred) :
  triple P m (fun x => Q (Ok x)) -> triple P (stry m) Q.
Proof.
  intros Hm t s log r HP Hr Hf. unfold stry in Hr. apply runs_then in Hr as (l1 & l2 & a & -> & H1 & H2).
  apply fair_app in Hf as [F1 F2]. destruct (Hm t s l1 a HP H1 F1) as (x & s' & -> & G1 & HQ).
  destruct H2 as [-> ->]. exists (Ok x), s'. rewrite app_nil_r. by split.
Qed.
End Rules.

(** ** Steady predicates

    Most operations only make calls that change no resource, and assign fields
    the invariant does not speak of; a predicate that such steps keep is kept by
    the whole operation. *)

Definition plain {X} (e : SupE X) : bool :=
  match e with
  | NewJob | JobWaitEmpty _ _ | SpawnReader _ _ _ | ReaderFinish _ _ | WriteLog _ | RunHook _ | SpawnChild _
  | StartWatcher _ _ => false
  | _ => true
  end.

Lemma plain_call_ok {X} (e : SupE X) t : plain e = true -> call_ok t e.
Proof. by destruct e. Qed.
Lemma plain_res {X} (e : SupE X) t x : plain e = true -> res (track t (Ev e x)) = res t.
Proof. destruct e; try discriminate; intros _; try reflexivity; [by destruct x as [[]|]|by destruct x as [[?|]|]]. Qed.

(** The fields an invariant may speak of. *)
Definition view (s : Sup) :=
  (sv_config s, sv_generation s, sv_readers s, sv_job s, sv_stop_hook_fired s, sv_stopped_recorded s).

Class Steady (J : Pred) : Prop := {
  steady_event X (e : SupE X) x t s :
    plain e = true -> event_fair t (Ev e x) -> J t s -> J (track t (Ev e x)) s;
  steady_fields t s s' : view s' = view s -> J t s -> J t s' }.

(** What holds of the monitor from then on, whatever happens. *)
Class Lasting (L : Track -> Prop) : Prop := { lasting_event t e : L t -> L (track t e) }.

Definition both (P Q : Pred) : Pred := fun t s => P t s /\ Q t s.
Infix "/&\" := both (at level 55, right associativity).
Definition of_track (L : Track -> Prop) : Pred := fun t _ => L t.

#[export] Instance steady_both P Q : Steady P -> Steady Q -> Steady (P /&\ Q).
Proof.
  intros H1 H2. split.
  - intros X e x t s Hp Hf [A B]. split; by eapply steady_event.
  - intros t s s' Hv [A B]. split; by eapply steady_fields.
Qed.
#[export] Instance steady_lasting L : Lasting L -> Steady (of_track L).
Proof. intros H. split; [|done]. intros X e x t s _ _ HL. by apply lasting_event. Qed.
(** A predicate of the resources and those fields. *)
#[export] Instance steady_view f : Steady (fun t s => f (res t) (view s)).
Proof. split; [intros; by rewrite plain_res|]. by intros t s s' ->. Qed.

#[export] Instance lasting_stop : Lasting (fun t => stop_flag t = true).
Proof.
  split. intros t [X e x] H. destruct e; try exact H; try reflexivity;
    try (by destruct x as [[]|]); try (by destruct x as [[?|]|]). by cbn; case_bool_decide.
Qed.
#[export] Instance lasting_code P : Lasting (fun t => exists n, In n (codes t) /\ P n).
Proof.
  split. intros t [X e x] (n & H & HP). exists n. split; [|exact HP]. destruct e; try exact H;
    try (by destruct x as [[]|]); try (destruct x as [[?|]|]; [by right|done..]). by cbn; case_bool_decide.
Qed.
#[export] Instance lasting_or L M : Lasting L -> Lasting M -> Lasting (fun t => L t \/ M t).
Proof. intros H1 H2. split. intros t e [H|H]; [left|right]; by apply lasting_event. Qed.
#[export] Instance lasting_pure p : Lasting (fun _ => p).
Proof. by split. Qed.

Lemma lasting_log L `{!Lasting L} t log : L t -> L (tracked t log).
Proof. revert t. induction log as [|e l IH]; [done|]. intros t H. cbn. apply IH. by apply lasting_event. Qed.

(** The frame rule. *)
Lemma triple_frame L `{!Lasting L} {A} P (m : SM A) Q :
  triple P m Q -> triple (P /&\ of_track L) m (fun x => Q x /&\ of_track L).
Proof.
  intros H t s log r [HP HL] Hr Hf. destruct (H t s log r HP Hr Hf) as (x & s' & -> & Hg & HQ).
  exists x, s'. repeat split; [done|exact HQ|]. by apply lasting_log.
Qed.

Definition keeps {A} (J : Pred) (m : SM A) : Prop := triple J m (fun _ => J).

Section Keeps.
Context {A B : Type} (J : Pred).

Lemma keeps_sm_ret (a : A) : keeps J (sret a).
Proof. by apply triple_ret. Qed.
Lemma keeps_sm_fail e : keeps J (sfail (A := A) e).
Proof. by apply triple_fail. Qed.
Lemma keeps_lift (x : result SupervisorError A) : keeps J (slift x).
Proof. by apply triple_lift. Qed.
Lemma keeps_get (f : Sup -> A) : keeps J (sget f).
Proof. by apply triple_get. Qed.
Lemma keeps_mod f : Steady J -> (forall s, view (f s) = view s) -> keeps J (smod f).
Proof. intros HJ H. apply triple_mod. intros t s. by apply steady_fields. Qed.
Lemma keeps_sm_bind (m : SM A) (k : A -> SM B) : keeps J m -> (forall a, keeps J (k a)) -> keeps J (sbind m k).
Proof.
  intros Hm Hk. apply (triple_bind _ _ _ (fun _ => J)); [|exact Hk]. eapply triple_weaken; [exact Hm|done|]. by intros [].
Qed.
Lemma keeps_try (m : SM A) : keeps J m -> keeps J (stry m).
Proof. intros H. by apply triple_try. Qed.
Lemma keeps_call (e : SupE A) : Steady J -> plain e = true -> keeps J (call e).
Proof.
  intros HJ Hp. apply triple_call; [intros t s _; by apply plain_call_ok|]. intros t s x H Hf. by apply steady_event.
Qed.
Lemma keeps_ask (d : A) (e : SupE A) : Steady J -> plain e = true -> keeps J (ask d e).
Proof.
  intros HJ Hp. apply triple_ask; [intros t s _; by apply plain_call_ok|]. intros t s x H Hf. by apply steady_event.
Qed.
End Keeps.

Lemma keeps_tell J (e : SupE unit) : Steady J -> plain e = true -> keeps J (tell e).
Proof. apply keeps_ask. Qed.
Lemma keeps_for {A} J (l : list A) (f : A -> SM unit) : (forall a, keeps J (f a)) -> keeps J (sfor l f).
Proof. intros H. induction l as [|a l IH]; cbn; [apply keeps_sm_ret|]. apply keeps_sm_bind; [apply H|]. done. Qed.

(** An operation that keeps what is known, and what follows it. *)
Lemma keeps_then {A B} P (m : SM A) (k : A -> SM B) Q :
  keeps P m -> (forall e t s, P t s -> Q (Err e) t s) -> (forall a, triple P (k a) Q) -> triple P (sbind m k) Q.
Proof.
  intros Hm He Hk. apply (triple_bind _ _ _ (fun _ => P)); [|exact Hk]. eapply triple_weaken; [exact Hm|done|].
  intros [a|e]; [done|]. apply He.
Qed.
Lemma keeps_post {A} P (m : SM A) Q : keeps P m -> (forall x t s, P t s -> Q x t s) -> triple P m Q.
Proof. intros H Hq. by eapply triple_weaken. Qed.
(** Reading the fields, with what was read remembered. *)
Lemma triple_get_as {A B} P (f : Sup -> A) (k : A -> SM B) Q :
  (forall a, triple (P /&\ fun _ s => f s = a) (k a) Q) -> triple P (sbind (sget f) k) Q.
Proof. intros H. eapply triple_bind; [|exact H]. apply triple_get. by intros t s HP. Qed.
Lemma triple_pre {A} (P P' : Pred) (m : SM A) Q : triple P' m Q -> (forall t s, P t s -> P' t s) -> triple P m Q.
Proof. intros H Hp. by eapply triple_weaken. Qed.
Lemma triple_post {A} P (m : SM A) (Q Q' : result SupervisorError A -> Pred) :
  triple P m Q' -> (forall x t s, Q' x t s -> Q x t s) -> triple P m Q.
Proof. intros H Hq. by eapply triple_weaken. Qed.
(** Calls that cannot fail, and calls whose failure is looked at. *)
Lemma sure_then {A B} P (m : SM A) (k : A -> SM B) R Q :
  triple P m (fun x t s => match x with Ok a => R a t s | Err _ => False end) ->
  (forall a, triple (R a) (k a) Q) -> triple P (sbind m k) Q.
Proof.
  intros Hm Hk. apply (triple_bind _ _ _ R); [|exact Hk]. eapply triple_post; [exact Hm|]. by intros [].
Qed.
Lemma ask_then {A B} P (d : A) (e : SupE A) (k : A -> SM B) Q :
  Steady P -> plain e = true -> (forall a, triple P (k a) Q) -> triple P (sbind (ask d e) k) Q.
Proof.
  intros HP Hp Hk. apply (sure_then _ _ _ (fun _ => P)); [|exact Hk].
  apply triple_ask; [intros t s _; by apply plain_call_ok|]. intros t s x H Hf. by apply steady_event.
Qed.
Lemma try_then {A B} P (m : SM A) (k : result SupervisorError A -> SM B) R Q :
  triple P m R -> (forall x, triple (R x) (k x) Q) -> triple P (sbind (stry m) k) Q.
Proof. intros Hm Hk. apply (sure_then _ _ _ R); [|exact Hk]. by apply triple_try. Qed.

(** The stop flag, read: from then on it is known. *)
Lemma stopping_spec P `{!Steady P} :
  triple P stopping (fun x t s => match x with Ok b => (P /&\ of_track (fun t => stop_flag t = b)) t s | Err _ => False end).
Proof.
  apply triple_ask; [done|]. intros t s x HP Hf. pose proof (steady_event _ Stopping x t s eq_refl Hf HP) as H.
  split; [exact H|]. unfold of_track. cbn in *.
  destruct x as [[]|]; cbn; try reflexivity; (destruct (stop_flag t); [by specialize (Hf eq_refl)|done]).
Qed.
Lemma if_stopping {A} P `{!Steady P} (k1 k2 : SM A) Q :
  triple (P /&\ of_track (fun t => stop_flag t = true)) k1 Q ->
  triple (P /&\ of_track (fun t => stop_flag t = false)) k2 Q ->
  triple P (let& st := stopping in if st then k1 else k2) Q.
Proof.
  intros H1 H2. eapply sure_then; [by apply stopping_spec|]. intros [|]; [exact H1|exact H2].
Qed.

(** Calls the monitor does not look at keep anything. *)
Definition unseen {X} (e : SupE X) : bool :=
  plain e && match e with Stopping | RequestStop | GenExit _ => false | _ => true end.

Lemma unseen_track {X} (e : SupE X) t x : unseen e = true -> track t (Ev e x) = t.
Proof. by destruct e. Qed.
Lemma unseen_ok {X} (e : SupE X) t : unseen e = true -> call_ok t e.
Proof. by destruct e. Qed.
Lemma keeps_ask_unseen {A} J (d : A) (e : SupE A) : unseen e = true -> keeps J (ask d e).
Proof.
  intros Hu. apply triple_ask; [intros t s _; by apply unseen_ok|]. intros t s x H _. by rewrite unseen_track.
Qed.
Lemma keeps_call_unseen {A} J (e : SupE A) : unseen e = true -> keeps J (call e).
Proof.
  intros Hu. apply triple_call; [intros t s _; by apply unseen_ok|]. intros t s x H _. by rewrite unseen_track.
Qed.

(** Break an operation up into calls and operations known to keep. *)
Create HintDb keeping.
#[export] Hint Resolve keeps_sm_ret keeps_sm_fail keeps_lift keeps_get : keeping.
#[export] Hint Extern 0 (Steady _) => typeclasses eauto : keeping.
Ltac keep1 :=
  match goal with
  | |- keeps _ (let '(_, _) := ?x in _) => destruct x
  | |- keeps _ (match ?x with _ => _ end) => destruct x
  | |- keeps _ (sbind _ _) => apply keeps_sm_bind; [|intros ?]
  | |- keeps _ (stry _) => apply keeps_try
  | |- keeps _ (call _) => apply keeps_call_unseen; reflexivity
  | |- keeps _ (ask _ _) => apply keeps_ask_unseen; reflexivity
  | |- keeps _ (tell _) => apply keeps_ask_unseen; reflexivity
  | |- keeps _ (call _) => apply keeps_call; [typeclasses eauto|reflexivity]
  | |- keeps _ (ask _ _) => apply keeps_ask; [typeclasses eauto|reflexivity]
  | |- keeps _ (tell _) => apply keeps_tell; [typeclasses eauto|reflexivity]
  | |- keeps _ (smod _) => apply keeps_mod; [typeclasses eauto|reflexivity]
  | |- keeps _ (sfor _ _) => apply keeps_for; intros ?
  end.
Ltac keep := repeat first [solve [auto 2 with keeping] | keep1].

Lemma track_hook t h x : hc_point h <> StopPre -> track t (Ev (RunHook h) x) = t.
Proof. intros H. cbn. by rewrite bool_decide_eq_false_2. Qed.
Lemma track_stop_hook t h x : hc_point h = StopPre ->
  track t (Ev (RunHook h) x)
  = with_res (fun r => Build_Resources (open_jobs r) (open_readers r) (child_up r) (stop_recorded r) true) t.
Proof. intros H. cbn. by rewrite bool_decide_eq_true_2. Qed.

Section Quiet.
Context {N : OsNames} (J : Pred).

Lemma keeps_sm_now : keeps J now.
Proof. unfold now. keep. Qed.
Lemma keeps_report o m : keeps J (report o m).
Proof. unfold report. keep. Qed.
#[local] Hint Resolve keeps_sm_now keeps_report : keeping.

Lemma keeps_invoke_hook p h env pid exit power :
  p <> StopPre -> (forall t s, J t s -> terminal_hook p = false -> stop_flag t = false) ->
  keeps J (invoke_hook p h env pid exit power).
Proof.
  intros Hp Hrun. unfold invoke_hook. apply keeps_sm_bind; [keep|]. intros s0. apply keeps_sm_bind; [keep|]. intros d.
  destruct (resolve_expandable_strings _ _) as [inv|e]; [|keep].
  apply triple_ask.
  - intros t s H. split; [intros E; by destruct Hp|]. cbn. by apply Hrun with (s := s).
  - intros t s x H _. by rewrite track_hook.
Qed.

(** From the lookup of the hook on. *)
Lemma keeps_find_hook p pid exit power :
  p <> StopPre -> (forall t s, J t s -> terminal_hook p = false -> stop_flag t = false) ->
  keeps J
    (let& s := sget (fun s => s) in
     match find_hook (hooks (sv_config s)) p with
     | None => sret tt
     | Some h =>
         if is_empty (sv_environment s) then
           let& vars := ask [] VarsOs in
           match effective_environment vars (sv_config s) with
           | Ok env => invoke_hook p h env pid exit power
           | Err e => report &"hook environment" (RError (hook_event p ++ &"/" ++ hook_point_action p ++ &" skipped: ") e)
           end
         else invoke_hook p h (sv_environment s) pid exit power
     end).
Proof.
  intros Hp Hrun. pose proof (fun h env => keeps_invoke_hook p h env pid exit power Hp Hrun) as H.
  apply keeps_sm_bind; [keep|]. intros s0. destruct (find_hook _ p); [|keep].
  destruct (is_empty (sv_environment s0)); [|apply H]. apply keeps_sm_bind; [keep|]. intros vars.
  destruct (effective_environment _ _); [apply H|]. keep.
Qed.
End Quiet.
#[export] Hint Resolve keeps_sm_now keeps_report : keeping.

Section Operations.
Context {N : OsNames} (J : Pred) {HJ : Steady J}.
Abbreviation K := (keeps J) (only parsing).

Lemma keeps_stopping : K stopping.
Proof. unfold stopping. keep. Qed.
Lemma keeps_generation_exit : K generation_exit.
Proof. unfold generation_exit. keep. Qed.
Lemma keeps_generation_alive : K generation_alive.
Proof. unfold generation_alive. keep. Qed.
#[local] Hint Resolve keeps_stopping keeps_generation_exit keeps_generation_alive : keeping.
Lemma keeps_current_pid : K current_pid.
Proof. unfold current_pid. keep. Qed.
#[local] Hint Resolve keeps_current_pid : keeping.

Lemma keeps_fire_hook p pid exit power : p <> StopPre -> K (fire_hook p pid exit power).
Proof.
  intros Hp. unfold fire_hook. eapply sure_then; [by apply stopping_spec|]. intros st.
  destruct (st && negb (terminal_hook p)) eqn:E; [apply triple_ret; by intros t s []|].
  eapply triple_post; [apply (keeps_find_hook _ p pid exit power Hp)|by intros x t s []].
  intros t s [_ Hs] Ht. rewrite Ht, andb_true_r in E. by rewrite E in Hs.
Qed.
#[local] Hint Extern 1 (keeps _ (fire_hook _ _ _ _)) => apply keeps_fire_hook; discriminate : keeping.

(** ** Rotation and waiting *)

Lemma keeps_rotate_each force offline sinks : K (rotate_each force offline sinks).
Proof.
  induction sinks as [|k sinks IH]; cbn; [keep|]. apply keeps_sm_bind; [|intros more; destruct more; [exact IH|keep]].
  unfold rotate_sink, degrading. keep.
Qed.
#[local] Hint Resolve keeps_rotate_each : keeping.
Lemma keeps_rotate_sinks force offline : K (rotate_sinks force offline).
Proof. unfold rotate_sinks. keep. Qed.

Lemma keeps_finish_filesystem_tasks : K finish_filesystem_tasks.
Proof. unfold finish_filesystem_tasks, degrading. keep. Qed.
Lemma keeps_observe_unwatched_child : K observe_unwatched_child.
Proof. unfold observe_unwatched_child. keep. Qed.
Lemma keeps_exit_observed : K exit_observed_and_tree_empty.
Proof. unfold exit_observed_and_tree_empty. keep. Qed.
#[local] Hint Resolve keeps_rotate_sinks keeps_finish_filesystem_tasks keeps_observe_unwatched_child keeps_exit_observed : keeping.

Lemma keeps_wait_for_exit_until fuel deadline : K (wait_for_exit_until fuel deadline).
Proof. induction fuel as [|n IH]; cbn; keep. Qed.
#[local] Hint Resolve keeps_wait_for_exit_until : keeping.
Lemma keeps_wait_for_exit fuel duration : K (wait_for_exit fuel duration).
Proof. unfold wait_for_exit. keep. Qed.
Lemma keeps_reap fuel child deadline : K (reap_owned_child fuel child deadline).
Proof. induction fuel as [|n IH]; cbn; keep. Qed.
#[local] Hint Resolve keeps_reap keeps_wait_for_exit : keeping.
Lemma keeps_kill fuel child : K (kill_owned_child fuel child).
Proof. unfold kill_owned_child. keep. Qed.
Lemma keeps_wait_watcher fuel g deadline : K (wait_watcher fuel g deadline).
Proof. induction fuel as [|n IH]; cbn; keep. Qed.
#[local] Hint Resolve keeps_kill keeps_wait_watcher : keeping.

(** ** Controls *)

Lemma keeps_confirm_startup status : K (confirm_startup status).
Proof. unfold confirm_startup. keep. Qed.
Lemma keeps_prepare_launch : K prepare_launch.
Proof. unfold prepare_launch. keep. Qed.
Lemma keeps_change_pause pause request : K (change_pause pause request).
Proof. unfold change_pause. keep. Qed.
Lemma keeps_is_current id : K (is_current id).
Proof. unfold is_current. keep. Qed.
#[local] Hint Resolve keeps_confirm_startup keeps_prepare_launch keeps_change_pause keeps_is_current : keeping.
Lemma keeps_handle_control m : K (handle_control m).
Proof.
  unfold handle_control. apply keeps_sm_bind; [keep|]. intros []; [keep|]. destruct m; keep.
  destruct (is_resume_event event); apply keeps_fire_hook; discriminate.
Qed.
#[local] Hint Resolve keeps_handle_control : keeping.
Lemma keeps_receive_control delay : K (receive_control delay).
Proof. unfold receive_control. keep. Qed.
Lemma keeps_drain_messages n : K (drain_messages n).
Proof. induction n as [|n IH]; cbn -[handle_control]; keep. Qed.
#[local] Hint Resolve keeps_receive_control keeps_drain_messages : keeping.
Lemma keeps_sleep_until fuel deadline : K (sleep_until fuel deadline).
Proof. induction fuel as [|n IH]; cbn -[drain_messages]; keep. Qed.
#[local] Hint Resolve keeps_sleep_until : keeping.
Lemma keeps_sleep_or_stop fuel delay : K (sleep_or_stop fuel delay).
Proof. unfold sleep_or_stop. keep. Qed.
Lemma keeps_wait_for_stop_quiesced fuel : K (wait_for_stop_quiesced fuel).
Proof. induction fuel as [|n IH]; cbn; keep. Qed.
Lemma keeps_monitor fuel : K (monitor fuel).
Proof. induction fuel as [|n IH]; cbn; keep. Qed.

(** ** Stopping *)

Lemma keeps_ask_members close : K (ask_members close).
Proof. unfold ask_members. destruct close; keep. Qed.
#[local] Hint Resolve keeps_ask_members : keeping.
Lemma keeps_graceful_method fuel skip bit grace close : K (graceful_method fuel skip bit grace close).
Proof. unfold graceful_method. keep. Qed.
Lemma keeps_console_method fuel skip grace pid : K (console_method fuel skip grace pid).
Proof. unfold console_method. keep. Qed.
Lemma keeps_terminate_child skip tree g : K (terminate_child skip tree g).
Proof. unfold terminate_child. keep. Qed.
#[local] Hint Resolve keeps_graceful_method keeps_console_method keeps_terminate_child : keeping.
Lemma keeps_stop_methods fuel g : K (stop_methods fuel g).
Proof. unfold stop_methods. keep. Qed.
#[local] Hint Resolve keeps_stop_methods : keeping.
Lemma keeps_stop_child_gracefully fuel : K (stop_child_gracefully fuel).
Proof. unfold stop_child_gracefully. keep. Qed.
End Operations.
#[export] Hint Resolve keeps_stopping keeps_generation_exit keeps_generation_alive keeps_current_pid
  keeps_rotate_sinks keeps_finish_filesystem_tasks keeps_exit_observed keeps_wait_for_exit_until keeps_kill
  keeps_wait_watcher keeps_confirm_startup keeps_prepare_launch keeps_sleep_or_stop keeps_wait_for_stop_quiesced
  keeps_monitor keeps_stop_child_gracefully keeps_receive_control keeps_drain_messages : keeping.
#[export] Hint Extern 1 (keeps _ (fire_hook _ _ _ _)) => apply keeps_fire_hook; [typeclasses eauto|discriminate] : keeping.

(** ** The invariant *)

(** The fields agree with the resources; [strong]: also the job and the readers,
    as long as every cleanup has succeeded. *)
Record Inv (c : ManagedApplicationConfig) (strong : bool) (t : Track) (s : Sup) : Prop := {
  inv_config : sv_config s = c;
  inv_up : child_up (res t) = match sv_generation s with Some g => negb (g_recorded g) | None => false end;
  inv_open : stop_recorded (res t) = false /\ sv_stopped_recorded s = false;
  inv_hook : stop_hook_run (res t) = true -> sv_stop_hook_fired s = true;
  inv_jobs : strong = true -> open_jobs (res t) = match sv_job s with Some j => [j] | None => [] end;
  inv_readers : strong = true -> open_readers (res t) = sv_readers s }.

#[export] Instance steady_inv c b : Steady (Inv c b).
Proof.
  split; [intros X e x t s Hp _ []; split; by rewrite ?(plain_res e)|].
  intros t s s' [= E1 E2 E3 E4 E5 E6] []. split; by rewrite ?E1, ?E2, ?E3, ?E4, ?E5, ?E6.
Qed.
Lemma inv_weak c b t s : Inv c b t s -> Inv c false t s.
Proof. intros []. by split. Qed.

Definition clean (s : Sup) : Prop := sv_job s = None /\ sv_readers s = [] /\ sv_generation s = None.
#[export] Instance steady_clean : Steady (fun _ s => clean s).
Proof. split; [done|]. unfold clean. intros t s s' [= E1 E2 E3 E4 E5 E6] (? & ? & ?). repeat split; congruence. Qed.

(** The exit of the generation there is has been published. *)
Definition exited (t : Track) (s : Sup) : Prop :=
  match sv_generation s with Some g => exists e, exit_of t (g_id g) = Some e | None => True end.
#[export] Instance steady_exited : Steady exited.
Proof.
  split; [|unfold exited; by intros t s s' [= E1 -> E3 E4 E5 E6]].
  intros X e x t s Hp Hf. unfold exited. destruct (sv_generation s) as [g|]; [|done]. intros [o Ho].
  destruct e; try discriminate Hp; try (exists o; exact Ho).
  - destruct x as [[]|]; by exists o.
  - destruct x as [[o'|]|]; [|by exists o..]. unfold exit_of. cbn. destruct (Z.eqb_spec generation (g_id g)) as [->|Hn].
    + by exists o'.
    + by exists o.
Qed.

Definition seen (e : ObservedExit) (t : Track) (s : Sup) : Prop :=
  is_Some (sv_generation s) /\ exited t s /\ In (oe_code e) (codes t).

Section Observing.
Context {N : OsNames} (J : Pred) {HJ : Steady J}.
Abbreviation stopped := (of_track (fun t => stop_flag t = true)) (only parsing).

Lemma generation_exit_spec :
  triple J generation_exit
    (fun x => match x with Ok (Some e) => J /&\ seen e | Ok None => J | Err _ => fun _ _ => False end).
Proof.
  unfold generation_exit. apply triple_get_as. intros [g|].
  - apply triple_ask; [done|]. intros t s x [H1 H2] Hf.
    pose proof (steady_event _ (GenExit (g_id g)) x t s eq_refl Hf H1) as H. destruct x as [[e|]|]; [|exact H..].
    split; [exact H|]. unfold seen, exited. rewrite H2. split; [done|]. split; [|by left].
    exists e. unfold exit_of. cbn. by rewrite Z.eqb_refl.
  - apply triple_ret. by intros t s [].
Qed.

Lemma published_exit_spec g :
  (forall t s, J t s -> exited t s) ->
  triple (J /&\ fun _ s => sv_generation s = Some g) generation_exit
    (fun x => match x with Ok (Some _) => J /&\ fun _ s => sv_generation s = Some g | _ => fun _ _ => False end).
Proof.
  intros He. unfold generation_exit. apply triple_get_as. intros [g'|].
  - apply triple_ask; [done|]. intros t s x [[H Hg] Hg'] Hf. rewrite Hg in Hg'. injection Hg' as <-.
    pose proof (steady_event _ (GenExit (g_id g)) x t s eq_refl Hf H) as H'. specialize (He t s H).
    unfold exited in He. rewrite Hg in He. destruct He as [e He]. cbn in Hf. rewrite (Hf e He) in *. by split.
  - apply triple_ret. intros t s [[_ H] H']. congruence.
Qed.

Lemma exit_observed_spec :
  triple J exit_observed_and_tree_empty
    (fun x => match x with Ok true => J /&\ exited | _ => J end).
Proof.
  unfold exit_observed_and_tree_empty.
  apply (sure_then _ _ _ (fun a => match a with Some e => J /&\ seen e | None => J end)).
  { eapply triple_post; [apply generation_exit_spec|]. by intros [[e|]|er]. }
  intros [e|]; cbn; [|by apply triple_ret].
  eapply (triple_pre _ (J /&\ exited)); [|intros t s [H (_ & He & _)]; by split].
  apply keeps_post; [keep|]. intros [[]|] t s H; [exact H|apply H..].
Qed.

Lemma wait_until_spec fuel deadline :
  triple J (wait_for_exit_until fuel deadline) (fun x => match x with Ok true => J /&\ exited | _ => J end).
Proof.
  induction fuel as [|n IH]; cbn; [by apply triple_fail|].
  eapply keeps_then; [keep|done|]. intros t0. destruct (t0 <? deadline); [|apply exit_observed_spec].
  eapply keeps_then; [by apply keeps_observe_unwatched_child|done|]. intros _.
  apply (triple_bind _ _ _ (fun b : bool => if b then J /&\ exited else J)).
  { eapply triple_post; [apply exit_observed_spec|]. by intros [[]|]. }
  intros [].
  - by apply triple_ret.
  - eapply keeps_then; [keep|done|]. intros t1. eapply keeps_then; [keep|done|]. done.
Qed.

Lemma request_stop_spec : triple J (tell RequestStop) (fun _ => J /&\ stopped).
Proof.
  apply triple_ask; [done|]. intros t s x H Hf. split; [by apply (steady_event _ RequestStop x t s)|done].
Qed.

Abbreviation J_or_stopped := (fun x => match x with Ok false => J /&\ stopped | _ => J end) (only parsing).

Lemma drain_messages_spec n : triple J (drain_messages n) J_or_stopped.
Proof.
  induction n as [|n IH]; cbn -[handle_control]; [by apply triple_ret|].
  eapply keeps_then; [keep|done|]. intros [m| |].
  - eapply keeps_then; [by apply keeps_handle_control|done|]. intros _.
    apply if_stopping; [done|by apply triple_ret|]. by eapply triple_pre; [exact IH|intros t s []].
  - by apply triple_ret.
  - apply (triple_bind _ _ _ (fun _ => J /&\ stopped)); [|intros _; by apply triple_ret].
    eapply triple_post; [apply request_stop_spec|]. by intros [[]|] t s [].
Qed.

Lemma sleep_until_spec fuel deadline : triple J (sleep_until fuel deadline) J_or_stopped.
Proof.
  induction fuel as [|n IH]; cbn -[drain_messages]; [by apply triple_fail|].
  apply if_stopping; [done|by apply triple_ret|]. eapply triple_pre; [|by intros t s [H _]; exact H].
  apply (triple_bind _ _ _ (fun b : bool => if b then J else J /&\ stopped)).
  { eapply triple_post; [apply drain_messages_spec|]. by intros [[]|]. }
  intros []; cbn [negb]; [|by apply triple_ret].
  eapply keeps_then; [keep|done|]. intros p. eapply keeps_then; [destruct p; keep|done|]. intros [].
  - by apply triple_ret.
  - eapply keeps_then; [keep|done|]. intros p'. eapply keeps_then; [destruct p'; keep|done|]. intros r.
    eapply keeps_then; [keep|done|]. done.
Qed.
Lemma sleep_or_stop_spec fuel delay : triple J (sleep_or_stop fuel delay) J_or_stopped.
Proof. unfold sleep_or_stop. eapply keeps_then; [keep|done|]. intros t. apply sleep_until_spec. Qed.

Lemma wait_quiesced_spec fuel :
  triple J (wait_for_stop_quiesced fuel) (fun x => match x with Ok r => J /&\ stopped /&\ (fun _ _ => r = ReasonStopped) | Err _ => J end).
Proof.
  induction fuel as [|n IH]; cbn; [by apply triple_fail|].
  apply if_stopping; [done|apply triple_ret; by intros t s []|]. eapply triple_pre; [|by intros t s [H _]; exact H].
  eapply keeps_then; [keep|done|]. done.
Qed.

Lemma monitor_spec fuel :
  triple J (monitor fuel)
    (fun x => match x with Ok (Some e) => J /&\ seen e | Ok None => J /&\ stopped | Err _ => J end).
Proof.
  induction fuel as [|n IH]; cbn; [by apply triple_fail|].
  apply if_stopping; [done|by apply triple_ret|]. eapply triple_pre; [|by intros t s [H _]; exact H].
  apply (sure_then _ _ _ (fun a => match a with Some e => J /&\ seen e | None => J end)).
  { eapply triple_post; [apply generation_exit_spec|]. by intros [[e|]|er]. }
  intros [e|]; cbn; [by apply triple_ret|]. eapply keeps_then; [keep|done|]. done.
Qed.
End Observing.

(** Assignments in a row: the state before them is kept at hand. *)
Lemma mod_then {A} P f (k : SM A) Q :
  triple (fun t s' => exists s, P t s /\ s' = f s) k Q -> triple P (smod f ;& k) Q.
Proof.
  intros H. apply (triple_bind _ _ _ (fun _ t s' => exists s, P t s /\ s' = f s)); [|by intros _].
  apply triple_mod. intros t s HP. by exists s.
Qed.

(** ** Cleanup of a generation *)

(** Between the end of the job and the end of the readers [rd]. *)
Definition Drain (c : ManagedApplicationConfig) (b : bool) (rd : list Z) (t : Track) (s : Sup) : Prop :=
  Inv c false t s /\ sv_job s = None /\ exited t s
  /\ (b = true -> open_jobs (res t) = [] /\ open_readers (res t) = rd).
Definition recorded (s : Sup) : Prop := match sv_generation s with Some g => g_recorded g = true | None => True end.

#[export] Instance steady_drain c b rd : Steady (Drain c b rd).
Proof.
  split.
  - intros X e x t s Hp Hf (H1 & H2 & H3 & H4). split; [by eapply steady_event|]. split; [done|].
    split; [by apply steady_event|]. by rewrite plain_res.
  - intros t s s' Hv (H1 & H2 & H3 & H4). split; [by eapply steady_fields|].
    split; [injection Hv; congruence|]. split; [by eapply steady_fields|done].
Qed.

#[export] Instance steady_recorded : Steady (fun _ => recorded).
Proof. split; [done|]. unfold recorded. by intros t s s' [= E1 -> E3 E4 E5 E6]. Qed.

Lemma remove_one_only x : remove_one x [x] = [].
Proof. unfold remove_one. cbn. by rewrite Z.eqb_refl. Qed.
Lemma remove_one_head x l : remove_one x (x :: l) = l.
Proof. unfold remove_one. cbn. by rewrite Z.eqb_refl. Qed.

(** Changes of the jobs and readers only. *)
Lemma inv_other c t s jobs rds :
  Inv c false t s ->
  Inv c false (with_res (fun r => Build_Resources jobs rds (child_up r) (stop_recorded r) (stop_hook_run r)) t) s.
Proof. intros []. by split. Qed.

Section Cleanup.
Context {N : OsNames} (c : ManagedApplicationConfig).
Abbreviation weak := (Inv c false) (only parsing).

Lemma cleanup_job_spec b :
  triple (Inv c b) cleanup_job (fun x => match x with Ok _ => Inv c b /&\ (fun _ s => sv_job s = None) | Err _ => weak end).
Proof.
  unfold cleanup_job. apply triple_get_as. intros [j|]; [|by apply triple_ret].
  apply mod_then.
  set (P := Inv c false /&\ (fun t s => sv_job s = None /\ (b = true -> open_jobs (res t) = [j] /\ open_readers (res t) = sv_readers s))).
  eapply (triple_pre _ P).
  2: { intros t s' (s & [H Hj] & ->). split; [destruct H; by split|]. split; [done|]. intros Eb. destruct H as [? ? ? ? Ho Hr].
       rewrite (Ho Eb), (Hr Eb), Hj. done. }
  eapply (try_then _ _ _ (fun x => match x with Ok _ => Inv c b /&\ (fun _ s => sv_job s = None) | Err _ => weak end)).
  - apply (keeps_then _ (call (JobTerminate j))); [apply keeps_call_unseen; reflexivity|by intros e t s []|]. intros _.
    apply triple_call; [done|]. intros t s [[]|e] [H (Hj & Ho)] _; [|exact H]. split; [|exact Hj].
    destruct H. split; try done; intros ->; destruct Ho as [Ho Hr]; try done; cbn; rewrite ?Ho, ?Hj, ?remove_one_only; done.
  - intros [[]|e]; [by apply triple_ret|]. apply keeps_then; [keep|done|]. intros _. by apply triple_fail.
Qed.

Lemma join_watcher_spec b fuel :
  keeps (Inv c b /&\ (fun _ s => sv_job s = None) /&\ exited) (join_watcher fuel).
Proof.
  unfold join_watcher. apply triple_get_as. intros [g|]; [|by apply triple_ret; intros t s []].
  destruct (g_watcher g); [|by apply triple_ret; intros t s []]. apply mod_then.
  eapply triple_pre.
  - apply keeps_sm_bind; [keep|]. intros t0. keep.
  - intros t s' (s & [(H & Hj & He) Hg] & ->). split; [|split; [exact Hj|]].
    + destruct H as [? Hu]. split; try done. cbn. by rewrite Hu, Hg.
    + unfold exited in *. cbn. by rewrite Hg in He.
Qed.

Lemma finish_readers_spec b rd deadline failure :
  triple (Drain c (b && is_none failure) rd) (finish_readers rd deadline failure)
    (fun x => match x with Ok f => Drain c (b && is_none f) [] | Err _ => fun _ _ => False end).
Proof.
  revert failure. induction rd as [|r rd IH]; intros failure; cbn; [by apply triple_ret|].
  apply (try_then _ _ _ (fun x => Drain c (b && is_none (match x with Ok _ => failure | Err e => Some e end)) rd)).
  - apply triple_call; [done|]. intros t s [[]|e] (H1 & H2 & H3 & H4) _.
    + split; [by apply inv_other|]. split; [done|]. split; [exact H3|]. intros Hb. destruct (H4 Hb) as [Ho Hr].
      split; [exact Ho|]. cbn. rewrite Hr. apply remove_one_head.
    + cbn. split; [exact H1|]. split; [done|]. split; [exact H3|]. cbn. by rewrite andb_false_r.
  - intros x. apply IH.
Qed.

Lemma record_child_exit_spec b :
  triple (Drain c b []) record_child_exit
    (fun x => match x with Ok _ => Drain c b [] /&\ (fun _ => recorded) | Err _ => weak end).
Proof.
  unfold record_child_exit. apply triple_get_as. intros [g|];
    [|apply triple_ret; intros t s [H Hg]; split; [exact H|]; by unfold recorded; rewrite Hg].
  destruct (g_recorded g) eqn:Eg; [apply triple_ret; intros t s [H Hg]; split; [exact H|]; by unfold recorded; rewrite Hg|].
  apply (sure_then _ _ _ (fun o => match o with Some _ => Drain c b [] /&\ fun _ s => sv_generation s = Some g | None => fun _ _ => False end)).
  { eapply triple_post; [apply (published_exit_spec _ g); intros t s H; apply H|]. by intros [[e|]|er]. }
  intros [e|]; [|by intros t s log r []]. apply mod_then, mod_then.
  apply (sure_then _ _ _ (fun _ => Drain c b [] /&\ (fun _ => recorded))).
  - apply triple_ask.
    + intros t s' (s2 & (s & [H Hg] & ->) & ->). destruct H as ([? Hu [Ho _]] & _). rewrite Hg, Eg in Hu. by split.
    + intros t s' x (s2 & (s & [H Hg] & ->) & ->) _. destruct H as ([? Hu [Ho ?]] & Hj & He & Hb).
      unfold exited in He. rewrite Hg in He. split; [|done]. split; [by split|].
      split; [done|]. split; [exact He|exact Hb].
  - intros _. apply keeps_post; [|intros [] t s H; [exact H|apply H]]. keep.
Qed.

#[local] Instance steady_no_job : Steady (fun _ s => sv_job s = None).
Proof. split; [done|]. by intros t s s' [= E1 E2 E3 -> E5 E6]. Qed.

Lemma child_gone_spec b fuel g :
  triple ((Inv c b /&\ (fun _ s => sv_job s = None)) /&\ (fun _ s => sv_generation s = g))
    (if is_some g then
       let& t := now in
       let& over := wait_for_exit_until fuel (t + secs 2) in
       if over then sret tt else sfail (Degraded &"contained child did not finish before cleanup deadline")
     else sret tt)
    (fun x => match x with Ok _ => Inv c b /&\ (fun _ s => sv_job s = None) /&\ exited | Err _ => weak end).
Proof.
  destruct g as [g|]; cbn [is_some];
    [|apply triple_ret; intros t s [[H Hj] Hg]; split; [exact H|]; split; [exact Hj|]; by unfold exited; rewrite Hg].
  eapply triple_pre; [|by intros t s [H _]; exact H].
  assert (Hw : forall t s, (Inv c b /&\ (fun _ s => sv_job s = None)) t s -> weak t s) by (intros t s [H _]; by eapply inv_weak).
  apply keeps_then; [keep|by intros e t s; apply Hw|]. intros t0.
  apply (triple_bind _ _ _ (fun o : bool => if o then (Inv c b /&\ (fun _ s => sv_job s = None)) /&\ exited
                                            else Inv c b /&\ (fun _ s => sv_job s = None))).
  - eapply triple_post; [apply wait_until_spec; typeclasses eauto|]. intros [[]|] t s; [done..|]. apply Hw.
  - intros []; [apply triple_ret; intros t s [[H1 H2] H3]; exact (conj H1 (conj H2 H3))|].
    apply triple_fail. apply Hw.
Qed.

Lemma settle_spec b :
  triple (Drain c b [] /&\ (fun _ => recorded))
    (smod (set_readers []) ;& smod (set_generation None) ;& smod (set_sinks []) ;& tell ClearPause)
    (fun x => match x with Ok _ => Inv c b /&\ (fun _ => clean) | Err _ => weak end).
Proof.
  do 3 apply mod_then. apply (triple_pre _ (Inv c b /&\ (fun _ => clean))).
  - apply keeps_post; [keep|]. intros [] t s H; [exact H|]. by eapply inv_weak, H.
  - intros t s' (s2 & (s1 & (s & [(H & Hj & _ & Hb) Hr] & ->) & ->) & ->). split; [|by split].
    destruct H as [? Hu]. unfold recorded in Hr.
    split; try done; cbn; [rewrite Hu; destruct (sv_generation s); [by rewrite Hr|done]|..];
      intros E; destruct (Hb E) as [Ho Hd]; [by rewrite Ho, Hj|exact Hd].
Qed.

Lemma cleanup_generation_spec b fuel :
  triple (Inv c b) (cleanup_generation fuel)
    (fun x => match x with Ok _ => Inv c b /&\ (fun _ => clean) | Err _ => weak end).
Proof.
  assert (Hw : forall P t s, (Inv c b /&\ P) t s -> weak t s) by (intros P t s [H _]; by eapply inv_weak).
  unfold cleanup_generation.
  apply (triple_bind _ _ _ (fun _ => Inv c b /&\ (fun _ s => sv_job s = None))); [apply cleanup_job_spec|]. intros _.
  apply keeps_then; [keep|by intros e t s; apply Hw|]. intros _. apply triple_get_as. intros g.
  apply (triple_bind _ _ _ (fun _ => Inv c b /&\ (fun _ s => sv_job s = None) /&\ exited)); [|intros _].
  { apply child_gone_spec. }
  apply keeps_then; [apply join_watcher_spec|by intros e t s; apply Hw|]. intros _.
  apply keeps_then; [keep|by intros e t s; apply Hw|]. intros t0. apply triple_get_as. intros rd.
  apply (sure_then _ _ _ (fun f => Drain c (b && is_none f) [])).
  { eapply triple_weaken; [apply (finish_readers_spec b rd _ None)| |by intros []]. intros t s [(H & Hj & He) Hr].
    split; [by eapply inv_weak|]. split; [exact Hj|]. split; [exact He|]. cbn. rewrite andb_true_r. intros Eb.
    destruct H as [? ? ? ? Ho Hd]. by rewrite (Ho Eb), (Hd Eb), Hj. }
  intros f. apply keeps_then; [destruct (is_none f); keep|intros e t s H; apply H|]. intros _.
  apply (triple_bind _ _ _ (fun _ => Drain c (b && is_none f) [] /&\ (fun _ => recorded))); [|intros _].
  { apply record_child_exit_spec. }
  destruct f as [e|]; cbn [is_none].
  - apply keeps_then; [keep|by intros e' t s [H _]; apply H|]. intros _. apply triple_fail. by intros t s [H _]; apply H.
  - rewrite andb_true_r. apply settle_spec.
Qed.
End Cleanup.

(** ** A generation *)

Section Generations.
Context {N : OsNames} (c : ManagedApplicationConfig).
Abbreviation weak := (Inv c false) (only parsing).
Abbreviation strong := (Inv c true) (only parsing).
Abbreviation stopped := (of_track (fun t => stop_flag t = true)) (only parsing).

(** While a generation is being started: its job exists, nothing runs. *)
Definition Starting (job : Z) (t : Track) (s : Sup) : Prop :=
  strong t s /\ sv_job s = Some job /\ sv_generation s = None.
#[local] Instance steady_starting job : Steady (Starting job).
Proof.
  split; [intros X e x t s Hp Hf (H1 & H2); split; [by eapply steady_event|done]|].
  intros t s s' Hv (H1 & H2 & H3). split; [by eapply steady_fields|]. injection Hv as E1 -> E3 -> E5 E6. by split.
Qed.

Lemma open_sinks_keeps job config : keeps (Starting job) (open_sinks config).
Proof. unfold open_sinks, degrading. keep. Qed.

Lemma attach_stream_keeps job config label sink : keeps (Starting job) (attach_stream config label sink).
Proof.
  unfold attach_stream, attach_pipe_sink. destruct sink as [k|]; [|keep]. destruct (is_online config); [|keep].
  apply keeps_sm_bind; [keep|]. intros _. apply keeps_sm_bind; [keep|]. intros generation.
  apply (triple_bind _ _ _ (fun r t s => weak t s /\ sv_job s = Some job /\ sv_generation s = None
           /\ open_jobs (res t) = [job] /\ open_readers (res t) = sv_readers s ++ [r])).
  - apply triple_call; [done|]. intros t s [r|e] (H & Hj & Hg) _; [|by split].
    split; [apply inv_other; by eapply inv_weak|]. split; [done|]. split; [done|]. destruct H as [? ? ? ? Ho Hr]. split; cbn.
    + by rewrite Ho, Hj.
    + by rewrite Hr.
  - intros r. apply triple_get_as. intros readers. apply triple_mod. intros t s [(H & Hj & Hg & Ho & Hr) <-].
    split; [|by split]. destruct H. split; try done; cbn; intros _; by rewrite Ho, Hj.
Qed.

Lemma contain_child_keeps job fuel config j child : keeps (Starting job) (contain_child fuel config j child).
Proof. unfold contain_child. keep. Qed.
Lemma resume_child_keeps job fuel child : keeps (Starting job) (resume_child fuel child).
Proof. unfold resume_child. keep. Qed.

(** What a start leads to. *)
Abbreviation started := (fun x => match x with Ok false => strong /&\ stopped | _ => strong end) (only parsing).

Lemma publish_generation_spec job child at_ ts first delay :
  triple (Starting job) (publish_generation child at_ ts first delay) started.
Proof.
  unfold publish_generation. apply triple_get_as. intros id. apply mod_then.
  set (g := {| g_id := id; g_pid := child; g_started := at_; g_watcher := false; g_recorded := false |}).
  set (P := fun t s => exists s0, strong t s0 /\ sv_generation s0 = None /\ s = set_generation (Some g) s0).
  apply (triple_pre _ P); [|by intros t s' (s & [(H1 & H2 & H3) _] & ->); exists s].
  apply (try_then _ _ _ (fun _ => P)).
  { apply triple_call; [done|]. intros t s x (s0 & H1 & H2 & ->) _. exists s0. split; [|done]. by destruct H1. }
  intros watcher. apply (sure_then _ _ _ (fun _ => strong /&\ fun _ s => sv_generation s = Some g)).
  { assert (HQ : forall l t s, (l = LStarted child ts \/ l = LRestarted child (delay / 1000000) ts) -> P t s ->
      call_ok t (WriteLog l) /\ strong (with_res (track_line l) t) s /\ sv_generation s = Some g).
    { intros l t s Hl (s0 & [? Hu [Ho ?]] & H2 & ->). rewrite H2 in Hu. destruct Hl as [-> | ->]; by split. }
    destruct first; (apply triple_ask; [intros t s HP|intros t s x HP _]); eapply HQ; eauto. }
  intros _. apply keeps_then; [keep|by intros e t s []|]. intros _. apply mod_then.
  apply (triple_pre _ strong).
  - apply if_stopping; [typeclasses eauto|by apply triple_ret|]. eapply triple_pre; [|by intros t s [H _]; exact H].
    apply keeps_then; [keep|done|]. intros _.
    apply if_stopping; [typeclasses eauto|by apply triple_ret|]. eapply triple_pre; [|by intros t s [H _]; exact H].
    apply keeps_then; [keep|done|]. intros alive. apply keeps_then; [destruct alive; keep|done|]. intros _. by apply triple_ret.
  - intros t s' (s & [H Hg] & ->). destruct H as [? Hu]. rewrite Hg in Hu. by split.
Qed.

Lemma launch_child_spec fuel job config out err first delay :
  triple (Starting job) (launch_child fuel job config out err first delay) started.
Proof.
  assert (Hs : forall t s, Starting job t s -> strong t s) by (by intros t s []).
  assert (Hd : forall t s, (Starting job /&\ stopped) t s -> (strong /&\ stopped) t s) by (by intros t s [[]]).
  unfold launch_child. apply keeps_then; [keep|by intros e|]. intros a. apply keeps_then; [keep|by intros e|]. intros env.
  apply keeps_then; [apply attach_stream_keeps|by intros e|]. intros _.
  apply keeps_then; [apply attach_stream_keeps|by intros e|]. intros _.
  apply keeps_then; [destruct (stdin _); keep|by intros e|]. intros _.
  apply if_stopping; [typeclasses eauto|by apply triple_ret|].
  apply (triple_bind _ _ _ (fun _ => Starting job)).
  { apply triple_call.
    - intros t s [[H1 [H2 H3]] H4]. split; [|exact H4]. exists job. destruct H1 as [? ? ? ? Ho ?]. by rewrite Ho, H2.
    - intros t s [child|e] [H _] _; [exact H|by apply Hs]. }
  intros child. apply keeps_then; [apply contain_child_keeps|by intros e|]. intros _.
  apply if_stopping; [typeclasses eauto| |].
  - apply keeps_then; [keep|by intros e t s []; apply Hs|]. intros _. by apply triple_ret.
  - eapply triple_pre; [|by intros t s [H _]; exact H].
    apply keeps_then; [keep|by intros e|]. intros at_. apply keeps_then; [keep|by intros e|]. intros ts.
    apply keeps_then; [apply resume_child_keeps|by intros e|]. intros _. apply publish_generation_spec.
Qed.

Lemma start_generation_spec fuel first delay :
  triple (strong /&\ fun _ => clean) (start_generation fuel first delay) started.
Proof.
  assert (Hs : forall job t s, Starting job t s -> strong t s) by (by intros job t s []).
  assert (Hc : forall t s, (strong /&\ fun _ => clean) t s -> strong t s) by (by intros t s []).
  unfold start_generation. apply if_stopping; [typeclasses eauto|apply triple_ret; by intros t s [[]]|].
  eapply triple_pre; [|by intros t s [H _]; exact H].
  apply keeps_then; [keep|by intros e|]. intros _. apply keeps_then; [keep|by intros e|]. intros _.
  apply if_stopping; [typeclasses eauto|apply triple_ret; by intros t s [[]]|].
  apply (triple_bind _ _ _ (fun job t s => weak t s /\ clean s /\ open_jobs (res t) = [job] /\ open_readers (res t) = [])).
  { apply triple_call.
    - intros t s [[[? Hu ? ? Ho Hr] (C1 & C2 & C3)] Hf]. rewrite C3 in Hu. rewrite C1 in Ho. rewrite C2 in Hr.
      split; [by apply Ho|]. split; [by apply Hr|]. by split.
    - intros t s [job|e] [[H [C1 [C2 C3]]] _] _; [|exact H]. split; [apply inv_other; by eapply inv_weak|].
      split; [done|]. destruct H as [? ? ? ? Ho Hr]. cbn. by rewrite Ho, Hr, C1, C2. }
  intros job. apply (triple_bind _ _ _ (fun _ => Starting job)).
  { apply triple_mod. intros t s (H & (C1 & C2 & C3) & Ho & Hr). split; [|by split]. destruct H. split; try done; cbn; intros _; congruence. }
  intros _. apply keeps_then; [keep|intros e; apply Hs|]. intros launch.
  apply keeps_then; [keep|intros e; apply Hs|]. intros config.
  apply keeps_then; [apply open_sinks_keeps|intros e; apply Hs|]. intros [out err].
  apply keeps_then; [keep|intros e; apply Hs|]. intros _.
  apply if_stopping; [typeclasses eauto|apply triple_ret; by intros t s [[]]|].
  eapply triple_pre; [|by intros t s [H _]; exact H]. apply launch_child_spec.
Qed.

(** ** Turns *)

Definition code_seen (n : Z) (t : Track) : Prop := exists m, In m (codes t) /\ m = n.

(** What the reason a run ends with says of what was observed. *)
Definition outcome (r : ExitReason) (t : Track) : Prop :=
  match r with
  | ReasonStopped => stop_flag t = true
  | ReasonChildExited => exists n, In n (codes t) /\ action_for c n = Exit
  | ReasonSuicide n =>
      (n = -1 /\ default_exit_action c = Suicide) \/ (exists m, In m (codes t) /\ (m = n /\ action_for c m = Suicide))
  | ReasonSpawnFailed => False
  end.
#[local] Instance lasting_outcome r : Lasting (outcome r).
Proof. destruct r; unfold outcome; typeclasses eauto. Qed.
#[local] Instance lasting_code_seen n : Lasting (code_seen n).
Proof. apply lasting_code. Qed.

Abbreviation ready := (strong /&\ (fun _ => clean)) (only parsing).
Definition turn_post (turn : Turn) : Pred :=
  match turn with Again _ => ready | Done r => weak /&\ of_track (outcome r) | Quiesce => weak end.

Lemma triple_config {A} P (k : ManagedApplicationConfig -> SM A) Q :
  (forall t s, P t s -> sv_config s = c) -> triple P (k c) Q -> triple P (sbind (sget sv_config) k) Q.
Proof.
  intros HP H. apply triple_get_as. intros config t s log r [H1 H2].
  rewrite (HP t s H1) in H2. subst config. by apply H.
Qed.

Lemma go_on_spec fuel delay last :
  triple ready (let& go_on := sleep_or_stop fuel delay in sret (if go_on then Again last else Done ReasonStopped))
    (fun x => match x with Ok turn => turn_post turn | Err _ => weak end).
Proof.
  apply (triple_bind _ _ _ (fun b : bool => if b then ready else ready /&\ stopped)).
  - eapply triple_post; [apply sleep_or_stop_spec; typeclasses eauto|]. intros [[]|e] t s H; [exact H..|]. by eapply inv_weak, H.
  - intros []; apply triple_ret; [done|]. intros t s [[H _] Hs]. split; [by eapply inv_weak|exact Hs].
Qed.

Lemma start_failed_spec fuel e last :
  triple strong (start_failed fuel e last) (fun x => match x with Ok turn => turn_post turn | Err _ => weak end).
Proof.
  unfold start_failed. apply triple_config; [by intros t s []|]. apply keeps_then; [keep|intros e' t s; apply inv_weak|]. intros _.
  apply (triple_bind _ _ _ (fun _ => ready)); [apply cleanup_generation_spec|]. intros _.
  apply if_stopping; [typeclasses eauto|apply triple_ret; intros t s [[H _] Hs]; split; [by eapply inv_weak|exact Hs]|].
  eapply triple_pre; [|by intros t s [H _]; exact H].
  destruct (default_exit_action c) eqn:Ed; [apply go_on_spec|apply go_on_spec| |].
  - apply triple_fail. intros t s []. by eapply inv_weak.
  - apply triple_ret. intros t s [H _]. split; [by eapply inv_weak|]. by left.
Qed.

Lemma generation_ended_spec fuel started_ e :
  triple (strong /&\ of_track (code_seen (oe_code e))) (generation_ended fuel started_ e)
    (fun x => match x with Ok turn => turn_post turn | Err _ => weak end).
Proof.
  unfold generation_ended. apply triple_config; [by intros t s [[] _]|].
  apply (triple_bind _ _ _ (fun _ => ready /&\ of_track (code_seen (oe_code e)))).
  { eapply triple_post; [apply triple_frame; [typeclasses eauto|apply cleanup_generation_spec]|].
    intros [] t s [H1 H2]; [by split|exact H1]. }
  intros _. apply if_stopping; [typeclasses eauto|apply triple_ret; intros t s [[[H _] _] Hs]; split; [by eapply inv_weak|exact Hs]|].
  eapply triple_pre; [|by intros t s [H _]; exact H].
  destruct (action_for c (oe_code e)) eqn:Ea.
  - apply (sure_then _ _ _ (fun _ => ready)); [|intros _; apply go_on_spec].
    destruct (_ =? 0); [apply triple_ret; by intros t s []|].
    apply triple_ask; [|intros [] s x [H _] _; exact H].
    intros t s [[[? Hu [Ho _]] (_ & _ & Hg)] _]. rewrite Hg in Hu. by split.
  - apply keeps_then; [keep|intros e' t s [[H _] _]; by eapply inv_weak|]. intros _.
    apply triple_ret. intros t s [[H _] _]. by eapply inv_weak.
  - apply triple_ret. intros t s [[H _] (m & Hm & ->)]. split; [by eapply inv_weak|]. by exists (oe_code e).
  - apply triple_ret. intros t s [[H _] (m & Hm & ->)]. split; [by eapply inv_weak|]. right. by exists (oe_code e).
Qed.

Lemma generation_turn_spec fuel first delay :
  triple ready (generation_turn fuel first delay)
    (fun x => match x with Ok (turn, _) => turn_post turn | Err _ => weak end).
Proof.
  unfold generation_turn.
  apply (triple_bind _ _ _ (fun b : bool => if b then ready else ready /&\ stopped)).
  { eapply triple_post; [apply sleep_or_stop_spec; typeclasses eauto|]. intros [[]|e] t s H; [exact H..|]. by eapply inv_weak, H. }
  intros []; cbn [negb]; [|apply triple_ret; intros t s [[H _] Hs]; split; [by eapply inv_weak|exact Hs]].
  apply keeps_then; [keep|intros e t s [H _]; by eapply inv_weak|]. intros n.
  apply keeps_then; [keep|intros e t s [H _]; by eapply inv_weak|]. intros _.
  eapply try_then; [apply start_generation_spec|]. intros [[]|e].
  - apply (triple_bind _ _ _ (fun o => match o with Some e => strong /&\ seen e | None => strong /&\ stopped end)).
    { eapply triple_post; [apply monitor_spec; typeclasses eauto|]. intros [[e|]|e] t s H; [exact H..|]. by eapply inv_weak. }
    intros o. apply triple_get_as. intros g. destruct o as [e|].
    + destruct g as [g|].
      * apply (triple_bind _ _ _ turn_post); [|intros turn; by apply triple_ret].
        eapply triple_weaken; [apply generation_ended_spec| |by intros []].
        intros t s [[H (_ & _ & Hc)] _]. split; [exact H|]. by exists (oe_code e).
      * intros t s log r [[_ [Hg _]] Hg']. rewrite Hg' in Hg. by destruct Hg.
    + apply triple_ret. intros t s [[H Hs] _]. split; [by eapply inv_weak|exact Hs].
  - apply triple_ret. intros t s [H Hs]. split; [by eapply inv_weak|exact Hs].
  - apply (triple_bind _ _ _ turn_post); [|intros turn; by apply triple_ret].
    eapply triple_post; [apply start_failed_spec|]. by intros [].
Qed.

Lemma run_generations_spec turns fuel first delay :
  triple ready (run_generations turns fuel first delay)
    (fun x => match x with Ok r => weak /&\ of_track (outcome r) | Err _ => weak end).
Proof.
  revert first delay. induction turns as [|n IH]; intros first delay; cbn -[generation_turn].
  - apply triple_fail. intros t s [H _]. by eapply inv_weak.
  - apply (triple_bind _ _ _ (fun x : Turn * bool => turn_post x.1)).
    { eapply triple_post; [apply generation_turn_spec|]. by intros [[]|]. }
    intros [[d|r|] first']; cbn [turn_post fst]; [apply IH|by apply triple_ret|].
    eapply triple_post; [apply wait_quiesced_spec; typeclasses eauto|]. intros [r|e] t s; [|done].
    intros (H & Hs & ->). by split.
Qed.
End Generations.

(** ** Operations that cannot fail *)

Definition sure {A} (m : SM A) : Prop := forall s log r, runs (m s) log r -> exists a s', r = Ok (Ok a, s').

Lemma sure_ret {A} (a : A) : sure (sret a).
Proof. intros s log r [-> ->]. by exists a, s. Qed.
Lemma sure_get {A} (f : Sup -> A) : sure (sget f).
Proof. intros s log r [-> ->]. by eexists _, s. Qed.
Lemma sure_mod f : sure (smod f).
Proof. intros s log r [-> ->]. by eexists _, _. Qed.
Lemma sure_ask {A} (d : A) (e : SupE A) : sure (ask d e).
Proof. intros s log r (x & l & -> & -> & ->). by eexists _, _. Qed.
Lemma sure_bind {A B} (m : SM A) (k : A -> SM B) : sure m -> (forall a, sure (k a)) -> sure (sbind m k).
Proof.
  intros Hm Hk s log r Hr. unfold sbind in Hr. apply runs_then in Hr as (l1 & l2 & a & -> & H1 & H2).
  destruct (Hm _ _ _ H1) as (b & s' & ->). by apply Hk in H2.
Qed.
Lemma triple_sure {A} P (m : SM A) Q :
  sure m -> triple P m Q -> triple P m (fun x => match x with Ok _ => Q x | Err _ => fun _ _ => False end).
Proof.
  intros Hs H t s log r HP Hr Hf. destruct (Hs _ _ _ Hr) as (a & s1 & E).
  destruct (H t s log r HP Hr Hf) as (x & s' & -> & Hg & HQ). exists x, s'. injection E as -> ->. by split.
Qed.
Lemma keeps_sure {A B} P (m : SM A) (k : A -> SM B) Q :
  sure m -> keeps P m -> (forall a, triple P (k a) Q) -> triple P (sbind m k) Q.
Proof.
  intros Hs Hm Hk. apply (sure_then _ _ _ (fun _ => P)); [|exact Hk].
  eapply triple_post; [apply (triple_sure _ _ _ Hs Hm)|]. by intros [].
Qed.
#[export] Hint Resolve sure_ret sure_get sure_mod sure_ask : keeping.
Ltac sure1 :=
  match goal with
  | |- sure (match ?x with _ => _ end) => destruct x
  | |- sure (sbind _ _) => apply sure_bind; [|intros ?]
  | |- sure (tell _) => apply sure_ask
  end.
Ltac surely := repeat first [solve [auto 2 with keeping] | sure1].

Section Ending.
Context {N : OsNames} (c : ManagedApplicationConfig).
Abbreviation weak := (Inv c false) (only parsing).
Abbreviation stopped := (of_track (fun t => stop_flag t = true)) (only parsing).

Lemma sure_now : sure now.
Proof. unfold now. surely. Qed.
Lemma sure_stopping : sure stopping.
Proof. unfold stopping. surely. Qed.
Lemma sure_report o m : sure (report o m).
Proof. unfold report. surely. Qed.
#[local] Hint Resolve sure_now sure_stopping sure_report : keeping.
Lemma sure_current_pid : sure current_pid.
Proof. unfold current_pid, generation_alive. surely. Qed.
Lemma sure_fire_hook p pid exit power : sure (fire_hook p pid exit power).
Proof. unfold fire_hook, invoke_hook. surely. Qed.
#[local] Hint Resolve sure_current_pid sure_fire_hook : keeping.

(** The hook before the stop, where it has not run. *)
Lemma stop_hook_spec pid :
  triple (weak /&\ (fun t s => stop_hook_run (res t) = false /\ sv_stop_hook_fired s = true))
    (fire_hook StopPre pid None None) (fun _ => weak).
Proof.
  set (P := weak /&\ (fun t s => stop_hook_run (res t) = false /\ sv_stop_hook_fired s = true)).
  assert (HS : Steady P).
  { apply steady_both; [typeclasses eauto|].
    apply (steady_view (fun r v => stop_hook_run r = false /\ v.1.2 = true)). }
  assert (Hw : forall t s, P t s -> weak t s) by (by intros t s []).
  assert (Hi : forall h env, triple P (invoke_hook StopPre h env pid None None) (fun _ => weak)).
  { intros h env. unfold invoke_hook. apply keeps_then; [keep|intros e; apply Hw|]. intros s0.
    apply keeps_then; [keep|intros e; apply Hw|]. intros d.
    destruct (resolve_expandable_strings _ _) as [inv|e]; [|apply keeps_post; [keep|intros x; apply Hw]].
    apply triple_ask; [intros t s [_ [H _]]; by split|]. intros t s x [H [_ Hf]] _. rewrite track_stop_hook by done.
    destruct H. by split. }
  unfold fire_hook. apply keeps_then; [keep|intros e; apply Hw|]. intros st. rewrite andb_false_r.
  apply keeps_then; [keep|intros e; apply Hw|]. intros s0.
  destruct (find_hook _ _); [|by apply triple_ret]. destruct (is_empty _); [|apply Hi].
  apply keeps_then; [keep|intros e; apply Hw|]. intros vars.
  destruct (effective_environment _ _); [apply Hi|]. apply keeps_post; [keep|]. intros x. apply Hw.
Qed.

Lemma stop_hook_once fired :
  triple (weak /&\ fun _ s => sv_stop_hook_fired s = fired)
    (if fired then sret tt
     else smod (set_stop_hook_fired true) ;& let& pid := current_pid in fire_hook StopPre pid None None)
    (fun _ => weak).
Proof.
  destruct fired; [by apply triple_ret; intros t s []|]. apply mod_then.
  apply (triple_pre _ (weak /&\ (fun t s => stop_hook_run (res t) = false /\ sv_stop_hook_fired s = true))).
  - apply keeps_then; [|by intros e t s []|intros pid; apply stop_hook_spec].
    apply keeps_current_pid. apply steady_both; [typeclasses eauto|].
    apply (steady_view (fun r v => stop_hook_run r = false /\ v.1.2 = true)).
  - intros t s' (s & [H Hf] & ->). destruct H as [? ? ? Hh]. rewrite Hf in Hh.
    assert (stop_hook_run (res t) = false) as E by (destruct (stop_hook_run (res t)); [by specialize (Hh eq_refl)|done]).
    split; [|by split]. split; try done.
Qed.

(** The stop is recorded. *)
Definition Finished (t : Track) (s : Sup) : Prop := stop_recorded (res t) = true /\ sv_stopped_recorded s = true.

Lemma record_stop_spec recorded :
  triple (weak /&\ fun _ s => sv_stopped_recorded s = recorded)
    (if recorded then sret tt else smod (set_stopped_recorded true) ;& tell (WriteLog LStopped))
    (fun x => match x with Ok _ => Finished | Err _ => fun _ _ => False end).
Proof.
  destruct recorded; [intros t s log r [[? ? [_ H]] H']; congruence|].
  apply mod_then. apply triple_ask; [intros t s' (s & [[? ? [Ho _]] _] & ->); by split|].
  by intros t s' x (s & _ & ->) _.
Qed.

Definition settled (x : result SupervisorError ExitReason) : Pred :=
  match x with Ok r => of_track (outcome c r) | Err _ => fun _ _ => True end.
#[local] Instance steady_settled x : Steady (settled x).
Proof. destruct x as [r|e]; [apply steady_lasting; destruct r; unfold outcome; typeclasses eauto|by split]. Qed.
#[local] Instance steady_finished : Steady Finished.
Proof. apply (steady_view (fun r v => stop_recorded r = true /\ v.2 = true)). Qed.

Lemma finish_stop_spec fuel :
  triple (weak /&\ stopped) (finish_stop fuel)
    (fun x => Finished /&\ settled x).
Proof.
  enough (triple (weak /&\ stopped) (finish_stop fuel)
            (fun x => (Finished /&\ (fun _ _ => match x with Ok r => r = ReasonStopped | Err _ => True end)) /&\ stopped)) as H.
  { eapply triple_post; [exact H|]. intros [r|e] t s [[HF Hr] Hs]; (split; [exact HF|]); [by rewrite Hr|done]. }
  apply triple_frame; [typeclasses eauto|]. unfold finish_stop.
  apply keeps_sure; [surely|keep|]. intros d. apply keeps_sure; [destruct d; surely|destruct d; keep|]. intros _.
  apply triple_get_as. intros fired.
  apply (sure_then _ _ _ (fun _ => weak)).
  { eapply triple_post; [apply triple_sure; [destruct fired; surely|apply stop_hook_once]|]. by intros []. }
  intros _. apply (try_then _ _ _ (fun _ => weak)); [apply keeps_stop_child_gracefully; typeclasses eauto|]. intros graceful.
  apply (try_then _ _ _ (fun _ => weak)).
  { eapply triple_post; [apply cleanup_generation_spec|]. intros [] t s H; [by destruct H|exact H]. }
  intros cleanup. apply triple_get_as. intros recorded.
  apply (sure_then _ _ _ (fun _ => Finished)).
  { eapply triple_post; [apply record_stop_spec|]. by intros []. }
  intros _. apply keeps_then; [keep|by intros e t s|]. intros _. apply keeps_then; [keep|by intros e t s|]. intros _.
  apply triple_ret. by intros t s.
Qed.

(** ** run *)

(** The stop is recorded, or has not been seen. *)
Definition Settled (t : Track) (s : Sup) : Prop := Finished t s \/ (weak t s /\ stop_flag t = false).

Definition Over (t : Track) (s : Sup) : Prop := Finished t s \/ weak t s.
#[local] Instance steady_over : Steady Over.
Proof.
  split; [intros X e x t s Hp Hf [H|H]|intros t s s' Hv [H|H]].
  - left. unfold Finished. by rewrite plain_res.
  - right. by eapply steady_event.
  - left. injection Hv as E1 E2 E3 E4 E5 E6. unfold Finished. by rewrite E6.
  - right. by eapply steady_fields.
Qed.

Lemma stop_if_asked_spec fuel result :
  triple (Over /&\ settled result) (stop_if_asked fuel result)
    (fun x => match x with Ok r => Settled /&\ settled r | Err _ => fun _ _ => False end).
Proof.
  unfold stop_if_asked. eapply sure_then; [apply stopping_spec; typeclasses eauto|]. intros st.
  apply triple_get_as. intros rec. destruct (st && negb rec) eqn:E.
  - apply andb_true_iff in E as [-> E]. apply negb_true_iff in E as ->.
    apply (triple_pre _ (weak /&\ stopped)).
    + apply triple_try. eapply triple_post; [apply finish_stop_spec|]. intros x t s [H1 H2]. split; [by left|exact H2].
    + intros t s [[[H _] Hs] Hr]. split; [|exact Hs]. destruct H as [[_ H]|H]; [congruence|exact H].
  - apply triple_ret. intros t s [[[H1 H2] Hs] Hr]. split; [|exact H2]. unfold Settled.
    destruct H1 as [H|H]; [by left|]. right. split; [exact H|]. destruct st; [|exact Hs].
    destruct rec; [|discriminate]. destruct H as [? ? [_ ?]]. congruence.
Qed.

Lemma settled_over t s : Settled t s -> Over t s.
Proof. intros [H|[H _]]; [by left|by right]. Qed.

Lemma keeps_reject_pending n J : keeps J (reject_pending n).
Proof. induction n as [|n IH]; cbn; keep. Qed.
Lemma keeps_await_release fuel deadline J : keeps J (await_release fuel deadline).
Proof. induction fuel as [|n IH]; cbn; keep. Qed.
#[local] Hint Resolve keeps_reject_pending keeps_await_release : keeping.

Lemma handoff_spec fuel result :
  triple (Settled /&\ settled result) (handoff fuel result)
    (fun x => match x with Ok r => Settled /&\ settled r | Err _ => Settled end).
Proof.
  assert (He : forall t s, (Settled /&\ settled result) t s -> Settled t s) by (by intros t s []).
  unfold handoff. apply keeps_then; [keep|intros e; apply He|]. intros []; cbn [negb]; [|by apply triple_ret].
  apply keeps_then; [keep|intros e; apply He|]. intros _. apply keeps_then; [keep|intros e; apply He|]. intros t0.
  apply keeps_then; [keep|intros e; apply He|]. intros _. apply keeps_then; [keep|intros e; apply He|]. intros rel.
  apply keeps_then; [keep|intros e; apply He|]. intros _.
  eapply triple_weaken; [apply stop_if_asked_spec| |by intros []].
  intros t s [H1 H2]. split; [by apply settled_over|exact H2].
Qed.

Lemma run_spec turns fuel :
  triple (Inv c true /&\ (fun _ => clean)) (run turns fuel) (fun x => Settled /&\ settled x).
Proof.
  unfold run. apply (try_then _ _ _ (fun x => weak /&\ settled x)).
  { eapply triple_post; [apply (run_generations_spec c)|]. by intros [r|e] t s H. }
  intros x. eapply sure_then; [apply stopping_spec; typeclasses eauto|]. intros st.
  apply (sure_then _ _ _ (fun x => Over /&\ settled x)).
  { destruct st.
    - apply triple_try. eapply triple_weaken; [apply finish_stop_spec|by intros t s [[H _] Hs]|].
      intros y t s [H1 H2]. split; [by left|exact H2].
    - eapply (triple_pre _ (weak /&\ settled x)); [|by intros t s [H _]].
      apply (try_then _ _ _ (fun _ => weak /&\ settled x)).
      + destruct x as [r|e]; cbn [settled].
        * eapply triple_post; [apply triple_frame; [destruct r; unfold outcome; typeclasses eauto|apply cleanup_generation_spec]|].
          intros [] t s [H1 H2]; (split; [|exact H2]); [by destruct H1|exact H1].
        * eapply triple_weaken; [apply cleanup_generation_spec|by intros t s [H _]|].
          intros [] t s H; (split; [|done]); [by destruct H|exact H].
      + intros y. apply triple_ret. intros t s [H1 H2]. split; [by right|]. by destruct y. }
  intros y. apply (sure_then _ _ _ (fun x => Settled /&\ settled x)).
  { eapply triple_post; [apply stop_if_asked_spec|]. by intros []. }
  intros z. apply (triple_bind _ _ _ (fun x => Settled /&\ settled x)).
  { eapply triple_post; [apply handoff_spec|]. by intros []. }
  intros w. apply keeps_then; [keep|by intros e t s []|]. intros _.
  apply keeps_then; [destruct w; keep|by intros e t s []|]. intros _.
  by apply triple_lift.
Qed.
End Ending.

(** ** A whole run *)

Lemma run_from_start {N : OsNames} name c terminal turns fuel log r :
  runs (run turns fuel (sup_new name c terminal)) log r -> fair track_init log ->
  exists x s, r = Ok (x, s) /\ good track_init log
    /\ (stop_flag (tracked track_init log) = true -> stop_recorded (res (tracked track_init log)) = true)
    /\ match x with Ok o => outcome c o (tracked track_init log) | Err _ => True end.
Proof.
  intros Hr Hf.
  assert (Hi : (Inv c true /&\ (fun _ => clean)) track_init (sup_new name c terminal)) by (split; by split).
  destruct (run_spec c turns fuel _ _ _ _ Hi Hr Hf) as (x & s & -> & Hg & [[HF|[_ HF]] Ho]); exists x, s.
  - split; [done|]. split; [exact Hg|]. split; [by destruct HF|]. by destruct x.
  - split; [done|]. split; [exact Hg|]. split; [congruence|]. by destruct x.
Qed.

Lemma stop_recorded_in t log :
  stop_recorded (res (tracked t log)) = true ->
  stop_recorded (res t) = true \/ exists x, In (Ev (WriteLog LStopped) x) log.
Proof.
  revert t. induction log as [|e l IH]; intros t H; [by left|]. apply IH in H as [H|[x H]]; [|right; exists x; by right].
  destruct e as [X e x]. destruct (plain e) eqn:Hp; [left; by rewrite plain_res in H|].
  destruct e; try discriminate Hp; try (left; exact H); try (left; by destruct x as [?|?]).
  - left. revert H. cbn. by case_bool_decide.
  - destruct l0; try (left; exact H). right. exists x. by left.
Qed.


(** C2. No error path loses a stop: whatever a run ends with, and even where
    cleanup, a reader or the handoff failed, a stop that was seen has its line
    in the event log. *)
Theorem stop_is_recorded {N : OsNames} name c terminal turns fuel log r :
  runs (run turns fuel (sup_new name c terminal)) log r -> fair track_init log ->
  stop_flag (tracked track_init log) = true -> exists x, In (Ev (WriteLog LStopped) x) log.
Proof.
  intros Hr Hf Hs. destruct (run_from_start _ _ _ _ _ _ _ Hr Hf) as (x & s & _ & _ & H & _).
  apply stop_recorded_in in H; [|exact Hs]. by destruct H as [H|H].
Qed.


(** ** Samples *)

#[local] Existing Instance ascii_names.

#[local] Instance ObservedExit_eq_dec : EqDecision ObservedExit.
Proof. solve_decision. Defined.

Definition event_fair_b (t : Track) (e : SupEvent) : bool :=
  match e with
  | Ev c x =>
      match c in SupE X return result SupervisorError X -> bool with
      | Stopping => fun x => negb (stop_flag t) || match x with Ok true => true | _ => false end
      | GenExit g => fun x => match exit_of t g with
                              | None => true
                              | Some e => match x with Ok (Some e') => bool_decide (e = e') | _ => false end
                              end
      | _ => fun _ => true
      end x
  end.
Fixpoint fair_b (t : Track) (log : list SupEvent) : bool :=
  match log with [] => true | e :: l => event_fair_b t e && fair_b (track t e) l end.

Lemma fair_by t log : fair_b t log = true -> fair t log.
Proof.
  revert t. induction log as [|e l IH]; intros t; [done|]. intros H. apply andb_true_iff in H as [H1 H2].
  split; [|by apply IH]. destruct e as [X c x]. destruct c; try exact I; cbn in *.
  - intros Hs. rewrite Hs in H1. by destruct x as [[]|].
  - intros e He. rewrite He in H1. destruct x as [[e'|]|]; try done. apply bool_decide_eq_true in H1. by subst.
Qed.

(** A child that exits with 5 at once; the second one runs until a stop arrives. *)
Record World := { w_clock : Z; w_stop : bool; w_spawned : Z; w_recvs : Z }.
Definition exit_5 : ObservedExit := Build_ObservedExit 5 (secs 1) &"2024-01-01T00:00:01Z" None.
Definition exit_0 : ObservedExit := Build_ObservedExit 0 (secs 9) &"2024-01-01T00:00:09Z" None.

Definition sample_world (X : Type) (e : SupE X) (w : World) : result SupervisorError X * World :=
  match e with
  | Now => (Ok (w_clock w), Build_World (w_clock w + ms 100) (w_stop w) (w_spawned w) (w_recvs w))
  | Stopping => (Ok (w_stop w), w)
  | RequestStop => (Ok tt, Build_World (w_clock w) true (w_spawned w) (w_recvs w))
  | RecvTimeout _ => (Ok (if w_spawned w =? 2 then Got MStop else Nothing), w)
  | TryRecv => (Ok Nothing, w)
  | GenExit g => (Ok (if g =? 1 then Some exit_5 else if w_stop w then Some exit_0 else None), w)
  | SpawnChild _ => (Ok (100 + w_spawned w), Build_World (w_clock w) (w_stop w) (w_spawned w + 1) (w_recvs w))
  | NewJob => (Ok 1, w)
  | ChangePause _ _ _ => (Ok Applied, w)
  | JobMembers _ => (Ok [], w)
  | JobIsEmpty _ | WatcherFinished _ | TerminalReleased | ResumeChild _ | RootRunning _ => (Ok true, w)
  | IsPaused | TryWaitChild _ | SinkDue _ _ | SinkHasData _ => (Ok false, w)
  | WaitOpenTask _ => (Ok (Ok (None, None, [])), w)
  | WaitRotationTask _ => (Ok (Ok true), w)
  | SpawnReader _ _ _ => (Ok 1, w)
  | VarsOs => (Ok [], w)
  | Timestamp => (Ok &"2024-01-01T00:00:00Z", w)
  | _ => (Ok tt, w)
  end.

Definition sample_supervised (actions : list (rstr * ExitActionPolicy)) : ManagedApplicationConfig :=
  let d := ManagedApplicationConfig_default in
  {| application := Some &"C:\app\server.exe"; app_parameters := app_parameters d; app_directory := app_directory d;
     environment := environment d; environment_extra := environment_extra d; priority := priority d;
     affinity := affinity d; restart := restart d; shutdown := shutdown d; io := io d; rotation := rotation d;
     exit_actions := actions; hooks := [Build_HookConfig &"Stop" &"Pre" &"flush.cmd"]; expandable_strings := expandable_strings d |}.

Definition sample_run (actions : list (rstr * ExitActionPolicy)) :=
  (interp sample_world (run 5 100 (sup_new &"web" (sample_supervised actions) true)) (Build_World 0 false 0 0)).1.

Definition log_lines (log : list SupEvent) : list LogLine :=
  omap (fun e => match e with Ev c _ => match c with WriteLog l => Some l | _ => None end end) log.
Definition suicide_on_5 : list (rstr * ExitActionPolicy) := [(&"5", Build_ExitActionPolicy Suicide)].

Lemma sample_run_runs actions :
  runs (run 5 100 (sup_new &"web" (sample_supervised actions) true)) (sample_run actions).2 (sample_run actions).1.
Proof. apply interp_runs. Qed.


Lemma stop_is_recorded_witness : exists x, In (Ev (WriteLog LStopped) x) (sample_run []).2.
Proof.
  apply (stop_is_recorded &"web" (sample_supervised []) true 5 100 _ (sample_run []).1); [apply sample_run_runs| |].
  - apply fair_by. vm_compute. reflexivity.
  - vm_compute. reflexivity.
Defined.

