(* ===== verification/Runtime.v ===== *)
(** * The service host's runtime: servicemanager-win32 [runtime.rs]

    Controls travel from the control handler, which the SCM calls on its own
    threads, to the service's main thread: ordinary ones through a bounded
    channel, Stop and Shutdown through an atomic that coalesces them and a Wake
    message. A second atomic decides between an accepted Stop and the end of the
    service. Each function below that touches shared state does so once, so it is
    one step of [step], which interleaves any number of handler calls with the
    receiver. *)

From Stdlib Require Import ZArith Lia List Relations.
From S2P Require Import Prelude Text Model Validate.

Definition SERVICE_CONTROL_STOP : Z := 1.
Definition SERVICE_CONTROL_PAUSE : Z := 2.
Definition SERVICE_CONTROL_CONTINUE : Z := 3.
Definition SERVICE_CONTROL_INTERROGATE : Z := 4.
Definition SERVICE_CONTROL_SHUTDOWN : Z := 5.
Definition SERVICE_CONTROL_POWEREVENT : Z := 13.
Definition ERROR_SERVICE_NOT_ACTIVE : Z := 1062.
Definition ERROR_RETRY : Z := 1237.

Inductive ServiceControl :=
| CStop | CShutdown | CPause | CContinue | CInterrogate | CPowerEvent (event_type : Z) | COther (code : Z).
#[export] Instance ServiceControl_eq_dec : EqDecision ServiceControl.
Proof. solve_decision. Defined.

Definition from_win32 (code event_type : Z) : ServiceControl :=
  if code =? SERVICE_CONTROL_STOP then CStop
  else if code =? SERVICE_CONTROL_SHUTDOWN then CShutdown
  else if code =? SERVICE_CONTROL_PAUSE then CPause
  else if code =? SERVICE_CONTROL_CONTINUE then CContinue
  else if code =? SERVICE_CONTROL_INTERROGATE then CInterrogate
  else if code =? SERVICE_CONTROL_POWEREVENT then CPowerEvent event_type
  else COther code.

(** ** The channel *)

Inductive ControlMessage := Ordinary (c : ServiceControl) | Wake.

Definition STOP_REQUESTED : Z := 1.
Definition TERMINAL_COMMITTED : Z := 2.
Definition CAPACITY : nat := 8.

(** The bounded queue, [ControlPending], and the receiver's own [deferred].
    [connected]: the receiving end of the queue exists. *)
Record Channel := {
  queue : list ControlMessage;
  terminal_bits : Z;
  decision : Z;
  alive : bool;
  connected : bool;
  deferred : option ServiceControl }.

Definition control_channel : Channel := {|
  queue := []; terminal_bits := 0; decision := 0; alive := true; connected := true; deferred := None |}.

Definition set_queue (q : list ControlMessage) (c : Channel) : Channel :=
  Build_Channel q (terminal_bits c) (decision c) (alive c) (connected c) (deferred c).
Definition set_terminal (t : Z) (c : Channel) : Channel :=
  Build_Channel (queue c) t (decision c) (alive c) (connected c) (deferred c).
Definition set_decision (d : Z) (c : Channel) : Channel :=
  Build_Channel (queue c) (terminal_bits c) d (alive c) (connected c) (deferred c).
Definition set_deferred (d : option ServiceControl) (c : Channel) : Channel :=
  Build_Channel (queue c) (terminal_bits c) (decision c) (alive c) (connected c) d.

Definition requested (d : Z) : bool := negb (Z.land d STOP_REQUESTED =? 0).
Definition committed (d : Z) : bool := negb (Z.land d TERMINAL_COMMITTED =? 0).

Definition stop_requested (c : Channel) : bool := requested (decision c).

(** [fetch_or(TERMINAL_COMMITTED)] *)
Definition claim_terminal (c : Channel) : bool * Channel :=
  (requested (decision c), set_decision (Z.lor (decision c) TERMINAL_COMMITTED) c).

(** ** The receiver *)

(** [terminal.swap(0)] *)
Definition terminal (c : Channel) : option ServiceControl * Channel :=
  let bits := terminal_bits c in
  (if bits =? 0 then None else if negb (Z.land bits 2 =? 0) then Some CShutdown else Some CStop, set_terminal 0 c).

Definition ready (c : Channel) : option ServiceControl * Channel :=
  match terminal c with
  | (Some t, c) => (Some t, c)
  | (None, c) => (deferred c, set_deferred None c)
  end.

Definition deliver (control : ServiceControl) (c : Channel) : ServiceControl * Channel :=
  match terminal c with
  | (Some t, c) => (t, set_deferred (Some control) c)
  | (None, c) => (control, c)
  end.

(** [self.rx.try_recv()] *)
Definition pop (c : Channel) : option ControlMessage * Channel :=
  match queue c with [] => (None, c) | m :: q => (Some m, set_queue q c) end.

(** [try_recv], alone; each turn of its loop takes a message. *)
Fixpoint try_recv_loop (fuel : nat) (c : Channel) : option ServiceControl * Channel :=
  match ready c with
  | (Some control, c) => (Some control, c)
  | (None, c) =>
      match pop c with
      | (Some (Ordinary control), c) => let '(control, c) := deliver control c in (Some control, c)
      | (Some Wake, c) => match fuel with O => (None, c) | S n => try_recv_loop n c end
      | (None, c) => terminal c
      end
  end.
Definition try_recv (c : Channel) : option ServiceControl * Channel := try_recv_loop (List.length (queue c)) c.

(** ** The control handler *)

Definition is_terminal (c : ServiceControl) : bool := match c with CStop | CShutdown => true | _ => false end.

(** Where a call of [dispatch_control] is. *)
Inductive Sender :=
| SCheckAlive (c : ServiceControl)
| SCheckDecision (c : ServiceControl)
| SRequest (c : ServiceControl)
| SPublish (c : ServiceControl)
| SSend (c : ServiceControl) (m : ControlMessage)
| SDone (c : ServiceControl) (code : Z).

(** [tx.try_send] *)
Definition try_send (c : ServiceControl) (m : ControlMessage) (ch : Channel) : Sender * Channel :=
  if negb (connected ch) then (SDone c ERROR_SERVICE_NOT_ACTIVE, ch)
  else if (List.length (queue ch) <? CAPACITY)%nat then (SDone c 0, set_queue (queue ch ++ [m]) ch)
  else (SDone c (match m with Wake => 0 | Ordinary _ => ERROR_RETRY end), ch).

Definition start_dispatch (c : ServiceControl) : Sender :=
  match c with CInterrogate => SDone c 0 | _ => SCheckAlive c end.

(** The next access to the shared state. *)
Definition sender_step (s : Sender) (ch : Channel) : Sender * Channel :=
  match s with
  | SCheckAlive c => (if alive ch then SCheckDecision c else SDone c ERROR_SERVICE_NOT_ACTIVE, ch)
  | SCheckDecision c =>
      (if committed (decision ch) then SDone c ERROR_SERVICE_NOT_ACTIVE
       else if is_terminal c then SRequest c else SSend c (Ordinary c), ch)
  | SRequest c =>
      if committed (decision ch) then (SDone c ERROR_SERVICE_NOT_ACTIVE, ch)
      else (SPublish c, set_decision (Z.lor (decision ch) STOP_REQUESTED) ch)
  | SPublish c =>
      (SSend c Wake, set_terminal (Z.lor (terminal_bits ch) (match c with CShutdown => 2 | _ => 1 end)) ch)
  | SSend c m => try_send c m ch
  | SDone c code => (s, ch)
  end.

Fixpoint sender_run (n : nat) (s : Sender) (ch : Channel) : Sender * Channel :=
  match n with
  | O => (s, ch)
  | S n => let '(s, ch) := sender_step s ch in sender_run n s ch
  end.

(** [dispatch_control], alone; five accesses are enough. *)
Definition dispatch_control (c : ServiceControl) (ch : Channel) : Z * Channel :=
  match sender_run 5 (start_dispatch c) ch with
  | (SDone _ code, ch) => (code, ch)
  | (_, ch) => (ERROR_RETRY, ch)
  end.

(** [control_handler_thunk]; the context is the one registered. *)
Definition control_handler_thunk (code event_type : Z) (context : option Channel) : Z * option Channel :=
  match context with
  | None => (ERROR_SERVICE_NOT_ACTIVE, None)
  | Some ch => let '(r, ch) := dispatch_control (from_win32 code event_type) ch in (r, Some ch)
  end.

(** ** Status reports *)

Definition SERVICE_STOPPED : Z := 1.
Definition SERVICE_START_PENDING : Z := 2.
Definition SERVICE_STOP_PENDING : Z := 3.
Definition SERVICE_RUNNING : Z := 4.
Definition SERVICE_CONTINUE_PENDING : Z := 5.
Definition SERVICE_PAUSE_PENDING : Z := 6.
Definition SERVICE_PAUSED : Z := 7.
(** stop, pause and continue, shutdown, power events *)
Definition ACCEPTS_WHEN_LIVE : Z := Z.lor (Z.lor (Z.lor 1 4) 2) 64.

Record SERVICE_STATUS := {
  dwCurrentState : Z; dwControlsAccepted : Z; dwWin32ExitCode : Z; dwCheckPoint : Z; dwWaitHint : Z }.

(** [ContextInner]: the handle the SCM issued and the checkpoint. *)
Record ContextInner := { status_handle : option Z; checkpoint : Z }.

Definition u32_sat_add (a b : Z) : Z := Z.min u32_max (a + b).

Section Reports.
Context (SetServiceStatus : Z -> SERVICE_STATUS -> result Error unit).

Definition set_status (i : ContextInner) (state accepted exit_code cp hint : Z) : result Error unit :=
  let? h := ok_or (status_handle i) (Scm &"service status handle is not initialized") in
  SetServiceStatus h {| dwCurrentState := state; dwControlsAccepted := accepted; dwWin32ExitCode := exit_code;
                        dwCheckPoint := cp; dwWaitHint := hint |}.

Definition bump_checkpoint (i : ContextInner) : Z * ContextInner :=
  let cp := u32_sat_add (checkpoint i) 1 in (cp, {| status_handle := status_handle i; checkpoint := cp |}).
Definition reset_checkpoint (i : ContextInner) : ContextInner := {| status_handle := status_handle i; checkpoint := 0 |}.

Definition report_pending (state hint : Z) (i : ContextInner) : result Error unit * ContextInner :=
  let '(cp, i) := bump_checkpoint i in (set_status i state 0 0 cp hint, i).
Definition report_start_pending := report_pending SERVICE_START_PENDING.
Definition report_pause_pending := report_pending SERVICE_PAUSE_PENDING.
Definition report_continue_pending := report_pending SERVICE_CONTINUE_PENDING.
Definition report_stop_pending := report_pending SERVICE_STOP_PENDING.

Definition report_settled (state accepted exit_code : Z) (i : ContextInner) : result Error unit * ContextInner :=
  let i := reset_checkpoint i in (set_status i state accepted exit_code 0 0, i).
Definition report_running := report_settled SERVICE_RUNNING ACCEPTS_WHEN_LIVE 0.
Definition report_paused := report_settled SERVICE_PAUSED ACCEPTS_WHEN_LIVE 0.
Definition report_stopped (exit_code : Z) := report_settled SERVICE_STOPPED 0 exit_code.
End Reports.

(** ** The dispatcher *)

(** The process-wide slots: whether a lifecycle was stored, and the name. *)
Record Statics := { lifecycle : bool; service_name : option rstr }.

(** The dispatcher blocks until the service has stopped; the answer's second part:
    whether a service's main function took the lifecycle. *)
Definition run_service_dispatcher (StartServiceCtrlDispatcher : rstr -> result Error unit * bool) (name : rstr) (st : Statics)
    : result Error unit * Statics :=
  match validate_service_name name with
  | Err e => (Err e, st)
  | Ok _ =>
      if lifecycle st then (Err (error_other &"run_service_dispatcher must only be called once per process"), st)
      else
        let st := {| lifecycle := true; service_name := service_name st |} in
        match service_name st with
        | Some _ => (Err (error_other &"service name slot already initialized"), st)
        | None =>
            let '(r, taken) := StartServiceCtrlDispatcher name in
            (r, {| lifecycle := negb taken; service_name := Some name |})
        end
  end.

Definition strip_trailing_nul (buf : list Z) : list Z :=
  match position (Z.eqb 0) buf with Some i => take i buf | None => buf end.

(** ** Interleavings *)

(** Where the receiver is; [block]: in [recv], which has no timeout. *)
Inductive Receiver :=
| RIdle | RReady (block : bool) | RPop (block : bool) | RDeliver (c : ServiceControl) | RLast | RDropping | RDropped.

Record World := {
  channel : Channel;
  senders : list Sender;
  receiver : Receiver;
  delivered : list ServiceControl;
  claims : list bool;
  accepted : list ServiceControl }.

(** The ordinary controls that were put into the queue, in order. *)
Definition newly_accepted (ch : Channel) (s s' : Sender) : list ServiceControl :=
  match s, s' with
  | SSend _ (Ordinary c), SDone _ code => if code =? 0 then [c] else []
  | _, _ => []
  end.

Inductive step : World -> World -> Prop :=
| step_call ch ss r d cl a c :
    step (Build_World ch ss r d cl a) (Build_World ch (ss ++ [start_dispatch c]) r d cl a)
| step_sender ch ss1 s ss2 r d cl a s' ch' :
    sender_step s ch = (s', ch') ->
    step (Build_World ch (ss1 ++ s :: ss2) r d cl a)
         (Build_World ch' (ss1 ++ s' :: ss2) r d cl (a ++ newly_accepted ch s s'))
| step_begin ch ss d cl a block :
    step (Build_World ch ss RIdle d cl a) (Build_World ch ss (RReady block) d cl a)
| step_ready ch ss block d cl a c ch' :
    ready ch = (Some c, ch') ->
    step (Build_World ch ss (RReady block) d cl a) (Build_World ch' ss RIdle (d ++ [c]) cl a)
| step_not_ready ch ss block d cl a ch' :
    ready ch = (None, ch') ->
    step (Build_World ch ss (RReady block) d cl a) (Build_World ch' ss (RPop block) d cl a)
| step_pop ch ss block d cl a m ch' :
    pop ch = (Some m, ch') ->
    step (Build_World ch ss (RPop block) d cl a)
         (Build_World ch' ss (match m with Ordinary c => RDeliver c | Wake => RReady block end) d cl a)
| step_timeout ch ss d cl a :
    step (Build_World ch ss (RPop false) d cl a) (Build_World ch ss RLast d cl a)
| step_deliver ch ss c d cl a c' ch' :
    deliver c ch = (c', ch') ->
    step (Build_World ch ss (RDeliver c) d cl a) (Build_World ch' ss RIdle (d ++ [c']) cl a)
| step_last ch ss d cl a o ch' :
    terminal ch = (o, ch') ->
    step (Build_World ch ss RLast d cl a) (Build_World ch' ss RIdle (d ++ option_list o) cl a)
| step_claim ch ss d cl a b ch' :
    claim_terminal ch = (b, ch') ->
    step (Build_World ch ss RIdle d cl a) (Build_World ch' ss RIdle d (cl ++ [b]) a)
(** [Drop] of the receiver: the flag first, then the queue's end *)
| step_drop ch ss d cl a :
    step (Build_World ch ss RIdle d cl a)
         (Build_World (Build_Channel (queue ch) (terminal_bits ch) (decision ch) false (connected ch) (deferred ch)) ss RDropping d cl a)
| step_disconnect ch ss d cl a :
    step (Build_World ch ss RDropping d cl a)
         (Build_World (Build_Channel (queue ch) (terminal_bits ch) (decision ch) (alive ch) false (deferred ch)) ss RDropped d cl a).

Definition world_init : World := Build_World control_channel [] RIdle [] [] [].
Definition reachable (w : World) : Prop := clos_refl_trans_1n _ step world_init w.

(** ** The bits *)

Lemma requested_claim d : requested (Z.lor d TERMINAL_COMMITTED) = requested d.
Proof. unfold requested. by rewrite Z.land_lor_distr_l, Z.lor_0_r. Qed.
Lemma committed_claim d : committed (Z.lor d TERMINAL_COMMITTED) = true.
Proof.
  unfold committed. rewrite Z.land_lor_distr_l. destruct (Z.eqb_spec (Z.lor (Z.land d TERMINAL_COMMITTED)
    (Z.land TERMINAL_COMMITTED TERMINAL_COMMITTED)) 0) as [H|]; [|done]. by apply Z.lor_eq_0_iff in H as [_ H].
Qed.
Lemma requested_request d : requested (Z.lor d STOP_REQUESTED) = true.
Proof.
  unfold requested. rewrite Z.land_lor_distr_l. destruct (Z.eqb_spec (Z.lor (Z.land d STOP_REQUESTED)
    (Z.land STOP_REQUESTED STOP_REQUESTED)) 0) as [H|]; [|done]. by apply Z.lor_eq_0_iff in H as [_ H].
Qed.
Lemma committed_request d : committed (Z.lor d STOP_REQUESTED) = committed d.
Proof. unfold committed. by rewrite Z.land_lor_distr_l, Z.lor_0_r. Qed.
Lemma published t b : b <> 0 -> Z.lor t b <> 0.
Proof. intros Hb H. by apply Z.lor_eq_0_iff in H as [_ H]. Qed.

(** ** The invariant *)

Definition sender_ok (d : Z) (s : Sender) : Prop :=
  match s with
  | SRequest c => is_terminal c = true
  | SPublish c | SSend c Wake => is_terminal c = true /\ requested d = true
  | SSend c (Ordinary c') => c' = c /\ is_terminal c = false
  | SDone c code => code = 0 -> is_terminal c = true -> requested d = true
  | SCheckAlive _ | SCheckDecision _ => True
  end.

Definition ordinary_of (m : ControlMessage) : list ServiceControl := match m with Ordinary c => [c] | Wake => [] end.
Definition in_flight (r : Receiver) : list ServiceControl := match r with RDeliver c => [c] | _ => [] end.
Definition is_ordinary (c : ServiceControl) : bool := negb (is_terminal c).

(** Every ordinary control the receiver will still deliver, in order. *)
Definition outstanding (ch : Channel) (r : Receiver) : list ServiceControl :=
  option_list (deferred ch) ++ in_flight r ++ concat (map ordinary_of (queue ch)).

(** The receiver waits for a message and there is none. *)
Definition waiting (w : World) : Prop := exists block, receiver w = RPop block /\ queue (channel w) = [].

Record Inv (w : World) : Prop := {
  inv_claims : forall b, In b (claims w) -> b = requested (decision (channel w)) /\ committed (decision (channel w)) = true;
  inv_senders : Forall (sender_ok (decision (channel w))) (senders w);
  inv_bits : terminal_bits (channel w) <> 0 -> requested (decision (channel w)) = true;
  inv_delivered : Forall (fun c => is_terminal c = true -> requested (decision (channel w)) = true) (delivered w);
  inv_accepted : accepted w = List.filter is_ordinary (delivered w) ++ outstanding (channel w) (receiver w);
  inv_ordinary : Forall (fun c => is_terminal c = false) (outstanding (channel w) (receiver w));
  inv_deferred : match receiver w with RPop _ | RDeliver _ | RLast => deferred (channel w) = None | _ => True end;
  inv_connected : connected (channel w) = false -> receiver w = RDropped;
  inv_length : (List.length (queue (channel w)) <= CAPACITY)%nat;
  inv_wake : terminal_bits (channel w) <> 0 -> waiting w -> exists c, In (SSend c Wake) (senders w) }.

Lemma sender_ok_mono d d' s : (requested d = true -> requested d' = true) -> sender_ok d s -> sender_ok d' s.
Proof. intros H. destruct s as [| | | |c [c'|]|]; cbn; naive_solver. Qed.
Lemma senders_ok_mono d d' ss :
  (requested d = true -> requested d' = true) -> Forall (sender_ok d) ss -> Forall (sender_ok d') ss.
Proof. intros H Hs. eapply Forall_impl; [exact Hs|]. intros s. by apply sender_ok_mono. Qed.
Lemma start_dispatch_ok d c : sender_ok d (start_dispatch c).
Proof. by destruct c. Qed.

(** What one access of a handler changes. *)
Lemma sender_step_spec s ch s' ch' :
  sender_step s ch = (s', ch') -> sender_ok (decision ch) s ->
  sender_ok (decision ch') s'
  /\ (requested (decision ch) = true -> requested (decision ch') = true)
  /\ (committed (decision ch) = true -> decision ch' = decision ch)
  /\ deferred ch' = deferred ch /\ connected ch' = connected ch
  /\ concat (map ordinary_of (queue ch')) = concat (map ordinary_of (queue ch)) ++ newly_accepted ch s s'
  /\ Forall (fun c => is_terminal c = false) (newly_accepted ch s s')
  /\ ((List.length (queue ch) <= CAPACITY)%nat -> (List.length (queue ch') <= CAPACITY)%nat)
  /\ (terminal_bits ch' <> 0 -> terminal_bits ch <> 0 \/ requested (decision ch') = true)
  /\ (terminal_bits ch' <> 0 -> queue ch' = [] -> connected ch' = true ->
        (exists c, s' = SSend c Wake) \/ (terminal_bits ch <> 0 /\ queue ch = [] /\ forall c, s <> SSend c Wake)).
Proof.
  intros E Hs. destruct s as [c|c|c|c|c m|c code]; cbn in E.
  - destruct (alive ch); injection E as <- <-; cbn; rewrite ?app_nil_r; naive_solver.
  - destruct (committed (decision ch)); [|destruct (is_terminal c) eqn:Ec]; injection E as <- <-; cbn;
      rewrite ?app_nil_r; naive_solver.
  - destruct (committed (decision ch)) eqn:Ed; injection E as <- <-; cbn; rewrite ?app_nil_r, ?requested_request;
      naive_solver.
  - injection E as <- <-. cbn in *. rewrite app_nil_r. destruct Hs as [Hc Hr]. rewrite Hr.
    naive_solver.
  - unfold try_send in E. destruct (connected ch) eqn:Ec; cbn [negb] in E;
      [|injection E as <- <-; cbn; rewrite ?Ec; destruct m; cbn; rewrite ?app_nil_r; repeat split; try done; by left].
    destruct (Nat.ltb_spec (List.length (queue ch)) CAPACITY) as [Hl|Hl]; injection E as <- <-; cbn.
    + assert (Hq : queue ch ++ [m] <> []) by (by destruct (queue ch)).
      rewrite map_app, concat_app, length_app. destruct m as [c'|]; cbn in *; destruct Hs as [? ?]; subst;
        rewrite ?app_nil_r; (repeat split); try done; try lia; try (by left); repeat constructor; try congruence.
    + assert (queue ch <> []) by (intros E; rewrite E in Hl; cbn in Hl; unfold CAPACITY in Hl; lia).
      destruct m as [c'|]; cbn in *; destruct Hs as [? ?]; subst;
        rewrite ?app_nil_r; (repeat split); try done; try lia; try (by left); repeat constructor; try congruence.
  - injection E as <- <-. rewrite app_nil_r. naive_solver.
Qed.

(** What the accesses of the receiver change. *)
Lemma terminal_spec ch o ch' :
  terminal ch = (o, ch') ->
  ch' = set_terminal 0 ch
  /\ match o with Some c => is_terminal c = true /\ terminal_bits ch <> 0 | None => terminal_bits ch = 0 end.
Proof.
  intros [= <- <-]. split; [done|]. destruct (Z.eqb_spec (terminal_bits ch) 0); [done|].
  by destruct (negb _).
Qed.

Lemma ready_spec ch o ch' :
  ready ch = (o, ch') ->
  (exists c, o = Some c /\ is_terminal c = true /\ terminal_bits ch <> 0 /\ ch' = set_terminal 0 ch)
  \/ (terminal_bits ch = 0 /\ o = deferred ch /\ ch' = set_deferred None (set_terminal 0 ch)).
Proof.
  unfold ready. destruct (terminal ch) as [[c|] ch1] eqn:E; apply terminal_spec in E as [-> H]; intros [= <- <-].
  - left. exists c. naive_solver.
  - by right.
Qed.

Lemma deliver_spec c ch c' ch' :
  deliver c ch = (c', ch') ->
  (is_terminal c' = true /\ terminal_bits ch <> 0 /\ ch' = set_deferred (Some c) (set_terminal 0 ch))
  \/ (terminal_bits ch = 0 /\ c' = c /\ ch' = set_terminal 0 ch).
Proof.
  unfold deliver. destruct (terminal ch) as [[t|] ch1] eqn:E; apply terminal_spec in E as [-> H]; intros [= <- <-].
  - left. naive_solver.
  - by right.
Qed.

Lemma filter_ordinary_app l c :
  List.filter is_ordinary (l ++ [c]) = List.filter is_ordinary l ++ (if is_terminal c then [] else [c]).
Proof. rewrite List.filter_app. cbn. unfold is_ordinary. by destruct (is_terminal c). Qed.

Lemma inv_init : Inv world_init.
Proof. split; cbn; try done; try (by constructor); try lia. Qed.

Lemma inv_step_sender ch ss1 s ss2 r d cl a s' ch' :
  sender_step s ch = (s', ch') -> Inv (Build_World ch (ss1 ++ s :: ss2) r d cl a) ->
  Inv (Build_World ch' (ss1 ++ s' :: ss2) r d cl (a ++ newly_accepted ch s s')).
Proof.
  intros E [Hc Hs Hb Hd Ha Ho Hf Hcon Hl Hw]. cbn in *.
  apply Forall_app in Hs as [Hs1 Hs2]. apply Forall_cons in Hs2 as [Hs0 Hs3].
  destruct (sender_step_spec _ _ _ _ E Hs0) as (P1 & P2 & P3 & P4 & P5 & P6 & P7 & P8 & P9 & P10).
  assert (Hout : outstanding ch' r = outstanding ch r ++ newly_accepted ch s s').
  { unfold outstanding. by rewrite P4, P6, !app_assoc. }
  split; cbn.
  - intros b Hin. destruct (Hc b Hin) as [-> Hcm]. rewrite (P3 Hcm). by split.
  - apply Forall_app. split; [by eapply senders_ok_mono|]. constructor; [done|]. by eapply senders_ok_mono.
  - intros H. destruct (P9 H) as [H0|H0]; auto.
  - eapply Forall_impl; [exact Hd|]. auto.
  - by rewrite Ha, Hout, app_assoc.
  - rewrite Hout. apply Forall_app. by split.
  - by rewrite P4.
  - by rewrite P5.
  - by apply P8.
  - intros H (block & Er & Eq). cbn in *. subst r.
    destruct (connected ch) eqn:Ec; [|by specialize (Hcon eq_refl)].
    destruct (P10 H Eq P5) as [[c ->]|(H1 & H2 & H3)].
    + exists c. apply in_or_app. right. by left.
    + destruct Hw as [c Hin]; [done|by exists block|]. exists c. apply in_app_or in Hin. apply in_or_app.
      destruct Hin as [Hin|[Hin|Hin]]; [by left|by apply H3 in Hin|by right; right].
Qed.

Lemma world_inv_step w w' : step w w' -> Inv w -> Inv w'.
Proof.
  intros Hst HI. destruct Hst as [ch ss r d cl a c|ch ss1 s ss2 r d cl a s' ch' E|ch ss d cl a block
    |ch ss block d cl a c ch' E|ch ss block d cl a ch' E|ch ss block d cl a m ch' E|ch ss d cl a|ch ss c d cl a c' ch' E
    |ch ss d cl a o ch' E|ch ss d cl a b ch' E|ch ss d cl a|ch ss d cl a]; [|by eapply inv_step_sender|..];
    destruct HI as [Hc Hs Hb Hd Ha Ho Hf Hcon Hl Hw]; cbn in *.
  - split; cbn; try done; [apply Forall_app; split; [done|]; constructor; [apply start_dispatch_ok|constructor]|].
    intros H Hwait. destruct (Hw H Hwait) as [c' Hin]. exists c'. apply in_or_app. by left.
  - split; cbn; try done; [intros H; by apply Hcon in H|by intros _ (b & [=] & _)].
  - apply ready_spec in E as [(c0 & [= <-] & Hct & Ht & ->)|(Ht & Ed & ->)].
    + split; cbn; try done; [|..|intros H; by apply Hcon in H].
      * apply Forall_app. split; [done|]. constructor; [by auto|constructor].
      * rewrite Ha, filter_ordinary_app, Hct, app_nil_r. done.
    + unfold outstanding in *. rewrite <- Ed in *. cbn in *. apply Forall_cons in Ho as [H1 Ho]. split; cbn; try done.
      * apply Forall_app. split; [done|]. constructor; [congruence|constructor].
      * rewrite Ha, filter_ordinary_app. rewrite H1. by rewrite <- app_assoc.
      * intros H; by apply Hcon in H.
  - apply ready_spec in E as [(c0 & [=] & _)|(Ht & Ed & ->)].
    unfold outstanding in *. rewrite <- Ed in *. split; cbn; try done. intros H; by apply Hcon in H.
  - unfold pop in E. destruct (queue ch) as [|m' q] eqn:Eq; [done|]. injection E as <- <-.
    unfold outstanding in *. cbn in *. rewrite Hf, Eq in *. cbn in *.
    destruct m' as [c|]; split; cbn; try done; try (intros H; by apply Hcon in H); try lia;
      try (intros _ (b & [=] & _)); unfold outstanding; cbn; by rewrite Hf.
  - split; cbn; try done; [intros H; by apply Hcon in H|by intros _ (b & [=] & _)].
  - unfold outstanding in *. cbn in *. rewrite Hf in *. cbn in *. apply Forall_cons in Ho as [H1 Ho].
    apply deliver_spec in E as [(Hct & Ht & ->)|(Ht & -> & ->)]; split; unfold outstanding; cbn; rewrite ?Hf; cbn;
      try done; try (intros H; by apply Hcon in H).
    + apply Forall_app. split; [done|]. constructor; [by auto|constructor].
    + by rewrite Ha, filter_ordinary_app, Hct, app_nil_r.
    + by constructor.
    + apply Forall_app. split; [done|]. constructor; [congruence|constructor].
    + by rewrite Ha, filter_ordinary_app, H1, <- app_assoc.
  - unfold outstanding in *. cbn in *. apply terminal_spec in E as [-> H].
    destruct o as [c|]; cbn; rewrite ?app_nil_r; split; cbn; try done; try (intros H'; by apply Hcon in H').
    + apply Forall_app. split; [done|]. constructor; [by intros _; apply Hb, H|constructor].
    + destruct H as [H _]. by rewrite Ha, filter_ordinary_app, H, app_nil_r.
  - injection E as <- <-. split; cbn; rewrite ?requested_claim; try done.
    + intros b [Hin|[<-|[]]]%in_app_or; split; try apply committed_claim; [|done].
      destruct (Hc b Hin) as [-> _]. done.
    + eapply senders_ok_mono; [|exact Hs]. by rewrite requested_claim.
  - split; cbn; try done; [intros H; by apply Hcon in H|by intros _ (b & [=] & _)].
  - split; cbn; try done. by intros _ (b & [=] & _).
Qed.

Lemma reachable_inv w : reachable w -> Inv w.
Proof.
  unfold reachable. assert (H : forall u v, clos_refl_trans_1n _ step u v -> Inv u -> Inv v).
  { induction 1 as [|u v x H1 _ IH]; [done|]. intros HI. apply IH. by eapply world_inv_step. }
  intros Hr. eapply H; [exact Hr|]. apply inv_init.
Qed.

(** A Stop or Shutdown that has been published. *)
Definition past_publish (s : Sender) : Prop :=
  match s with SSend _ Wake => True | SDone c code => code = 0 /\ is_terminal c = true | _ => False end.
Definition stop_arrives (w : World) : Prop :=
  Exists past_publish (senders w) -> terminal_bits (channel w) <> 0 \/ Exists (fun c => is_terminal c = true) (delivered w).

Lemma sender_step_publish s ch s' ch' :
  sender_step s ch = (s', ch') -> sender_ok (decision ch) s ->
  (terminal_bits ch <> 0 -> terminal_bits ch' <> 0) /\ (past_publish s' -> past_publish s \/ terminal_bits ch' <> 0).
Proof.
  intros E Hs. destruct s as [c|c|c|c|c m|c code]; cbn in E.
  - destruct (alive ch); injection E as <- <-; split; try done; intros []; discriminate.
  - destruct (committed (decision ch)); [|destruct (is_terminal c)]; injection E as <- <-; split; try done; intros []; discriminate.
  - destruct (committed (decision ch)); injection E as <- <-; split; try done; intros []; discriminate.
  - injection E as <- <-. cbn. split; [intros H Hz; by apply Z.lor_eq_0_iff in Hz as [Hz _]|]. intros _. right.
    apply published. by destruct c.
  - unfold try_send in E. destruct (connected ch); cbn [negb] in E; [destruct (_ <? _)%nat|]; injection E as <- <-; (split; [done|]);
      cbn; intros [H1 H2]; destruct m as [c'|]; try (by left); destruct Hs as [_ Hs]; congruence.
  - injection E as <- <-. split; [done|]. by left.
Qed.

Lemma exists_snoc {A} (P : A -> Prop) l x : Exists P l -> Exists P (l ++ [x]).
Proof. intros H. apply Exists_app. by left. Qed.

Lemma stop_arrives_step w w' : step w w' -> Inv w -> stop_arrives w -> stop_arrives w'.
Proof.
  unfold stop_arrives. intros Hst HI. destruct Hst as [ch ss r d cl a c|ch ss1 s ss2 r d cl a s' ch' E|ch ss d cl a block
    |ch ss block d cl a c ch' E|ch ss block d cl a ch' E|ch ss block d cl a m ch' E|ch ss d cl a|ch ss c d cl a c' ch' E
    |ch ss d cl a o ch' E|ch ss d cl a b ch' E|ch ss d cl a|ch ss d cl a]; cbn; try done.
  - intros IH [H|H]%Exists_app; [by apply IH|]. apply Exists_cons in H as [H|H]; [|by inversion H].
    exfalso. destruct c; cbn in H; try done. by destruct H.
  - intros IH H. pose proof (inv_senders _ HI) as Hs. cbn in Hs. apply Forall_app in Hs as [_ Hs].
    apply Forall_cons in Hs as [Hs _]. destruct (sender_step_publish _ _ _ _ E Hs) as [P1 P2].
    assert (Exists past_publish (ss1 ++ s :: ss2) \/ terminal_bits ch' <> 0) as [H'|H']; [|destruct (IH H'); auto|by left].
    apply Exists_app in H as [H|H]; [left; apply Exists_app; by left|]. apply Exists_cons in H as [H|H].
    + destruct (P2 H) as [H'|H']; [|by right]. left. apply Exists_app. right. by left.
    + left. apply Exists_app. right. by right.
  - intros IH H. apply ready_spec in E as [(c0 & [= <-] & Hc & _)|(Ht & _ & _)].
    + right. apply Exists_app. right. by left.
    + right. apply exists_snoc. by destruct (IH H).
  - intros IH H. apply ready_spec in E as [(c0 & [=] & _)|(Ht & _ & ->)]. right. by destruct (IH H).
  - unfold pop in E. by destruct (queue ch); [|injection E as <- <-].
  - intros IH H. apply deliver_spec in E as [(Hc & _)|(Ht & _ & _)].
    + right. apply Exists_app. right. by left.
    + right. apply exists_snoc. by destruct (IH H).
  - intros IH H. apply terminal_spec in E as [_ E]. destruct o as [c|]; right; apply Exists_app.
    + right. left. apply E.
    + left. by destruct (IH H).
  - by injection E as <- <-.
Qed.

Lemma reachable_arrives w : reachable w -> Inv w /\ stop_arrives w.
Proof.
  unfold reachable. assert (H : forall u v, clos_refl_trans_1n _ step u v -> Inv u /\ stop_arrives u -> Inv v /\ stop_arrives v).
  { induction 1 as [|u v x H1 _ IH]; [done|]. intros [HI HS]. apply IH. split; [by eapply world_inv_step|by eapply stop_arrives_step]. }
  intros Hr. eapply H; [exact Hr|]. split; [apply inv_init|]. intros H'. by inversion H'.
Qed.

(** ** What the channel promises *)

(** C4. Between an accepted Stop or Shutdown and the commitment to the end of
    the service there is exactly one winner, in every interleaving of any number
    of handler calls with the main thread: all claims agree, and they say
    whether a stop was requested; a handler call that returned success for a Stop
    or Shutdown means that it was, so no claim ever said otherwise; and the main
    thread receives a Stop or Shutdown only if one was requested. *)
Theorem terminal_claim_one_winner w :
  reachable w ->
  (forall b, In b (claims w) -> b = stop_requested (channel w))
  /\ (forall c, In (SDone c 0) (senders w) -> is_terminal c = true ->
        stop_requested (channel w) = true /\ ~ In false (claims w))
  /\ (forall c, In c (delivered w) -> is_terminal c = true -> stop_requested (channel w) = true).
Proof.
  intros Hr. destruct (reachable_inv w Hr) as [Hc Hs _ Hd _ _ _ _ _ _].
  split; [intros b Hin; by apply Hc|]. split.
  - intros c Hin Ht. rewrite List.Forall_forall in Hs. pose proof (Hs _ Hin eq_refl Ht) as H. split; [exact H|].
    intros Hf. destruct (Hc _ Hf) as [E _]. congruence.
  - intros c Hin Ht. rewrite List.Forall_forall in Hd. exact (Hd _ Hin Ht).
Qed.

(** No ordinary control is lost, invented or reordered: those accepted by
    the handler, in the order of acceptance, are those delivered, followed by the
    one set aside for a Stop, the one in the receiver's hands and those queued;
    and at most eight wait in the queue. *)
Theorem controls_conserved w :
  reachable w ->
  accepted w = List.filter is_ordinary (delivered w) ++ outstanding (channel w) (receiver w)
  /\ (List.length (queue (channel w)) <= CAPACITY)%nat
  /\ Forall (fun c => is_terminal c = false) (accepted w).
Proof.
  intros Hr. destruct (reachable_inv w Hr) as [_ _ _ _ Ha Ho _ _ Hl _]. split; [exact Ha|]. split; [exact Hl|].
  rewrite Ha. apply Forall_app. split; [|exact Ho]. apply List.Forall_forall. intros c Hin.
  apply List.filter_In in Hin as [_ H]. by apply negb_true_iff in H.
Qed.

(** C13. An accepted Stop or Shutdown reaches the main thread: unless one was
    delivered already, whatever the receiver looks at next returns it, ahead of
    every ordinary control; and the receiver is not left waiting on an empty
    queue, or a handler call is about to put the message that wakes it there. *)
Theorem accepted_stop_arrives w c :
  reachable w -> In (SDone c 0) (senders w) -> is_terminal c = true ->
  (exists t, In t (delivered w) /\ is_terminal t = true)
  \/ exists t, is_terminal t = true
       /\ (ready (channel w)).1 = Some t /\ (terminal (channel w)).1 = Some t
       /\ (forall c', (deliver c' (channel w)).1 = t)
       /\ (waiting w -> exists c', In (SSend c' Wake) (senders w) /\ queue (try_send c' Wake (channel w)).2 = [Wake]).
Proof.
  intros Hr Hin Ht. destruct (reachable_arrives w Hr) as [HI HS].
  destruct HS as [Hb|He]; [apply List.Exists_exists; by exists (SDone c 0)| |].
  2: { left. apply List.Exists_exists in He. exact He. }
  right. destruct (terminal (channel w)) as [o ch'] eqn:E. pose proof (terminal_spec _ _ _ E) as [-> Ho].
  destruct o as [t|]; [|done]. destruct Ho as [Hterm _]. exists t. unfold ready, deliver. rewrite E.
  split; [exact Hterm|]. split; [done|]. split; [done|]. split; [done|].
  intros Hw. destruct (inv_wake _ HI Hb Hw) as [c' Hc']. exists c'. split; [exact Hc'|].
  destruct Hw as (block & Hrec & Hq). unfold try_send. rewrite Hq.
  destruct (connected (channel w)) eqn:Ec; [done|]. apply (inv_connected _ HI) in Ec. congruence.
Qed.

(** ** Samples *)

(** A schedule, one step of some thread at a time. *)
Inductive Move := MCall (c : ServiceControl) | MSender (i : nat) | MReceive (block : bool) | MNext | MClaim.

Definition exec_receiver (w : World) : option World :=
  let ch := channel w in
  let go ch r d := Some (Build_World ch (senders w) r (delivered w ++ d) (claims w) (accepted w)) in
  match receiver w with
  | RReady block => match ready ch with (Some c, ch) => go ch RIdle [c] | (None, ch) => go ch (RPop block) [] end
  | RPop block =>
      match pop ch with
      | (Some m, ch) => go ch (match m with Ordinary c => RDeliver c | Wake => RReady block end) []
      | (None, _) => if block then None else go ch RLast []
      end
  | RDeliver c => let '(c, ch) := deliver c ch in go ch RIdle [c]
  | RLast => let '(o, ch) := terminal ch in go ch RIdle (option_list o)
  | RIdle | RDropping | RDropped => None
  end.

Definition exec (m : Move) (w : World) : option World :=
  match m with
  | MCall c => Some (Build_World (channel w) (senders w ++ [start_dispatch c]) (receiver w) (delivered w) (claims w) (accepted w))
  | MSender i =>
      match senders w !! i with
      | None => None
      | Some s =>
          let '(s', ch) := sender_step s (channel w) in
          Some (Build_World ch (take i (senders w) ++ s' :: drop (S i) (senders w)) (receiver w) (delivered w) (claims w)
                  (accepted w ++ newly_accepted (channel w) s s'))
      end
  | MReceive block =>
      match receiver w with
      | RIdle => Some (Build_World (channel w) (senders w) (RReady block) (delivered w) (claims w) (accepted w))
      | _ => None
      end
  | MNext => exec_receiver w
  | MClaim =>
      match receiver w with
      | RIdle => let '(b, ch) := claim_terminal (channel w) in
                 Some (Build_World ch (senders w) RIdle (delivered w) (claims w ++ [b]) (accepted w))
      | _ => None
      end
  end.
Fixpoint exec_all (ms : list Move) (w : World) : option World :=
  match ms with [] => Some w | m :: ms => match exec m w with Some w => exec_all ms w | None => None end end.

Lemma exec_receiver_step w w' : exec_receiver w = Some w' -> step w w'.
Proof.
  destruct w as [ch ss r d cl a]. unfold exec_receiver. cbn -[ready pop deliver terminal claim_terminal sender_step]. destruct r as [|b|b|c| | |]; try done.
  - destruct (ready ch) as [[c|] ch'] eqn:E; intros [= <-]; rewrite ?app_nil_r; by constructor.
  - destruct (pop ch) as [[m|] ch'] eqn:E; [intros [= <-]; rewrite ?app_nil_r; by constructor|].
    destruct b; [done|]. intros [= <-]. rewrite app_nil_r. constructor.
  - destruct (deliver c ch) as [c' ch'] eqn:E. intros [= <-]. by econstructor.
  - destruct (terminal ch) as [o ch'] eqn:E. intros [= <-]. by constructor.
Qed.
Lemma exec_step m w w' : exec m w = Some w' -> step w w'.
Proof.
  destruct m as [c|i|b| |]; cbn -[ready pop deliver terminal claim_terminal sender_step].
  - destruct w. intros [= <-]. constructor.
  - destruct w as [ch ss r d cl a]. cbn -[ready pop deliver terminal claim_terminal sender_step]. destruct (ss !! i) as [s|] eqn:Es; [|done].
    destruct (sender_step s ch) as [s' ch'] eqn:E. intros [= <-].
    pose proof (take_drop_middle ss i s Es) as Hss. rewrite <- Hss at 1. by constructor.
  - destruct w as [ch ss r d cl a]. cbn -[ready pop deliver terminal claim_terminal sender_step]. destruct r; try done. intros [= <-]. constructor.
  - apply exec_receiver_step.
  - destruct w as [ch ss r d cl a]. cbn -[ready pop deliver terminal claim_terminal sender_step]. destruct r; try done.
    destruct (claim_terminal ch) as [b ch'] eqn:E. intros [= <-]. by constructor.
Qed.
Lemma exec_all_steps ms w w' : exec_all ms w = Some w' -> clos_refl_trans_1n _ step w w'.
Proof.
  revert w. induction ms as [|m ms IH]; intros w; cbn; [intros [= <-]; constructor|].
  destruct (exec m w) as [w1|] eqn:E; [|done]. intros H. apply exec_step in E. eapply Relation_Operators.rt1n_trans; [exact E|by apply IH].
Qed.

Definition run_moves (ms : list Move) : World := unwrap_or world_init (exec_all ms world_init).
Lemma run_moves_reachable ms : is_some (exec_all ms world_init) = true -> reachable (run_moves ms).
Proof.
  unfold run_moves, reachable. destruct (exec_all ms world_init) as [w|] eqn:E; [|done]. intros _. by eapply exec_all_steps.
Qed.

(** A Stop wins against the claim; a Stop after the claim is refused. *)
Definition stop_call (i : nat) : list Move := [MCall CStop; MSender i; MSender i; MSender i; MSender i; MSender i].

Lemma terminal_claim_one_winner_witness :
  (let w := run_moves (stop_call 0 ++ [MClaim]) in stop_requested (channel w) = true /\ ~ In false (claims w))
  /\ senders (run_moves ([MClaim] ++ stop_call 0)) = [SDone CStop ERROR_SERVICE_NOT_ACTIVE].
Proof.
  split; [|vm_compute; reflexivity].
  refine (proj1 (proj2 (terminal_claim_one_winner _ (run_moves_reachable _ _))) CStop _ _); try reflexivity.
  vm_compute. by left.
Defined.

(** A Pause is taken from the queue while a Stop arrives: it is set aside. *)
Definition pause_then_stop : list Move :=
  [MCall CPause; MSender 0; MSender 0; MSender 0; MReceive true; MNext; MNext] ++ stop_call 1 ++ [MNext].

Lemma controls_conserved_witness :
  let w := run_moves pause_then_stop in
  deferred (channel w) = Some CPause /\ delivered w = [CStop]
  /\ accepted w = List.filter is_ordinary (delivered w) ++ outstanding (channel w) (receiver w).
Proof.
  split; [vm_compute; reflexivity|]. split; [vm_compute; reflexivity|].
  exact (proj1 (controls_conserved _ (run_moves_reachable pause_then_stop eq_refl))).
Defined.

(** The receiver waits on an empty queue when the Stop comes. *)
Lemma accepted_stop_arrives_witness :
  let w := run_moves ([MReceive true; MNext] ++ stop_call 0) in
  (ready (channel w)).1 = Some CStop
  /\ ((exists t, In t (delivered w) /\ is_terminal t = true)
      \/ exists t, is_terminal t = true /\ (ready (channel w)).1 = Some t).
Proof.
  split; [vm_compute; reflexivity|].
  destruct (accepted_stop_arrives (run_moves ([MReceive true; MNext] ++ stop_call 0)) CStop) as [H|(t & H1 & H2 & _)].
  - apply run_moves_reachable. reflexivity.
  - vm_compute. by left.
  - reflexivity.
  - by left.
  - right. by exists t.
Defined.
