(* ===== verification/Runner.v ===== *)
(** * The service host: servicemanager-runner [lib.rs]

    The bridge between the SCM and the supervisor thread: a polling loop that
    forwards controls, reports the service's status with checkpoints, and turns
    the end of the supervisor into the end of the service. Its locals are a
    record; the SCM, the supervisor's signals, its thread and the clock are
    calls. Times are in nanoseconds. *)

From Stdlib Require Import ZArith Lia List.
From S2P Require Import Prelude Text BTree Model Effects Transition LaunchEnv Supervisor Runtime.

Definition SUICIDE_FALLBACK_EXIT_CODE : Z := 1.
Definition SUPERVISOR_ERROR_EXIT_CODE : Z := 2.
Definition SERVICE_CONTROL_ROTATE : Z := 174.

(** The code of an [ExitReason] is an i32; a positive one keeps its value as a u32. *)
Definition service_exit_code_for (reason : ExitReason) : Z :=
  match reason with
  | ReasonStopped | ReasonChildExited => 0
  | ReasonSpawnFailed => SUPERVISOR_ERROR_EXIT_CODE
  | ReasonSuicide code => if 0 <? code then code else SUICIDE_FALLBACK_EXIT_CODE
  end.

Inductive Terminal := TStopped (code : Z) | TCrash (code : Z).

Definition terminal_for (reason : result unit ExitReason) (explicit_stop : bool) : Terminal :=
  if explicit_stop then TStopped 0
  else
    match reason with
    | Ok (ReasonSuicide c) => TCrash (service_exit_code_for (ReasonSuicide c))
    | Ok r => TStopped (service_exit_code_for r)
    | Err _ => TStopped SUPERVISOR_ERROR_EXIT_CODE
    end.

Inductive Status :=
| StStartPending | StRunning | StPausePending | StPaused | StContinuePending | StStopPending | StStopped (code : Z).
#[export] Instance Status_eq_dec : EqDecision Status.
Proof. solve_decision. Defined.

Record Timing := { poll : Z; checkpoint_every : Z; startup : Z; transition : Z; stop_budget : Z }.
Definition Timing_default : Timing := {|
  poll := ms 250; checkpoint_every := secs 2; startup := secs 60; transition := secs 15; stop_budget := secs 120 |}.

(** [Context::report] of a [ServiceContext], with its wait hints. *)
Definition context_report (SetServiceStatus : Z -> SERVICE_STATUS -> result Error unit) (status : Status) (i : ContextInner)
    : result Error unit * ContextInner :=
  match status with
  | StStartPending => report_start_pending SetServiceStatus 6000 i
  | StRunning => report_running SetServiceStatus i
  | StPausePending => report_pause_pending SetServiceStatus 20000 i
  | StPaused => report_paused SetServiceStatus i
  | StContinuePending => report_continue_pending SetServiceStatus 20000 i
  | StStopPending => report_stop_pending SetServiceStatus 8000 i
  | StStopped code => report_stopped SetServiceStatus code i
  end.

(** ** Calls *)

Inductive Polled := PControl (c : ServiceControl) | PNothing | PDisconnected.
(** [JoinHandle::join] of the supervisor thread *)
Inductive Joined := JReturned (r : result SupervisorError ExitReason) | JPanicked.
Inductive DiagMessage :=
| DText (t : rstr) | DStatus (s : Status) (e : Error) | DOutcome (o : TransitionOutcome) | DFailStop (e : rstr)
| DSupervisor (e : SupervisorError) | DHostExit (code : Z) | DStartup (e : Error) | DConsole (e : Error).

Inductive RunE : Type -> Type :=
| CtxTryRecv : RunE Polled
| CtxRecvTimeout (ns : Z) : RunE Polled
| CtxReport (s : Status) : RunE (result Error unit)
| CtxStopRequested : RunE bool
| CtxClaimTerminal : RunE bool
| CtxNow : RunE Z
| TerminalIsReady : RunE bool
| TerminalRelease : RunE unit
| SignalStop : RunE unit
| SignalRotate : RunE unit
| SignalPower (event : Z) : RunE unit
| RequestPause (pause : bool) : RunE Z
| CancelPending (request : Z) : RunE unit
| PendingOutcome (request : Z) : RunE (option TransitionOutcome)
| HandleFinished : RunE bool
| HandleJoin : RunE Joined
| StartupTryRecv : RunE (option StartupStatus)
| Diagnose (operation : rstr) (m : DiagMessage) : RunE unit
| DiagFlush (ns : Z) : RunE unit
| EnsureConsole : RunE (result Error unit)
| ReadManagedConfig (name : rstr) : RunE (result Error (option ManagedApplicationConfig))
| SpawnSupervisor (name : rstr) (c : ManagedApplicationConfig) : RunE unit
| TerminateProcess (code : Z) : RunE unit.

(** The calls themselves cannot fail; what may go wrong is in their answers. *)
Abbreviation RunProg A := (Prog RunE Empty_set A) (only parsing).
Abbreviation RunEvent := (Event RunE Empty_set) (only parsing).

(** ** The locals of [bridge] *)

Record Pending := { p_request : Z; p_pause : bool; p_started : Z }.

Record Bridge := {
  b_started : Z;
  b_checkpoint : Z;
  b_running : bool;
  b_paused : bool;
  b_stopping : option Z;
  b_explicit_stop : bool;
  b_failure_code : option Z;
  b_pending : option Pending;
  b_deferred : option bool;
  b_first_control : option ServiceControl;
  b_terminal_claimed : bool }.

Record BridgeExit := { be_terminal : Terminal; be_force_exit : bool }.

(** Assignments to a local. *)
Definition put_checkpoint (x : Z) (b : Bridge) : Bridge :=
  Build_Bridge (b_started b) x (b_running b) (b_paused b) (b_stopping b) (b_explicit_stop b)
    (b_failure_code b) (b_pending b) (b_deferred b) (b_first_control b) (b_terminal_claimed b).
Definition put_running (x : bool) (b : Bridge) : Bridge :=
  Build_Bridge (b_started b) (b_checkpoint b) x (b_paused b) (b_stopping b) (b_explicit_stop b)
    (b_failure_code b) (b_pending b) (b_deferred b) (b_first_control b) (b_terminal_claimed b).
Definition put_paused (x : bool) (b : Bridge) : Bridge :=
  Build_Bridge (b_started b) (b_checkpoint b) (b_running b) x (b_stopping b) (b_explicit_stop b)
    (b_failure_code b) (b_pending b) (b_deferred b) (b_first_control b) (b_terminal_claimed b).
Definition put_stopping (x : option Z) (b : Bridge) : Bridge :=
  Build_Bridge (b_started b) (b_checkpoint b) (b_running b) (b_paused b) x (b_explicit_stop b)
    (b_failure_code b) (b_pending b) (b_deferred b) (b_first_control b) (b_terminal_claimed b).
Definition put_explicit_stop (x : bool) (b : Bridge) : Bridge :=
  Build_Bridge (b_started b) (b_checkpoint b) (b_running b) (b_paused b) (b_stopping b) x
    (b_failure_code b) (b_pending b) (b_deferred b) (b_first_control b) (b_terminal_claimed b).
Definition put_failure_code (x : option Z) (b : Bridge) : Bridge :=
  Build_Bridge (b_started b) (b_checkpoint b) (b_running b) (b_paused b) (b_stopping b)
    (b_explicit_stop b) x (b_pending b) (b_deferred b) (b_first_control b) (b_terminal_claimed b).
Definition put_pending (x : option Pending) (b : Bridge) : Bridge :=
  Build_Bridge (b_started b) (b_checkpoint b) (b_running b) (b_paused b) (b_stopping b)
    (b_explicit_stop b) (b_failure_code b) x (b_deferred b) (b_first_control b) (b_terminal_claimed
    b).
Definition put_deferred (x : option bool) (b : Bridge) : Bridge :=
  Build_Bridge (b_started b) (b_checkpoint b) (b_running b) (b_paused b) (b_stopping b)
    (b_explicit_stop b) (b_failure_code b) (b_pending b) x (b_first_control b) (b_terminal_claimed
    b).
Definition put_first_control (x : option ServiceControl) (b : Bridge) : Bridge :=
  Build_Bridge (b_started b) (b_checkpoint b) (b_running b) (b_paused b) (b_stopping b)
    (b_explicit_stop b) (b_failure_code b) (b_pending b) (b_deferred b) x (b_terminal_claimed b).
Definition put_terminal_claimed (x : bool) (b : Bridge) : Bridge :=
  Build_Bridge (b_started b) (b_checkpoint b) (b_running b) (b_paused b) (b_stopping b)
    (b_explicit_stop b) (b_failure_code b) (b_pending b) (b_deferred b) (b_first_control b) x.

(** ** One round *)

Definition now : RunProg Z := perform CtxNow.

Definition report (status : Status) : RunProg unit :=
  let@ r := perform (CtxReport status) in
  match r with
  | Ok _ => PRet (Ok tt)
  | Err e => perform (Diagnose &"SCM status" (DStatus status e))
  end.

(** [report], and [checkpoint = context.now()] *)
Definition report_checkpoint (status : Status) (b : Bridge) : RunProg Bridge :=
  report status ;@ let@ t := now in PRet (Ok (put_checkpoint t b)).

(** The controls that are waiting, at most 32. *)
Fixpoint poll_controls (n : nat) (controls : list ServiceControl) (b : Bridge) : RunProg (list ServiceControl * Bridge) :=
  match n with
  | O => PRet (Ok (controls, b))
  | S n =>
      let@ p := perform CtxTryRecv in
      match p with
      | PControl c => poll_controls n (controls ++ [c]) b
      | PNothing => PRet (Ok (controls, b))
      | PDisconnected => PRet (Ok (controls, put_explicit_stop true b))
      end
  end.
Definition collect_controls (b : Bridge) : RunProg (list ServiceControl * Bridge) :=
  poll_controls 32 (option_list (b_first_control b)) (put_first_control None b).

Definition note_stop (controls : list ServiceControl) (b : Bridge) : RunProg Bridge :=
  let@ requested := perform CtxStopRequested in
  PRet (Ok (put_explicit_stop (b_explicit_stop b || (requested || existsb is_terminal controls)) b)).

(** [if let Some(pending) = pending.take() { pending.request.cancel(); }] and
    [deferred = None] *)
Definition drop_requests (b : Bridge) : RunProg Bridge :=
  match b_pending b with
  | Some p => perform (CancelPending (p_request p))
  | None => PRet (Ok tt)
  end ;@ PRet (Ok (put_deferred None (put_pending None b))).

(** The supervisor is about to return: commit, or let the accepted stop win. *)
Definition claim_phase (b : Bridge) : RunProg Bridge :=
  if b_terminal_claimed b then PRet (Ok b)
  else
    let@ is_ready := perform TerminalIsReady in
    if negb is_ready then PRet (Ok b)
    else
      let@ claimed := perform CtxClaimTerminal in
      let b := put_explicit_stop (b_explicit_stop b || claimed) b in
      (if b_explicit_stop b then perform SignalStop else PRet (Ok tt)) ;@
      perform TerminalRelease ;@
      let@ b := drop_requests (put_terminal_claimed true b) in
      match b_stopping b with
      | Some _ => PRet (Ok b)
      | None => let@ t := now in report_checkpoint StStopPending (put_stopping (Some t) b)
      end.

Definition stop_phase (b : Bridge) : RunProg Bridge :=
  if b_explicit_stop b && is_none (b_stopping b) then
    let@ t := now in
    perform SignalStop ;@
    let@ b := drop_requests (put_stopping (Some t) b) in
    report_checkpoint StStopPending b
  else PRet (Ok b).

(** [None]: the supervisor has not finished. *)
Definition completion_phase (b : Bridge) : RunProg (option BridgeExit) :=
  let@ finished := perform HandleFinished in
  if negb finished then PRet (Ok None)
  else
    let@ joined := perform HandleJoin in
    let@ result :=
      match joined with
      | JReturned (Ok reason) => PRet (Ok (Ok reason))
      | JReturned (Err e) => perform (Diagnose &"supervisor terminal failure" (DSupervisor e)) ;@ PRet (Ok (Err tt))
      | JPanicked => perform (Diagnose &"supervisor terminal failure" (DText &"thread panicked")) ;@ PRet (Ok (Err tt))
      end in
    let@ accepted_stop := if b_explicit_stop b then PRet (Ok true) else perform CtxStopRequested in
    let terminal := if accepted_stop then TStopped 0
                    else match b_failure_code b with
                         | Some code => TStopped code
                         | None => terminal_for result false
                         end in
    PRet (Ok (Some {| be_terminal := terminal; be_force_exit := negb (is_ok result) |})).

(** A failure: the supervisor is told to stop, or has stopped itself. *)
Definition fail_stop (code : Z) (b : Bridge) : RunProg Bridge :=
  let@ t := now in PRet (Ok (put_stopping (Some t) (put_failure_code (Some code) b))).

Definition startup_phase (timing : Timing) (b : Bridge) : RunProg Bridge :=
  if b_running b || is_some (b_stopping b) then PRet (Ok b)
  else
    let@ status := perform StartupTryRecv in
    match status with
    | Some status =>
        match status with
        | StatusQuiesced =>
            perform (Diagnose &"startup" (DText &"initial Ignore policy: host is intentionally quiesced without a child"))
        | StatusRunning => PRet (Ok tt)
        end ;@
        report_checkpoint StRunning (put_running true b)
    | None =>
        let@ t := now in
        if startup timing <=? sat_sub t (b_started b) then
          perform (Diagnose &"startup" (DText &"no confirmed live/quiesced startup before deadline")) ;@
          let@ b := fail_stop 3 b in
          perform SignalStop ;@
          report_checkpoint StStopPending b
        else PRet (Ok b)
    end.

Fixpoint forward_controls (controls : list ServiceControl) (b : Bridge) : RunProg Bridge :=
  match controls with
  | [] => PRet (Ok b)
  | c :: rest =>
      match c with
      | CPause => forward_controls rest (if b_running b then put_deferred (Some true) b else b)
      | CContinue => forward_controls rest (if b_running b then put_deferred (Some false) b else b)
      | CPowerEvent e => perform (SignalPower e) ;@ forward_controls rest b
      | COther code =>
          (if code =? SERVICE_CONTROL_ROTATE then perform SignalRotate else PRet (Ok tt)) ;@ forward_controls rest b
      | _ => forward_controls rest b
      end
  end.

Definition settled (b : Bridge) : Status := if b_paused b then StPaused else StRunning.

(** A transition with a definitive outcome. *)
Definition transition_outcome (p : Pending) (o : TransitionOutcome) (b : Bridge) : RunProg Bridge :=
  let@ b :=
    match o with
    | Applied => PRet (Ok (put_paused (p_pause p) b))
    | Cancelled | Rejected _ => perform (Diagnose &"pause/continue" (DOutcome o)) ;@ PRet (Ok b)
    | Transition.Degraded e =>
        perform (Diagnose &"pause/continue" (DFailStop e)) ;@ fail_stop SUPERVISOR_ERROR_EXIT_CODE b
    end in
  let b := put_pending None b in
  report_checkpoint (if is_none (b_stopping b) then settled b else StStopPending) b.

Definition transition_phase (timing : Timing) (b : Bridge) : RunProg Bridge :=
  match b_pending b with
  | None => PRet (Ok b)
  | Some p =>
      let@ t := now in
      (if transition timing <=? sat_sub t (p_started p) then perform (CancelPending (p_request p)) else PRet (Ok tt)) ;@
      let@ o := perform (PendingOutcome (p_request p)) in
      match o with
      | Some o => transition_outcome p o b
      | None =>
          let@ t := now in
          if stop_budget timing <=? sat_sub t (p_started p) then
            perform (Diagnose &"pause/continue" (DText &"executing transition exceeded the hard deadline")) ;@
            let@ b := fail_stop SUPERVISOR_ERROR_EXIT_CODE b in
            perform SignalStop ;@ report StStopPending ;@ PRet (Ok b)
          else PRet (Ok b)
      end
  end.

Definition pending_status (pause : bool) : Status := if pause then StPausePending else StContinuePending.

Definition request_phase (b : Bridge) : RunProg Bridge :=
  if is_none (b_pending b) && is_none (b_stopping b) then
    match b_deferred b with
    | None => PRet (Ok b)
    | Some pause =>
        let@ request := perform (RequestPause pause) in
        let@ t := now in
        report_checkpoint (pending_status pause)
          (put_pending (Some {| p_request := request; p_pause := pause; p_started := t |}) (put_deferred None b))
    end
  else PRet (Ok b).

Definition control_phase (timing : Timing) (controls : list ServiceControl) (b : Bridge) : RunProg Bridge :=
  if is_some (b_stopping b) then PRet (Ok b)
  else
    let@ b := forward_controls controls b in
    let@ b := transition_phase timing b in
    request_phase b.

(** [Some]: the supervisor did not stop in time. *)
Definition deadline_phase (timing : Timing) (b : Bridge) : RunProg (option BridgeExit) :=
  match b_stopping b with
  | None => PRet (Ok None)
  | Some stopped_at =>
      let@ t := now in
      if stop_budget timing <=? sat_sub t stopped_at then
        perform (Diagnose &"stop" (DText &"supervisor did not finish; terminating the service host")) ;@
        let@ stop := if b_explicit_stop b then PRet (Ok true) else perform CtxStopRequested in
        PRet (Ok (Some {| be_terminal := TStopped (if stop then 0 else unwrap_or SUPERVISOR_ERROR_EXIT_CODE (b_failure_code b));
                          be_force_exit := true |}))
      else PRet (Ok None)
  end.

Definition checkpoint_status (b : Bridge) : option Status :=
  if is_some (b_stopping b) then Some StStopPending
  else
    match b_pending b with
    | Some p => Some (pending_status (p_pause p))
    | None => if negb (b_running b) then Some StStartPending else None
    end.

Definition checkpoint_phase (timing : Timing) (b : Bridge) : RunProg Bridge :=
  let@ t := now in
  if checkpoint_every timing <=? sat_sub t (b_checkpoint b) then
    match checkpoint_status b with Some s => report s | None => PRet (Ok tt) end ;@
    let@ t := now in PRet (Ok (put_checkpoint t b))
  else PRet (Ok b).

Definition wait_phase (timing : Timing) (b : Bridge) : RunProg Bridge :=
  let@ p := perform (CtxRecvTimeout (poll timing)) in
  PRet (Ok (match p with
            | PControl c => put_first_control (Some c) b
            | PNothing => b
            | PDisconnected => put_explicit_stop true b
            end)).

(** The loop's body: the bridge's end, or the locals of the next round. *)
Definition bridge_round (timing : Timing) (b : Bridge) : RunProg (BridgeExit + Bridge) :=
  let@ (controls, b) := collect_controls b in
  let@ b := note_stop controls b in
  let@ b := claim_phase b in
  let@ b := stop_phase b in
  let@ finished := completion_phase b in
  match finished with
  | Some e => PRet (Ok (inl e))
  | None =>
      let@ b := startup_phase timing b in
      let@ b := control_phase timing controls b in
      let@ late := deadline_phase timing b in
      match late with
      | Some e => PRet (Ok (inl e))
      | None =>
          let@ b := checkpoint_phase timing b in
          let@ b := wait_phase timing b in
          PRet (Ok (inr b))
      end
  end.

(** [None]: more rounds than [fuel]. *)
Fixpoint bridge_loop (fuel : nat) (timing : Timing) (b : Bridge) : RunProg (option BridgeExit) :=
  match fuel with
  | O => PRet (Ok None)
  | S n =>
      let@ r := bridge_round timing b in
      match r with inl e => PRet (Ok (Some e)) | inr b => bridge_loop n timing b end
  end.

Definition bridge (fuel : nat) (timing : Timing) : RunProg (option BridgeExit) :=
  let@ t := now in
  report StStartPending ;@
  bridge_loop fuel timing {|
    b_started := t; b_checkpoint := t; b_running := false; b_paused := false; b_stopping := None;
    b_explicit_stop := false; b_failure_code := None; b_pending := None; b_deferred := None;
    b_first_control := None; b_terminal_claimed := false |}.

(** ** The end of the service *)

Definition finish (outcome : BridgeExit) : RunProg unit :=
  let@ claimed := perform CtxClaimTerminal in
  match (if (claimed : bool) then TStopped 0 else be_terminal outcome) with
  | TStopped code =>
      report (StStopped code) ;@
      if be_force_exit outcome then perform (TerminateProcess code) else PRet (Ok tt)
  | TCrash code =>
      perform (Diagnose &"Suicide" (DHostExit code)) ;@
      perform (DiagFlush (ms 250)) ;@
      perform (TerminateProcess code)
  end.

(** [Ok (Err e)]: an error before the bridge was set up. *)
Definition service_main (fuel : nat) (name : rstr) : RunProg (result Error (option unit)) :=
  let@ console := perform EnsureConsole in
  match console with Ok _ => PRet (Ok tt) | Err e => perform (Diagnose &"console" (DConsole e)) end ;@
  let@ config := perform (ReadManagedConfig name) in
  match config with
  | Err e => PRet (Ok (Err e))
  | Ok None => PRet (Ok (Err (InvalidConfig (&"no managed config for service '" ++ name ++ &"'"))))
  | Ok (Some c) =>
      perform (SpawnSupervisor name c) ;@
      let@ outcome := bridge fuel Timing_default in
      match outcome with
      | None => PRet (Ok (Ok None))
      | Some outcome => finish outcome ;@ PRet (Ok (Ok (Some tt)))
      end
  end.

(** The lifecycle handed to the dispatcher. *)
Definition service_lifecycle (fuel : nat) (name : rstr) : RunProg unit :=
  let@ r := service_main fuel name in
  match r with
  | Ok _ => PRet (Ok tt)
  | Err e =>
      perform (Diagnose &"startup failure" (DStartup e)) ;@
      let@ claimed := perform CtxClaimTerminal in
      report (StStopped (if (claimed : bool) then 0 else SUPERVISOR_ERROR_EXIT_CODE))
  end.
