(* ===== verification/RunnerSafety.v ===== *)
(** * What the service host reports and when it ends

    A monitor follows the host's calls: the status the SCM was told last, what
    was seen of stops and of the supervisor's end, and the clock. The phases of
    the bridge keep the locals and the monitor related. *)

From Stdlib Require Import ZArith Lia List.
From S2P Require Import Prelude Text BTree Model Effects Monitor Transition LaunchEnv Supervisor Runtime Runner.

(** ** The monitor *)

Record Scm := { last : Status; applied : bool; target : bool; live : bool; outstanding : bool }.
Record Stops := { stop : bool; signalled : bool; claimed : bool; released : bool; joined : option Joined }.
Record Times := { clock : Z; readings : list Z; began : option Z; asked : Z; fresh : bool; since : option Z }.
Record Seen := { scm : Scm; stops : Stops; times : Times }.

Definition seen_init : Seen := {|
  scm := {| last := StStartPending; applied := false; target := false; live := false; outstanding := false |};
  stops := {| stop := false; signalled := false; claimed := false; released := false; joined := None |};
  times := {| clock := 0; readings := []; began := None; asked := 0; fresh := false; since := None |} |}.

Definition saw_stop (b : bool) (t : Seen) : Seen :=
  let s := stops t in
  Build_Seen (scm t) (Build_Stops (stop s || b) (signalled s) (claimed s) (released s) (joined s)) (times t).
Definition saw_control (p : Polled) (t : Seen) : Seen :=
  match p with PControl c => saw_stop (is_terminal c) t | PNothing => t | PDisconnected => saw_stop true t end.

Definition is_stop_pending (s : Status) : bool := match s with StStopPending => true | _ => false end.

Definition saw_report (st : Status) (t : Seen) : Seen :=
  let s := scm t in let i := times t in
  Build_Seen (Build_Scm st (applied s) (target s) (live s) (outstanding s)) (stops t)
    (Build_Times (clock i) (readings i) (began i) (asked i) (fresh i)
       (if is_stop_pending st && negb (is_stop_pending (last s)) then Some (clock i) else since i)).

Definition saw_clock (n : Z) (t : Seen) : Seen :=
  let i := times t in
  Build_Seen (scm t) (stops t)
    (Build_Times n (readings i ++ [n]) (match began i with None => Some n | b => b end)
       (if fresh i then n else asked i) false (since i)).

Definition track (t : Seen) (e : RunEvent) : Seen :=
  match e with
  | Ev c x =>
      match x with
      | Err _ => t
      | Ok a =>
          match c in RunE X return X -> Seen with
          | CtxTryRecv => fun p => saw_control p t
          | CtxRecvTimeout _ => fun p =>
              let i := times t in
              saw_control p (Build_Seen (scm t) (stops t)
                (Build_Times (clock i) [] (began i) (asked i) (fresh i) (since i)))
          | CtxReport s => fun _ => saw_report s t
          | CtxStopRequested => fun b => saw_stop b t
          | CtxClaimTerminal => fun b =>
              let s := stops t in
              saw_stop b (Build_Seen (scm t) (Build_Stops (stop s) (signalled s) true (released s) (joined s)) (times t))
          | CtxNow => fun n => saw_clock n t
          | TerminalRelease => fun _ =>
              let s := stops t in
              Build_Seen (scm t) (Build_Stops (stop s) (signalled s) (claimed s) true (joined s)) (times t)
          | SignalStop => fun _ =>
              let s := stops t in
              Build_Seen (scm t) (Build_Stops (stop s) true (claimed s) (released s) (joined s)) (times t)
          | RequestPause pause => fun _ =>
              let s := scm t in let i := times t in
              Build_Seen (Build_Scm (last s) (applied s) pause (live s) true) (stops t)
                (Build_Times (clock i) (readings i) (began i) (asked i) true (since i))
          | PendingOutcome _ => fun o =>
              match o with
              | None => t
              | Some o =>
                  let s := scm t in
                  Build_Seen (Build_Scm (last s) (match o with Applied => target s | _ => applied s end) (target s) (live s) false)
                    (stops t) (times t)
              end
          | StartupTryRecv => fun o =>
              let s := scm t in
              Build_Seen (Build_Scm (last s) (applied s) (target s) (live s || is_some o) (outstanding s)) (stops t) (times t)
          | HandleJoin => fun j =>
              let s := stops t in
              Build_Seen (scm t) (Build_Stops (stop s) (signalled s) (claimed s) (released s) (Some j)) (times t)
          | _ => fun _ => t
          end a
      end
  end.

(** ** What is demanded *)

(** The states a service may report after each other. *)
Definition may_follow (s : Status) (prev : Status) : bool :=
  match prev, s with
  | StStopped _, _ => false
  | _, StStopped _ | _, StStopPending => true
  | StStartPending, StStartPending | StStartPending, StRunning => true
  | StRunning, StPausePending | StRunning, StContinuePending => true
  | StPaused, StPausePending | StPaused, StContinuePending => true
  | StPausePending, StPausePending | StPausePending, StPaused | StPausePending, StRunning => true
  | StContinuePending, StContinuePending | StContinuePending, StPaused | StContinuePending, StRunning => true
  | _, _ => false
  end.

Definition status_ok (t : Seen) (e : RunEvent) : Prop :=
  match e with
  | Ev c _ =>
      match c with
      | CtxReport s =>
          may_follow s (last (scm t)) = true
          /\ match s with
             | StRunning => live (scm t) = true /\ applied (scm t) = false
             | StPaused => live (scm t) = true /\ applied (scm t) = true
             | StPausePending => target (scm t) = true
             | StContinuePending => target (scm t) = false
             | _ => True
             end
      | RequestPause _ => live (scm t) = true /\ outstanding (scm t) = false /\ stop (stops t) = false
      | _ => True
      end
  end.

Definition ended_well (j : option Joined) : Prop :=
  j = Some (JReturned (Ok ReasonStopped)) \/ j = Some (JReturned (Ok ReasonChildExited)).
Definition crash_of (j : option Joined) (code : Z) : Prop :=
  exists c, j = Some (JReturned (Ok (ReasonSuicide c))) /\ code = service_exit_code_for (ReasonSuicide c).

Definition exit_ok (t : Seen) (e : RunEvent) : Prop :=
  match e with
  | Ev c _ =>
      match c with
      | CtxReport (StStopped code) =>
          claimed (stops t) = true
          /\ (stop (stops t) = true -> code = 0)
          /\ (code = 0 -> stop (stops t) = true \/ ended_well (joined (stops t)))
      | TerminateProcess code =>
          last (scm t) = StStopped code \/ (stop (stops t) = false /\ crash_of (joined (stops t)) code)
      | _ => True
      end
  end.

Definition handoff_ok (t : Seen) (e : RunEvent) : Prop :=
  match e with
  | Ev c _ =>
      match c with
      | TerminalRelease =>
          claimed (stops t) = true /\ released (stops t) = false
          /\ (stop (stops t) = true -> signalled (stops t) = true)
      | _ => True
      end
  end.

(** Some reading of the clock since the last wait lies within the budget. *)
Definition within (t : Seen) (budget from : Z) : Prop :=
  exists n, In n (readings (times t)) /\ sat_sub n from < budget.
Definition wait_ok (timing : Timing) (t : Seen) (e : RunEvent) : Prop :=
  match e with
  | Ev c _ =>
      match c with
      | CtxRecvTimeout ns =>
          ns = poll timing
          /\ match last (scm t) with
             | StStartPending => exists from, began (times t) = Some from /\ within t (startup timing) from
             | StPausePending | StContinuePending => within t (stop_budget timing) (asked (times t))
             | StStopPending => exists from, since (times t) = Some from /\ within t (stop_budget timing) from
             | _ => True
             end
      | _ => True
      end
  end.

Definition host_ok (timing : Timing) (t : Seen) (e : RunEvent) : Prop :=
  status_ok t e /\ exit_ok t e /\ handoff_ok t e /\ wait_ok timing t e.

(** ** The locals and the monitor *)

Definition status_of (b : Bridge) : Status :=
  if is_some (b_stopping b) then StStopPending
  else
    match b_pending b with
    | Some p => pending_status (p_pause p)
    | None => if b_running b then settled b else StStartPending
    end.

(** [cs]: the controls received but not looked at yet. *)
Record Base (cs : list ServiceControl) (b : Bridge) (t : Seen) : Prop := {
  base_applied : applied (scm t) = b_paused b;
  base_live : b_running b = true -> live (scm t) = true;
  base_idle : b_running b = false -> b_pending b = None /\ b_deferred b = None /\ b_paused b = false;
  base_target : forall p, b_pending b = Some p -> target (scm t) = p_pause p;
  base_fresh : fresh (times t) = false;
  base_stop : stop (stops t) = b_explicit_stop b || existsb is_terminal cs;
  base_released : released (stops t) = b_terminal_claimed b;
  base_began : began (times t) = Some (b_started b);
  base_joined : joined (stops t) = None;
  base_failure : forall code, b_failure_code b = Some code -> code <> 0;
  base_first : cs = [] -> b_first_control b = None }.

(** The SCM was told what the locals say. *)
Record Told (b : Bridge) (t : Seen) : Prop := {
  told_last : last (scm t) = status_of b;
  told_pending : b_stopping b = None -> outstanding (scm t) = is_some (b_pending b);
  told_asked : b_stopping b = None -> forall p, b_pending b = Some p -> asked (times t) = p_started p;
  told_since : since (times t) = b_stopping b }.

Definition Rel cs b t : Prop := Base cs b t /\ Told b t.

Definition not_stopped (t : Seen) : Prop := forall code, last (scm t) <> StStopped code.
Definition free (t : Seen) : Prop := not_stopped t /\ last (scm t) <> StStopPending.

Lemma told_not_stopped b t : Told b t -> not_stopped t.
Proof.
  intros [H _ _ _] code. rewrite H. unfold status_of, settled, pending_status. by repeat case_match.
Qed.
Lemma told_free b t : Told b t -> b_stopping b = None -> free t.
Proof.
  intros H E. split; [by eapply told_not_stopped|]. destruct H as [H _ _ _]. rewrite H.
  unfold status_of, settled, pending_status. rewrite E. by repeat case_match.
Qed.
Lemma may_stop t : not_stopped t -> may_follow StStopPending (last (scm t)) = true.
Proof. unfold not_stopped. destruct (last (scm t)); try done. intros H. by destruct (H code). Qed.

Lemma base_clock cs b t n : Base cs b t -> Base cs b (saw_clock n t).
Proof. intros []. split; cbn; try done. by rewrite base_began0. Qed.
Lemma told_clock cs b t n : Base cs b t -> Told b t -> Told b (saw_clock n t).
Proof. intros [] []. split; cbn; try done. by rewrite base_fresh0. Qed.

Lemma rel_clock cs b t n m : Rel cs b t -> Rel cs (put_checkpoint m b) (saw_clock n t).
Proof.
  intros [H1 H2]. pose proof (base_clock _ _ _ n H1) as H3. pose proof (told_clock _ _ _ n H1 H2) as H4.
  destruct H3, H4. split; by split.
Qed.

(** Once the stop phase is over an explicit stop has been acted on. *)
Definition guarded (b : Bridge) : Prop := b_explicit_stop b = true -> b_stopping b <> None.

(** What the round has found to be within its budgets so far. *)
Definition timely_start (timing : Timing) (b : Bridge) (t : Seen) : Prop :=
  b_running b = false -> b_stopping b = None -> within t (startup timing) (b_started b).
Definition timely_pending (timing : Timing) (b : Bridge) (t : Seen) : Prop :=
  forall p, b_stopping b = None -> b_pending b = Some p -> within t (stop_budget timing) (p_started p).

Lemma within_clock t n budget from : within t budget from -> within (saw_clock n t) budget from.
Proof. intros (m & Hin & H). exists m. split; [|exact H]. cbn. apply in_or_app. by left. Qed.
Lemma within_read t n budget from : sat_sub n from < budget -> within (saw_clock n t) budget from.
Proof. intros H. exists n. split; [|exact H]. cbn. apply in_or_app. right. by left. Qed.

(** Calls the monitor does not look at. *)
Definition quiet {X} (e : RunE X) : bool :=
  match e with
  | SignalRotate | SignalPower _ | CancelPending _ | Diagnose _ _ | DiagFlush _ | TerminalIsReady | HandleFinished
  | EnsureConsole | ReadManagedConfig _ | SpawnSupervisor _ _ => true
  | _ => false
  end.

Section Phases.
Context (timing : Timing) (budget_pos : 0 < stop_budget timing).
Abbreviation keeps P p Q := (spec track (host_ok timing) P p (fun r => match r with Ok a => Q a | Err _ => fun _ => True end))
  (only parsing).

Lemma quiet_spec {X} (P : Seen -> Prop) (e : RunE X) : quiet e = true -> keeps P (perform e) (fun _ => P).
Proof. intros Hq. apply spec_perform. intros t [a|[]] H. destruct e; try discriminate Hq; by repeat split. Qed.

Lemma then_spec {A B} (P : Seen -> Prop) (p : RunProg A) (k : A -> RunProg B) R Q :
  keeps P p R -> (forall a, keeps (R a) (k a) Q) -> keeps P (pbind p k) Q.
Proof. intros Hp Hk. apply (spec_bind _ _ _ _ _ R); [|exact Hk]. eapply spec_weaken; [exact Hp|done|]. by intros [|[]]. Qed.
Lemma quiet_then {X B} (P : Seen -> Prop) (e : RunE X) (k : X -> RunProg B) Q :
  quiet e = true -> (forall a, keeps P (k a) Q) -> keeps P (pbind (perform e) k) Q.
Proof. intros Hq Hk. apply (then_spec _ _ _ (fun _ => P)); [by apply quiet_spec|exact Hk]. Qed.
Lemma call_then {X B} (P : Seen -> Prop) (e : RunE X) (k : X -> RunProg B) R Q :
  (forall t a, P t -> host_ok timing t (Ev e (Ok a)) /\ R a (track t (Ev e (Ok a)))) ->
  (forall a, keeps (R a) (k a) Q) -> keeps P (pbind (perform e) k) Q.
Proof. intros H Hk. apply (spec_call _ _ _ _ _ R); [exact H|by intros t []|exact Hk]. Qed.

(** The clock, read. *)
Lemma now_then {B} (P : Seen -> Prop) (k : Z -> RunProg B) Q :
  (forall n, keeps (fun t => exists t', P t' /\ t = saw_clock n t') (k n) Q) -> keeps P (pbind now k) Q.
Proof.
  intros Hk. unfold now. apply (call_then _ _ _ (fun n t => exists t', P t' /\ t = saw_clock n t')); [|exact Hk]. intros t n HP. split; [by repeat split|]. by exists t.
Qed.

(** A status may be reported. *)
Definition may_report (st : Status) (t : Seen) : Prop := host_ok timing t (Ev (CtxReport st) (Ok (Ok tt))).

Lemma report_spec (P Q : Seen -> Prop) st :
  (forall t, P t -> may_report st t /\ Q (saw_report st t)) -> keeps P (report st) (fun _ => Q).
Proof.
  intros H. unfold report. apply (call_then _ _ _ (fun _ => Q)).
  - intros t a HP. destruct (H t HP) as [H1 H2]. split; [exact H1|exact H2].
  - intros [a|e]; [by apply spec_ret|]. by apply quiet_spec.
Qed.

Lemma report_checkpoint_spec (P : Seen -> Prop) (Q : Bridge -> Seen -> Prop) st b :
  (forall t, P t -> may_report st t) ->
  (forall t n, P t -> Q (put_checkpoint n b) (saw_clock n (saw_report st t))) ->
  keeps P (report_checkpoint st b) Q.
Proof.
  intros H1 H2. unfold report_checkpoint.
  apply (then_spec _ _ _ (fun _ t => exists t', P t' /\ t = saw_report st t')).
  { apply report_spec. intros t HP. split; [by apply H1|by exists t]. }
  intros _. apply now_then. intros n. apply spec_ret. intros t (t2 & (t3 & HP & ->) & ->). by apply H2.
Qed.

(** The first report of the stop, at the time that was read last. *)
Lemma stop_reported cs b t n :
  Base cs b t -> free t -> clock (times t) = n ->
  may_report StStopPending t /\ Rel cs (put_stopping (Some n) b) (saw_report StStopPending t).
Proof.
  intros HB [Hn Hs] Hc. split; [split; [|by repeat split]; split; [by apply may_stop|done]|].
  split; [destruct HB; by split|]. split; cbn; try done.
  destruct (last (scm t)) eqn:E; cbn; try (by rewrite Hc); by destruct Hs.
Qed.

Lemma drop_requests_spec (P : Seen -> Prop) b :
  keeps P (drop_requests b) (fun b' t => P t /\ b' = put_deferred None (put_pending None b)).
Proof.
  unfold drop_requests. apply (then_spec _ _ _ (fun _ => P)); [|intros _; by apply spec_ret].
  destruct (b_pending b); [by apply quiet_spec|by apply spec_ret].
Qed.
Lemma base_drop cs b t : Base cs b t -> Base cs (put_deferred None (put_pending None b)) t.
Proof. intros []. split; cbn; try done. intros H. by destruct (base_idle0 H) as (_ & _ & ?). Qed.

(** ** The phases of a round *)

Lemma poll_controls_spec n cs b :
  b_first_control b = None ->
  keeps (Rel cs b) (poll_controls n cs b) (fun x t => Rel x.1 x.2 t /\ b_first_control x.2 = None).
Proof.
  intros Hb. revert cs. induction n as [|n IH]; intros cs; [by apply spec_ret|]. cbn [poll_controls].
  apply (call_then _ _ _ (fun p => match p with
    | PControl c => Rel (cs ++ [c]) b | PNothing => Rel cs b | PDisconnected => Rel cs (put_explicit_stop true b) end)).
  - intros t p [HB HT]. split; [by repeat split|].
    destruct p as [c| |]; [..|done|]; (split; [|by destruct HT]); destruct HB; split; cbn; try done; rewrite base_stop0.
    + rewrite existsb_app. cbn. by rewrite orb_false_r, orb_assoc.
    + by rewrite orb_true_r.
  - intros [c| |]; [apply IH|by apply spec_ret..].
Qed.

Lemma collect_controls_spec b :
  keeps (Rel (option_list (b_first_control b)) b) (collect_controls b) (fun x t => Rel x.1 x.2 t /\ b_first_control x.2 = None).
Proof. eapply spec_pre; [by apply poll_controls_spec|]. intros t [[] []]. by split. Qed.

Lemma note_stop_spec cs b :
  keeps (fun t => Rel cs b t /\ b_first_control b = None) (note_stop cs b) (Rel []).
Proof.
  unfold note_stop. apply (call_then _ _ _ (fun a t => Rel [] (put_explicit_stop (b_explicit_stop b || (a || existsb is_terminal cs)) b) t)).
  - intros t a [[HB HT] Hb]. split; [by repeat split|]. split; [|by destruct HT].
    destruct HB. split; cbn; try done. rewrite base_stop0. by rewrite orb_false_r, (orb_comm a), orb_assoc.
  - intros a. by apply spec_ret.
Qed.

Lemma claim_phase_spec b : keeps (Rel [] b) (claim_phase b) (Rel []).
Proof.
  unfold claim_phase. destruct (b_terminal_claimed b) eqn:Ec; [by apply spec_ret|].
  apply quiet_then; [done|]. intros is_ready. destruct is_ready; cbn [negb]; [|by apply spec_ret].
  apply (call_then _ _ _ (fun a t => Rel [] (put_explicit_stop (b_explicit_stop b || a) b) t /\ claimed (stops t) = true)).
  { intros t a [HB HT]. split; [by repeat split|]. split; [|done]. split; [|by destruct HT]. destruct HB.
    split; cbn; try done. by rewrite base_stop0, !orb_false_r. }
  intros a. set (b1 := put_explicit_stop (b_explicit_stop b || a) b).
  apply (then_spec _ _ _ (fun _ t => Rel [] b1 t /\ claimed (stops t) = true /\ (stop (stops t) = true -> signalled (stops t) = true))).
  { destruct (b_explicit_stop b1) eqn:Ee.
    - apply spec_perform. intros t [[]|[]] [[HB HT] Hc]. split; [by repeat split|]. split; [|done].
      split; [|by destruct HT]. by destruct HB.
    - apply spec_ret. intros t [[HB HT] Hc]. split; [done|]. split; [done|]. intros H. destruct HB.
      rewrite base_stop0, Ee in H. discriminate H. }
  intros _. set (b2 := put_terminal_claimed true b1).
  apply (call_then _ _ _ (fun _ t => Rel [] b2 t)).
  { intros t [] ([HB HT] & Hc & Hs). split; [|split; [|by destruct HT]; destruct HB; by split].
    destruct HB. split; [done|]. split; [done|]. split; [|done].
    split; [exact Hc|]. split; [|exact Hs]. rewrite base_released0. exact Ec. }
  intros _. apply (then_spec _ _ _ (fun b3 t => Rel [] b2 t /\ b3 = put_deferred None (put_pending None b2))).
  { apply drop_requests_spec. }
  intros b3.
  destruct (b_stopping b3) eqn:Es.
  - apply spec_ret. intros t [[HB HT] ->]. cbn in Es. split; [by apply base_drop|].
    destruct HT. split; cbn; try done; try congruence. rewrite told_last0. unfold status_of. cbn. by rewrite Es.
  - apply now_then. intros n. apply report_checkpoint_spec.
    + intros t (t' & ([HB HT] & ->) & ->). pose proof (told_free _ _ HT Es) as Hf.
      by apply (stop_reported [] _ _ n (base_clock _ _ _ n (base_drop _ _ _ HB))).
    + intros t m (t' & ([HB HT] & ->) & ->). pose proof (told_free _ _ HT Es) as Hf. apply rel_clock.
      by apply (stop_reported [] _ _ n (base_clock _ _ _ n (base_drop _ _ _ HB))).
Qed.

Lemma stop_phase_spec b : keeps (Rel [] b) (stop_phase b) (fun b' t => Rel [] b' t /\ guarded b').
Proof.
  unfold stop_phase. destruct (b_explicit_stop b && is_none (b_stopping b)) eqn:E.
  - apply andb_true_iff in E as [Ee Es]. unfold is_none in Es. destruct (b_stopping b) eqn:Es'; [done|].
    apply now_then. intros n.
    apply (call_then _ _ _ (fun _ t => Base [] b t /\ free t /\ clock (times t) = n)).
    { intros t [] (t' & [HB HT] & ->). split; [by repeat split|]. pose proof (base_clock _ _ _ n HB) as HB'.
      split; [by destruct HB'|]. split; [|done]. apply (told_free _ _ HT Es'). }
    intros _. apply (then_spec _ _ _ (fun b2 t => (Base [] b t /\ free t /\ clock (times t) = n)
                                            /\ b2 = put_deferred None (put_pending None (put_stopping (Some n) b)))).
    { apply drop_requests_spec. }
    intros b2. apply report_checkpoint_spec.
    + intros t [(HB & Hf & Hc) ->]. by apply (stop_reported [] _ t n (base_drop _ _ _ HB)).
    + intros t m [(HB & Hf & Hc) ->]. split; [apply rel_clock; by apply (stop_reported [] _ t n (base_drop _ _ _ HB))|done].
  - apply spec_ret. intros t H. split; [exact H|]. intros He. rewrite He in E. cbn in E. unfold is_none in E.
    by destruct (b_stopping b).
Qed.

(** What the bridge's end says. *)
Definition honest (e : BridgeExit) (t : Seen) : Prop :=
  (stop (stops t) = true -> be_terminal e = TStopped 0)
  /\ (be_terminal e = TStopped 0 -> stop (stops t) = true \/ ended_well (joined (stops t)))
  /\ (forall n, be_terminal e = TCrash n -> crash_of (joined (stops t)) n).

Lemma completion_terminal b result j stop_ t :
  stop (stops t) = stop_ -> joined (stops t) = Some j ->
  (forall code, b_failure_code b = Some code -> code <> 0) ->
  (forall r, result = Ok r -> j = JReturned (Ok r)) ->
  honest {| be_terminal := if stop_ then TStopped 0
                           else match b_failure_code b with Some code => TStopped code | None => terminal_for result false end;
            be_force_exit := negb (is_ok result) |} t.
Proof.
  intros Hs Hj Hf Hr. unfold honest, ended_well, crash_of. cbn. rewrite Hs, Hj.
  destruct stop_; [split; [done|]; split; [by left|done]|].
  split; [done|]. destruct (b_failure_code b) as [code|]; [specialize (Hf code eq_refl); split; [by intros [= ->]|done]|].
  unfold terminal_for. destruct result as [[| | |c]|[]]; cbn; try rewrite (Hr _ eq_refl).
  - split; [by right; left|done].
  - split; [by right; right|done].
  - split; done.
  - split; [done|]. intros n [= <-]. by exists c.
  - split; done.
Qed.

Lemma completion_phase_spec b :
  keeps (fun t => Rel [] b t /\ guarded b) (completion_phase b)
    (fun x t => match x with Some e => not_stopped t /\ honest e t | None => Rel [] b t /\ guarded b end).
Proof.
  unfold completion_phase. apply quiet_then; [done|]. intros finished. destruct finished; cbn [negb]; [|by apply spec_ret].
  apply (call_then _ _ _ (fun j t => not_stopped t /\ stop (stops t) = b_explicit_stop b /\ joined (stops t) = Some j
                                     /\ forall code, b_failure_code b = Some code -> code <> 0)).
  { intros t j [[HB HT] _]. split; [by repeat split|]. split; [exact (told_not_stopped _ _ HT)|].
    destruct HB. cbn in *. rewrite orb_false_r in base_stop0. by split. }
  intros j. set (P := fun t => _).
  apply (then_spec _ _ _ (fun result t => P t /\ forall r, result = Ok r -> j = JReturned (Ok r))).
  { assert (Hd : forall o m, keeps P (pbind (perform (Diagnose o m)) (fun _ => PRet (Ok (Err tt))))
      (fun result t => P t /\ forall r : ExitReason, result = Ok r -> j = JReturned (Ok r))).
    { intros o m. apply quiet_then; [done|]. intros _. by apply spec_ret. }
    destruct j as [[reason|e]|]; [|apply Hd..]. apply spec_ret. intros t H. split; [exact H|]. by intros r [= ->]. }
  intros result.
  apply (then_spec _ _ _ (fun a t => not_stopped t /\ stop (stops t) = a /\ joined (stops t) = Some j
      /\ (forall code, b_failure_code b = Some code -> code <> 0) /\ forall r, result = Ok r -> j = JReturned (Ok r))).
  { destruct (b_explicit_stop b) eqn:Ee.
    - apply spec_ret. intros t [(H1 & H2 & H3 & H4) H5]. by repeat split.
    - apply spec_perform. intros t [a|[]] [(H1 & H2 & H3 & H4) H5]. split; [by repeat split|].
      split; [exact H1|]. split; [cbn; by rewrite H2|]. by repeat split. }
  intros a. apply spec_ret. intros t (H1 & H2 & H3 & H4 & H5). split; [exact H1|]. exact (completion_terminal b result j a t H2 H3 H4 H5).
Qed.

Lemma startup_phase_spec b :
  keeps (fun t => Rel [] b t /\ guarded b) (startup_phase timing b)
    (fun b' t => Rel [] b' t /\ guarded b' /\ timely_start timing b' t).
Proof.
  unfold startup_phase. destruct (b_running b || is_some (b_stopping b)) eqn:E.
  { apply spec_ret. intros t [H Hg]. split; [exact H|]. split; [exact Hg|]. intros H1 H2. rewrite H1, H2 in E. discriminate E. }
  apply orb_false_iff in E as [Er Es]. destruct (b_stopping b) eqn:Es'; [done|].
  apply (call_then _ _ _ (fun o t => (Rel [] b t /\ guarded b) /\ (is_some o = true -> live (scm t) = true))).
  { intros t o [[HB HT] Hg]. split; [by repeat split|]. split; [|cbn; intros H; by rewrite H, orb_true_r].
    split; [|exact Hg]. split; [|by destruct HT]. destruct HB. split; cbn; try done. intros H. by rewrite base_live0. }
  intros [status|].
  - apply (then_spec _ _ _ (fun _ t => (Rel [] b t /\ guarded b) /\ live (scm t) = true)).
    { destruct status; [apply spec_ret; intros t [H Hl]; split; [exact H|by apply Hl]|].
      eapply spec_pre; [by apply quiet_spec|]. intros t [H Hl]. split; [exact H|by apply Hl]. }
    intros _. assert (Hp : forall t, (Rel [] b t /\ guarded b) /\ live (scm t) = true ->
      may_report StRunning t /\ Rel [] (put_running true b) (saw_report StRunning t)).
    { intros t [[[HB HT] Hg] Hl]. destruct HB as [Ha _ Hi Ht Hfr Hst Hre Hbe Hj Hfa Hfi]. destruct (Hi Er) as (Hp & Hd & Hpa).
      destruct HT as [Hl2 Hpe Has Hsi]. unfold status_of in Hl2. rewrite Es', Hp, Er in Hl2. cbn in Hl2.
      assert (Hap : applied (scm t) = false) by (by rewrite Ha).
      split; [split; [split; [by rewrite Hl2|by split]|by repeat split]|].
      split; split; cbn; try done; rewrite ?Es', ?Hp; try done.
      unfold status_of, settled. cbn. by rewrite Es', Hp, Hpa. }
    apply report_checkpoint_spec; [intros t H; by apply Hp|].
    intros t n H. split; [apply rel_clock; by apply Hp|]. split; [by destruct H as [[_ Hg] _]|done].
  - apply now_then. intros n. destruct (Z.leb_spec (startup timing) (sat_sub n (b_started b))) as [Hle|Hlt].
    + apply quiet_then; [done|]. intros _. unfold fail_stop.
      apply (then_spec _ _ _ (fun b' t => exists m, b' = put_stopping (Some m) (put_failure_code (Some 3) b)
          /\ Base [] (put_failure_code (Some 3) b) t /\ free t /\ clock (times t) = m)).
      { apply now_then. intros m. apply spec_ret. intros t (t1 & (t2 & ([[HB HT] _] & _) & ->) & ->). exists m.
        split; [done|]. pose proof (base_clock _ _ _ m (base_clock _ _ _ n HB)) as HB'.
        split; [destruct HB'; split; cbn; try done; by intros code [= <-]|]. split; [|done]. apply (told_free _ _ HT Es'). }
      intros b'. apply (call_then _ _ _ (fun _ t => exists m, b' = put_stopping (Some m) (put_failure_code (Some 3) b)
          /\ Base [] (put_failure_code (Some 3) b) t /\ free t /\ clock (times t) = m)).
      { intros t [] (m & H1 & H2 & H3 & H4). split; [by repeat split|]. exists m. split; [done|]. split; [by destruct H2|done]. }
      intros _. apply report_checkpoint_spec.
      * intros t (m & -> & H2 & H3 & H4). by apply (stop_reported [] _ t m H2).
      * intros t n' (m & -> & H2 & H3 & H4). split; [apply rel_clock; by apply (stop_reported [] _ t m H2)|]. split; done.
    + apply spec_ret. intros t (t' & ([[HB HT] Hg] & _) & ->). split; [|split; [exact Hg|intros _ _; by apply within_read]].
      split; [by apply base_clock|by eapply told_clock].
Qed.

Definition Round (b : Bridge) (t : Seen) : Prop := Rel [] b t /\ guarded b /\ timely_start timing b t.

Lemma forward_controls_spec cs b :
  keeps (fun t => Round b t /\ b_stopping b = None) (forward_controls cs b)
    (fun b' t => Round b' t /\ b_stopping b' = None).
Proof.
  assert (Hd : forall d b t, b_running b = true -> Round b t /\ b_stopping b = None ->
    Round (put_deferred (Some d) b) t /\ b_stopping (put_deferred (Some d) b) = None).
  { intros d b1 t Hr [([HB HT] & Hg & Hs) Hn]. split; [|exact Hn]. split; [|by split]. destruct HB, HT.
    split; split; cbn; try done. intros H. congruence. }
  revert b. induction cs as [|c cs IH]; intros b; cbn [forward_controls]; [by apply spec_ret|].
  destruct c; try apply IH.
  - destruct (b_running b) eqn:Er; [|apply IH]. eapply spec_pre; [apply IH|]. intros t. by apply Hd.
  - destruct (b_running b) eqn:Er; [|apply IH]. eapply spec_pre; [apply IH|]. intros t. by apply Hd.
  - apply quiet_then; [done|]. intros _. apply IH.
  - apply (then_spec _ _ _ (fun _ t => Round b t /\ b_stopping b = None)); [|intros _; apply IH].
    destruct (code =? SERVICE_CONTROL_ROTATE); [by apply quiet_spec|by apply spec_ret].
Qed.

(** A transition has an outcome, and the SCM still sees it pending. *)
Definition Resolved (p : Pending) (b : Bridge) (t : Seen) : Prop :=
  Base [] b t /\ guarded b /\ b_running b = true /\ b_stopping b = None
  /\ last (scm t) = pending_status (p_pause p) /\ outstanding (scm t) = false /\ since (times t) = None.

Lemma resolved_settled p b t :
  Resolved p b t ->
  may_report (settled (put_pending None b)) t
  /\ Rel [] (put_pending None b) (saw_report (settled (put_pending None b)) t).
Proof.
  intros (HB & Hg & Hr & Hs & Hl & Ho & Hsi). destruct HB. unfold settled. cbn.
  assert (may_follow (if b_paused b then StPaused else StRunning) (last (scm t)) = true) as Hm.
  { rewrite Hl. unfold pending_status. by destruct (p_pause p), (b_paused b). }
  split.
  - split; [|by destruct (b_paused b); repeat split]. split; [exact Hm|].
    destruct (b_paused b); (split; [by apply base_live0|exact base_applied0]).
  - split; split; cbn; try done; rewrite ?Hs; try done; try (by intros; congruence).
    + unfold status_of, settled. cbn. by rewrite Hs, Hr.
    + by destruct (b_paused b).
Qed.

Lemma transition_outcome_spec p o b :
  keeps (Resolved p (match o with Applied => put_paused (p_pause p) b | _ => b end)) (transition_outcome p o b)
    (fun b' t => Round b' t /\ timely_pending timing b' t).
Proof.
  assert (Hset : forall b, keeps (Resolved p b)
    (report_checkpoint (if is_none (b_stopping (put_pending None b)) then settled (put_pending None b) else StStopPending) (put_pending None b))
    (fun b' t => Round b' t /\ timely_pending timing b' t)).
  { intros b1. destruct (b_stopping b1) eqn:Es.
    { intros t log r (_ & _ & _ & H & _). congruence. }
    cbn [b_stopping put_pending]. rewrite Es. cbn [is_none is_some negb].
    apply report_checkpoint_spec; [intros t H; by apply (resolved_settled p)|].
    intros t n H. pose proof H as (_ & Hg & Hr & _). split; [|done]. split; [apply rel_clock; by apply (resolved_settled p)|].
    split; [exact Hg|]. intros H'. cbn in H'. congruence. }
  assert (Hdiag : forall m b, keeps (Resolved p b) (pbind (perform (Diagnose &"pause/continue" m)) (fun _ => PRet (Ok b)))
      (fun b' t => Resolved p b t /\ b' = b)).
  { intros m b1. apply quiet_then; [done|]. intros _. by apply spec_ret. }
  unfold transition_outcome. destruct o as [| |m|m].
  - apply (then_spec _ _ _ (fun b' t => Resolved p (put_paused (p_pause p) b) t /\ b' = put_paused (p_pause p) b)).
    + by apply spec_ret.
    + intros b'. eapply spec_pre; [apply Hset|]. by intros t [H ->].
  - apply (then_spec _ _ _ (fun b' t => Resolved p b t /\ b' = b)); [apply Hdiag|]. intros b'.
    eapply spec_pre; [apply Hset|]. by intros t [H ->].
  - apply (then_spec _ _ _ (fun b' t => Resolved p b t /\ b' = b)); [apply Hdiag|]. intros b'.
    eapply spec_pre; [apply Hset|]. by intros t [H ->].
  - apply (then_spec _ _ _ (fun b' t => exists n t', Resolved p b t' /\ t = saw_clock n t'
        /\ b' = put_stopping (Some n) (put_failure_code (Some SUPERVISOR_ERROR_EXIT_CODE) b))).
    { apply quiet_then; [done|]. intros _. unfold fail_stop. apply now_then. intros n. apply spec_ret.
      intros t (t' & H & ->). by exists n, t'. }
    intros b'. set (b0 := put_pending None (put_failure_code (Some SUPERVISOR_ERROR_EXIT_CODE) b)).
    assert (H : forall t, (exists n t', Resolved p b t' /\ t = saw_clock n t'
        /\ b' = put_stopping (Some n) (put_failure_code (Some SUPERVISOR_ERROR_EXIT_CODE) b)) ->
      is_none (b_stopping (put_pending None b')) = false /\ b_stopping b' <> None /\ b_running b' = true
      /\ may_report StStopPending t /\ Rel [] (put_pending None b') (saw_report StStopPending t)).
    { intros t (n & t' & (HB & Hg & Hr & Hs & Hl & Ho & Hsi) & -> & ->). split; [done|]. split; [done|]. split; [done|].
      apply (stop_reported [] b0 (saw_clock n t') n); [|by split; [intros code|]; cbn; rewrite Hl; unfold pending_status; destruct (p_pause p)|done].
      apply base_clock. destruct HB. split; cbn; try done; try (intros H; congruence). by intros code [= <-]. }
    destruct (is_none (b_stopping (put_pending None b'))) eqn:En.
    { intros t log r Ht. destruct (H t Ht) as [H' _]. discriminate H'. }
    apply report_checkpoint_spec; [intros t Ht; by apply H|].
    intros t n Ht. destruct (H t Ht) as (_ & H2 & H3 & H4 & H5). split.
    + split; [by apply rel_clock|]. split; [intros _; exact H2|]. intros Hr. cbn in Hr. congruence.
    + intros q Hq. by destruct H2.
Qed.

Lemma round_clock b t n : Round b t -> Round b (saw_clock n t).
Proof.
  intros ([HB HT] & Hg & Hs). split; [split; [by apply base_clock|by eapply told_clock]|]. split; [exact Hg|].
  intros H1 H2. apply within_clock. by apply Hs.
Qed.

Lemma transition_phase_spec b :
  keeps (fun t => Round b t /\ b_stopping b = None) (transition_phase timing b)
    (fun b' t => Round b' t /\ timely_pending timing b' t).
Proof.
  unfold transition_phase. destruct (b_pending b) as [p|] eqn:Ep.
  2: { apply spec_ret. intros t [H _]. split; [exact H|]. intros q _ Hq. congruence. }
  apply now_then. intros n0.
  apply (then_spec _ _ _ (fun _ t => Round b t /\ b_stopping b = None)).
  { assert (Hc : forall t, (exists t', (Round b t' /\ b_stopping b = None) /\ t = saw_clock n0 t') -> Round b t /\ b_stopping b = None).
    { intros t (t' & [H1 H2] & ->). split; [by apply round_clock|exact H2]. }
    destruct (transition timing <=? _); [eapply spec_pre; [by apply quiet_spec|exact Hc]|apply spec_ret; intros t H; by apply Hc]. }
  intros _.
  apply (call_then _ _ _ (fun o t => match o with
    | Some o => Resolved p (match o with Applied => put_paused (p_pause p) b | _ => b end) t
    | None => Round b t /\ b_stopping b = None end)).
  { intros t o [([HB HT] & Hg & Hs) Hn]. split; [by repeat split|]. destruct o as [o|]; [|done].
    destruct HB as [Ha Hlive Hi Ht Hfr Hst Hre Hbe Hj Hfa Hfi]. destruct HT as [Hl Hpe Has Hsi].
    assert (Hr : b_running b = true).
    { destruct (b_running b) eqn:Er; [done|]. destruct (Hi eq_refl) as [Hi' _]. congruence. }
    unfold status_of in Hl. rewrite Hn, Ep in Hl. cbn in Hl.
    destruct o; (split; [split; cbn; try done; try (intros H; congruence); by rewrite (Ht p Ep)|]);
      (split; [exact Hg|]); (split; [exact Hr|]); (split; [exact Hn|]); (split; [exact Hl|]); (split; [done|]); by rewrite <- Hn. }
  intros [o|]; [apply transition_outcome_spec|].
  apply now_then. intros n. destruct (Z.leb_spec (stop_budget timing) (sat_sub n (p_started p))) as [Hle|Hlt].
  - apply quiet_then; [done|]. intros _. unfold fail_stop.
    set (b0 := put_failure_code (Some SUPERVISOR_ERROR_EXIT_CODE) b).
    apply (then_spec _ _ _ (fun b' t => exists m, b' = put_stopping (Some m) b0 /\ Base [] b0 t /\ free t /\ clock (times t) = m)).
    { apply now_then. intros m. apply spec_ret. intros t (t1 & (t2 & [([HB HT] & _) Hn] & ->) & ->). exists m. split; [done|].
      pose proof (base_clock _ _ _ m (base_clock _ _ _ n HB)) as HB'.
      split; [destruct HB'; split; cbn; try done; by intros code [= <-]|]. split; [|done]. apply (told_free _ _ HT Hn). }
    intros b'. apply (call_then _ _ _ (fun _ t => exists m, b' = put_stopping (Some m) b0 /\ Base [] b0 t /\ free t /\ clock (times t) = m)).
    { intros t [] (m & H1 & H2 & H3 & H4). split; [by repeat split|]. exists m. split; [done|]. split; [by destruct H2|done]. }
    intros _. apply (then_spec _ _ _ (fun _ t => Rel [] b' t /\ exists m, b' = put_stopping (Some m) b0)).
    { apply report_spec. intros t (m & -> & H2 & H3 & H4). destruct (stop_reported [] b0 t m H2 H3 H4) as [Hm HR].
      split; [exact Hm|]. split; [exact HR|by exists m]. }
    intros _. apply spec_ret. intros t (HR & m & ->). split; [|done]. split; [exact HR|]. by split.
  - apply spec_ret. intros t (t' & [H Hn] & ->). split; [by apply round_clock|].
    intros q _ Hq. rewrite Ep in Hq. injection Hq as <-. by apply within_read.
Qed.

Lemma request_phase_spec b :
  keeps (fun t => Round b t /\ timely_pending timing b t) (request_phase b)
    (fun b' t => Round b' t /\ timely_pending timing b' t).
Proof.
  unfold request_phase. destruct (is_none (b_pending b) && is_none (b_stopping b)) eqn:E; [|by apply spec_ret].
  apply andb_true_iff in E as [Ep Es]. unfold is_none in *.
  destruct (b_pending b) eqn:Ep'; [done|]. destruct (b_stopping b) eqn:Es'; [done|]. clear Ep Es.
  destruct (b_deferred b) as [pause|] eqn:Ed; [|by apply spec_ret].
  assert (Hr : forall t, Round b t -> b_running b = true /\ b_explicit_stop b = false).
  { intros t ([HB HT] & Hg & Hs). destruct HB. split.
    - destruct (b_running b); [done|]. destruct (base_idle0 eq_refl) as (_ & H & _). congruence.
    - destruct (b_explicit_stop b) eqn:Ee; [by destruct (Hg Ee)|done]. }
  apply (call_then _ _ _ (fun request t => exists t', Round b t' /\ t = track t' (Ev (RequestPause pause) (Ok request)))).
  { intros t request [H _]. split; [|by exists t]. destruct (Hr t H) as [Hr1 He]. destruct H as ([HB HT] & _ & _).
    destruct HB, HT. split; [|by repeat split]. split; [by apply base_live0|]. split; [|by rewrite base_stop0, He].
    by rewrite told_pending0, Ep'. }
  intros request. apply now_then. intros n.
  set (b' := put_pending (Some {| p_request := request; p_pause := pause; p_started := n |}) (put_deferred None b)).
  assert (Hrep : forall t, (exists t2, (exists t', Round b t' /\ t2 = track t' (Ev (RequestPause pause) (Ok request))) /\ t = saw_clock n t2) ->
    may_report (pending_status pause) t /\ Rel [] b' (saw_report (pending_status pause) t)
    /\ guarded b' /\ b_running b = true /\ In n (readings (times t))).
  { intros t (t2 & (t' & H & ->) & ->). destruct (Hr t' H) as [Hr1 He]. destruct H as ([HB HT] & Hg & Hs).
    destruct HB, HT. unfold status_of in told_last0. rewrite Es', Ep', Hr1 in told_last0. cbn in told_last0.
    split; [split; [|by destruct pause; repeat split]; split; [cbn; rewrite told_last0; by destruct pause; unfold settled; destruct (b_paused b)|by destruct pause]|].
    split; [|split; [exact Hg|]; split; [exact Hr1|]; cbn; apply in_or_app; right; by left].
    split; split; cbn; try done; try (intros H; congruence).
    - by intros p [= <-].
    - by rewrite base_began0.
    - unfold status_of. cbn. by rewrite Es'.
    - intros _ p [= <-]. done.
    - rewrite told_since0, Es'. by destruct pause. }
  apply report_checkpoint_spec; [intros t H; by apply Hrep|].
  intros t m H. destruct (Hrep t H) as (_ & H2 & H3 & H4 & H5). split.
  - split; [by apply rel_clock|]. split; [exact H3|]. intros Hc. cbn in Hc. congruence.
  - intros q _ [= <-]. cbn. apply within_clock. exists n. split; [exact H5|]. unfold sat_sub. lia.
Qed.

Lemma control_phase_spec cs b :
  keeps (Round b) (control_phase timing cs b) (fun b' t => Round b' t /\ timely_pending timing b' t).
Proof.
  unfold control_phase. destruct (b_stopping b) eqn:Es; cbn [is_some].
  - apply spec_ret. intros t H. split; [exact H|]. intros p Hp. congruence.
  - apply (then_spec _ _ _ (fun b' t => Round b' t /\ b_stopping b' = None)).
    { eapply spec_pre; [apply forward_controls_spec|]. by split. }
    intros b1. apply (then_spec _ _ _ (fun b' t => Round b' t /\ timely_pending timing b' t)); [apply transition_phase_spec|].
    intros b2. apply request_phase_spec.
Qed.

(** Everything that may be waited for is within its budget. *)
Definition Timely (b : Bridge) (t : Seen) : Prop :=
  Rel [] b t /\ timely_start timing b t /\ timely_pending timing b t
  /\ (forall from, b_stopping b = Some from -> within t (stop_budget timing) from).

Lemma timely_clock b t n m : Timely b t -> Timely (put_checkpoint m b) (saw_clock n t).
Proof.
  intros (HR & H1 & H2 & H3). split; [by apply rel_clock|]. split; [intros E1 E2; apply within_clock; by apply H1|].
  split; [intros p E1 E2; apply within_clock; by apply H2|]. intros from E. apply within_clock. by apply H3.
Qed.

Lemma deadline_phase_spec b :
  keeps (fun t => Round b t /\ timely_pending timing b t) (deadline_phase timing b)
    (fun x t => match x with Some e => not_stopped t /\ honest e t | None => Timely b t end).
Proof.
  unfold deadline_phase. destruct (b_stopping b) as [from|] eqn:Es.
  2: { apply spec_ret. intros t [(HR & Hg & Hs) Hp]. split; [exact HR|]. split; [exact Hs|]. split; [exact Hp|]. congruence. }
  apply now_then. intros n. destruct (Z.leb_spec (stop_budget timing) (sat_sub n from)) as [Hle|Hlt].
  - apply quiet_then; [done|]. intros _.
    apply (then_spec _ _ _ (fun a t => not_stopped t /\ stop (stops t) = a /\ forall code, b_failure_code b = Some code -> code <> 0)).
    { assert (H0 : forall t, (exists t', (Round b t' /\ timely_pending timing b t') /\ t = saw_clock n t') ->
        not_stopped t /\ stop (stops t) = b_explicit_stop b /\ forall code, b_failure_code b = Some code -> code <> 0).
      { intros t (t' & [([HB HT] & _) _] & ->). split; [exact (told_not_stopped _ _ HT)|]. destruct HB.
        cbn in *. rewrite orb_false_r in base_stop0. by split. }
      destruct (b_explicit_stop b) eqn:Ee; [apply spec_ret; intros t H; by apply H0|].
      apply spec_perform. intros t [a|[]] H. split; [by repeat split|]. destruct (H0 t H) as (H1 & H2 & H3).
      split; [exact H1|]. split; [cbn; by rewrite H2|exact H3]. }
    intros a. apply spec_ret. intros t (H1 & H2 & H3). split; [exact H1|]. unfold honest. cbn. rewrite H2. split; [by intros ->|].
    split; [|done]. destruct a; [by left|]. destruct (b_failure_code b) as [code|]; cbn; [|done].
    intros [= E]. by destruct (H3 code eq_refl).
  - apply spec_ret. intros t (t' & [(HR & Hg & Hs) Hp] & ->). pose proof (round_clock b t' n (conj HR (conj Hg Hs))) as (HR' & _ & Hs').
    split; [exact HR'|]. split; [exact Hs'|]. split; [intros p E; congruence|].
    intros f Hf. rewrite Es in Hf. injection Hf as <-. by apply within_read.
Qed.

Lemma checkpoint_phase_spec b : keeps (Timely b) (checkpoint_phase timing b) Timely.
Proof.
  unfold checkpoint_phase. apply now_then. intros n. destruct (checkpoint_every timing <=? _).
  - apply (then_spec _ _ _ (fun _ => Timely b)).
    + assert (Hc : forall t, (exists t', Timely b t' /\ t = saw_clock n t') -> Timely b t).
      { intros t (t' & H & ->). pose proof (timely_clock b t' n (b_checkpoint b) H) as H'. by destruct b. }
      destruct (checkpoint_status b) as [st|] eqn:Est; [|by apply spec_ret].
      apply report_spec. intros t Ht. apply Hc in Ht. destruct Ht as ([HB HT] & H1 & H2 & H3). destruct HB, HT.
      assert (Hst : st = status_of b).
      { unfold checkpoint_status in Est. unfold status_of. destruct (is_some (b_stopping b)); [congruence|].
        destruct (b_pending b); [congruence|]. by destruct (b_running b); [|injection Est as <-]. }
      assert (Hfol : may_follow st (last (scm t)) = true /\ (is_stop_pending st && negb (is_stop_pending (last (scm t)))) = false
        /\ st <> StRunning /\ st <> StPaused /\ (forall code, st <> StStopped code)).
      { rewrite told_last0, <- Hst. unfold checkpoint_status in Est. destruct (is_some (b_stopping b)); [by injection Est as <-|].
        destruct (b_pending b) as [p|]; [injection Est as <-; unfold pending_status; by destruct (p_pause p)|].
        by destruct (b_running b); [|injection Est as <-]. }
      destruct Hfol as (F1 & F2 & F3 & F4 & F5). split.
      * split; [|by destruct st; repeat split; try (by destruct (F5 code))]. split; [exact F1|].
        unfold checkpoint_status in Est. destruct (is_some (b_stopping b)); [by injection Est as <-|].
        destruct (b_pending b) as [p|] eqn:Ep; [injection Est as <-; unfold pending_status; pose proof (base_target0 p eq_refl) as Ht; by destruct (p_pause p)|].
        by destruct (b_running b); [|injection Est as <-].
      * split; [|by split]. split; split; cbn; try done. by rewrite F2.
    + intros _. apply now_then. intros m. apply spec_ret. intros t (t' & H & ->). by apply timely_clock.
  - apply spec_ret. intros t (t' & H & ->). pose proof (timely_clock b t' n (b_checkpoint b) H) as H'. by destruct b.
Qed.

Lemma wait_phase_spec b :
  keeps (Timely b) (wait_phase timing b) (fun b' => Rel (option_list (b_first_control b')) b').
Proof.
  unfold wait_phase. apply (call_then _ _ _ (fun p t =>
    let b' := match p with PControl c => put_first_control (Some c) b | PNothing => b | PDisconnected => put_explicit_stop true b end in
    Rel (option_list (b_first_control b')) b' t)); [|intros p; by apply spec_ret].
  intros t p ([HB HT] & H1 & H2 & H3). split.
  - split; [by repeat split|]. split; [done|]. split; [done|]. split; [done|]. rewrite (told_last _ _ HT). unfold status_of.
    destruct (b_stopping b) as [from|] eqn:Es; cbn.
    { exists from. split; [by rewrite (told_since _ _ HT)|]. by apply H3. }
    destruct (b_pending b) as [q|] eqn:Ep.
    { pose proof (told_asked _ _ HT Es q Ep) as Ha. pose proof (H2 q Es Ep) as Hw. unfold pending_status. by destruct (p_pause q); rewrite Ha. }
    destruct (b_running b) eqn:Er; [unfold settled; by destruct (b_paused b)|].
    exists (b_started b). split; [by apply (base_began _ _ _ HB)|]. by apply H1.
  - destruct HB, HT. cbn in base_stop0. rewrite orb_false_r in base_stop0. specialize (base_first0 eq_refl).
    destruct p as [c| |]; cbn; rewrite ?base_first0; (split; [|by split]); split; cbn; try done; rewrite base_stop0;
      rewrite ?orb_false_r; try done. by rewrite orb_true_r.
Qed.

Lemma bridge_round_spec b :
  keeps (Rel (option_list (b_first_control b)) b) (bridge_round timing b)
    (fun x t => match x with
                | inl e => not_stopped t /\ honest e t
                | inr b' => Rel (option_list (b_first_control b')) b' t
                end).
Proof.
  unfold bridge_round.
  apply (then_spec _ _ _ (fun x t => Rel x.1 x.2 t /\ b_first_control x.2 = None)); [apply collect_controls_spec|].
  intros [cs b1]. cbn [fst snd].
  apply (then_spec _ _ _ (Rel [])); [apply note_stop_spec|]. intros b2.
  apply (then_spec _ _ _ (Rel [])); [apply claim_phase_spec|]. intros b3.
  apply (then_spec _ _ _ (fun b t => Rel [] b t /\ guarded b)); [apply stop_phase_spec|]. intros b4.
  apply (then_spec _ _ _ (fun x t => match x with Some e => not_stopped t /\ honest e t | None => Rel [] b4 t /\ guarded b4 end)).
  { apply completion_phase_spec. }
  intros [e|]; [by apply spec_ret|].
  apply (then_spec _ _ _ (fun b => Round b)); [apply startup_phase_spec|]. intros b5.
  apply (then_spec _ _ _ (fun b t => Round b t /\ timely_pending timing b t)); [apply control_phase_spec|]. intros b6.
  apply (then_spec _ _ _ (fun x t => match x with Some e => not_stopped t /\ honest e t | None => Timely b6 t end)).
  { apply deadline_phase_spec. }
  intros [e|]; [by apply spec_ret|].
  apply (then_spec _ _ _ Timely); [apply checkpoint_phase_spec|]. intros b7.
  apply (then_spec _ _ _ (fun b => Rel (option_list (b_first_control b)) b)); [apply wait_phase_spec|]. intros b8.
  by apply spec_ret.
Qed.

Abbreviation ended := (fun x t => match x with Some e => not_stopped t /\ honest e t | None => True end) (only parsing).

Lemma bridge_loop_spec fuel b :
  keeps (Rel (option_list (b_first_control b)) b) (bridge_loop fuel timing b) ended.
Proof.
  revert b. induction fuel as [|n IH]; intros b; cbn [bridge_loop]; [by apply spec_ret|].
  apply (then_spec _ _ _ (fun x t => match x with inl e => not_stopped t /\ honest e t
                                     | inr b' => Rel (option_list (b_first_control b')) b' t end)).
  { apply bridge_round_spec. }
  intros [e|b']; [by apply spec_ret|apply IH].
Qed.

Lemma bridge_spec fuel : keeps (fun t => t = seen_init) (bridge fuel timing) ended.
Proof.
  unfold bridge. apply now_then. intros n. set (b := Build_Bridge _ _ _ _ _ _ _ _ _ _ _).
  apply (then_spec _ _ _ (fun _ => Rel [] b)); [|intros _; apply (bridge_loop_spec fuel b)].
  apply report_spec. intros t (t' & -> & ->). split; [by repeat split|]. split; by split.
Qed.

Lemma finish_spec e : keeps (fun t => not_stopped t /\ honest e t) (finish e) (fun _ _ => True).
Proof.
  assert (Hstop : forall (force : bool) code, keeps (fun t => not_stopped t /\ claimed (stops t) = true
        /\ (stop (stops t) = true -> code = 0) /\ (code = 0 -> stop (stops t) = true \/ ended_well (joined (stops t))))
      (pbind (report (StStopped code)) (fun _ => if force then perform (TerminateProcess code) else PRet (Ok tt))) (fun _ _ => True)).
  { intros force code. apply (then_spec _ _ _ (fun _ t => last (scm t) = StStopped code)).
    - apply report_spec. intros t (H1 & H2 & H3 & H4). split; [|done]. split; [|split; [by split|by repeat split]].
      split; [|done]. unfold not_stopped in H1. destruct (last (scm t)); try done. by destruct (H1 code0).
    - intros _. destruct force; [|by apply spec_ret]. apply spec_perform. intros t [[]|[]] H. split; [|done].
      split; [done|]. split; [by left|]. by repeat split. }
  unfold finish. apply (call_then _ _ _ (fun a t => not_stopped t /\ claimed (stops t) = true /\ (a = true -> stop (stops t) = true)
                                        /\ (a = false -> honest e t))).
  { intros t a [H1 H2]. split; [by repeat split|]. split; [exact H1|]. split; [done|].
    split; [intros ->; cbn; by rewrite orb_true_r|]. intros ->. destruct H2 as (A & B & C).
    unfold honest. cbn. rewrite orb_false_r. by split. }
  intros a. destruct a.
  - eapply spec_pre; [apply Hstop|]. intros t (H1 & H2 & H3 & _). split; [exact H1|]. split; [exact H2|]. split; [done|].
    intros _. left. by apply H3.
  - destruct (be_terminal e) as [code|code] eqn:Ee.
    + eapply spec_pre; [apply Hstop|]. intros t (H1 & H2 & _ & H3). destruct (H3 eq_refl) as (A & B & C).
      split; [exact H1|]. split; [exact H2|]. split; [intros Hs; specialize (A Hs); rewrite Ee in A; by injection A|].
      intros ->. by apply B.
    + apply quiet_then; [done|]. intros _. apply quiet_then; [done|]. intros _.
      apply spec_perform. intros t [[]|[]] (H1 & H2 & _ & H3). split; [|done]. destruct (H3 eq_refl) as (A & B & C).
      split; [done|]. split; [|by repeat split]. right. split; [|by apply C].
      destruct (stop (stops t)); [specialize (A eq_refl); congruence|done].
Qed.
End Phases.

Lemma service_lifecycle_spec fuel name :
  spec track (host_ok Timing_default) (fun t => t = seen_init) (service_lifecycle fuel name) (fun _ _ => True).
Proof.
  assert (Hpos : 0 < stop_budget Timing_default) by (by vm_compute).
  apply (spec_weaken _ _ _ (fun t => t = seen_init) _ _ (fun r => match r with Ok _ => fun _ => True | Err _ => fun _ => True end));
    [|done|by intros [|]].
  { unfold service_lifecycle.
    apply (then_spec Timing_default _ _ _ (fun x t => match x with Ok _ => True | Err _ => t = seen_init end) (fun _ _ => True)).
    - unfold service_main. apply quiet_then; [done|]. intros console.
      apply (then_spec _ _ _ _ (fun _ t => t = seen_init)); [destruct console; [by apply spec_ret|by apply quiet_spec]|]. intros _.
      apply quiet_then; [done|]. intros [[c|]|e]; [|by apply spec_ret..].
      apply quiet_then; [done|]. intros _.
      apply (then_spec _ _ _ _ (fun x t => match x with Some e => not_stopped t /\ honest e t | None => True end)).
      { apply (bridge_spec _ Hpos). }
      intros [e|]; [|by apply spec_ret]. apply (then_spec _ _ _ _ (fun _ _ => True)); [apply finish_spec|].
      intros _. by apply spec_ret.
    - intros [x|e]; [by apply spec_ret|]. apply quiet_then; [done|]. intros _.
      apply (call_then _ _ _ _ (fun a t => not_stopped t /\ claimed (stops t) = true /\ stop (stops t) = a)).
      { intros t a ->. split; [by repeat split|]. split; [by intros code|]. split; [done|]. by destruct a. }
      intros a. apply report_spec. intros t (H1 & H2 & H3). split; [|done]. split; [|split; [|by repeat split]].
      + split; [|done]. unfold not_stopped in H1. destruct (last (scm t)); try done. by destruct (H1 code).
      + split; [exact H2|]. rewrite H3. destruct a; [split; [done|by left]|split; done]. }
Qed.

(** ** What the SCM can rely on *)

(** C12. The host tells the SCM only what is so, in an order the SCM allows:
    nothing follows the report that it stopped; a stop that is pending is
    followed only by itself or that report; Running and Paused are reported only
    after the supervisor confirmed the start, and only as the last transition
    that was applied says; a pending pause or continue is the one that was
    requested; and a request is made only while no other is outstanding and no
    stop was seen. *)
Theorem host_status_protocol fuel name log r :
  runs (service_lifecycle fuel name) log r -> obeys track status_ok seen_init log.
Proof.
  intros Hr. destruct (service_lifecycle_spec fuel name seen_init log r eq_refl Hr) as [H _].
  eapply obeys_impl; [|exact H]. by intros t e [H' _].
Qed.


(** The host never waits on in a state that is overdue: whenever it waits,
    for a quarter of a second, some reading of the clock in the same round was
    within 60 seconds of the beginning if it is still starting, within 120
    seconds of the request if a transition is pending, and within 120 seconds of
    the stop if it is stopping. *)
Theorem host_never_overdue fuel name log r :
  runs (service_lifecycle fuel name) log r -> obeys track (wait_ok Timing_default) seen_init log.
Proof.
  intros Hr. destruct (service_lifecycle_spec fuel name seen_init log r eq_refl Hr) as [H _].
  eapply obeys_impl; [|exact H]. by intros t e (_ & _ & _ & H').
Qed.

(** ** Samples *)

(** A host that is asked to pause, and then to stop; the supervisor applies the
    pause at once and ends one poll after the stop. *)
Record Host := { h_clock : Z; h_polls : nat; h_stopped : bool; h_claimed : bool }.

Definition sample_host (X : Type) (e : RunE X) (w : Host) : result Empty_set X * Host :=
  match e with
  | CtxTryRecv => (Ok PNothing, w)
  | CtxRecvTimeout ns =>
      (Ok (match h_polls w with 1%nat => PControl CPause | 3%nat => PControl CStop | _ => PNothing end),
       Build_Host (h_clock w + ns) (S (h_polls w)) (h_stopped w || Nat.eqb (h_polls w) 3) (h_claimed w))
  | CtxReport _ => (Ok (Ok tt), w)
  | CtxStopRequested => (Ok (h_stopped w), w)
  | CtxClaimTerminal => (Ok (h_stopped w), Build_Host (h_clock w) (h_polls w) (h_stopped w) true)
  | CtxNow => (Ok (h_clock w), w)
  | TerminalIsReady => (Ok (Nat.ltb 4 (h_polls w)), w)
  | HandleFinished => (Ok (h_claimed w && Nat.ltb 5 (h_polls w)), w)
  | HandleJoin => (Ok (JReturned (Ok ReasonStopped)), w)
  | StartupTryRecv => (Ok (Some StatusRunning), w)
  | RequestPause _ => (Ok 1, w)
  | PendingOutcome _ => (Ok (Some Applied), w)
  | ReadManagedConfig _ => (Ok (Ok (Some ManagedApplicationConfig_default)), w)
  | EnsureConsole => (Ok (Ok tt), w)
  | TerminalRelease | SignalStop | SignalRotate | SignalPower _ | CancelPending _ | Diagnose _ _ | DiagFlush _
  | SpawnSupervisor _ _ | TerminateProcess _ => (Ok tt, w)
  end.

Definition sample_service : result Empty_set unit * list RunEvent :=
  (interp sample_host (service_lifecycle 50 &"web") (Build_Host 0 0 false false)).1.
Definition statuses (log : list RunEvent) : list Status :=
  omap (fun e => match e with Ev c _ => match c with CtxReport s => Some s | _ => None end end) log.

Lemma sample_service_runs : runs (service_lifecycle 50 &"web") sample_service.2 sample_service.1.
Proof. apply interp_runs. Qed.

Lemma host_status_protocol_witness :
  statuses sample_service.2 = [StStartPending; StRunning; StPausePending; StPaused; StStopPending; StStopped 0]
  /\ obeys track status_ok seen_init sample_service.2.
Proof.
  split; [vm_compute; reflexivity|]. exact (host_status_protocol 50 &"web" _ _ sample_service_runs).
Defined.


Lemma host_never_overdue_witness : obeys track (wait_ok Timing_default) seen_init sample_service.2.
Proof. exact (host_never_overdue 50 &"web" _ _ sample_service_runs). Defined.
