(* ===== verification/EventLog.v ===== *)
(** * The supervisor event log: core [paths.rs], [events.rs], supervisor [event_log.rs]

    Where the log lives, the records each lifecycle event writes, the append
    under the interprocess lock and the shift of the backups. The files are a
    map from paths to bytes; every operation on them may fail. *)

From Stdlib Require Import ZArith Lia List.
From S2P Require Import Prelude Text Model.

(** ** Files *)

(** The state the log's code reads and writes. [w_faults] says, call by call,
    which of the following operations fail, and how many bytes a failing write
    has written by then; [w_blind] which calls of [Path::exists] answer false
    because the file's metadata cannot be read; [w_waits] what the wait for the
    lock answers (with [GetLastError]). Empty lists: nothing fails. *)
Record World := {
  w_override : option rstr;      (* NGSM_PROGRAM_DATA_DIR *)
  w_program_data : option rstr;  (* ProgramData *)
  w_files : gmap rstr (list Z);
  w_faults : list (option (io_error * nat));
  w_blind : list bool;
  w_waits : list (Z * io_error);
  w_held : bool;                 (* this process holds the log's mutex *)
  w_now : rstr;                  (* the clock, as RFC 3339 *)
  w_reports : list (rstr * rstr * rstr) }.

Definition with_files (fs : gmap rstr (list Z)) (w : World) : World :=
  Build_World (w_override w) (w_program_data w) fs (w_faults w) (w_blind w) (w_waits w) (w_held w) (w_now w) (w_reports w).
Definition with_held (h : bool) (w : World) : World :=
  Build_World (w_override w) (w_program_data w) (w_files w) (w_faults w) (w_blind w) (w_waits w) h (w_now w) (w_reports w).

Abbreviation IO := (M World io_error) (only parsing).

(** The next operation's fault, if it has one. *)
Definition next_fault (w : World) : option (io_error * nat) * World :=
  (default None (head (w_faults w)),
   Build_World (w_override w) (w_program_data w) (w_files w) (tail (w_faults w)) (w_blind w) (w_waits w)
     (w_held w) (w_now w) (w_reports w)).
(** An operation that either fails without an effect or happens. *)
Definition fallible {A} (f : IO A) : IO A := fun w =>
  match next_fault w with
  | (Some (e, _), w1) => (Err e, w1)
  | (None, w1) => f w1
  end.

Definition not_found : io_error := mk_io_error KNotFound &"not found".

(** [std::fs::metadata(p)?.len()] *)
Definition metadata_len (p : rstr) : IO Z := fallible (fun w =>
  match w_files w !! p with
  | Some b => (Ok (Z.of_nat (length b)), w)
  | None => (Err not_found, w)
  end).
(** [std::fs::remove_file] *)
Definition remove_file (p : rstr) : IO unit := fallible (fun w =>
  match w_files w !! p with
  | Some _ => (Ok tt, with_files (delete p (w_files w)) w)
  | None => (Err not_found, w)
  end).
(** [std::fs::rename], which replaces the target on every platform. *)
Definition rename (from to : rstr) : IO unit := fallible (fun w =>
  match w_files w !! from with
  | Some b => (Ok tt, with_files (<[to := b]> (delete from (w_files w))) w)
  | None => (Err not_found, w)
  end).
(** [OpenOptions::new().create(true).append(true).open(p)] *)
Definition open_append (p : rstr) : IO unit := fallible (fun w =>
  (Ok tt, with_files (<[p := default [] (w_files w !! p)]> (w_files w)) w)).
(** [write_all] on a file opened to append. *)
Definition write_all (p : rstr) (bytes : list Z) : IO unit := fun w =>
  let '(f, w1) := next_fault w in
  let add n := with_files (<[p := default [] (w_files w1 !! p) ++ take n bytes]> (w_files w1)) w1 in
  match f with
  | Some (e, n) => (Err e, add n)
  | None => (Ok tt, add (length bytes))
  end.
(** [Path::exists]: false also when the metadata cannot be read. *)
Definition path_exists (p : rstr) : IO bool := fun w =>
  let w1 := Build_World (w_override w) (w_program_data w) (w_files w) (w_faults w) (tail (w_blind w)) (w_waits w)
              (w_held w) (w_now w) (w_reports w) in
  (Ok (if default false (head (w_blind w)) then false else bool_decide (is_Some (w_files w !! p))), w1).
Definition create_dir_all (p : rstr) : IO unit := fallible (fun w => (Ok tt, w)).

(** ** paths.rs *)

Definition BACKUP_RETENTION_COUNT : Z := 4.

(** [Path::join] of a relative file name: a bare drive takes no separator. *)
Definition drive_only (p : rstr) : bool :=
  match p with [d; c] => is_ascii_alphabetic d && (c =? c_colon) | _ => false end.
Definition join_path (base name : rstr) : rstr :=
  let bare := match last base with None => true | Some c => (c =? c_backslash) || (c =? c_slash) end in
  if bare || drive_only base then base ++ name else base ++ c_backslash :: name.

Definition ngsm_program_data : IO rstr := fun w =>
  match w_override w, w_program_data w with
  | Some d, _ => (create_dir_all d ;! mret d) w
  | None, Some pd => let base := join_path pd &"NGSM" in (create_dir_all base ;! mret base) w
  | None, None => (Err (mk_io_error KNotFound &"neither NGSM_PROGRAM_DATA_DIR nor ProgramData is set"), w)
  end.
Definition events_log : IO rstr :=
  let! base := ngsm_program_data in mret (join_path base &"events.log").
Definition events_log_backup : IO rstr :=
  let! base := ngsm_program_data in mret (join_path base &"events.log.1").
Definition events_log_backup_n (n : Z) : IO rstr :=
  if negb ((1 <=? n) && (n <=? BACKUP_RETENTION_COUNT))
  then mfail (mk_io_error KInvalidInput
         (&"events_log_backup_n: n must be 1..=" ++ to_dec BACKUP_RETENTION_COUNT ++ &", got " ++ to_dec n))
  else let! base := ngsm_program_data in mret (join_path base (&"events.log." ++ to_dec n)).

(** ** The lock *)

Definition FNV64_OFFSET : Z := 0xcbf29ce484222325.
Definition FNV64_PRIME : Z := 0x100000001b3.
Definition fnv1a_64 (b : list Z) : Z :=
  fold_left (fun hash byte => wrap_u64 (Z.lxor hash byte * FNV64_PRIME)) b FNV64_OFFSET.

(** The name of the mutex, from the canonical path of the log. *)
Definition mutex_name (canonical : rstr) : list Z :=
  let bytes := flat_map (fun word => [word mod 256; word / 256]) (encode_utf16 canonical) in
  encode_utf16 (&"Global\NGSM-events-" ++ to_hex_pad 16 (fnv1a_64 bytes)) ++ [0].

Definition WAIT_OBJECT_0 : Z := 0.
Definition WAIT_ABANDONED : Z := 128.
Definition WAIT_TIMEOUT : Z := 258.

(** [EventLock::acquire]: create or open the mutex, then wait for it. *)
Definition acquire : IO unit := fallible (fun w =>
  let '(answer, last_error) := default (WAIT_OBJECT_0, not_found) (head (w_waits w)) in
  let w1 := Build_World (w_override w) (w_program_data w) (w_files w) (w_faults w) (w_blind w) (tail (w_waits w))
              (w_held w) (w_now w) (w_reports w) in
  if (answer =? WAIT_OBJECT_0) || (answer =? WAIT_ABANDONED) then (Ok tt, with_held true w1)
  else (Err (if answer =? WAIT_TIMEOUT then mk_io_error KTimedOut &"event log mutex timed out" else last_error), w1)).

(** The guard is dropped on every path out of [f]. *)
Definition with_event_log_write_lock (f : IO unit) : IO unit :=
  acquire ;! fun w => let '(r, w1) := f w in (r, with_held false w1).

(** ** Append and rotation *)

Definition ROTATION_THRESHOLD_BYTES : Z := 8 * 1024 * 1024.

Definition append_one (path : rstr) (bytes : list Z) : IO unit :=
  open_append path ;! write_all path bytes.

(** One step of the shift: [events.log.i] becomes [events.log.(i+1)]. *)
Definition shift_backup (i : Z) : IO unit :=
  let! from := events_log_backup_n i in
  let! to := events_log_backup_n (i + 1) in
  let! there := path_exists from in
  if negb (there : bool) then mret tt else rename from to.

Definition maybe_rotate (active : rstr) : IO unit :=
  let! size := mtry (metadata_len active) in
  match size with
  | Err e => if bool_decide (io_error_kind e = KNotFound) then mret tt else mfail e
  | Ok size =>
      if size <? ROTATION_THRESHOLD_BYTES then mret tt
      else
        let! oldest := events_log_backup_n BACKUP_RETENTION_COUNT in
        let! removed := mtry (remove_file oldest) in
        match removed with
        | Err e => if bool_decide (io_error_kind e = KNotFound) then mret tt else mfail e
        | Ok _ => mret tt
        end ;!
        mfor_each shift_backup [3; 2; 1] ;!
        let! dest_1 := events_log_backup_n 1 in
        rename active dest_1
  end.

(** ** Writing records *)

(** The derived JSON encoding of a record, as bytes without a line end, and
    the derived decoder. *)
Class EventJson := {
  to_json : EventRecord -> result io_error (list Z);
  from_slice : list Z -> option EventRecord }.

Section Writer.
Context {J : EventJson}.

(** [Reporter::report] *)
Definition report (service operation error : rstr) : World -> World := fun w =>
  Build_World (w_override w) (w_program_data w) (w_files w) (w_faults w) (w_blind w) (w_waits w) (w_held w) (w_now w)
    (w_reports w ++ [(service, operation, error)]).

Record EventWriter := { service : rstr }.

Definition append_and_rotate (self : EventWriter) (path line : list Z) : IO unit :=
  append_one path line ;!
  let! rotated := mtry (maybe_rotate path) in
  match rotated with
  | Err e => fun w => (Ok tt, report (service self) &"event log rotation" (io_error_text e) w)
  | Ok _ => mret tt
  end.

Definition try_log (self : EventWriter) (record : EventRecord) : IO unit :=
  let! path := events_log in
  let! line := mlift (map_err (fun e => mk_io_error KInvalidData (io_error_text e)) (to_json record)) in
  with_event_log_write_lock (append_and_rotate self path (line ++ [10])).

Definition log (self : EventWriter) (record : EventRecord) (w : World) : World :=
  match try_log self record w with
  | (Err e, w1) => report (service self) &"event log write" (io_error_text e) w1
  | (Ok _, w1) => w1
  end.

Definition with_diagnostics (s : rstr) : EventWriter := {| service := s |}.

Definition started_at (self : EventWriter) (pid : Z) (t : rstr) : World -> World :=
  log self (Build_EventRecord t (service self) Started (Some pid) None None None None).
Definition restarted_at (self : EventWriter) (pid delay_ms : Z) (t : rstr) : World -> World :=
  log self (Build_EventRecord t (service self) Restarted (Some pid) None None (Some delay_ms) None).
Definition child_exited_at (self : EventWriter) (exit_code lived_ms : Z) (t : rstr) : World -> World :=
  log self (Build_EventRecord t (service self) ChildExited None (Some exit_code) (Some lived_ms) None None).
Definition throttled (self : EventWriter) (delay_ms : Z) : World -> World := fun w =>
  log self (Build_EventRecord (w_now w) (service self) Throttled None None None (Some delay_ms) None) w.
Definition stopped (self : EventWriter) (reason : StopReason) : World -> World := fun w =>
  log self (Build_EventRecord (w_now w) (service self) EvStopped None None None None (Some reason)) w.
End Writer.

(** ** Names *)

Definition data_dir (w : World) : option rstr :=
  match w_override w, w_program_data w with
  | Some d, _ => Some d
  | None, Some pd => Some (join_path pd &"NGSM")
  | None, None => None
  end.
(** The log's files: 0 is the active one, [n] the [n]th backup. *)
Definition slot (base : rstr) (n : Z) : rstr :=
  join_path base (if n =? 0 then &"events.log" else &"events.log." ++ to_dec n).
Definition content (base : rstr) (w : World) (n : Z) : list Z := default [] (w_files w !! slot base n).
(** Everything on disk, oldest first. *)
Definition history (base : rstr) (w : World) : list Z := concat (map (content base w) [4; 3; 2; 1; 0]).

Lemma join_path_inj base a b : join_path base a = join_path base b -> a = b.
Proof. unfold join_path. case_match; intros E%app_inv_head; [done|by injection E]. Qed.

Lemma slot_inj base n m : 0 <= n <= 4 -> 0 <= m <= 4 -> slot base n = slot base m -> n = m.
Proof.
  intros Hn Hm H%join_path_inj.
  assert (forallb (fun n => forallb (fun m => bool_decide
    ((if n =? 0 then &"events.log" else &"events.log." ++ to_dec n) = (if m =? 0 then &"events.log" else &"events.log." ++ to_dec m)
     -> n = m)) [0; 1; 2; 3; 4]) [0; 1; 2; 3; 4] = true) as A by (vm_compute; reflexivity).
  rewrite forallb_forall in A. specialize (A n). rewrite forallb_forall in A.
  assert (In n [0; 1; 2; 3; 4] /\ In m [0; 1; 2; 3; 4]) as [In1 In2] by (cbn; lia).
  specialize (A In1 m In2). by apply bool_decide_eq_true_1 in A; apply A.
Qed.

(** ** Calls that leave the log's files alone *)

Definition same_dir (w w' : World) : Prop :=
  w_override w' = w_override w /\ w_program_data w' = w_program_data w /\ w_blind w' = w_blind w /\ w_held w' = w_held w.
Definition quiet (w w' : World) : Prop := same_dir w w' /\ w_files w' = w_files w.

#[export] Instance same_dir_preorder : PreOrder same_dir.
Proof. split; [by intros w|]. intros a b c (?&?&?&?) (?&?&?&?). repeat split; congruence. Qed.
#[export] Instance quiet_preorder : PreOrder quiet.
Proof. split; [by intros w|]. intros a b c [H1 ?] [H2 ?]. split; [by transitivity b|congruence]. Qed.

Lemma same_dir_data w w' : same_dir w w' -> data_dir w' = data_dir w.
Proof. intros (E1 & E2 & _). unfold data_dir. by rewrite E1, E2. Qed.
Lemma quiet_content base w w' n : quiet w w' -> content base w' n = content base w n.
Proof. intros [_ E]. unfold content. by rewrite E. Qed.
Lemma quiet_history base w w' : quiet w w' -> history base w' = history base w.
Proof. intros H. unfold history. f_equal. apply map_ext. intros n. by apply quiet_content. Qed.

Lemma next_fault_quiet w : quiet w (next_fault w).2.
Proof. done. Qed.

(** An operation fails without an effect, or runs from a state that differs in the faults to come only. *)
Lemma fallible_inv {A} (f : IO A) w r w' :
  fallible f w = (r, w') ->
  (exists e, r = Err e /\ quiet w w') \/ exists w1, quiet w w1 /\ f w1 = (r, w').
Proof.
  unfold fallible. destruct (next_fault w) as [[[e n]|] w1] eqn:E; intros H.
  - left. injection H as <- <-. exists e. split; [done|]. pose proof (next_fault_quiet w). by rewrite E in *.
  - right. exists w1. split; [|done]. pose proof (next_fault_quiet w). by rewrite E in *.
Qed.

Lemma ngsm_program_data_inv w r w' :
  ngsm_program_data w = (r, w') -> quiet w w' /\ forall p, r = Ok p -> data_dir w = Some p.
Proof.
  unfold ngsm_program_data, data_dir. intros H.
  assert (forall d, (create_dir_all d ;! mret d) w = (r, w') -> quiet w w' /\ forall p, r = Ok p -> Some d = Some p) as G.
  { intros d Hd. unfold mbind in Hd. destruct (create_dir_all d w) as [r1 w1] eqn:E.
    apply fallible_inv in E as [(e' & -> & Q)|(w2 & Q & E)]; [by injection Hd as <- <-|].
    injection E as <- <-. injection Hd as <- <-. split; [done|]. by intros p [= ->]. }
  destruct (w_override w); [by apply G|]. destruct (w_program_data w); [by apply G|].
  injection H as <- <-. done.
Qed.

Lemma backup_n_inv n w r w' :
  events_log_backup_n n w = (r, w') ->
  quiet w w' /\ forall p, r = Ok p -> 1 <= n <= 4 /\ exists base, data_dir w = Some base /\ p = slot base n.
Proof.
  unfold events_log_backup_n. destruct (negb _) eqn:Hn; intros H; [by injection H as <- <-|].
  unfold mbind in H. destruct (ngsm_program_data w) as [[b|e] w1] eqn:E; apply ngsm_program_data_inv in E as [Q Hb];
    injection H as <- <-; [|done].
  split; [done|]. intros p [= <-]. bool_to_prop. unfold BACKUP_RETENTION_COUNT in *. split; [lia|]. exists b. split; [by apply Hb|].
  unfold slot. by replace (n =? 0) with false by lia.
Qed.

Lemma events_log_inv w r w' :
  events_log w = (r, w') -> quiet w w' /\ forall p, r = Ok p -> exists base, data_dir w = Some base /\ p = slot base 0.
Proof.
  unfold events_log. intros H. unfold mbind in H.
  destruct (ngsm_program_data w) as [[b|e] w1] eqn:E; apply ngsm_program_data_inv in E as [Q Hb]; injection H as <- <-; [|done].
  split; [done|]. intros p [= <-]. exists b. split; [by apply Hb|done].
Qed.

(** ** Rotation keeps what is not the oldest backup *)

(** The file at slot [i] is now at slot [i + 1]; nothing else changed. *)
Definition moved (base : rstr) (i : Z) (w w' : World) : Prop :=
  exists b, w_files w !! slot base i = Some b
    /\ w_files w' = <[slot base (i + 1) := b]> (delete (slot base i) (w_files w)).

Lemma moved_content base i w w' n :
  0 <= i <= 3 -> 0 <= n <= 4 -> moved base i w w' ->
  content base w' n = if n =? i then [] else if n =? i + 1 then content base w i else content base w n.
Proof.
  intros Hi Hn (b & Hb & E). unfold content. rewrite E, Hb. cbn [default].
  destruct (Z.eqb_spec n i) as [->|N1].
  - rewrite lookup_insert_ne, lookup_delete_eq; [done|]. intros ?%slot_inj; lia.
  - destruct (Z.eqb_spec n (i + 1)) as [->|N2]; [by rewrite lookup_insert_eq|].
    rewrite lookup_insert_ne, lookup_delete_ne; [done|..]; intros ?%slot_inj; lia.
Qed.

Lemma moved_history base i w w' :
  0 <= i <= 3 -> moved base i w w' -> content base w (i + 1) = [] -> history base w' = history base w.
Proof.
  intros Hi Hm He. unfold history. cbn [map concat].
  rewrite !(moved_content base i w w') by (done || lia).
  assert (i = 0 \/ i = 1 \/ i = 2 \/ i = 3) as [E|[E|[E|E]]] by lia; subst i; match type of He with content _ _ ?z = _ => let k := eval vm_compute in z in change z with k in * end; cbn; rewrite He; by rewrite ?app_nil_r.
Qed.

(** What one step of the shift can do. *)
Definition shifted (base : rstr) (i : Z) (w w' : World) : Prop :=
  w_files w' = w_files w \/ moved base i w w'.

Lemma shifted_content base i w w' n :
  0 <= i <= 3 -> 0 <= n <= 4 -> n <> i -> n <> i + 1 -> shifted base i w w' -> content base w' n = content base w n.
Proof.
  intros Hi Hn N1 N2 [E|Hm]; [by unfold content; rewrite E|].
  rewrite (moved_content base i w w') by done. case_match; [lia|]. case_match; [lia|done].
Qed.
Lemma shifted_history base i w w' :
  0 <= i <= 3 -> shifted base i w w' -> content base w (i + 1) = [] -> history base w' = history base w.
Proof.
  intros Hi [E|Hm] He; [|by eapply moved_history].
  unfold history. f_equal. apply map_ext. intros n. unfold content. by rewrite E.
Qed.

Lemma rename_inv base i w r w' :
  rename (slot base i) (slot base (i + 1)) w = (r, w') ->
  same_dir w w' /\ shifted base i w w' /\ (r = Ok tt -> 0 <= i <= 3 -> content base w' i = []).
Proof.
  intros H. apply fallible_inv in H as [(e & -> & Q)|(w1 & Q & H)]; [split; [apply Q|]; split; [left; apply Q|done]|].
  assert (w_files w1 = w_files w) as EF by apply Q.
  destruct (w_files w1 !! slot base i) as [b|] eqn:E; injection H as <- <-.
  - assert (moved base i w (with_files (<[slot base (i + 1) := b]> (delete (slot base i) (w_files w1))) w1)) as Hm.
    { exists b. rewrite <- EF. by split. }
    split; [apply Q|]. split; [by right|]. intros _ Hi. erewrite moved_content by (eauto; lia).
    by rewrite Z.eqb_refl.
  - split; [apply Q|]. split; [by left|done].
Qed.

Lemma shift_backup_inv base i w r w' :
  data_dir w = Some base -> w_blind w = [] -> shift_backup i w = (r, w') ->
  same_dir w w' /\ shifted base i w w' /\ (r = Ok tt -> content base w' i = []).
Proof.
  intros Hd Hb H. unfold shift_backup, mbind in H.
  destruct (events_log_backup_n i w) as [[p|e] w1] eqn:E1; apply backup_n_inv in E1 as [Q1 P1];
    [|injection H as <- <-; split; [apply Q1|]; split; [left; apply Q1|done]].
  destruct (P1 p eq_refl) as (Hi & b & Hb1 & ->). rewrite Hd in Hb1. injection Hb1 as <-.
  destruct (events_log_backup_n (i + 1) w1) as [[p|e] w2] eqn:E2; apply backup_n_inv in E2 as [Q2 P2];
    (assert (quiet w w2) as Q by (by transitivity w1)); [|injection H as <- <-; split; [apply Q|]; split; [left; apply Q|done]].
  destruct (P2 p eq_refl) as (Hi1 & b & Hb1 & ->). rewrite (same_dir_data w w1), Hd in Hb1 by apply Q1. injection Hb1 as <-.
  assert (w_blind w2 = []) as B2 by (destruct Q as [[_ [_ [B _]]] _]; congruence).
  unfold path_exists in H. rewrite B2 in H. cbn [tail head default] in H.
  match type of H with context [Build_World ?a ?b ?c ?d ?e ?f ?g ?h ?k] => set (w3 := Build_World a b c d e f g h k) in H end.
  assert (quiet w w3) as Q3. { transitivity w2; [done|]. split; [|done]. repeat split; cbn. by rewrite B2. }
  destruct (bool_decide _) eqn:Hx; cbn [negb] in H.
  - apply rename_inv in H as (S & Sh & He). destruct Q3 as [S3 F3]. split; [by transitivity w3|].
    split; [unfold shifted, moved in *; by rewrite <- F3|]. intros ->. apply He; [done|lia].
  - injection H as <- <-. split; [apply Q3|]. split; [left; apply Q3|]. intros _. unfold content.
    destruct Q3 as [_ F3]. rewrite F3. destruct Q as [_ F]. rewrite F in Hx.
    bool_to_prop. apply eq_None_not_Some in Hx. by rewrite Hx.
Qed.

(** The shifts follow one another downwards from slot [top]. *)
Fixpoint descends (top : Z) (l : list Z) : Prop :=
  match l with [] => True | i :: l' => 0 <= i <= 3 /\ i + 1 = top /\ descends i l' end.

Lemma last_cons_default (x : Z) l d d' : List.last (x :: l) d = List.last (x :: l) d'.
Proof. revert x. induction l as [|y l IH]; intros x; [done|]. apply IH. Qed.

Lemma shift_all_inv base l : forall top w r w',
  descends top l -> data_dir w = Some base -> w_blind w = [] -> content base w top = [] ->
  mfor_each shift_backup l w = (r, w') ->
  same_dir w w' /\ history base w' = history base w /\ (r = Ok tt -> content base w' (List.last l top) = []).
Proof.
  induction l as [|i l IH]; intros top w r w' Hl Hd Hb He H; cbn in H.
  - by injection H as <- <-.
  - destruct Hl as (Hi & <- & Hl). unfold mbind in H.
    destruct (shift_backup i w) as [[u|e] w1] eqn:E; apply (shift_backup_inv base) in E as (S & Sh & Hr); try done;
      apply shifted_history in Sh; try done.
    + assert (content base w1 i = []) as E1 by (by destruct u; apply Hr).
      apply (IH i) in H as (S' & Hh & Hr'); [|done| |by destruct S as [_ [_ [B _]]]; rewrite B|exact E1].
      2:{ by rewrite (same_dir_data w w1). }
      split; [by transitivity w1|]. split; [congruence|]. intros Hok. specialize (Hr' Hok).
      destruct l as [|j l]; [exact Hr'|]. change (content base w' (List.last (j :: l) (i + 1)) = []). by rewrite (last_cons_default j l _ i).
    + injection H as <- <-. done.
Qed.

Lemma remove_file_inv p w r w' :
  remove_file p w = (r, w') ->
  same_dir w w' /\ ((w_files w' = w_files w /\ forall u, r <> Ok u) \/ (r = Ok tt /\ w_files w' = delete p (w_files w))).
Proof.
  intros H. apply fallible_inv in H as [(e & -> & Q)|(w1 & Q & H)]; [split; [apply Q|]; left; split; [apply Q|done]|].
  assert (w_files w1 = w_files w) as EF by apply Q.
  destruct (w_files w1 !! p) eqn:E; injection H as <- <-; (split; [apply Q|]).
  - right. cbn. by rewrite EF.
  - by left.
Qed.

Lemma metadata_len_inv p w r w' :
  metadata_len p w = (r, w') -> quiet w w' /\ forall n, r = Ok n -> exists b, w_files w !! p = Some b /\ n = Z.of_nat (length b).
Proof.
  intros H. apply fallible_inv in H as [(e & -> & Q)|(w1 & Q & H)]; [done|].
  assert (w_files w1 = w_files w) as EF by apply Q. rewrite EF in H.
  destruct (w_files w !! p) eqn:E; injection H as <- <-; (split; [done|]); [|done]. intros n [= <-]. eauto.
Qed.

Lemma remove_oldest_history base w w' :
  w_files w' = delete (slot base 4) (w_files w) ->
  history base w = content base w 4 ++ history base w' /\ content base w' 4 = [].
Proof.
  intros E. assert (forall n, 0 <= n < 4 -> content base w' n = content base w n) as G.
  { intros n Hn. unfold content. rewrite E, lookup_delete_ne; [done|]. intros ?%slot_inj; lia. }
  assert (content base w' 4 = []) as G4 by (unfold content; by rewrite E, lookup_delete_eq).
  split; [|done]. unfold history. cbn [map concat]. rewrite (G 3), (G 2), (G 1), (G 0), G4 by lia. done.
Qed.

(** The step onto the last slot replaces whatever is there. *)
Lemma shifted_top_history base w w' :
  shifted base 3 w w' -> exists d, (d = [] \/ d = content base w 4) /\ history base w = d ++ history base w'.
Proof.
  intros [E|Hm]; [exists []; split; [by left|]; unfold history; cbn [app]; f_equal; apply map_ext; intros n; unfold content; by rewrite E|].
  exists (content base w 4). split; [by right|]. unfold history. cbn [map concat].
  rewrite !(moved_content base 3 w w') by (done || lia). done.
Qed.

Lemma shift_chain_inv base w r w' :
  data_dir w = Some base -> w_blind w = [] ->
  (mfor_each shift_backup [3; 2; 1] ;! let! dest_1 := events_log_backup_n 1 in rename (slot base 0) dest_1) w = (r, w') ->
  same_dir w w' /\ exists d, (d = [] \/ d = content base w 4) /\ history base w = d ++ history base w'.
Proof.
  intros Hd Hb H.
  change (mfor_each shift_backup [3; 2; 1]) with (shift_backup 3 ;! mfor_each shift_backup [2; 1]) in H.
  unfold mbind at 1 2 in H.
  destruct (shift_backup 3 w) as [[[]|e] w1] eqn:E1; apply (shift_backup_inv base) in E1 as (S1 & T1 & He); try done;
    apply shifted_top_history in T1 as (d & Hdd & Hh); [|injection H as <- <-; split; [done|by exists d]].
  assert (data_dir w1 = Some base) as D1 by (by rewrite (same_dir_data w w1)).
  destruct (mfor_each shift_backup [2; 1] w1) as [[[]|e] w2] eqn:E2;
    apply (shift_all_inv base [2; 1] 3) in E2 as (S2 & Hh2 & He2); try done; try (by destruct S1 as [_ [_ [-> _]]]); try (cbn; lia); try (by apply He).
  2:{ injection H as <- <-. split; [by transitivity w1|]. exists d. by rewrite Hh2. }
  assert (same_dir w w2) as S by (by transitivity w1).
  unfold mbind in H.
  destruct (events_log_backup_n 1 w2) as [[p|e] w3] eqn:E3; apply backup_n_inv in E3 as [Q3 P3];
    (assert (same_dir w w3) as S3 by (transitivity w2; [done|apply Q3]));
    (assert (history base w = d ++ history base w3) as Hh3 by (by rewrite (quiet_history base w2 w3), Hh2));
    [|injection H as <- <-; split; [done|by exists d]].
  destruct (P3 p eq_refl) as (_ & b & Hb3 & ->). rewrite (same_dir_data w w2), Hd in Hb3 by done. injection Hb3 as <-.
  change (slot base 1) with (slot base (0 + 1)) in H. apply rename_inv in H as (S4 & T4 & _).
  split; [by transitivity w3|]. exists d. split; [done|]. rewrite Hh3. f_equal. symmetry.
  eapply shifted_history; [|exact T4|]; [lia|]. change (0 + 1) with 1.
  rewrite (quiet_content base w2 w3) by done. by apply He2.
Qed.

(** Rotation drops at most the oldest backup, and that only when the active
    file has reached the threshold. *)
Definition drops (base : rstr) (w : World) (dropped : list Z) : Prop :=
  dropped = [] \/ dropped = content base w 4 /\ ROTATION_THRESHOLD_BYTES <= Z.of_nat (length (content base w 0)).

Lemma maybe_rotate_inv base w r w' :
  data_dir w = Some base -> w_blind w = [] -> maybe_rotate (slot base 0) w = (r, w') ->
  same_dir w w' /\ exists dropped, history base w = dropped ++ history base w' /\ drops base w dropped.
Proof.
  intros Hd Hb H. unfold maybe_rotate, mbind at 1, mtry at 1 in H.
  assert (forall w'', quiet w w'' -> same_dir w w'' /\ exists dropped, history base w = dropped ++ history base w'' /\ drops base w dropped) as Q0.
  { intros w'' Q. split; [apply Q|]. exists []. split; [by rewrite (quiet_history base w w'')|by left]. }
  destruct (metadata_len (slot base 0) w) as [[size|e] w1] eqn:E1; apply metadata_len_inv in E1 as [Q1 P1].
  2:{ case_match; injection H as <- <-; by apply Q0. }
  destruct (P1 size eq_refl) as (b & Hsz & ->).
  destruct (Z.ltb_spec (Z.of_nat (length b)) ROTATION_THRESHOLD_BYTES) as [|Hbig]; [injection H as <- <-; by apply Q0|].
  unfold mbind at 1 in H. destruct (events_log_backup_n BACKUP_RETENTION_COUNT w1) as [[p|e] w2] eqn:E2; apply backup_n_inv in E2 as [Q2 P2];
    (assert (quiet w w2) as Q by (by transitivity w1)); [|injection H as <- <-; by apply Q0].
  destruct (P2 p eq_refl) as (_ & b0 & Hb0 & ->). rewrite (same_dir_data w w1), Hd in Hb0 by apply Q1. injection Hb0 as <-.
  unfold mbind at 1, mtry in H. destruct (remove_file _ w2) as [rr w3] eqn:E3. apply remove_file_inv in E3 as [S3 F3].
  assert (same_dir w w3) as S by (transitivity w2; [apply Q|done]).
  (* the state after the removal: the oldest backup is gone, or all is as it was *)
  assert (exists dropped, history base w = dropped ++ history base w3 /\ drops base w (dropped ++ content base w3 4)
    /\ drops base w dropped) as (dropped & Hh & Hdr4 & Hdr).
  { assert (ROTATION_THRESHOLD_BYTES <= Z.of_nat (length (content base w 0))) by (unfold content; by rewrite Hsz).
    destruct Q as [SQ FQ]. destruct F3 as [[F3 N]|[-> F3]]; rewrite FQ in F3.
    - exists []. assert (quiet w w3) as QW by done.
      rewrite (quiet_history base w w3), (quiet_content base w w3) by done. unfold drops. auto.
    - apply remove_oldest_history in F3 as [F3 F4]. exists (content base w 4). rewrite F4, app_nil_r. unfold drops. auto. }
  assert (forall w'', quiet w3 w'' -> same_dir w w'' /\ exists dropped, history base w = dropped ++ history base w'' /\ drops base w dropped) as Q4.
  { intros w'' Q'. split; [transitivity w3; [done|apply Q']|]. exists dropped. by rewrite (quiet_history base w3 w''). }
  assert (forall m : World -> result io_error unit * World,
    m w3 = (r, w') -> (forall rr w'', m w3 = (rr, w'') -> same_dir w3 w'' /\ exists d, (d = [] \/ d = content base w3 4) /\ history base w3 = d ++ history base w'') ->
    same_dir w w' /\ exists dropped, history base w = dropped ++ history base w' /\ drops base w dropped) as G.
  { intros m Hm Hs. destruct (Hs _ _ Hm) as (S4 & d & Hd4 & Hh4). split; [by transitivity w3|]. exists (dropped ++ d).
    split; [by rewrite Hh, Hh4, app_assoc|]. destruct Hd4 as [->| ->]; [by rewrite app_nil_r|done]. }
  assert (data_dir w3 = Some base) as D3 by (by rewrite (same_dir_data w w3)).
  assert (w_blind w3 = []) as B3 by (destruct S as [_ [_ [-> _]]]; done).
  unfold mbind at 1 in H. destruct rr as [u|e].
  - eapply G; [exact H|]. intros rr w''. by apply shift_chain_inv.
  - case_bool_decide; [|injection H as <- <-; by apply Q4].
    eapply G; [exact H|]. intros rr w''. by apply shift_chain_inv.
Qed.

(** ** Appending *)

(** [written] was added to the active file; the backups are as before. *)
Definition appended (base : rstr) (written : list Z) (w w' : World) : Prop :=
  content base w' 0 = content base w 0 ++ written /\ forall n, 1 <= n <= 4 -> content base w' n = content base w n.

Lemma appended_history base written w w' : appended base written w w' -> history base w' = history base w ++ written.
Proof.
  intros [E0 E]. unfold history. cbn [map concat]. rewrite E0, (E 4), (E 3), (E 2), (E 1) by lia.
  by rewrite !app_nil_r, !app_assoc.
Qed.

Lemma insert_active_appended base w w1 written :
  w_files w1 = <[slot base 0 := content base w 0 ++ written]> (w_files w) -> appended base written w w1.
Proof.
  intros E. split; [unfold content at 1; by rewrite E, lookup_insert_eq|].
  intros n Hn. unfold content. rewrite E, lookup_insert_ne; [done|]. intros ?%slot_inj; lia.
Qed.

Lemma write_all_inv p bytes w r w' :
  write_all p bytes w = (r, w') ->
  same_dir w w' /\ exists l, l `prefix_of` bytes /\ w_files w' = <[p := default [] (w_files w !! p) ++ l]> (w_files w)
    /\ (r = Ok tt -> l = bytes).
Proof.
  unfold write_all. pose proof (next_fault_quiet w) as Q. destruct (next_fault w) as [f w1]. cbn [snd] in Q.
  destruct Q as [S F]. rewrite <- F. destruct f as [[e n]|]; intros [= <- <-]; (split; [exact S|]).
  - exists (take n bytes). split; [by exists (drop n bytes); rewrite take_drop|done].
  - exists bytes. split; [done|]. cbn. by rewrite firstn_all.
Qed.

Lemma open_append_inv p w r w' :
  open_append p w = (r, w') ->
  same_dir w w' /\ forall q, default [] (w_files w' !! q) = default [] (w_files w !! q).
Proof.
  intros H. apply fallible_inv in H as [(e & -> & Q)|(w1 & Q & H)]; [split; [apply Q|]; destruct Q as [_ ->]; done|].
  destruct Q as [S F]. injection H as <- <-. split; [exact S|]. intros q. cbn. rewrite F.
  destruct (decide (q = p)) as [->|]; [by rewrite lookup_insert_eq|by rewrite lookup_insert_ne].
Qed.

Lemma append_one_inv base bytes w r w' :
  append_one (slot base 0) bytes w = (r, w') ->
  same_dir w w' /\ exists written, written `prefix_of` bytes /\ appended base written w w' /\ (r = Ok tt -> written = bytes).
Proof.
  unfold append_one, mbind. intros H.
  destruct (open_append (slot base 0) w) as [[u|e] w1] eqn:E; apply open_append_inv in E as [S1 F1].
  - apply write_all_inv in H as (S2 & l & Hp & F2 & Hok). split; [by transitivity w1|]. exists l. split; [done|]. split; [|done].
    rewrite F1 in F2. split.
    + unfold content at 1. by rewrite F2, lookup_insert_eq.
    + intros n Hn. unfold content. rewrite F2, lookup_insert_ne; [apply F1|]. intros ?%slot_inj; lia.
  - injection H as <- <-. split; [done|]. exists []. split; [apply prefix_nil|]. split; [|done].
    split; [rewrite app_nil_r; apply F1|]. intros n _. apply F1.
Qed.

(** ** One record *)

Section WriterTheorems.
Context {J : EventJson}.

Lemma append_and_rotate_inv self base line w r w' :
  data_dir w = Some base -> w_blind w = [] ->
  append_and_rotate self (slot base 0) line w = (r, w') ->
  same_dir w w' /\ exists dropped written,
    history base w ++ written = dropped ++ history base w' /\ written `prefix_of` line /\ (r = Ok tt -> written = line)
    /\ (dropped = [] \/ dropped = content base w 4
          /\ ROTATION_THRESHOLD_BYTES <= Z.of_nat (length (content base w 0 ++ written))).
Proof.
  intros Hd Hb. unfold append_and_rotate, mbind at 1. intros H.
  destruct (append_one (slot base 0) line w) as [[[]|e] w1] eqn:E; apply append_one_inv in E as (S1 & l & Hp & Ha & Hok);
    pose proof (appended_history _ _ _ _ Ha) as Hh.
  2:{ injection H as <- <-. split; [done|]. exists [], l. rewrite Hh. auto. }
  unfold mbind, mtry in H.
  destruct (maybe_rotate (slot base 0) w1) as [rr w2] eqn:E2.
  apply maybe_rotate_inv in E2 as (S2 & d & Hh2 & Hdr); [|by rewrite (same_dir_data w w1)|by destruct S1 as [_ [_ [-> _]]]].
  assert (same_dir w w' /\ history base w' = history base w2 /\ r = Ok tt) as (S & Hh3 & ->).
  { assert (same_dir w w2) by (by transitivity w1). destruct rr; by injection H as <- <-. }
  split; [done|]. exists d, l. destruct Ha as [Ha0 Ha].
  split; [by rewrite <- Hh, Hh2, Hh3|]. split; [done|]. split; [done|].
  destruct Hdr as [->|[-> Hbig]]; [by left|right]. rewrite <- Ha0. split; [by rewrite (Ha 4)|done].
Qed.

Lemma acquire_inv w r w' :
  acquire w = (r, w') ->
  w_override w' = w_override w /\ w_program_data w' = w_program_data w /\ w_blind w' = w_blind w /\ w_files w' = w_files w
  /\ (w_held w' = w_held w \/ r = Ok tt).
Proof.
  intros H. apply fallible_inv in H as [(e & -> & [(?&?&?&?) ?])|(w1 & [(?&?&?&?) ?] & G)]; [by auto 10|].
  destruct (default _ (head (w_waits w1))) as [a le]. case_match; injection G as <- <-; cbn; auto 10.
Qed.

(** What one call may do to the log: grow it at its end by a prefix of the
    record's line, and drop the oldest backup when the active file is full. *)
Definition accounted (base : rstr) (record : EventRecord) (w : World) (r : result io_error unit) (w' : World) : Prop :=
  exists dropped written,
    history base w ++ written = dropped ++ history base w'
    /\ (dropped = [] \/ dropped = content base w 4
          /\ ROTATION_THRESHOLD_BYTES <= Z.of_nat (length (content base w 0 ++ written)))
    /\ (written = [] \/ exists line, to_json record = Ok line /\ written `prefix_of` line ++ [10])
    /\ (r = Ok tt -> exists line, to_json record = Ok line /\ written = line ++ [10]).

Lemma accounted_none base record w e w' : w_files w' = w_files w -> accounted base record w (Err e) w'.
Proof.
  intros Hf. exists [], []. rewrite app_nil_r. split; [unfold history, content; by rewrite Hf|].
  split; [by left|]. split; [by left|done].
Qed.

End WriterTheorems.

(** ** When nothing fails *)

Definition clean (w : World) : Prop := w_faults w = [] /\ w_blind w = [] /\ w_waits w = [].

Lemma clean_fallible {A} (f : IO A) w : clean w -> fallible f w = f w.
Proof. destruct w. unfold clean, fallible. cbn. intros (-> & _ & _). done. Qed.
Lemma clean_write_all p bytes w :
  clean w -> write_all p bytes w = (Ok tt, with_files (<[p := default [] (w_files w !! p) ++ bytes]> (w_files w)) w).
Proof. destruct w. unfold clean, write_all. cbn. intros (-> & _ & _). cbn. by rewrite firstn_all. Qed.
Lemma clean_path_exists p w : clean w -> path_exists p w = (Ok (bool_decide (is_Some (w_files w !! p))), w).
Proof. destruct w. unfold clean, path_exists. cbn. intros (_ & -> & _). done. Qed.
Lemma clean_acquire w : clean w -> acquire w = (Ok tt, with_held true w).
Proof. intros C. unfold acquire. rewrite clean_fallible by done. destruct w, C as (_ & _ & E). cbn in *. by subst. Qed.
Lemma clean_with_files fs w : clean w -> clean (with_files fs w).
Proof. done. Qed.

Lemma clean_program_data base w : clean w -> data_dir w = Some base -> ngsm_program_data w = (Ok base, w).
Proof.
  intros C Hd. unfold ngsm_program_data, data_dir, create_dir_all, mbind in *.
  case_match; [|case_match; [|done]]; injection Hd as <-; by rewrite clean_fallible.
Qed.
Lemma clean_events_log base w : clean w -> data_dir w = Some base -> events_log w = (Ok (slot base 0), w).
Proof. intros C Hd. unfold events_log, mbind. by rewrite (clean_program_data base). Qed.
Lemma clean_backup_n base n w :
  clean w -> data_dir w = Some base -> 1 <= n <= 4 -> events_log_backup_n n w = (Ok (slot base n), w).
Proof.
  intros C Hd Hn. unfold events_log_backup_n, mbind, BACKUP_RETENTION_COUNT, slot.
  replace (negb _) with false by lia. rewrite (clean_program_data base) by done. by replace (n =? 0) with false by lia.
Qed.

(** The shift of one backup, and the whole rotation, as functions of the files. *)
Definition shift_files (base : rstr) (i : Z) (fs : gmap rstr (list Z)) : gmap rstr (list Z) :=
  match fs !! slot base i with
  | Some b => <[slot base (i + 1) := b]> (delete (slot base i) fs)
  | None => fs
  end.
Lemma shift_files_some base i fs b :
  fs !! slot base i = Some b -> shift_files base i fs = <[slot base (i + 1) := b]> (delete (slot base i) fs).
Proof. unfold shift_files. by intros ->. Qed.
Definition rotate_files (base : rstr) (fs : gmap rstr (list Z)) : gmap rstr (list Z) :=
  shift_files base 0 (shift_files base 1 (shift_files base 2 (shift_files base 3 (delete (slot base 4) fs)))).

Lemma with_files_id w : with_files (w_files w) w = w.
Proof. by destruct w. Qed.

Lemma clean_shift base i w :
  clean w -> data_dir w = Some base -> 1 <= i <= 3 ->
  shift_backup i w = (Ok tt, with_files (shift_files base i (w_files w)) w).
Proof.
  intros C Hd Hi. unfold shift_backup, mbind.
  rewrite (clean_backup_n base i), (clean_backup_n base (i + 1)), clean_path_exists by (done || lia).
  unfold shift_files. destruct (w_files w !! slot base i) as [b|] eqn:E.
  - rewrite bool_decide_true by (by eexists). cbn [negb]. unfold rename. rewrite clean_fallible by done. by rewrite E.
  - rewrite bool_decide_false by (intros [? [=]]). cbn [negb]. by rewrite with_files_id.
Qed.

Lemma shift_lookup base i fs n :
  0 <= i <= 3 -> 0 <= n <= 4 -> fs !! slot base (i + 1) = None ->
  shift_files base i fs !! slot base n
  = if n =? i then None else if n =? i + 1 then fs !! slot base i else fs !! slot base n.
Proof.
  intros Hi Hn He. unfold shift_files. destruct (fs !! slot base i) as [b|] eqn:E.
  - destruct (Z.eqb_spec n i) as [->|N1].
    + rewrite lookup_insert_ne, lookup_delete_eq; [done|]. intros ?%slot_inj; lia.
    + destruct (Z.eqb_spec n (i + 1)) as [->|N2]; [by rewrite lookup_insert_eq|].
      rewrite lookup_insert_ne, lookup_delete_ne; [done|..]; intros ?%slot_inj; lia.
  - destruct (Z.eqb_spec n i) as [->|N1]; [done|]. by destruct (Z.eqb_spec n (i + 1)) as [->|N2].
Qed.

(** The slots above [k] hold what was one below them; slot [k] is free. *)
Definition opened (base : rstr) (fs : gmap rstr (list Z)) (k : Z) (fs' : gmap rstr (list Z)) : Prop :=
  forall m, 0 <= m <= 4 ->
    fs' !! slot base m = if m =? k then None else if k <? m then fs !! slot base (m - 1) else fs !! slot base m.

Lemma opened_shift base fs i fs' :
  0 <= i <= 3 -> opened base fs (i + 1) fs' -> opened base fs i (shift_files base i fs').
Proof.
  intros Hi Ho m Hm. rewrite shift_lookup by (try lia; rewrite Ho by lia; by rewrite Z.eqb_refl).
  rewrite !Ho by lia. repeat case_match; bool_to_prop; try lia; try done. f_equal. f_equal. lia.
Qed.

Lemma opened_oldest base fs : opened base fs 4 (delete (slot base 4) fs).
Proof.
  intros m Hm. destruct (Z.eqb_spec m 4) as [->|]; [by rewrite lookup_delete_eq|].
  rewrite lookup_delete_ne by (intros ?%slot_inj; lia). by replace (4 <? m) with false by lia.
Qed.

Lemma rotate_lookup base fs n :
  0 <= n <= 4 -> rotate_files base fs !! slot base n = if n =? 0 then None else fs !! slot base (n - 1).
Proof.
  intros Hn.
  assert (opened base fs 0 (rotate_files base fs)) as H0 by (unfold rotate_files; repeat (apply opened_shift; [lia|]); apply opened_oldest).
  rewrite H0 by done. repeat case_match; bool_to_prop; try lia; done.
Qed.

Lemma clean_rotate base w :
  clean w -> data_dir w = Some base ->
  maybe_rotate (slot base 0) w
  = (Ok tt, if Z.of_nat (length (content base w 0)) <? ROTATION_THRESHOLD_BYTES then w
            else with_files (rotate_files base (w_files w)) w).
Proof.
  intros C Hd. unfold maybe_rotate. unfold mbind at 1, mtry at 1, metadata_len. rewrite clean_fallible by done.
  unfold content. destruct (w_files w !! slot base 0) as [b|] eqn:E; cbn [default]; [change (id b) with b|by rewrite bool_decide_true].
  destruct (Z.of_nat (length b) <? ROTATION_THRESHOLD_BYTES); [done|].
  unfold mbind at 1. rewrite (clean_backup_n base BACKUP_RETENTION_COUNT) by done.
  set (w1 := with_files (delete (slot base 4) (w_files w)) w).
  assert (exists r, remove_file (slot base 4) w = (r, w1) /\ (r = Ok tt \/ r = Err not_found)) as (r & Hr & Hrr).
  { unfold remove_file. rewrite clean_fallible by done. destruct (w_files w !! slot base 4) as [b4|] eqn:E4; [eauto|].
    exists (Err not_found). unfold w1. rewrite delete_id by done. rewrite with_files_id. auto. }
  unfold mbind at 1, mtry. change BACKUP_RETENTION_COUNT with 4. rewrite Hr.
  assert (forall fs i, 1 <= i <= 3 -> shift_backup i (with_files fs w) = (Ok tt, with_files (shift_files base i fs) w)) as Hs.
  { intros fs i Hi. by rewrite (clean_shift base). }
  destruct Hrr as [-> | ->]; cbn [mfor_each]; unfold mbind, mret at 1; cbn [io_error_kind not_found];
    rewrite ?bool_decide_true by done; unfold w1, mret; rewrite !Hs by lia;
    rewrite (clean_backup_n base 1) by (done || lia); unfold rename; rewrite clean_fallible by done.
  all: assert (shift_files base 1 (shift_files base 2 (shift_files base 3 (delete (slot base 4) (w_files w)))) !! slot base 0 = Some b) as E0
    by (rewrite <- E; refine (opened_shift base (w_files w) 1 _ _ _ 0 _); [lia| |lia];
        repeat (apply opened_shift; [lia|]); apply opened_oldest).
  all: cbn [w_files with_files]; rewrite E0; unfold rotate_files; by rewrite (shift_files_some base 0 _ b).
Qed.

Lemma clean_append base bytes w :
  clean w -> append_one (slot base 0) bytes w
             = (Ok tt, with_files (<[slot base 0 := content base w 0 ++ bytes]> (w_files w)) w).
Proof.
  intros C. unfold append_one, mbind, open_append. rewrite clean_fallible, clean_write_all by done.
  cbn [w_files with_files]. by rewrite lookup_insert_eq, insert_insert_eq.
Qed.

(** The slots after one record whose line makes the active file [a]. *)
Definition after_log (a : list Z) (c : Z -> list Z) (n : Z) : list Z :=
  if Z.of_nat (length a) <? ROTATION_THRESHOLD_BYTES then if n =? 0 then a else c n
  else if n =? 0 then [] else if n =? 1 then a else c (n - 1).

Lemma clean_try_log {J : EventJson} self record base line w :
  clean w -> data_dir w = Some base -> to_json record = Ok line ->
  exists w', try_log self record w = (Ok tt, w') /\ clean w' /\ data_dir w' = Some base
    /\ forall n, 0 <= n <= 4 ->
         content base w' n = after_log (content base w 0 ++ line ++ [10]) (content base w) n.
Proof.
  intros C Hd Hj. unfold try_log, mbind at 1. rewrite (clean_events_log base) by done.
  unfold mbind at 1, mlift. rewrite Hj. cbn [map_err].
  unfold with_event_log_write_lock, mbind at 1. rewrite clean_acquire by done.
  unfold append_and_rotate, mbind at 1. rewrite clean_append by done. unfold mbind, mtry.
  set (w1 := with_files _ _).
  assert (clean w1 /\ data_dir w1 = Some base) as [C1 D1] by done.
  rewrite (clean_rotate base w1) by done. set (w2 := if (_ <? _) then w1 else _).
  exists (with_held false w2).
  assert (clean w2 /\ data_dir w2 = Some base) as [C2 D2] by (unfold w2; by case_match).
  split; [done|]. split; [done|]. split; [done|].
  intros n Hn. change (content base (with_held false w2) n) with (content base w2 n).
  assert (content base w1 0 = content base w 0 ++ line ++ [10]) as E0
    by (unfold content at 1, w1; cbn [w_files with_files]; by rewrite lookup_insert_eq).
  assert (forall m, 1 <= m <= 4 -> content base w1 m = content base w m) as E1
    by (intros m Hm; unfold content, w1; cbn [w_files with_files]; rewrite lookup_insert_ne; [done|intros ?%slot_inj; lia]).
  unfold w2, after_log. rewrite E0. case_match.
  - destruct (Z.eqb_spec n 0) as [->|]; [done|]. apply E1. lia.
  - unfold content at 1. cbn [w_files with_files]. rewrite rotate_lookup by done.
    destruct (Z.eqb_spec n 0) as [->|]; [done|]. fold (content base w1 (n - 1)).
    destruct (Z.eqb_spec n 1) as [->|]; [done|]. apply E1. lia.
Qed.

(** ** A concrete log *)

#[export] Instance EventRecord_eq_dec : EqDecision EventRecord.
Proof. solve_decision. Defined.

(** Records that differ in one character, and their encoding. *)
Definition sample (d : Z) : EventRecord := Build_EventRecord [d] [83] Started (Some 1) None None None None.
Definition sample_json : EventJson := {|
  to_json r := match ts r with
               | [d] => if bool_decide (r = sample d) && negb (d =? 10) then Ok [123; d; 125] else Err not_found
               | _ => Err not_found
               end;
  from_slice b := match b with [123; d; 125] => Some (sample d) | _ => None end |}.

Definition sample_world (faults : list (option (io_error * nat))) : World :=
  Build_World (Some [68]) None ∅ faults [] [] false [] [].

