(* ===== verification/LogReader.v ===== *)
(** * Reading the event log: gui [bounded_log.rs], [event_log_reader.rs]

    Bounded tail reads, the parse of the lines they hold, the recent events and
    the availability window with its boundary records; and that the reader sees
    what the writer of [EventLog] recorded. *)

From Stdlib Require Import ZArith Lia List.
From S2P Require Import Prelude Text Model EventLog.

Abbreviation IO := (M World io_error) (only parsing).

(** ** A stable sort: [sort_by] with [le x y] for [x] not after [y] *)

Section Sorting.
Context {A : Type} (le : A -> A -> bool).

Fixpoint insert_by (x : A) (l : list A) : list A :=
  match l with
  | [] => [x]
  | y :: r => if le x y then x :: l else y :: insert_by x r
  end.
Definition sort_by (l : list A) : list A := fold_right insert_by [] l.

Lemma insert_by_perm x l : insert_by x l ≡ₚ x :: l.
Proof. induction l as [|y l IH]; cbn; [done|]. destruct (le x y); [done|]. rewrite IH. constructor. Qed.
Lemma sort_by_perm l : sort_by l ≡ₚ l.
Proof. induction l as [|x l IH]; cbn; [done|]. by rewrite insert_by_perm, IH. Qed.

Hypothesis total : forall x y, le x y = false -> le y x = true.
Hypothesis trans : forall x y z, le x y = true -> le y z = true -> le x z = true.

Lemma insert_by_sorted x l : StronglySorted le l -> StronglySorted le (insert_by x l).
Proof.
  induction l as [|y l IH]; cbn; intros H; [by repeat constructor|]. apply StronglySorted_inv in H as [Hl Hy].
  destruct (le x y) eqn:E.
  - constructor; [by constructor|]. constructor; [by rewrite E|]. eapply Forall_impl; [exact Hy|].
    intros z Hz. cbn in *. apply Is_true_true. eapply trans; [exact E|]. by apply Is_true_true.
  - constructor; [by apply IH|]. rewrite insert_by_perm. constructor; [by apply Is_true_true, total|done].
Qed.
Lemma sort_by_sorted l : StronglySorted le (sort_by l).
Proof. induction l as [|x l IH]; cbn; [constructor|]. by apply insert_by_sorted. Qed.
End Sorting.

(** ** bounded_log.rs *)

Record Tail := { bytes : list Z; partial : bool }.

(** [read start count]: seek to [start], then [take(count).read_to_end]. *)
Definition read_tail (read : Z -> Z -> IO (list Z)) (snapshot_len budget : Z) (utf16 : bool) : IO Tail :=
  let start := sat_sub snapshot_len budget in
  let start := if utf16 && negb (start mod 2 =? 0) then start + 1 else start in
  let count := Z.min (sat_sub snapshot_len start) budget in
  let! bytes := read start count in
  mret {| bytes := bytes; partial := 0 <? start |}.

(** An open file: its bytes at the time of the read. *)
Definition read_file (b : list Z) (start count : Z) : IO (list Z) :=
  fallible (mret (take (Z.to_nat count) (drop (Z.to_nat start) b))).

(** ** event_log_reader.rs *)

(** [OffsetDateTime], as the nanoseconds since the epoch. *)
Class Clock := {
  parse_rfc3339_ts : rstr -> option Z;
  now_utc : World -> Z;
  (** hour, minute and second of an instant at an offset of so many seconds *)
  hms_at : Z -> Z -> Z * Z * Z }.

Definition newline (b : Z) : bool := b =? 10.

(** A record with its instant and its place in the log. *)
Abbreviation Entry := (Z * nat * EventRecord)%type (only parsing).
Definition instant (e : Entry) : Z := e.1.1.
Definition order (e : Entry) : nat := e.1.2.

Section Reader.
Context {J : EventJson} {T : Clock}.

(** [paths.ok()] of each: a directory that cannot be made drops the path. *)
Definition iter_log_paths : IO (list rstr) := fun w =>
  let ok (m : IO rstr) (acc : list rstr * World) :=
    let '(l, w) := acc in let '(r, w1) := m w in (match r with Ok p => l ++ [p] | Err _ => l end, w1) in
  let acc := fold_left (fun acc n => ok (events_log_backup_n n) acc) [4; 3; 2; 1] ([], w) in
  let '(l, w1) := ok events_log acc in (Ok l, w1).

(** [File::open] for reading. *)
Definition open_read (p : rstr) : IO (list Z) := fallible (fun w =>
  match w_files w !! p with Some b => (Ok b, w) | None => (Err not_found, w) end).
(** [File::metadata().len()] *)
Definition file_len (b : list Z) : IO Z := fallible (mret (Z.of_nat (length b))).

Definition read_records (read : Z -> Z -> IO (list Z)) (len budget : Z) : IO (list EventRecord) :=
  let! tail := read_tail read len budget false in
  mret (omap from_slice (drop (if partial tail then 1 else 0) (split_on newline (bytes tail)))).

Definition TAIL_BYTES : Z := 64 * 1024.

Definition parse_tail_into (p : rstr) (out : list EventRecord) : IO (list EventRecord) :=
  let! file := mtry (open_read p) in
  match file with
  | Err _ => mret out
  | Ok b =>
      let! len := mtry (file_len b) in
      match len with
      | Err _ => mret out
      | Ok len =>
          let! records := mtry (read_records (read_file b) len TAIL_BYTES) in
          mret match records with Ok records => out ++ records | Err _ => out end
      end
  end.

(** The records of a log with their instants. *)
Definition timed (l : list EventRecord) : list (Z * EventRecord) :=
  omap (fun rec => (fun t => (t, rec)) <$> parse_rfc3339_ts (ts rec)) l.

Definition recent (max : nat) (all : list EventRecord) (now : Z) : list EventRecord :=
  let parsed := List.filter (fun x : Z * EventRecord => x.1 <=? now) (timed all) in
  (take max (sort_by (fun a b => b.1 <=? a.1) parsed)).*2.

Definition read_recent (max : nat) : IO (list EventRecord) :=
  let! paths := iter_log_paths in
  let! all := mtry_fold (fun out p => parse_tail_into p out) paths [] in
  fun w => (Ok (recent max all (now_utc w)), w).

Definition MAX_FILE_BYTES : Z := 16 * 1024 * 1024.

(** [Option::is_none_or] *)
Definition is_none_or {A} (p : A -> bool) (o : option A) : bool := match o with None => true | Some a => p a end.

(** One turn of the loop. *)
Definition window_step (since now : Z) (st : gmap rstr Entry * list Entry) (x : nat * EventRecord)
    : gmap rstr Entry * list Entry :=
  let '(seeds, parsed) := st in
  let '(order, rec) := x in
  match parse_rfc3339_ts (ts rec) with
  | None => st
  | Some t =>
      if now <? t then st
      else if since <=? t then (seeds, parsed ++ [(t, order, rec)])
      else if is_none_or (fun previous => instant previous <=? t) (seeds !! ev_service rec)
           then (<[ev_service rec := (t, order, rec)]> seeds, parsed)
           else st
  end.

(** [enumerate] *)
Definition enumerate {A} (l : list A) : list (nat * A) := imap pair l.

Definition key_le (a b : Entry) : bool :=
  (instant a <? instant b) || ((instant a =? instant b) && (order a <=? order b)%nat).

(** [into_values] gives the values of a hash map in an order it chooses. *)
Context (into_values : gmap rstr Entry -> list Entry).

Definition history_window (records : list EventRecord) (since now : Z) : list EventRecord :=
  let '(seeds, parsed) := fold_left (window_step since now) (enumerate records) (∅, []) in
  (sort_by key_le (parsed ++ into_values seeds)).*2.

(** One file of [read_since]. *)
Definition read_log_file (records : list EventRecord) (p : rstr) : IO (list EventRecord) :=
  let! file := mtry (open_read p) in
  match file with
  | Err e => if bool_decide (io_error_kind e = KNotFound) then mret records else mfail e
  | Ok b =>
      let! len := file_len b in
      let! more := read_records (read_file b) len MAX_FILE_BYTES in
      mret (records ++ more)
  end.

Definition read_since (since : Z) : IO (list EventRecord) :=
  let! paths := iter_log_paths in
  let! records := mtry_fold read_log_file paths [] in
  fun w => (Ok (history_window records since (now_utc w)), w).

(** [{:02}] *)
Definition two_digits (n : Z) : rstr := if n <? 10 then 48 :: to_dec n else to_dec n.

Definition format_hms_with (t : rstr) (offset_at : Z -> option Z) : rstr :=
  match parse_rfc3339_ts t with
  | None => take 8 t
  | Some parsed =>
      let '(h, m, s) := hms_at parsed (unwrap_or 0 (offset_at parsed)) in
      two_digits h ++ &":" ++ two_digits m ++ &":" ++ two_digits s
  end.
End Reader.

(** ** Bounds of a tail read *)

(** A tail read asks the file for one range inside the captured length and
    the budget, and keeps no more than that, however the file has grown or
    shrunk meanwhile: the range is at most the budget long, ends where the captured
    file ended, begins as early as the budget allows (for UTF-16, at a code
    unit), and the tail is marked partial exactly when bytes before it were left
    out. *)
Theorem read_tail_bounded (read : Z -> Z -> IO (list Z)) len budget utf16 w t w' :
  0 <= len -> 0 <= budget ->
  read_tail read len budget utf16 w = (Ok t, w') ->
  exists start count, read start count w = (Ok (bytes t), w')
    /\ 0 <= start /\ 0 <= count <= budget
    /\ (start + count = len \/ (len < start /\ count = 0))
    /\ partial t = negb (start =? 0)
    /\ (utf16 = true -> start mod 2 = 0)
    /\ (forall s, 0 <= s -> len - s <= budget -> (utf16 = true -> s mod 2 = 0) -> start <= s).
Proof.
  intros Hl Hb. unfold read_tail, sat_sub.
  set (s0 := Z.max 0 (len - budget)). set (s := if _ : bool then s0 + 1 else s0).
  intros H. apply mbind_ok in H as (b & w1 & Hr & [= <- <-]).
  exists s, (Z.min (Z.max 0 (len - s)) budget). cbn [bytes partial].
  assert ((s = s0 /\ (utf16 = true -> s0 mod 2 = 0)) \/ (s = s0 + 1 /\ utf16 = true /\ s0 mod 2 <> 0)) as Hs.
  { unfold s. destruct utf16; cbn; [|left; done]. destruct (Z.eqb_spec (s0 mod 2) 0); cbn; [left|right]; done. }
  pose proof (Z.mod_pos_bound s0 2 ltac:(lia)). pose proof (Z.div_mod s0 2 ltac:(lia)).
  split; [exact Hr|]. split; [lia|]. split; [lia|]. split; [lia|].
  split; [destruct (Z.ltb_spec 0 s), (Z.eqb_spec s 0); cbn; lia|].
  split.
  - intros Hu. destruct Hs as [[-> He]|(-> & _ & He)]; [by apply He|].
    rewrite Z.add_mod by lia. replace (s0 mod 2) with 1 by lia. done.
  - intros x Hx Hxb He. destruct Hs as [[-> _]|(-> & Hu & Ho)]; [lia|].
    specialize (He Hu). assert (x <> s0) by (intros ->; lia). lia.
Qed.

(** ** The availability window *)

Section Window.
Context {J : EventJson} {T : Clock}.
Context (into_values : gmap rstr Entry -> list Entry).
(** The values of the map, each once, in any order. *)
Hypothesis into_values_perm : forall m, into_values m ≡ₚ (map_to_list m).*2.
Variable since now : Z.

(** The records that count, each with its instant and its place. *)
Definition entries_of (l : list (nat * EventRecord)) : list Entry :=
  omap (fun x : nat * EventRecord => match parse_rfc3339_ts (ts x.2) with
                  | Some t => if now <? t then None else Some (t, x.1, x.2)
                  | None => None
                  end) l.
Definition svc (e : Entry) : rstr := ev_service e.2.
Definition older (e : Entry) : bool := instant e <? since.

(** [e] is a service's last record before the window. *)
Definition is_seed (l : list Entry) (e : Entry) : bool :=
  older e && forallb (fun x => negb (older x && bool_decide (svc x = svc e)) || key_le x e) l.
Definition kept (l : list Entry) (e : Entry) : bool := negb (older e) || is_seed l e.

Lemma key_le_spec x y :
  key_le x y = true <-> instant x < instant y \/ instant x = instant y /\ (order x <= order y)%nat.
Proof. unfold key_le. rewrite orb_true_iff, andb_true_iff, Nat.leb_le. lia. Qed.
Lemma key_le_total x y : key_le x y = false -> key_le y x = true.
Proof. intros H%not_true_iff_false. rewrite key_le_spec in *. lia. Qed.
Lemma key_le_trans x y z : key_le x y = true -> key_le y z = true -> key_le x z = true.
Proof. rewrite !key_le_spec. lia. Qed.

(** The loop's map, as a function of the entries read so far. *)
Definition take_later (s : rstr) (acc : option Entry) (e : Entry) : option Entry :=
  if older e && bool_decide (svc e = s)
  then match acc with
       | None => Some e
       | Some previous => if instant previous <=? instant e then Some e else acc
       end
  else acc.
Definition latest (s : rstr) (l : list Entry) : option Entry := fold_left (take_later s) l None.

Lemma entries_of_app l1 l2 : entries_of (l1 ++ l2) = entries_of l1 ++ entries_of l2.
Proof. apply omap_app. Qed.
Lemma latest_app s l e : latest s (l ++ [e]) = take_later s (latest s l) e.
Proof. unfold latest. by rewrite fold_left_app. Qed.

Lemma window_loop l :
  let '(seeds, parsed) := fold_left (window_step since now) l (∅, []) in
  parsed = List.filter (fun e => negb (older e)) (entries_of l) /\ forall s, seeds !! s = latest s (entries_of l).
Proof.
  induction l as [|[n rec] l IH] using rev_ind; [done|].
  rewrite fold_left_app, entries_of_app. destruct (fold_left _ l _) as [seeds parsed]. destruct IH as [-> IH].
  cbn [fold_left window_step entries_of omap list_omap fst snd].
  destruct (parse_rfc3339_ts (ts rec)) as [t|]; [|by rewrite app_nil_r].
  destruct (now <? t); [by rewrite app_nil_r|].
  assert (older (t, n, rec) = negb (since <=? t)) as Ho by (unfold older, instant; cbn; lia).
  destruct (since <=? t) eqn:Hs; cbn [negb] in Ho.
  - rewrite List.filter_app. cbn [List.filter]. rewrite Ho. split; [done|]. intros s. rewrite IH, latest_app.
    unfold take_later. by rewrite Ho.
  - assert (forall s, latest s (entries_of l ++ [(t, n, rec)])
      = if bool_decide (ev_service rec = s)
        then if is_none_or (fun p => instant p <=? t) (latest s (entries_of l)) then Some (t, n, rec) else latest s (entries_of l)
        else latest s (entries_of l)) as Hl.
    { intros s. rewrite latest_app. unfold take_later. rewrite Ho. unfold svc. cbn [snd andb].
      case_bool_decide; [|done]. destruct (latest s (entries_of l)); [|done]. done. }
    rewrite IH, List.filter_app. cbn [List.filter]. rewrite Ho, app_nil_r.
    destruct (is_none_or _ _) eqn:Hc; (split; [done|]); intros s; rewrite Hl; case_bool_decide as E; try subst s; rewrite ?Hc; try apply IH.
    + by rewrite lookup_insert_eq.
    + rewrite lookup_insert_ne by done. apply IH.
Qed.

Definition in_order (l : list Entry) : Prop := StronglySorted (fun a b => (order a < order b)%nat) l.

Lemma in_order_app l e : in_order (l ++ [e]) -> in_order l /\ forall x, x ∈ l -> (order x < order e)%nat.
Proof.
  intros H. apply StronglySorted_app in H as (H & Hl & _). split; [done|]. intros x Hx. by apply H; [|apply list_elem_of_singleton].
Qed.

Lemma latest_spec s l : in_order l ->
  match latest s l with
  | Some e => e ∈ l /\ older e = true /\ svc e = s /\ forall x, x ∈ l -> older x = true -> svc x = s -> key_le x e = true
  | None => forall x, x ∈ l -> older x = true -> svc x <> s
  end.
Proof.
  induction l as [|e l IH] using rev_ind; intros Ho; [by intros x ?%elem_of_nil|].
  apply in_order_app in Ho as [Hl Ho]. specialize (IH Hl). rewrite latest_app. unfold take_later.
  destruct (older e) eqn:He, (bool_decide (svc e = s)) eqn:Hs; cbn [andb]; bool_to_prop.
  2-4: (destruct (latest s l) as [p|];
    [destruct IH as (I1 & I2 & I3 & I4); split; [set_solver|]; split; [done|]; split; [done|]|];
    (intros x [Hx| ->%list_elem_of_singleton]%elem_of_app; [eauto|congruence])).
  destruct (latest s l) as [p|].
  - destruct IH as (I1 & I2 & I3 & I4). destruct (Z.leb_spec (instant p) (instant e)).
    + split; [set_solver|]. split; [done|]. split; [done|]. intros x [Hx| ->%list_elem_of_singleton]%elem_of_app Hx1 Hx2; apply key_le_spec; [|lia].
      specialize (I4 x Hx Hx1 Hx2). apply key_le_spec in I4. specialize (Ho x Hx). lia.
    + split; [set_solver|]. split; [done|]. split; [done|]. intros x [Hx| ->%list_elem_of_singleton]%elem_of_app Hx1 Hx2; [eauto|].
      apply key_le_spec. lia.
  - split; [set_solver|]. split; [done|]. split; [done|]. intros x [Hx| ->%list_elem_of_singleton]%elem_of_app Hx1 Hx2; [by destruct (IH x)|].
    apply key_le_spec. lia.
Qed.

Lemma enumerate_snoc {A} (l : list A) x : enumerate (l ++ [x]) = enumerate l ++ [(length l, x)].
Proof. unfold enumerate. rewrite imap_app. cbn. by rewrite Nat.add_0_r. Qed.

Lemma entries_of_order records e : e ∈ entries_of (enumerate records) -> (order e < length records)%nat.
Proof.
  intros H. apply list_elem_of_omap in H as ([n r] & H & E).
  apply elem_of_lookup_imap in H as (i & y & [= -> ->] & Hi). apply lookup_lt_Some in Hi. cbn in E.
  destruct (parse_rfc3339_ts (ts y)) as [t|]; [|done]. destruct (now <? t); [done|]. injection E as <-. done.
Qed.

Lemma entries_in_order records : in_order (entries_of (enumerate records)).
Proof.
  induction records as [|r l IH] using rev_ind; [constructor|]. rewrite enumerate_snoc, entries_of_app.
  apply StronglySorted_app. split; [|split; [exact IH|cbn; repeat case_match; repeat constructor]].
  intros x y Hx Hy. apply entries_of_order in Hx. cbn in Hy.
  destruct (parse_rfc3339_ts (ts r)) as [t|]; [|by apply elem_of_nil in Hy].
  destruct (now <? t); [by apply elem_of_nil in Hy|]. apply list_elem_of_singleton in Hy as ->. done.
Qed.

Lemma in_order_inj l x y : in_order l -> x ∈ l -> y ∈ l -> order x = order y -> x = y.
Proof.
  induction l as [|e l IH]; intros Ho Hx Hy E; [by apply elem_of_nil in Hx|].
  apply StronglySorted_inv in Ho as [Hl He]. rewrite Forall_forall in He.
  apply elem_of_cons in Hx as [Hx|Hx]; apply elem_of_cons in Hy as [Hy|Hy]; try subst x; try subst y; [done|..|by apply IH];
    [specialize (He y Hy)|specialize (He x Hx)]; lia.
Qed.
Lemma in_order_nodup l : in_order l -> NoDup l.
Proof.
  induction l as [|e l IH]; intros Ho; [constructor|]. apply StronglySorted_inv in Ho as [Hl He]. rewrite Forall_forall in He.
  constructor; [|by apply IH]. intros H%He. lia.
Qed.

Lemma is_seed_spec l e : is_seed l e = true <->
  older e = true /\ forall x, x ∈ l -> older x = true -> svc x = svc e -> key_le x e = true.
Proof.
  unfold is_seed. rewrite andb_true_iff, forallb_forall. split; intros [H1 H2]; (split; [done|]); intros x Hx.
  - intros Ho Es. specialize (H2 x ltac:(by apply list_elem_of_In)). rewrite Ho, (bool_decide_true (svc x = svc e)) in H2 by done. done.
  - apply list_elem_of_In in Hx. destruct (older x) eqn:Ho; [|done]. case_bool_decide; [|done]. by rewrite (H2 x).
Qed.

(** The seeds are each service's last record before the window. *)
Lemma seeds_perm (l : list Entry) (seeds : gmap rstr Entry) : in_order l -> (forall s, seeds !! s = latest s l) ->
  into_values seeds ≡ₚ List.filter (is_seed l) l.
Proof.
  intros Ho Hs. rewrite into_values_perm.
  assert (forall s e, seeds !! s = Some e -> e ∈ l /\ is_seed l e = true /\ svc e = s) as Hv.
  { intros s e E. rewrite Hs in E. pose proof (latest_spec s l Ho) as L. rewrite E in L. destruct L as (L1 & L2 & L3 & L4).
    split; [done|]. split; [|done]. apply is_seed_spec. split; [done|]. intros x Hx Hox Es. apply L4; congruence. }
  apply NoDup_Permutation.
  - apply NoDup_fmap_2_strong; [|apply NoDup_map_to_list].
    intros [s1 e1] [s2 e2] H1%elem_of_map_to_list H2%elem_of_map_to_list E. cbn in E. subst e2. f_equal.
    destruct (Hv _ _ H1) as (_ & _ & <-). destruct (Hv _ _ H2) as (_ & _ & <-). done.
  - apply NoDup_ListNoDup, List.NoDup_filter, NoDup_ListNoDup. by apply in_order_nodup.
  - intros e. rewrite list_elem_of_fmap, list_elem_of_In, filter_In. split.
    + intros ([s e'] & -> & H%elem_of_map_to_list). destruct (Hv _ _ H) as (H1 & H2 & _). split; [by apply list_elem_of_In|done].
    + intros [H1%list_elem_of_In H2]. pose proof H2 as [H3 H4]%is_seed_spec.
      pose proof (latest_spec (svc e) l Ho) as L. destruct (latest (svc e) l) as [e'|] eqn:E; [|by destruct (L e H1)].
      destruct L as (L1 & L2 & L3 & L4). exists (svc e, e). split; [done|]. apply elem_of_map_to_list. rewrite Hs, E. f_equal.
      apply (in_order_inj l); try done. specialize (H4 e' L1 L2 L3). specialize (L4 e H1 H3 eq_refl). rewrite key_le_spec in *. lia.
Qed.

Lemma filter_split {A} (p q : A -> bool) l :
  List.filter p l ++ List.filter (fun x => negb (p x) && q x) l ≡ₚ List.filter (fun x => p x || q x) l.
Proof.
  induction l as [|x l IH]; cbn; [done|]. destruct (p x); cbn; [by rewrite IH|].
  destruct (q x); cbn; [|done]. by rewrite <- Permutation_middle, IH.
Qed.

(** The availability window is what its contract says, whatever order the
    hash map yields its values in: of the records that parse and are not from the
    future, exactly those inside the window and each service's last one before
    it, in the order of time, and in the order of the log where times agree. *)
Theorem history_window_spec records :
  let l := entries_of (enumerate records) in
  exists out, history_window into_values records since now = out.*2
    /\ out ≡ₚ List.filter (kept l) l /\ StronglySorted key_le out
    /\ out = sort_by key_le (List.filter (kept l) l).
Proof.
  intros l. unfold history_window. pose proof (window_loop (enumerate records)) as HL.
  destruct (fold_left _ _ _) as [seeds parsed]. destruct HL as [-> Hs]. fold l in Hs |- *.
  pose proof (entries_in_order records) as Ho. fold l in Ho.
  assert (List.filter (fun e => negb (older e)) l ++ into_values seeds ≡ₚ List.filter (kept l) l) as HP.
  { rewrite (seeds_perm l seeds Ho Hs), <- (filter_split (fun e => negb (older e)) (is_seed l) l : _ ≡ₚ List.filter (kept l) l). f_equiv.
    apply Permutation_refl'. apply filter_ext. intros e. unfold is_seed. by destruct (older e). }
  set (out := sort_by key_le _). exists out.
  assert (out ≡ₚ List.filter (kept l) l) as HPo by (unfold out; by rewrite sort_by_perm).
  assert (forall x, StronglySorted key_le (sort_by key_le x)) as HS
    by (intros x; apply sort_by_sorted; [apply key_le_total|apply key_le_trans]).
  split; [done|]. split; [done|]. split; [apply HS|].
  apply (StronglySorted_unique_strong key_le); [|apply HS..|by rewrite HPo, sort_by_perm].
  intros x y Hx Hy H1%Is_true_true H2%Is_true_true. rewrite key_le_spec in *.
  assert (forall z, z ∈ List.filter (kept l) l -> z ∈ l) as Hin by (intros z [? _]%list_elem_of_In%filter_In; by apply list_elem_of_In).
  apply (in_order_inj l); [done|..|lia]; apply Hin; [by rewrite <- HPo|by rewrite <- (sort_by_perm key_le)].
Qed.
End Window.

(** ** Concrete reads *)

Lemma read_tail_bounded_witness :
  bytes (default {| bytes := []; partial := false |}
    (match (read_tail (read_file [104; 0; 105; 0; 106; 0; 107]) 7 4 true (sample_world [])).1 with Ok t => Some t | Err _ => None end))
  = [105 + 1; 0; 107]
  /\ exists start count, (start + count = 7 \/ (7 < start /\ count = 0)) /\ start mod 2 = 0.
Proof.
  split; [vm_compute; reflexivity|].
  destruct (read_tail_bounded (read_file [104; 0; 105; 0; 106; 0; 107]) 7 4 true (sample_world [])
    {| bytes := [106; 0; 107]; partial := true |} (sample_world []) ltac:(lia) ltac:(lia) ltac:(vm_compute; reflexivity))
    as (start & count & _ & _ & _ & H1 & _ & H2 & _).
  exists start, count. split; [exact H1|by apply H2].
Defined.

Definition sample_clock : Clock := {|
  parse_rfc3339_ts t := match t with [d] => Some (86400000000000 * d) | _ => None end;
  now_utc _ := 86400000000000 * 100;
  hms_at _ _ := (0, 0, 0) |}.
Definition sample_values (m : gmap rstr Entry) : list Entry := (map_to_list m).*2.

(** Two older records, one inside the window, one from the future. *)
Lemma history_window_spec_witness :
  @history_window sample_clock sample_values [sample 60; sample 65; sample 80; sample 101] (86400000000000 * 70) (86400000000000 * 100)
  = [sample 65; sample 80]
  /\ exists out, @history_window sample_clock sample_values [sample 60; sample 65; sample 80; sample 101] (86400000000000 * 70) (86400000000000 * 100) = out.*2
     /\ StronglySorted key_le out.
Proof.
  split; [vm_compute; reflexivity|].
  destruct (@history_window_spec sample_clock sample_values (fun m => Permutation_refl _)
    (86400000000000 * 70) (86400000000000 * 100) [sample 60; sample 65; sample 80; sample 101]) as (out & H1 & _ & H2 & _).
  by exists out.
Defined.
