(* ===== verification/EventHistory.v ===== *)
(** * From the writer to the reader of the event log

    The composition of [EventLog] and [LogReader]: what any sequence of writers
    records is what the reader's history is computed from, back to the retention
    limit. *)

From Stdlib Require Import ZArith Lia List.
From S2P Require Import Prelude Text Model EventLog LogReader.

(** What the derived JSON code promises: one line per record, and decoding
    what was encoded. *)
Class EventJsonLaws (J : EventJson) : Prop := {
  json_no_newline r b : to_json r = Ok b -> ~ In 10 b;
  json_roundtrip r b : to_json r = Ok b -> from_slice b = Some r;
  json_empty : from_slice [] = None }.

Section Lines.
Context {J : EventJson} {JL : EventJsonLaws J}.

(** [b] is the lines of [rs]. *)
Definition encoded (rs : list EventRecord) (b : list Z) : Prop :=
  exists ls, Forall2 (fun r l => to_json r = Ok l) rs ls /\ b = concat (map (fun l => l ++ [10]) ls).

Lemma encoded_nil : encoded [] [].
Proof. by exists []. Qed.
Lemma encoded_empty rs : encoded rs [] -> rs = [].
Proof. intros (ls & H & E). inversion H; subst; [done|]. cbn in E. by destruct y. Qed.
Lemma encoded_snoc rs b r l : encoded rs b -> to_json r = Ok l -> encoded (rs ++ [r]) (b ++ l ++ [10]).
Proof.
  intros (ls & H & ->) Hl. exists (ls ++ [l]). split; [by apply Forall2_app; [|constructor]|].
  by rewrite map_app, concat_app; cbn; rewrite app_nil_r.
Qed.

Lemma split_on_line l b : ~ In 10 l -> split_on newline (l ++ 10 :: b) = l :: split_on newline b.
Proof.
  induction l as [|x l IH]; intros H; [done|]. cbn [app split_on].
  unfold newline at 1. replace (x =? 10) with false by (symmetry; apply Z.eqb_neq; intros ->; apply H; by left).
  rewrite IH; [done|]. intros ?. apply H. by right.
Qed.

(** Decoding the lines of a file gives its records back. *)
Lemma decode_lines rs b : encoded rs b -> omap from_slice (split_on newline b) = rs.
Proof.
  intros (ls & H & ->). induction H as [|r l rs ls Hl H IH]; cbn; [by rewrite json_empty|].
  rewrite <- app_assoc. cbn [app]. rewrite split_on_line by (by eapply json_no_newline).
  cbn. rewrite (json_roundtrip r l Hl). f_equal. exact IH.
Qed.
End Lines.

Section History.
Context {J : EventJson} {JL : EventJsonLaws J} {T : Clock}.
Context (into_values : gmap rstr Entry -> list Entry).
Variable base : rstr.

Abbreviation size n w := (Z.of_nat (length (content base w n))) (only parsing).

(** The records each slot holds, and what rotation keeps of their sizes. *)
Record Slots (w : World) (recs : Z -> list EventRecord) (dropped : list EventRecord) : Prop := {
  sl_clean : clean w;
  sl_dir : data_dir w = Some base;
  sl_lines n : 0 <= n <= 4 -> encoded (recs n) (content base w n);
  sl_active : size 0 w < ROTATION_THRESHOLD_BYTES;
  sl_backup n : 1 <= n <= 4 -> content base w n = [] \/ ROTATION_THRESHOLD_BYTES <= size n w <= MAX_FILE_BYTES;
  sl_chain n : 1 <= n <= 3 -> content base w (n + 1) <> [] -> content base w n <> [];
  sl_dropped : dropped = [] \/ forall n, 1 <= n <= 4 -> content base w n <> [] }.

(** Everything retained, oldest first. *)
Definition retained (recs : Z -> list EventRecord) : list EventRecord := concat (map recs [4; 3; 2; 1; 0]).

Lemma log_slots self r l w recs dropped :
  Slots w recs dropped -> to_json r = Ok l -> Z.of_nat (length l) < ROTATION_THRESHOLD_BYTES ->
  exists recs' dropped', Slots (log self r w) recs' dropped'
    /\ dropped' ++ retained recs' = (dropped ++ retained recs) ++ [r].
Proof.
  intros [C D L A B Ch Dr] Hj Hl.
  destruct (clean_try_log self r base l w C D Hj) as (w' & E & C' & D' & Hc).
  unfold log. rewrite E. set (a := content base w 0 ++ l ++ [10]) in *.
  assert (encoded (recs 0 ++ [r]) a) as Ha by (apply encoded_snoc; [apply L; lia|done]).
  assert (Z.of_nat (length a) <= MAX_FILE_BYTES) as Hlen.
  { unfold a. rewrite !length_app. cbn. unfold MAX_FILE_BYTES, ROTATION_THRESHOLD_BYTES in *. lia. }
  unfold after_log in Hc. destruct (Z.ltb_spec (Z.of_nat (length a)) ROTATION_THRESHOLD_BYTES) as [Hs|Hs].
  - assert (forall n, 1 <= n <= 4 -> content base w' n = content base w n) as Hn.
    { intros n Hn. rewrite Hc by lia. by replace (n =? 0) with false by lia. }
    exists (fun n => if n =? 0 then recs 0 ++ [r] else recs n), dropped. split.
    + split; try done.
      * intros n Hn'. rewrite Hc by done. destruct (Z.eqb_spec n 0); [done|]. by apply L.
      * rewrite Hc by lia. done.
      * intros n Hn'. rewrite Hn by done. by apply B.
      * intros n Hn'. rewrite !Hn by lia. by apply Ch.
      * destruct Dr as [->|Dr]; [by left|right]. intros n Hn'. rewrite Hn by done. by apply Dr.
    + unfold retained. cbn. by rewrite !app_nil_r, !app_assoc.
  - assert (a <> []) as Hne by (intros E0; rewrite E0 in Hs; done).
    exists (fun n => if n =? 0 then [] else if n =? 1 then recs 0 ++ [r] else recs (n - 1)), (dropped ++ recs 4). split.
    + split; try done.
      * intros n Hn. rewrite Hc by done. destruct (Z.eqb_spec n 0); [apply encoded_nil|].
        destruct (Z.eqb_spec n 1); [done|]. apply L. lia.
      * rewrite Hc by lia. done.
      * intros n Hn. rewrite Hc by lia. replace (n =? 0) with false by lia.
        destruct (Z.eqb_spec n 1); [right; lia|]. apply B. lia.
      * intros n Hn. rewrite !Hc by lia. replace (n =? 0) with false by lia. replace (n + 1 =? 0) with false by lia.
        replace (n + 1 =? 1) with false by lia. destruct (Z.eqb_spec n 1); [done|].
        replace (n + 1 - 1) with (n - 1 + 1) by lia. apply Ch. lia.
      * destruct (content base w 4) as [|x b4] eqn:E4.
        { assert (recs 4 = []) as -> by (apply encoded_empty; rewrite <- E4; apply L; lia). rewrite app_nil_r.
          destruct Dr as [->|Dr]; [by left|]. by destruct (Dr 4 ltac:(lia)). }
        right. assert (content base w 3 <> [] /\ content base w 2 <> [] /\ content base w 1 <> []) as (N3 & N2 & N1).
        { assert (content base w 3 <> []) by (apply (Ch 3); [lia|]; change (3 + 1) with 4; by rewrite E4).
          assert (content base w 2 <> []) by (by apply (Ch 2); [lia|]). split; [done|]. split; [done|]. by apply (Ch 1); [lia|]. }
        intros n Hn. rewrite Hc by lia. replace (n =? 0) with false by lia.
        destruct (Z.eqb_spec n 1); [done|].
        assert (n = 2 \/ n = 3 \/ n = 4) as [E'|[E'|E']] by lia; subst n; done.
    + unfold retained. cbn. by rewrite !app_nil_r, !app_assoc.
Qed.

(** ** Reading it back *)

Lemma clean_paths w : clean w -> data_dir w = Some base ->
  iter_log_paths w = (Ok (map (slot base) [4; 3; 2; 1; 0]), w).
Proof.
  intros C D. unfold iter_log_paths. cbn [fold_left].
  rewrite !(clean_backup_n base), (clean_events_log base) by (done || lia). done.
Qed.

Lemma clean_read_file recs rs w n :
  clean w -> encoded rs (content base w n) -> size n w <= MAX_FILE_BYTES ->
  read_log_file recs (slot base n) w = (Ok (recs ++ rs), w).
Proof.
  intros C He Hs. unfold read_log_file, mbind at 1, mtry, open_read. rewrite clean_fallible by done.
  unfold content in *. destruct (w_files w !! slot base n) as [b|]; cbn [default] in *.
  - change (id b) with b in *. unfold file_len, mbind at 1. rewrite clean_fallible by done.
    unfold mbind at 1, mret at 1, read_records, read_tail, read_file.
    replace (sat_sub (Z.of_nat (length b)) MAX_FILE_BYTES) with 0 by (unfold sat_sub; lia). cbn [andb].
    unfold mbind at 1 2. rewrite clean_fallible by done. unfold mret. cbn [partial bytes Z.ltb Z.compare drop].
    replace (Z.to_nat _) with (length b) by (unfold sat_sub; lia). rewrite drop_0, firstn_all. by rewrite (decode_lines rs).
  - rewrite bool_decide_true by done. apply encoded_empty in He as ->. by rewrite app_nil_r.
Qed.

Lemma clean_read_since since w recs dropped :
  Slots w recs dropped ->
  read_since into_values since w = (Ok (history_window into_values (retained recs) since (now_utc w)), w).
Proof.
  intros [C D L A B Ch Dr]. unfold read_since, mbind at 1. rewrite clean_paths by done.
  assert (forall acc n, 0 <= n <= 4 -> read_log_file acc (slot base n) w = (Ok (acc ++ recs n), w)) as Hr.
  { intros acc n Hn. apply clean_read_file; [done|by apply L|]. destruct (Z.eqb_spec n 0) as [->|].
    - unfold MAX_FILE_BYTES, ROTATION_THRESHOLD_BYTES in *. lia.
    - destruct (B n ltac:(lia)) as [->|]; [done|lia]. }
  cbn [map mtry_fold]. unfold mbind. rewrite !Hr by lia. cbn [app]. unfold mret.
  unfold retained. cbn. by rewrite !app_nil_r, !app_assoc.
Qed.

Lemma log_all_slots items w recs dropped :
  Slots w recs dropped ->
  Forall (fun x : EventWriter * EventRecord =>
            exists l, to_json x.2 = Ok l /\ Z.of_nat (length l) < ROTATION_THRESHOLD_BYTES) items ->
  exists recs' dropped', Slots (fold_left (fun w x => log x.1 x.2 w) items w) recs' dropped'
    /\ dropped' ++ retained recs' = (dropped ++ retained recs) ++ items.*2.
Proof.
  intros H HF. revert w recs dropped H. induction HF as [|[self r] items (l & Hj & Hl) HF IH]; intros w recs dropped H.
  - exists recs, dropped. by rewrite app_nil_r.
  - destruct (log_slots self r l w recs dropped H Hj Hl) as (recs1 & dropped1 & H1 & E1).
    destruct (IH _ _ _ H1) as (recs2 & dropped2 & H2 & E2). exists recs2, dropped2. split; [done|].
    rewrite E2, E1. by rewrite <- app_assoc.
Qed.

Lemma slots_start w : clean w -> data_dir w = Some base -> (forall n, 0 <= n <= 4 -> content base w n = []) ->
  Slots w (fun _ => []) [].
Proof.
  intros C D E. split; try done.
  - intros n Hn. rewrite E by done. apply encoded_nil.
  - by rewrite E by lia.
  - intros n Hn. left. apply E. lia.
  - intros n Hn. by rewrite E by lia.
  - by left.
Qed.

(** C26. End to end: when the disk works, whatever sequence of supervisors
    writes whatever records (each of less than 8 MiB) to an empty log, the
    history a reader computes is that of the records written, in the order they
    were written; at most the oldest of them are missing, and then at least 32
    MiB are retained. *)
Theorem reader_sees_log items since w :
  clean w -> data_dir w = Some base -> (forall n, 0 <= n <= 4 -> content base w n = []) ->
  Forall (fun x : EventWriter * EventRecord =>
            exists l, to_json x.2 = Ok l /\ Z.of_nat (length l) < ROTATION_THRESHOLD_BYTES) items ->
  let w' := fold_left (fun w x => log x.1 x.2 w) items w in
  exists k, (k = 0%nat \/ 4 * ROTATION_THRESHOLD_BYTES <= Z.of_nat (length (history base w')))
    /\ read_since into_values since w' = (Ok (history_window into_values (drop k items.*2) since (now_utc w')), w').
Proof.
  intros C D E HF w'. destruct (log_all_slots items w _ _ (slots_start w C D E) HF) as (recs & dropped & H & Er).
  fold w' in H. cbn [app retained map concat] in Er. exists (length dropped). split.
  - destruct (sl_dropped _ _ _ H) as [->|Hd]; [by left|right].
    assert (forall n, 1 <= n <= 4 -> ROTATION_THRESHOLD_BYTES <= size n w') as Hb.
    { intros n Hn. destruct (sl_backup _ _ _ H n Hn) as [E0|?]; [by destruct (Hd n Hn)|lia]. }
    unfold history. cbn [map concat]. rewrite !length_app.
    pose proof (Hb 1 ltac:(lia)). pose proof (Hb 2 ltac:(lia)). pose proof (Hb 3 ltac:(lia)). pose proof (Hb 4 ltac:(lia)). lia.
  - rewrite <- Er, drop_app_length. by apply (clean_read_since since w' recs dropped).
Qed.
End History.

(** ** Two supervisors and a reader *)

#[export] Instance sample_json_laws : EventJsonLaws sample_json.
Proof.
  assert (forall r b, @to_json sample_json r = Ok b -> exists d, r = sample d /\ b = [123; d; 125] /\ d <> 10) as H.
  { intros r b. cbn. destruct (ts r) as [|d [|]]; try done. case_bool_decide; [|done]. destruct (Z.eqb_spec d 10); [done|].
    intros [= <-]. by exists d. }
  split.
  - intros r b (d & _ & -> & Hd)%H [E|[E|[E|[]]]]; congruence.
  - intros r b (d & -> & -> & _)%H. done.
  - done.
Qed.

Definition two_writers : list (EventWriter * EventRecord) :=
  [(with_diagnostics [83], sample 60); (with_diagnostics [84], sample 65); (with_diagnostics [83], sample 80)].

Lemma reader_sees_log_witness :
  exists k, @read_since sample_json sample_clock sample_values (86400000000000 * 70)
      (fold_left (fun w x => @log sample_json x.1 x.2 w) two_writers (sample_world []))
    = (Ok (@history_window sample_clock sample_values (drop k [sample 60; sample 65; sample 80]) (86400000000000 * 70) (86400000000000 * 100)),
       fold_left (fun w x => @log sample_json x.1 x.2 w) two_writers (sample_world [])).
Proof.
  destruct (@reader_sees_log sample_json sample_json_laws sample_clock sample_values [68] two_writers (86400000000000 * 70) (sample_world []))
    as (k & _ & Hk); [done|done| | |by exists k].
  - intros n Hn. unfold content. cbn [w_files sample_world]. by rewrite lookup_empty.
  - unfold two_writers. repeat constructor; (eexists; split; [reflexivity|done]).
Defined.
