(* ===== verification/Metrics.v ===== *)
(** * Dashboard metrics: gui [metrics.rs]

    Counts of services and their availability over thirty days, computed from
    the services and the event history. Instants are nanoseconds since the
    epoch in UTC; percentages are IEEE 754 single-precision numbers, executed
    by the Standard Library's specification of floating point. *)

From Stdlib Require Import ZArith Lia List SpecFloat.
From S2P Require Import Prelude Text Model EventLog LogReader.

(** ** [f32] *)

Abbreviation f32 := spec_float (only parsing).
Definition f32_of (n : Z) : f32 := binary_normalize 24 128 n 0 false.
Definition f32_add : f32 -> f32 -> f32 := SFadd 24 128.
Definition f32_mul : f32 -> f32 -> f32 := SFmul 24 128.
Definition f32_div : f32 -> f32 -> f32 := SFdiv 24 128.
Definition f32_clamp (x lo hi : f32) : f32 :=
  let x := if SFltb x lo then lo else x in if SFltb hi x then hi else x.
Definition f32_sum (l : list f32) : f32 := fold_left f32_add l (f32_of 0).
(** [x.ceil() as i64] *)
Definition f32_ceil (x : f32) : Z :=
  let sat z := Z.max (- 2 ^ 63) (Z.min (2 ^ 63 - 1) z) in
  match x with
  | S754_zero _ | S754_nan => 0
  | S754_infinity s => sat (if s then - 2 ^ 63 else 2 ^ 63)
  | S754_finite s m e =>
      let m := if s then Z.neg m else Z.pos m in
      sat (if 0 <=? e then m * 2 ^ e else - (- m / 2 ^ (- e)))
  end.

(** ** Durations *)

Definition NS_PER_MS : Z := 1000000.
Definition NS_PER_SEC : Z := 1000000000.
Definition NS_PER_DAY : Z := 86400 * NS_PER_SEC.
Definition whole_milliseconds (d : Z) : Z := Z.quot d NS_PER_MS.
Definition whole_seconds (d : Z) : Z := Z.quot d NS_PER_SEC.

Record DashboardMetrics := {
  total : Z; running : Z; stopped : Z; manual_start : Z; failed : Z; auto_recovering : Z;
  availability_pct : f32; availability_window_days : Z; availability_daily : list f32;
  availability_unknown : bool }.

Abbreviation TimedEvent := (Z * EventRecord)%type (only parsing).
Abbreviation ServiceEvents := (gmap rstr (list (Z * EventRecord))) (only parsing).

(** ** Which service an event is of *)

(** [compare_string_ordinal left right]: [CompareStringOrdinal] finds two
    counted strings equal when it ignores case by the operating system's table. *)
Definition ordinal_name_eq (compare_string_ordinal : list Z -> list Z -> bool) (left right : list Z) : bool :=
  if negb (length left =? length right)%nat then false else compare_string_ordinal left right.

Section Grouping.
Variable compare : list Z -> list Z -> bool.

Definition service_name (def : ServiceDefinition) : rstr := name (native def).

Definition managed_names (defs : list ServiceDefinition) : list (rstr * list Z) :=
  map (fun def => (service_name def, encode_utf16 (service_name def))) (List.filter is_managed defs).

(** What is inserted for a name seen for the first time. *)
Definition resolve_alias (names : list (rstr * list Z)) (service : rstr) : option rstr :=
  let candidate := take 257 (encode_utf16 service) in
  if is_empty candidate || (256 <? Z.of_nat (length candidate)) then None
  else fst <$> List.find (fun n : rstr * list Z => compare candidate n.2) names.

(** One event: the cached alias, or a new one, and the service's list. *)
Definition group_step (names : list (rstr * list Z)) (st : gmap rstr (option rstr) * ServiceEvents) (e : TimedEvent)
    : gmap rstr (option rstr) * ServiceEvents :=
  let '(aliases, grouped) := st in
  let service := ev_service e.2 in
  let canonical := default (resolve_alias names service) (aliases !! service) in
  let aliases := <[service := canonical]> aliases in
  match canonical with
  | Some name => (aliases, <[name := default [] (grouped !! name) ++ [e]]> grouped)
  | None => (aliases, grouped)
  end.

Definition group_service_events (defs : list ServiceDefinition) (events : list TimedEvent) : ServiceEvents :=
  let names := managed_names defs in
  if is_empty names then ∅
  else
    let aliases := fold_left (fun m (n : rstr * list Z) => <[n.1 := Some n.1]> m) names ∅ in
    (fold_left (group_step names) events (aliases, ∅)).2.
End Grouping.

(** ** Up and down *)

Record ServiceTimeline := { tl_window_start : Z; tl_intervals : list (Z * Z) }.

Definition starts (k : EventKind) : bool := match k with Started | Restarted => true | _ => false end.

(** One event of the loop: the intervals so far and [up_since]. *)
Definition interval_step (start : Z) (st : list (Z * Z) * option Z) (e : TimedEvent) : list (Z * Z) * option Z :=
  let '(intervals, up_since) := st in
  let t := Z.max e.1 start in
  if starts (ev_event e.2)
  then (intervals, match up_since with None => Some (Z.max t start) | Some s => Some s end)
  else match up_since with
       | Some s => (if s <? t then intervals ++ [(s, t)] else intervals, None)
       | None => (intervals, None)
       end.

Definition live_state (s : option ServiceState) : bool :=
  match s with
  | Some (Running | Paused | PausePending | ContinuePending | StopPending) => true
  | _ => false
  end.

Definition build_up_intervals (events : list TimedEvent) (start now : Z) (state : option ServiceState)
    : list (Z * Z) * bool :=
  let '(intervals, up_since) := fold_left (interval_step start) events ([], None) in
  match up_since with
  | Some s => if live_state state then (if s <? now then intervals ++ [(s, now)] else intervals, false)
              else (intervals, true)
  | None => (intervals, false)
  end.

Definition def_state (def : ServiceDefinition) : option ServiceState := state <$> runtime def.

(** One managed service. *)
Definition timeline_step (events : ServiceEvents) (window_start now : Z)
    (st : list ServiceTimeline * bool) (def : ServiceDefinition) : list ServiceTimeline * bool :=
  let '(out, unknown) := st in
  match events !! service_name def with
  | None | Some [] => (out, true)
  | Some (first :: rest) =>
      let svc_window_start := Z.max first.1 window_start in
      if now <=? svc_window_start then (out, true)
      else
        let '(intervals, uncertain_tail) := build_up_intervals (first :: rest) svc_window_start now (def_state def) in
        (out ++ [{| tl_window_start := svc_window_start; tl_intervals := intervals |}], unknown || uncertain_tail)
  end.

Definition build_service_timelines (defs : list ServiceDefinition) (events : ServiceEvents) (window_start now : Z)
    : list ServiceTimeline * bool :=
  fold_left (timeline_step events window_start now) (List.filter is_managed defs) ([], false).

(** ** Availability *)

Definition up_ms_in_window (intervals : list (Z * Z)) (win_start win_end : Z) : f32 :=
  fold_left (fun total (i : Z * Z) =>
    let cs := Z.max i.1 win_start in
    let ce := Z.min i.2 win_end in
    if cs <? ce then f32_add total (f32_of (Z.max (whole_milliseconds (ce - cs)) 0)) else total)
    intervals (f32_of 0).

(** [(up / len * 100.0).clamp(0.0, 100.0)] *)
Definition percent (up_ms len : f32) : f32 := f32_clamp (f32_mul (f32_div up_ms len) (f32_of 100)) (f32_of 0) (f32_of 100).
Definition mean (ratios : list f32) : f32 := f32_div (f32_sum ratios) (f32_of (Z.of_nat (length ratios))).

Definition timeline_percent (now : Z) (t : ServiceTimeline) : f32 :=
  let window_len := f32_of (Z.max (whole_milliseconds (now - tl_window_start t)) 1) in
  percent (up_ms_in_window (tl_intervals t) (tl_window_start t) now) window_len.

Definition compute_availability (timelines : list ServiceTimeline) (window_start now : Z) : f32 * Z :=
  let ratios := map (timeline_percent now) timelines in
  let earliest := fold_left (fun (e : option Z) t =>
    Some (match e with None => tl_window_start t | Some prev => Z.min prev (tl_window_start t) end)) timelines None in
  let aggregate_pct := if is_empty ratios then f32_of 100 else mean ratios in
  let window_days :=
    match earliest with
    | None => 30
    | Some t =>
        let span := now - Z.max t window_start in
        let days := f32_ceil (f32_div (f32_of (whole_seconds span)) (f32_of 86400)) in
        Z.max 1 (Z.min 30 days)
    end in
  (aggregate_pct, window_days).

(** One day's bucket, if a timeline covers it. *)
Definition day_percent (day_start day_end : Z) (t : ServiceTimeline) : option f32 :=
  if day_end <=? tl_window_start t then None
  else
    let effective_start := Z.max day_start (tl_window_start t) in
    let bucket_len := f32_of (Z.max (whole_milliseconds (day_end - effective_start)) 1) in
    Some (percent (up_ms_in_window (tl_intervals t) effective_start day_end) bucket_len).

Definition day_step (timelines : list ServiceTimeline) (now : Z) (out : list f32) (i : Z) : list f32 :=
  let today_start := now - now mod NS_PER_DAY in
  let day_start := today_start - i * NS_PER_DAY in
  let day_end := Z.min (day_start + NS_PER_DAY) now in
  let ratios := omap (day_percent day_start day_end) timelines in
  out ++ [if is_empty ratios then List.last out (f32_of 0) else mean ratios].

Definition compute_daily_sparkline (timelines : list ServiceTimeline) (now : Z) : list f32 :=
  fold_left (day_step timelines now) (map (fun i => 29 - i) (seqZ 0 30)) [].

(** ** Counts *)

Section Classification.
Context {T : Clock}.

Definition classify_failed (state : option ServiceState) (last : option EventRecord) (now : Z) : bool :=
  if negb (bool_decide (state = Some Stopped)) then false
  else match last with
       | None => false
       | Some rec =>
           if negb (bool_decide (ev_event rec = ChildExited)) then false
           else match ev_exit_code rec with
                | None | Some 0 => false
                | Some _ =>
                    match parse_rfc3339_ts (ts rec) with
                    | None => false
                    | Some t => if now <? t then false else now - t <=? NS_PER_DAY
                    end
                end
       end.

Definition classify_auto_recovering (state : option ServiceState) (last : option EventRecord) (now : Z) : bool :=
  match state with
  | Some (Running | StartPending) =>
      match last with
      | None => false
      | Some rec =>
          match parse_rfc3339_ts (ts rec) with
          | None => false
          | Some t =>
              if now <? t then false
              else
                let wait_ms := match ev_delay_ms rec with
                               | Some ms => sat_add_u64 (Z.min ms u32_max) 30000
                               | None => 5 * 60 * 1000
                               end in
                bool_decide (ev_event rec = Throttled) && (whole_milliseconds (now - t) <=? wait_ms)
          end
      end
  | _ => false
  end.

Record Counts := { c_total : Z; c_running : Z; c_stopped : Z; c_manual_start : Z; c_failed : Z; c_auto_recovering : Z }.

Definition bump (b : bool) (n : Z) : Z := if b then n + 1 else n.

Definition count_step (events : ServiceEvents) (now : Z) (c : Counts) (def : ServiceDefinition) : Counts :=
  let state := def_state def in
  let is_stopped := bool_decide (state = Some Stopped) in
  let last := snd <$> (events !! service_name def ≫= last) in
  {| c_total := c_total c + 1;
     c_running := bump (bool_decide (state = Some Running)) (c_running c);
     c_stopped := bump is_stopped (c_stopped c);
     c_manual_start := bump (is_stopped && bool_decide (startup (native def) = Manual)) (c_manual_start c);
     c_failed := bump (classify_failed state last now) (c_failed c);
     c_auto_recovering := bump (classify_auto_recovering state last now) (c_auto_recovering c) |}.

Definition compute_counts (defs : list ServiceDefinition) (events : ServiceEvents) (now : Z) : Counts :=
  fold_left (count_step events now) (List.filter is_managed defs) (Build_Counts 0 0 0 0 0 0).

(** ** The whole *)

Definition ts_le (a b : TimedEvent) : bool := a.1 <=? b.1.
Definition WINDOW : Z := 30 * NS_PER_DAY.

Definition compute_metrics (compare_string_ordinal : list Z -> list Z -> bool)
    (defs : list ServiceDefinition) (events : list EventRecord) (now : Z) : DashboardMetrics :=
  let events := sort_by ts_le (List.filter (fun e : TimedEvent => e.1 <=? now) (timed events)) in
  let events := group_service_events (ordinal_name_eq compare_string_ordinal) defs events in
  let counts := compute_counts defs events now in
  let window_start := now - WINDOW in
  let '(timelines, unknown) := build_service_timelines defs events window_start now in
  let '(aggregate_pct, window_days) := compute_availability timelines window_start now in
  let unknown := unknown || (c_total counts =? 0) in
  {| total := c_total counts; running := c_running counts; stopped := c_stopped counts;
     manual_start := c_manual_start counts; failed := c_failed counts; auto_recovering := c_auto_recovering counts;
     availability_pct := aggregate_pct; availability_window_days := window_days;
     availability_daily := if unknown then [] else compute_daily_sparkline timelines now;
     availability_unknown := unknown |}.
End Classification.

Example half_up : percent (f32_of 500) (f32_of 1000) = f32_of 50.
Proof. vm_compute. reflexivity. Qed.
Example one_day : f32_ceil (f32_div (f32_of 86401) (f32_of 86400)) = 2.
Proof. vm_compute. reflexivity. Qed.
