(* ===== verification/MetricsSpec.v ===== *)
(** * What the dashboard's numbers mean

    The up-intervals say exactly when the recorded history has the service up;
    and the history window the reader keeps is enough: the metrics are those of
    the whole log. *)

From Stdlib Require Import ZArith Lia List.
From S2P Require Import Prelude Text Model EventLog LogReader Metrics.

(** ** Intervals *)

(** Disjoint, not empty, in order, between [a] and [b]. *)
Fixpoint chain (a : Z) (l : list (Z * Z)) (b : Z) : Prop :=
  match l with
  | [] => a <= b
  | (s, e) :: r => a <= s < e /\ chain e r b
  end.
Definition covers (l : list (Z * Z)) (x : Z) : Prop := exists s e, (s, e) ∈ l /\ s <= x < e.
Fixpoint sum_lengths (l : list (Z * Z)) : Z :=
  match l with [] => 0 | (s, e) :: r => e - s + sum_lengths r end.

Lemma chain_snoc a l b s e : chain a l b -> b <= s < e -> chain a (l ++ [(s, e)]) e.
Proof.
  revert a. induction l as [|[s' e'] l IH]; cbn; intros a H Hs; [lia|]. destruct H as [H1 H2]. split; [done|]. by apply IH.
Qed.
Lemma chain_weaken a l b c : chain a l b -> b <= c -> chain a l c.
Proof. revert a. induction l as [|[s e] l IH]; cbn; intros a H Hc; [lia|]. destruct H. split; [done|]. by apply IH. Qed.
Lemma chain_le a l b : chain a l b -> a <= b.
Proof. revert a. induction l as [|[s e] l IH]; cbn; intros a H; [done|]. destruct H as [H1 H2%IH]. lia. Qed.
Lemma chain_covers a l b x : chain a l b -> covers l x -> a <= x < b.
Proof.
  revert a. induction l as [|[s' e'] l IH]; cbn; intros a H (s & e & Hin & Hx); [by apply elem_of_nil in Hin|].
  destruct H as [H1 H2]. pose proof (chain_le _ _ _ H2). apply elem_of_cons in Hin as [[= -> ->]|Hin]; [lia|].
  assert (e' <= x < b); [|lia]. apply IH; [done|]. by exists s, e.
Qed.
Lemma chain_sum a l b : chain a l b -> 0 <= sum_lengths l <= b - a.
Proof. revert a. induction l as [|[s e] l IH]; cbn; intros a H; [lia|]. destruct H as [H1 H2%IH]. lia. Qed.
Lemma covers_snoc l s e x : covers (l ++ [(s, e)]) x <-> covers l x \/ s <= x < e.
Proof.
  unfold covers. setoid_rewrite elem_of_app. setoid_rewrite list_elem_of_singleton. naive_solver.
Qed.

(** The service is up at [x]: the last event not after [x] started it. *)
Definition up_at (events : list (Z * EventRecord)) (x : Z) : bool :=
  match last (List.filter (fun e : Z * EventRecord => e.1 <=? x) events) with
  | Some e => starts (ev_event e.2)
  | None => false
  end.

Section Intervals.
Variable start : Z.

(** What the loop knows after some events, all at most at [m]. *)
Definition scanned (events : list (Z * EventRecord)) (st : list (Z * Z) * option Z) (m : Z) : Prop :=
  chain start st.1 (match st.2 with Some s => s | None => m end)
  /\ (forall s, st.2 = Some s -> start <= s <= m)
  /\ forall x, start <= x -> (covers st.1 x \/ exists s, st.2 = Some s /\ s <= x) <-> up_at events x = true.

Lemma up_at_snoc events e x :
  up_at (events ++ [e]) x = if e.1 <=? x then starts (ev_event e.2) else up_at events x.
Proof.
  unfold up_at. rewrite List.filter_app. cbn [List.filter]. destruct (e.1 <=? x); [by rewrite last_snoc|by rewrite app_nil_r].
Qed.

Lemma scanned_step events st m e :
  scanned events st m -> start <= m -> m <= Z.max e.1 start ->
  scanned (events ++ [e]) (interval_step start st e) (Z.max e.1 start).
Proof.
  destruct st as [l up]. intros (Hc & Hs & Hx) Hm Ht. cbn [fst snd] in *. unfold interval_step.
  set (t := Z.max e.1 start) in *.
  assert (forall x, start <= x -> up_at (events ++ [e]) x = if t <=? x then starts (ev_event e.2) else up_at events x) as Hup.
  { intros x Hxs. rewrite up_at_snoc. unfold t. by replace (Z.max e.1 start <=? x) with (e.1 <=? x) by lia. }
  assert (forall b, chain start l b -> b <= t -> forall x, covers l x -> x < t) as Hcov.
  { intros b H Hb x Hcx. pose proof (chain_covers _ _ _ _ H Hcx). lia. }
  destruct (starts (ev_event e.2)) eqn:Hk; destruct up as [s|]; unfold scanned; cbn [fst snd] in *.
  - specialize (Hs s eq_refl). split; [done|]. split; [intros s' [= <-]; lia|].
    intros x Hxs. rewrite Hup, Hx by done. destruct (Z.leb_spec t x); [|done].
    split; [done|]. intros _. apply Hx; [done|]. right. exists s. split; [done|lia].
  - replace (Z.max t start) with t by lia. split; [by eapply chain_weaken|]. split; [intros s' [= <-]; lia|].
    intros x Hxs. rewrite Hup by done. destruct (Z.leb_spec t x).
    + split; [done|]. intros _. right. by exists t.
    + rewrite <- Hx by done. split; [|naive_solver]. intros [?|(s' & [= <-] & ?)]; [by left|lia].
  - specialize (Hs s eq_refl).
    assert (chain start (if s <? t then l ++ [(s, t)] else l) t) as Hc'.
    { destruct (Z.ltb_spec s t); [apply (chain_snoc _ _ s); [done|lia]|]. by eapply chain_weaken; [exact Hc|lia]. }
    split; [exact Hc'|]. split; [done|]. intros x Hxs. rewrite Hup by done.
    destruct (Z.leb_spec t x) as [Hle|Hlt].
    + split; [|done]. intros [Hcx|(? & ? & _)]; [|done]. pose proof (chain_covers _ _ _ _ Hc' Hcx). lia.
    + rewrite <- Hx by done. destruct (Z.ltb_spec s t).
      * rewrite covers_snoc. split; [intros [[?|?]|(? & ? & _)]; [by left| |done]; right; exists s; split; [done|lia]|].
        intros [?|(s' & [= <-] & ?)]; [left; by left|]. left. right. lia.
      * split; [intros [?|(? & ? & _)]; [by left|done]|]. intros [?|(s' & [= <-] & ?)]; [by left|lia].
  - split; [by eapply chain_weaken|]. split; [done|]. intros x Hxs. rewrite Hup by done.
    destruct (Z.leb_spec t x) as [Hle|Hlt]; [|by apply Hx].
    split; [|done]. intros [Hcx|(? & ? & _)]; [|done]. pose proof (chain_covers _ _ _ _ Hc Hcx). lia.
Qed.

Definition in_time_order (events : list (Z * EventRecord)) : Prop := StronglySorted ts_le events.

Lemma scan_events events : in_time_order events ->
  exists m, scanned events (fold_left (interval_step start) events ([], None)) m /\ start <= m
    /\ forall now, start <= now -> Forall (fun e => e.1 <= now) events -> m <= now.
Proof.
  induction events as [|e events IH] using rev_ind; intros Ho.
  - exists start. split; [|split; [lia|done]]. split; [cbn; lia|]. split; [done|]. intros x Hx. cbn.
    split; [|done]. intros [(s & e & H%elem_of_nil & _)|(s & ? & _)]; done.
  - apply StronglySorted_app in Ho as (Hlt & Ho & _). destruct (IH Ho) as (m & Hm & Hsm & Hb).
    rewrite fold_left_app. cbn [fold_left].
    assert (m <= Z.max e.1 start).
    { apply Hb; [lia|]. rewrite Forall_forall. intros x Hx.
      specialize (Hlt x e Hx ltac:(by apply list_elem_of_singleton)). apply Is_true_true in Hlt. unfold ts_le in Hlt. lia. }
    exists (Z.max e.1 start). split; [by apply (scanned_step _ _ m)|]. split; [lia|].
    intros now Hn HF. apply Forall_app in HF as [_ HF]. apply Forall_cons in HF as [HF _]. lia.
Qed.

End Intervals.

(** ** Sorting *)

Section Sorted.
Context {A : Type} (le : A -> A -> bool).

Lemma sort_by_id l : StronglySorted le l -> sort_by le l = l.
Proof.
  induction l as [|x l IH]; [done|]. intros H. apply StronglySorted_inv in H as [Hl Hx].
  change (insert_by le x (sort_by le l) = x :: l). rewrite (IH Hl).
  destruct Hx as [|y l Hy]; [done|]. cbn. apply Is_true_true in Hy. by rewrite Hy.
Qed.

Lemma StronglySorted_filter (p : A -> bool) l : StronglySorted le l -> StronglySorted le (List.filter p l).
Proof.
  induction l as [|x l IH]; cbn; intros H; [constructor|]. apply StronglySorted_inv in H as [Hl Hx].
  destruct (p x); [|by apply IH]. constructor; [by apply IH|]. rewrite Forall_forall in Hx |- *.
  intros y [Hy _]%list_elem_of_In%filter_In. apply Hx. by apply list_elem_of_In.
Qed.
End Sorted.

Lemma insert_by_ext {A B} (le : A -> A -> bool) (le' : B -> B -> bool) (f : A -> B) x l :
  (forall y, y ∈ l -> le' (f x) (f y) = le x y) -> insert_by le' (f x) (map f l) = map f (insert_by le x l).
Proof.
  induction l as [|y l IH]; cbn; intros H; [done|]. rewrite H by (by left). destruct (le x y); [done|].
  cbn. f_equal. apply IH. intros z Hz. apply H. by right.
Qed.

(** [strip]: the instant and the record of an entry. *)
Definition strip (e : Entry) : Z * EventRecord := (instant e, e.2).

(** Sorting by time alone keeps the order of the log on ties, as sorting by
    time and place does. *)
Lemma stable_sort l : in_order l -> sort_by ts_le (map strip l) = map strip (sort_by key_le l).
Proof.
  induction l as [|e l IH]; intros Ho; [done|]. apply StronglySorted_inv in Ho as [Hl He].
  change (insert_by ts_le (strip e) (sort_by ts_le (map strip l)) = map strip (insert_by key_le e (sort_by key_le l))). rewrite (IH Hl).
  apply insert_by_ext. intros y Hy. rewrite (sort_by_perm key_le) in Hy. rewrite Forall_forall in He. specialize (He y Hy).
  unfold ts_le, key_le, strip. cbn. apply eq_iff_eq_true. rewrite orb_true_iff, andb_true_iff, Nat.leb_le. lia.
Qed.

Lemma sorted_strip l : StronglySorted key_le l -> StronglySorted ts_le (map strip l).
Proof.
  induction 1 as [|e l Hl IH He]; cbn; constructor; [done|]. rewrite Forall_map. eapply Forall_impl; [exact He|].
  intros x Hx%Is_true_true%key_le_spec. apply Is_true_true. unfold ts_le, strip. cbn. lia.
Qed.

(** ** Grouping by service *)

Section Groups.
Variable compare : list Z -> list Z -> bool.

(** The service an event is of, independently of the cache. *)
Definition canonical (names : list (rstr * list Z)) (service : rstr) : option rstr :=
  if existsb (fun n => bool_decide (n.1 = service)) names then Some service else resolve_alias compare names service.

Definition of_service (names : list (rstr * list Z)) (c : rstr) (e : Z * EventRecord) : bool :=
  bool_decide (canonical names (ev_service e.2) = Some c).
Definition group_of (names : list (rstr * list Z)) (c : rstr) (events : list (Z * EventRecord)) : option (list (Z * EventRecord)) :=
  match List.filter (of_service names c) events with [] => None | l => Some l end.

Lemma seeded_aliases (names : list (rstr * list Z)) (m : gmap rstr (option rstr)) s :
  fold_left (fun m (n : rstr * list Z) => <[n.1 := Some n.1]> m) names m !! s
  = if existsb (fun n => bool_decide (n.1 = s)) names then Some (Some s) else m !! s.
Proof.
  revert m. induction names as [|n names IH]; intros m; cbn; [done|]. rewrite IH.
  destruct (existsb _ names); [by rewrite orb_true_r|]. rewrite orb_false_r.
  case_bool_decide as E; [subst s; by rewrite lookup_insert_eq|by rewrite lookup_insert_ne].
Qed.

Lemma group_loop names events : forall (aliases : gmap rstr (option rstr)) grouped,
  (forall s, default (resolve_alias compare names s) (aliases !! s) = canonical names s) ->
  forall c, (fold_left (group_step compare names) events (aliases, grouped)).2 !! c
    = match List.filter (of_service names c) events with [] => grouped !! c | l => Some (default [] (grouped !! c) ++ l) end.
Proof.
  induction events as [|e events IH]; intros aliases grouped Ha c; [done|]. cbn [fold_left List.filter].
  unfold group_step at 2. rewrite Ha. unfold of_service at 1.
  assert (forall s, default (resolve_alias compare names s) (<[ev_service e.2 := canonical names (ev_service e.2)]> aliases !! s)
    = canonical names s) as Ha'.
  { intros s. destruct (decide (s = ev_service e.2)) as [->|]; [by rewrite lookup_insert_eq|by rewrite lookup_insert_ne]. }
  destruct (canonical names (ev_service e.2)) as [n|] eqn:E; rewrite IH by done; [|by rewrite bool_decide_false].
  case_bool_decide as En.
  - injection En as ->. rewrite lookup_insert_eq. cbn [default]. destruct (List.filter _ events); [done|].
    cbn. by rewrite <- app_assoc.
  - rewrite lookup_insert_ne by congruence. done.
Qed.

Lemma group_lookup defs events c :
  group_service_events compare defs events !! c
  = if is_empty (managed_names defs) then None else group_of (managed_names defs) c events.
Proof.
  unfold group_service_events. destruct (is_empty _); [done|]. rewrite group_loop.
  - unfold group_of. by destruct (List.filter _ events).
  - intros s. rewrite seeded_aliases. unfold canonical. by destruct (existsb _ _).
Qed.
End Groups.

(** ** What does not depend on the records the reader leaves out *)

(** Two histories of a service before the window that end in the same event. *)
Definition same_end (o o' : list (Z * EventRecord)) : Prop :=
  (o = [] /\ o' = []) \/ exists p p' e, o = p ++ [e] /\ o' = p' ++ [e].

Section Boundary.
Variable ws : Z.
Abbreviation before := (Forall (fun e : Z * EventRecord => e.1 < ws)) (only parsing).

(** Before the window nothing is recorded but whether the service is up. *)
Lemma scan_before o : before o ->
  fold_left (interval_step ws) o ([], None)
  = ([], match last o with Some e => if starts (ev_event e.2) then Some ws else None | None => None end).
Proof.
  induction o as [|e o IH] using rev_ind; intros Ho; [done|]. apply Forall_app in Ho as [Ho He]. apply Forall_cons in He as [He _].
  rewrite fold_left_app, (IH Ho), last_snoc. cbn [fold_left interval_step].
  replace (Z.max e.1 ws) with ws by lia. rewrite Z.max_id.
  destruct (last o) as [p|]; [destruct (starts (ev_event p.2))|]; destruct (starts (ev_event e.2)); try done.
  by rewrite Z.ltb_irrefl.
Qed.

Lemma same_end_last o o' : same_end o o' -> last o = last o'.
Proof. intros [[-> ->]|(p & p' & e & -> & ->)]; [done|by rewrite !last_snoc]. Qed.

Lemma build_same o o' i now st :
  before o -> before o' -> same_end o o' ->
  build_up_intervals (o ++ i) ws now st = build_up_intervals (o' ++ i) ws now st.
Proof.
  intros Ho Ho' He. unfold build_up_intervals. rewrite !fold_left_app, !scan_before by done. by rewrite (same_end_last o o').
Qed.

Definition as_group (l : list (Z * EventRecord)) : option (list (Z * EventRecord)) :=
  match l with [] => None | l => Some l end.

(** One service's contribution to the timelines and to the counts. *)
Lemma timeline_same (o o' i : list (Z * EventRecord)) (events events' : gmap rstr (list (Z * EventRecord))) (now : Z) st def :
  before o -> before o' -> same_end o o' ->
  events !! service_name def = as_group (o ++ i) -> events' !! service_name def = as_group (o' ++ i) ->
  timeline_step events ws now st def = timeline_step events' ws now st def.
Proof.
  intros Ho Ho' He E E'. unfold timeline_step. destruct st as [out unknown]. rewrite E, E'.
  destruct He as [[-> ->]|He]; [done|].
  assert (exists a r, o ++ i = a :: r /\ a.1 < ws) as (a & r & Ea & Ha).
  { destruct He as (p & p' & e & -> & ->). destruct p as [|x p]; [exists e, i|exists x, (p ++ [e] ++ i)]; split; try done.
    - by apply Forall_cons in Ho as [? _]. - cbn. by rewrite <- app_assoc. - by apply Forall_cons in Ho as [? _]. }
  assert (exists a r, o' ++ i = a :: r /\ a.1 < ws) as (a' & r' & Ea' & Ha').
  { destruct He as (p & p' & e & -> & ->). destruct p' as [|x p']; [exists e, i|exists x, (p' ++ [e] ++ i)]; split; try done.
    - by apply Forall_cons in Ho' as [? _]. - cbn. by rewrite <- app_assoc. - by apply Forall_cons in Ho' as [? _]. }
  rewrite Ea, Ea'. cbn [as_group]. replace (Z.max a.1 ws) with ws by lia. replace (Z.max a'.1 ws) with ws by lia.
  destruct (now <=? ws); [done|]. rewrite <- Ea, <- Ea'. by rewrite (build_same o o') by (done || by right).
Qed.

Lemma last_same o o' i : same_end o o' -> as_group (o ++ i) ≫= last = as_group (o' ++ i) ≫= last.
Proof.
  intros He. assert (forall l, as_group l ≫= last = last l) as Hl by (by intros [|]).
  rewrite !Hl, !last_app. by rewrite (same_end_last o o').
Qed.
End Boundary.

(** ** The reader's window and the metrics *)

Section Composition.
Context {T : Clock}.
Context (into_values : gmap rstr Entry -> list Entry).
Hypothesis into_values_perm : forall m, into_values m ≡ₚ (map_to_list m).*2.
Context (compare_string_ordinal : list Z -> list Z -> bool).
Variables (records : list EventRecord) (now now' : Z).
Hypothesis later : now <= now'.

Let ws : Z := now - WINDOW.
Let all : list Entry := entries_of now' (enumerate records).
Let K : Entry -> bool := kept ws all.
Let S : list Entry := sort_by key_le (entries_of now (enumerate records)).

Lemma strip_entries n (l : list EventRecord) :
  map strip (entries_of n (enumerate l)) = List.filter (fun e : Z * EventRecord => e.1 <=? n) (timed l).
Proof.
  induction l as [|r l IH] using rev_ind; [done|].
  rewrite enumerate_snoc, entries_of_app, map_app, IH. unfold timed. rewrite omap_app, List.filter_app. f_equal.
  cbn. destruct (parse_rfc3339_ts (ts r)) as [t|]; [|done]. cbn. rewrite Z.leb_antisym. by destruct (n <? t).
Qed.

Lemma entries_now : entries_of now (enumerate records) = List.filter (fun e => instant e <=? now) all.
Proof.
  unfold all. induction (enumerate records) as [|[n r] l IH]; [done|].
  unfold entries_of in *. cbn. destruct (parse_rfc3339_ts (ts r)) as [t|]; [|exact IH].
  destruct (Z.ltb_spec now t), (Z.ltb_spec now' t); try lia; cbn; unfold instant at 1; cbn; rewrite IH; [done|..].
  - by replace (t <=? now) with false by lia.
  - by replace (t <=? now) with true by lia.
Qed.

Lemma full_events : sort_by ts_le (List.filter (fun e : Z * EventRecord => e.1 <=? now) (timed records)) = map strip S.
Proof. rewrite <- strip_entries. apply stable_sort, entries_in_order. Qed.

Lemma sorted_by_key l : StronglySorted key_le (sort_by key_le l).
Proof. apply sort_by_sorted; [apply key_le_total|apply key_le_trans]. Qed.

Lemma filter_filter_comm {A} (p q : A -> bool) l : List.filter p (List.filter q l) = List.filter q (List.filter p l).
Proof.
  induction l as [|x l IH]; [done|]. cbn. destruct (p x) eqn:Hp, (q x) eqn:Hq; cbn; rewrite ?Hp, ?Hq; cbn; by rewrite IH.
Qed.
Lemma filter_perm {A} (p : A -> bool) l l' : l ≡ₚ l' -> List.filter p l ≡ₚ List.filter p l'.
Proof. induction 1; cbn; repeat case_match; try done; [by constructor|by constructor|by etransitivity]. Qed.

Lemma S_perm : S ≡ₚ List.filter (fun e => instant e <=? now) all.
Proof. unfold S. by rewrite sort_by_perm, entries_now. Qed.
Lemma S_in e : e ∈ S -> e ∈ all /\ instant e <= now.
Proof. rewrite S_perm, list_elem_of_In, filter_In, <- list_elem_of_In. intros [H1 H2]. split; [done|lia]. Qed.

Lemma window_events :
  sort_by ts_le (List.filter (fun e : Z * EventRecord => e.1 <=? now) (timed (history_window into_values records ws now')))
  = map strip (List.filter K S).
Proof.
  destruct (history_window_spec into_values into_values_perm ws now' records) as (out & -> & HP & Hs & _).
  fold all in HP. change (kept ws all) with K in HP.
  assert (timed (out.*2) = map strip out) as ->.
  { assert (Forall (fun e => parse_rfc3339_ts (ts e.2) = Some (instant e)) out) as HF.
    { rewrite Forall_forall. intros e He. rewrite HP in He. apply list_elem_of_In, filter_In in He as [He _].
      apply list_elem_of_In in He. unfold all in He. apply list_elem_of_omap in He as ([n r] & _ & E). cbn in E.
      destruct (parse_rfc3339_ts (ts r)) as [t|] eqn:Ep; [|done]. destruct (now' <? t); [done|]. by injection E as <-. }
    clear -HF. induction HF as [|e out He HF IH]; [done|]. unfold timed in *. cbn. rewrite He. cbn. f_equal. exact IH. }
  assert (forall l, List.filter (fun e : Z * EventRecord => e.1 <=? now) (map strip l) = map strip (List.filter (fun e => instant e <=? now) l)) as ->.
  { induction l as [|e l IH]; [done|]. cbn. destruct (instant e <=? now); cbn; by rewrite IH. }
  rewrite sort_by_id; [|by apply sorted_strip, StronglySorted_filter]. f_equal.
  apply (StronglySorted_unique_strong key_le).
  - intros x y Hx Hy H1%Is_true_true H2%Is_true_true. rewrite key_le_spec in *.
    apply (in_order_inj all); [apply entries_in_order|..|lia].
    + apply list_elem_of_In, filter_In in Hx as [Hx _]. apply list_elem_of_In in Hx. rewrite HP in Hx.
      apply list_elem_of_In, filter_In in Hx as [Hx _]. by apply list_elem_of_In.
    + apply list_elem_of_In, filter_In in Hy as [Hy _]. apply list_elem_of_In in Hy. by apply S_in.
  - by apply StronglySorted_filter.
  - apply StronglySorted_filter, sorted_by_key.
  - etransitivity; [apply (filter_perm _ _ _ HP)|]. rewrite filter_filter_comm. apply filter_perm. by rewrite S_perm.
Qed.

Lemma older_split l : StronglySorted key_le l -> l = List.filter (older ws) l ++ List.filter (fun e => negb (older ws e)) l.
Proof.
  induction l as [|e l IH]; intros Hs; [done|]. apply StronglySorted_inv in Hs as [Hl He]. specialize (IH Hl).
  cbn. destruct (older ws e) eqn:Ho; cbn; [by f_equal|].
  assert (forall x, x ∈ l -> older ws x = false) as Hno.
  { intros x Hx. rewrite Forall_forall in He. specialize (He x Hx). apply Is_true_true, key_le_spec in He. unfold older in *. lia. }
  assert (List.filter (older ws) l = []) as E0.
  { destruct (List.filter (older ws) l) as [|x r] eqn:E; [done|].
    assert (x ∈ List.filter (older ws) l) as Hx by (rewrite E; by left). apply list_elem_of_In, filter_In in Hx as [Hx Hx'].
    rewrite Hno in Hx'; [done|by apply list_elem_of_In]. }
  rewrite E0 in IH |- *. cbn in *. by f_equal.
Qed.

Variable names : list (rstr * list Z).
Variable c : rstr.

Let Q (e : Entry) : bool := of_service (ordinal_name_eq compare_string_ordinal) names c (strip e).
Let A : list Entry := List.filter Q S.
Let O : list Entry := List.filter (older ws) A.
Let I : list Entry := List.filter (fun e => negb (older ws e)) A.

(** The last record of a service before the window is a seed. *)
Lemma last_is_kept p e : O = p ++ [e] -> K e = true.
Proof.
  intros E. assert (StronglySorted key_le O) as HO by (apply StronglySorted_filter, StronglySorted_filter, sorted_by_key).
  assert (e ∈ O) as He by (rewrite E; set_solver).
  apply list_elem_of_In, filter_In in He as [He1 He2]. apply filter_In in He1 as [He1 HQ]. apply list_elem_of_In in He1.
  unfold K, kept. rewrite He2. cbn. apply is_seed_spec. split; [done|]. intros x Hx Hox Es.
  assert (x ∈ O) as HxO.
  { unfold O, A. rewrite !list_elem_of_In, !filter_In, <- list_elem_of_In. split; [split|]; [|unfold Q, of_service, strip in *; cbn in *|done].
    - rewrite S_perm, list_elem_of_In, filter_In, <- list_elem_of_In. split; [done|]. unfold older, ws, WINDOW, NS_PER_DAY, NS_PER_SEC in *. lia.
    - unfold svc in Es. by rewrite Es. }
  rewrite E in HO, HxO. apply elem_of_app in HxO as [HxO| ->%list_elem_of_singleton]; [|apply key_le_spec; lia].
  apply StronglySorted_app in HO as [HO _]. apply Is_true_true. apply HO; [done|by apply list_elem_of_singleton].
Qed.

Lemma same_history :
  exists o o' i, List.filter (of_service (ordinal_name_eq compare_string_ordinal) names c) (map strip S) = o ++ i
    /\ List.filter (of_service (ordinal_name_eq compare_string_ordinal) names c) (map strip (List.filter K S)) = o' ++ i
    /\ Forall (fun e => e.1 < ws) o /\ Forall (fun e => e.1 < ws) o' /\ same_end o o'.
Proof.
  assert (forall l, List.filter (of_service (ordinal_name_eq compare_string_ordinal) names c) (map strip l) = map strip (List.filter Q l)) as Hf.
  { induction l as [|e l IH]; [done|]. cbn. fold (Q e). destruct (Q e); cbn; by rewrite IH. }
  exists (map strip O), (map strip (List.filter K O)), (map strip I). rewrite !Hf, <- !map_app.
  assert (A = O ++ I) as EA by (apply older_split, StronglySorted_filter, sorted_by_key).
  split; [by rewrite <- EA|]. split.
  { f_equal. rewrite filter_filter_comm. fold A. rewrite EA at 1. rewrite List.filter_app. f_equal.
    apply forallb_filter_id, forallb_forall. intros e [_ He]%filter_In. unfold K, kept. by rewrite He. }
  assert (Forall (fun e => e.1 < ws) (map strip O)) as HO.
  { rewrite Forall_map, Forall_forall. intros e [_ He]%list_elem_of_In%filter_In. unfold older, strip in *. cbn. lia. }
  split; [done|]. split.
  { rewrite Forall_map, Forall_forall in HO |- *. intros e [He _]%list_elem_of_In%filter_In. apply HO. by apply list_elem_of_In. }
  destruct O as [|x l _] eqn:E using rev_ind; [by left|]. right.
  exists (map strip l), (map strip (List.filter K l)), (strip x). rewrite List.filter_app, map_app. split; [done|].
  cbn. rewrite (last_is_kept l x E). by rewrite map_app.
Qed.
End Composition.

Lemma fold_left_ext {A B} (f g : A -> B -> A) l a : (forall a b, f a b = g a b) -> fold_left f l a = fold_left g l a.
Proof. intros H. revert a. induction l as [|x l IH]; intros a; cbn; [done|]. by rewrite H. Qed.

Section WindowSuffices.
Context {T : Clock}.
Context (into_values : gmap rstr Entry -> list Entry).
Context (compare_string_ordinal : list Z -> list Z -> bool).

(** C25. The history the reader keeps is enough: whatever order its hash map
    yields, for any log and any services the dashboard computed from the
    thirty-day window with its boundary records is, number for number, the
    dashboard computed from the whole log. It suffices that the reader's clock
    is not behind the instant the metrics are computed for. *)
Theorem window_suffices defs records now now' :
  (forall m, into_values m ≡ₚ (map_to_list m).*2) -> now <= now' ->
  compute_metrics compare_string_ordinal defs (history_window into_values records (now - WINDOW) now') now
  = compute_metrics compare_string_ordinal defs records now.
Proof.
  intros Hiv Hn. unfold compute_metrics.
  rewrite (window_events into_values Hiv records now now' Hn), (full_events records now).
  set (S := sort_by key_le _). set (S' := List.filter _ S).
  set (cmp := ordinal_name_eq compare_string_ordinal).
  set (E := group_service_events cmp defs (map strip S)). set (E' := group_service_events cmp defs (map strip S')).
  assert (forall def, exists o o' i, E !! service_name def = as_group (o ++ i) /\ E' !! service_name def = as_group (o' ++ i)
    /\ Forall (fun e => e.1 < now - WINDOW) o /\ Forall (fun e => e.1 < now - WINDOW) o' /\ same_end o o') as HE.
  { intros def. unfold E, E'. rewrite !group_lookup. destruct (is_empty (managed_names defs)).
    - exists [], [], []. do 4 (split; [done|]). by left.
    - destruct (same_history into_values Hiv compare_string_ordinal records now now' Hn (managed_names defs) (service_name def)) as (o & o' & i & H1 & H2 & H3).
      exists o, o', i. unfold group_of. fold S in H1, H2. fold S' in H2. fold cmp in H1, H2. 
      rewrite H1, H2. split; [by destruct (o ++ i)|]. split; [by destruct (o' ++ i)|exact H3]. }
  assert (compute_counts defs E' now = compute_counts defs E now) as ->.
  { apply fold_left_ext. intros a def. destruct (HE def) as (o & o' & i & H1 & H2 & _ & _ & Hse).
    unfold count_step. by rewrite H1, H2, (last_same o o' i Hse). }
  assert (build_service_timelines defs E' (now - WINDOW) now = build_service_timelines defs E (now - WINDOW) now) as ->; [|done].
  apply fold_left_ext. intros a def. destruct (HE def) as (o & o' & i & H1 & H2 & H3 & H4 & Hse).
  symmetry. by apply (timeline_same _ o o' i).
Qed.
End WindowSuffices.

(** ** A service that went down and up again *)

Definition stop_sample (d : Z) : EventRecord := Build_EventRecord [d] [83] EvStopped None None None None None.
Definition sample_events : list (Z * EventRecord) := [(10, sample 10); (20, stop_sample 20); (30, sample 30)].


Definition sample_service : ServiceDefinition :=
  {| native := Build_NativeServiceConfig [83] [83] None Manual Win32OwnProcess &"ngsm.exe" None [] [];
     managed := None; runtime := None |}.

Lemma window_suffices_witness :
  (let m := @compute_metrics sample_clock (fun a b => bool_decide (a = b)) [sample_service]
              [sample 50; sample 60; stop_sample 85] (100 * NS_PER_DAY) in
   (total m, availability_pct m, availability_window_days m)) = (1, f32_of 50, 30) /\
  @compute_metrics sample_clock (fun a b => bool_decide (a = b)) [sample_service]
    (@history_window sample_clock sample_values [sample 50; sample 60; stop_sample 85] (100 * NS_PER_DAY - WINDOW) (101 * NS_PER_DAY)) (100 * NS_PER_DAY)
  = @compute_metrics sample_clock (fun a b => bool_decide (a = b)) [sample_service] [sample 50; sample 60; stop_sample 85] (100 * NS_PER_DAY).
Proof. split; [vm_compute; reflexivity|]. apply (@window_suffices sample_clock sample_values); [done|unfold NS_PER_DAY, NS_PER_SEC; lia]. Defined.
