(* ===== verification/GuiForms.v ===== *)
(** * Dialog forms: gui [recovery.rs], [forms.rs]

    The text fields of the recovery editor and of the install and edit dialogs,
    and their translation into the specifications the operations crate takes;
    with what the forms promise about those specifications. *)

From Stdlib Require Import ZArith Lia List.
From S2P Require Import Prelude Text BTree Model Win32 OpsConfig OpsControl.

(** ** recovery.rs *)

Record RecoveryExitRow := { row_exit_code : rstr; row_action : Z }.

Record RecoveryForm := {
  rf_service : rstr; rf_restart_delay : rstr; rf_throttle : rstr;
  rf_default_action : Z; rf_rows : list RecoveryExitRow }.

Definition exit_action_to_int (a : ExitAction) : Z :=
  match a with Restart => 0 | Ignore => 1 | Exit => 2 | Suicide => 3 end.
Definition int_to_exit_action (i : Z) : ExitAction :=
  if i =? 1 then Ignore else if i =? 2 then Exit else if i =? 3 then Suicide else Restart.

Definition ms_field (v : option Z) : rstr := unwrap_or [] (to_dec <$> v).

Definition from_spec (spec : RecoverySpec) : RecoveryForm := {|
  rf_service := rs_name spec;
  rf_restart_delay := ms_field (rs_restart_delay_ms spec);
  rf_throttle := ms_field (rs_throttle_delay_ms spec);
  rf_default_action := exit_action_to_int (rs_default_action spec);
  rf_rows := map (fun ca : rstr * ExitAction => {| row_exit_code := ca.1; row_action := exit_action_to_int ca.2 |})
               (rs_exit_actions spec) |}.

Definition parse_opt_u32 (s label : rstr) : result rstr (option Z) :=
  let t := trim s in
  if is_empty t then Ok None
  else match parse_u32 t with
       | Some n => Ok (Some n)
       | None => Err (label ++ &" must be a whole number of milliseconds.")
       end.

(** One row of the loop. *)
Definition add_row (exit_actions : btree ExitAction) (row : RecoveryExitRow) : result rstr (btree ExitAction) :=
  let code := trim (row_exit_code row) in
  if is_empty code then Ok exit_actions
  else
    match parse_i32 code with
    | None => Err (&"Exit code '" ++ code ++ &"' is not a valid signed 32-bit number.")
    | Some n =>
        let code := to_dec n in
        if bt_contains code exit_actions
        then Err (&"Duplicate exit code '" ++ code ++ &"' — each exit code may appear only once.")
        else Ok (bt_insert code (int_to_exit_action (row_action row)) exit_actions)
    end.

Definition recovery_to_spec (f : RecoveryForm) : result rstr RecoverySpec :=
  let? restart_delay_ms := parse_opt_u32 (rf_restart_delay f) &"Restart delay" in
  let? throttle_delay_ms := parse_opt_u32 (rf_throttle f) &"Throttle window" in
  let? exit_actions := try_fold add_row (rf_rows f) [] in
  Ok {| rs_name := rf_service f; rs_restart_delay_ms := restart_delay_ms;
        rs_throttle_delay_ms := throttle_delay_ms;
        rs_default_action := int_to_exit_action (rf_default_action f);
        rs_exit_actions := exit_actions |}.

(** ** forms.rs *)

Definition empty_to_none (s : rstr) : option rstr := let t := trim s in if is_empty t then None else Some t.
Definition password_to_none (s : rstr) : option rstr := if is_empty s then None else Some s.

Record InstallForm := {
  if_name : rstr; if_display_name : rstr; if_description : rstr; if_application : rstr;
  if_app_parameters : rstr; if_app_directory : rstr; if_stdout : rstr; if_stderr : rstr;
  if_account : rstr; if_password : rstr; if_start_type : InstallStartType }.

Definition install_to_spec (f : InstallForm) : result rstr InstallSpec :=
  if is_empty (trim (if_name f)) then Err &"Service name is required"
  else if is_empty (trim (if_application f)) then Err &"Application path is required"
  else
    let account := empty_to_none (if_account f) in
    let password := password_to_none (if_password f) in
    if is_some password && is_none account then Err &"Password requires a service account."
    else Ok {|
      is_name := trim (if_name f); is_display_name := empty_to_none (if_display_name f);
      is_description := empty_to_none (if_description f); is_application := trim (if_application f);
      is_app_parameters := empty_to_none (if_app_parameters f); is_app_directory := empty_to_none (if_app_directory f);
      is_stdout := empty_to_none (if_stdout f); is_stderr := empty_to_none (if_stderr f);
      is_rotation := LogRotationConfig_default; is_hooks := []; is_start_type := if_start_type f;
      is_dependencies := {| dep_services := []; dep_groups := [] |};
      is_account := account; is_password := password |}.

Definition install_clear_password (f : InstallForm) : InstallForm :=
  {| if_name := if_name f; if_display_name := if_display_name f; if_description := if_description f;
     if_application := if_application f; if_app_parameters := if_app_parameters f; if_app_directory := if_app_directory f;
     if_stdout := if_stdout f; if_stderr := if_stderr f; if_account := if_account f; if_password := [];
     if_start_type := if_start_type f |}.

Record EditForm := {
  ef_name : rstr; ef_display_name : rstr; ef_description : rstr; ef_application : rstr;
  ef_app_parameters : rstr; ef_app_directory : rstr; ef_stdout : rstr; ef_stderr : rstr;
  ef_account : rstr; ef_password : rstr; ef_start_type : InstallStartType;
  orig_display_name : rstr; orig_description : rstr; orig_application : rstr;
  orig_app_parameters : rstr; orig_app_directory : rstr; orig_stdout : rstr; orig_stderr : rstr;
  orig_account : rstr; orig_start_type : InstallStartType }.

(** The start type an edit starts from. *)
Definition shown_start_type (s : StartupType) : InstallStartType :=
  match s with
  | Automatic | AutomaticDelayed => StartAutomatic
  | Disabled => StartDisabled
  | _ => StartManual
  end.

Definition stream_path (s : option IoStream) : rstr := unwrap_or [] (Model.path <$> s).
Definition shown_application (m : option ManagedApplicationConfig) : rstr := unwrap_or [] (m ≫= application).
Definition shown_parameters (m : option ManagedApplicationConfig) : rstr := unwrap_or [] (m ≫= app_parameters).
Definition shown_directory (m : option ManagedApplicationConfig) : rstr := unwrap_or [] (m ≫= app_directory).
Definition shown_stdout (m : option ManagedApplicationConfig) : rstr := stream_path (m ≫= fun m => stdout (io m)).
Definition shown_stderr (m : option ManagedApplicationConfig) : rstr := stream_path (m ≫= fun m => stderr (io m)).

Definition from_definition (def : ServiceDefinition) : EditForm :=
  let n := native def in
  let m := managed def in
  {| ef_name := name n; ef_display_name := display_name n; ef_description := unwrap_or [] (description n);
     ef_application := shown_application m; ef_app_parameters := shown_parameters m;
     ef_app_directory := shown_directory m; ef_stdout := shown_stdout m; ef_stderr := shown_stderr m;
     ef_account := unwrap_or [] (account n); ef_password := []; ef_start_type := shown_start_type (startup n);
     orig_display_name := display_name n; orig_description := unwrap_or [] (description n);
     orig_application := shown_application m; orig_app_parameters := shown_parameters m;
     orig_app_directory := shown_directory m; orig_stdout := shown_stdout m; orig_stderr := shown_stderr m;
     orig_account := unwrap_or [] (account n); orig_start_type := shown_start_type (startup n) |}.

Definition diff (new orig : rstr) : option rstr := if negb (str_eqb new orig) then Some new else None.
Definition diff_trim (new orig : rstr) : option rstr := let t := trim new in if negb (str_eqb t orig) then Some t else None.

Definition edit_to_spec (f : EditForm) : result rstr EditSpec :=
  if is_empty (trim (ef_application f)) then Err &"Application path must not be empty."
  else
    let account_trimmed := trim (ef_account f) in
    if is_empty account_trimmed && negb (is_empty (trim (orig_account f)))
    then Err &"Service account must not be empty. Enter an account or LocalSystem."
    else
      let password := password_to_none (ef_password f) in
      if is_some password && is_empty account_trimmed then Err &"Password requires a service account."
      else
        let account :=
          if is_some password then Some account_trimmed
          else if is_empty account_trimmed then None
          else if negb (str_eqb account_trimmed (orig_account f)) then Some account_trimmed else None in
        Ok {| es_name := ef_name f;
              es_display_name := diff (ef_display_name f) (orig_display_name f);
              es_description := diff (ef_description f) (orig_description f);
              es_application := diff_trim (ef_application f) (orig_application f);
              es_app_parameters := diff (ef_app_parameters f) (orig_app_parameters f);
              es_app_directory := diff_trim (ef_app_directory f) (orig_app_directory f);
              es_stdout := diff_trim (ef_stdout f) (orig_stdout f);
              es_stderr := diff_trim (ef_stderr f) (orig_stderr f);
              es_start_type := if negb (bool_decide (ef_start_type f = orig_start_type f)) then Some (ef_start_type f) else None;
              es_dependencies := None; es_account := account; es_password := password |}.

Definition edit_clear_password (f : EditForm) : EditForm :=
  {| ef_name := ef_name f; ef_display_name := ef_display_name f; ef_description := ef_description f;
     ef_application := ef_application f; ef_app_parameters := ef_app_parameters f;
     ef_app_directory := ef_app_directory f; ef_stdout := ef_stdout f; ef_stderr := ef_stderr f;
     ef_account := ef_account f; ef_password := []; ef_start_type := ef_start_type f;
     orig_display_name := orig_display_name f; orig_description := orig_description f;
     orig_application := orig_application f; orig_app_parameters := orig_app_parameters f;
     orig_app_directory := orig_app_directory f; orig_stdout := orig_stdout f; orig_stderr := orig_stderr f;
     orig_account := orig_account f; orig_start_type := orig_start_type f |}.

(** ** The recovery form *)

(** A specification with fields of the width the program gives them and exit
    codes in their canonical spelling. *)
Record spec_ok (s : RecoverySpec) : Prop := {
  ok_restart n : rs_restart_delay_ms s = Some n -> u32_wf n;
  ok_throttle n : rs_throttle_delay_ms s = Some n -> u32_wf n;
  ok_actions : bt_ok (rs_exit_actions s);
  ok_codes k a : bt_get k (rs_exit_actions s) = Some a -> exists n, i32_wf n /\ k = to_dec n }.

Lemma exit_action_int a : int_to_exit_action (exit_action_to_int a) = a.
Proof. by destruct a. Qed.

Lemma parse_u32_to_dec n : u32_wf n -> parse_u32 (to_dec n) = Some n.
Proof.
  intros Hn. unfold parse_u32, parse_unsigned, to_dec, u32_wf in *. replace (n <? 0) with false by lia.
  destruct (dec_digits_cons (Z.to_nat (Z.log2 n)) n) as (c & r & E).
  assert (48 <= c <= 57) by (eapply dec_head_digit; [|exact E]; lia).
  assert (in_range 0 u32_max (digits_value (dec_digits (Z.to_nat (Z.log2 n)) n)) = Some n) as H'
    by (rewrite digits_value_dec by lia; by apply in_range_Some).
  rewrite E in *. destruct c as [|p|p]; try lia. do 6 (destruct p as [p|p|]; try lia; try done).
Qed.

Lemma digit_not_space c : 48 <= c <= 57 -> is_whitespace c = false.
Proof.
  intros H. unfold is_whitespace.
  repeat match goal with |- context [?a =? ?b] => destruct (Z.eqb_spec a b); [lia|] end. lia.
Qed.
Lemma trim_i32 n : i32_wf n -> trim (to_dec n) = to_dec n.
Proof. intros Hn. apply trim_no_ws. intros c [->|Hc]%to_dec_chars; [done|by apply digit_not_space|done]. Qed.
Lemma trim_u32 n : u32_wf n -> trim (to_dec n) = to_dec n.
Proof.
  intros Hn. apply trim_no_ws. unfold to_dec, u32_wf in *. replace (n <? 0) with false by lia. intros c Hc.
  pose proof (dec_digits_digits _ n (conj (proj1 Hn) (log2_fuel n (proj1 Hn)))) as H. rewrite List.Forall_forall in H.
  apply H in Hc. unfold is_ascii_digit in Hc. bool_to_prop. by apply digit_not_space.
Qed.

Lemma to_dec_nonempty n : is_empty (to_dec n) = false.
Proof. pose proof (to_dec_not_nil n). by destruct (to_dec n). Qed.

Lemma parse_ms_field v label : (forall n, v = Some n -> u32_wf n) -> parse_opt_u32 (ms_field v) label = Ok v.
Proof.
  intros H. destruct v as [n|]; [|done]. specialize (H n eq_refl). change (ms_field (Some n)) with (to_dec n).
  unfold parse_opt_u32. by rewrite trim_u32, to_dec_nonempty, parse_u32_to_dec.
Qed.

Lemma add_row_ok m row m' : add_row m row = Ok m' <->
  (trim (row_exit_code row) = [] /\ m' = m) \/
  (exists n, trim (row_exit_code row) <> [] /\ parse_i32 (trim (row_exit_code row)) = Some n /\ bt_get (to_dec n) m = None
     /\ m' = bt_insert (to_dec n) (int_to_exit_action (row_action row)) m).
Proof.
  unfold add_row. destruct (trim (row_exit_code row)) as [|c r]; cbn [is_empty]; [naive_solver|].
  destruct (parse_i32 (c :: r)) as [n|]; [|naive_solver]. unfold bt_contains.
  destruct (bt_get (to_dec n) m) eqn:E; naive_solver.
Qed.

(** The rows of a map whose entries are all new go in one after another. *)
Lemma add_rows m l : bt_ok (m ++ l) -> (forall k a, In (k, a) l -> exists n, i32_wf n /\ k = to_dec n) ->
  try_fold add_row (map (fun ca : rstr * ExitAction => {| row_exit_code := ca.1; row_action := exit_action_to_int ca.2 |}) l) m
  = Ok (m ++ l).
Proof.
  revert m. induction l as [|[k a] l IH]; intros m Hm Hk; cbn [map try_fold fst snd]; [by rewrite app_nil_r|].
  destruct (Hk k a (or_introl eq_refl)) as (n & Hn & ->).
  assert (add_row m {| row_exit_code := to_dec n; row_action := exit_action_to_int a |} = Ok (m ++ [(to_dec n, a)])) as ->.
  { apply add_row_ok. right. exists n. cbn [row_exit_code row_action]. rewrite trim_i32, exit_action_int by done.
    assert (Forall (fun x : rstr * ExitAction => str_cmp x.1 (to_dec n) = Lt) m) as Hlt.
    { apply List.Forall_forall. intros x Hx. apply StronglySorted_app in Hm as (H & _ & _).
      apply (H x (to_dec n, a)); [by apply list_elem_of_In|by left]. }
    split; [apply to_dec_not_nil|]. split; [by apply parse_i32_to_dec|].
    clear -Hlt. induction Hlt as [|[k' v] m Hx Hlt IH]; [done|]. destruct IH as [IH1 IH2]. cbn [fst] in Hx. split.
    - cbn. destruct (str_eqb (to_dec n) k') eqn:E; [|done]. apply str_eqb_eq in E. subst k'. by rewrite str_cmp_refl in Hx.
    - cbn. rewrite str_cmp_antisym, Hx. cbn. by f_equal. }
  cbn [rbind]. rewrite IH; [by rewrite <- app_assoc|by rewrite <- app_assoc|]. intros k' a' H. apply (Hk k' a'). by right.
Qed.

(** Every code in the map came from a row, and each row with a code is in it. *)
Definition row_code (row : RecoveryExitRow) : option rstr :=
  if is_empty (trim (row_exit_code row)) then None else to_dec <$> parse_i32 (trim (row_exit_code row)).

Lemma rows_spec rows m m' : bt_ok m -> try_fold add_row rows m = Ok m' ->
  bt_ok m'
  /\ (forall k a, bt_get k m' = Some a <->
        bt_get k m = Some a \/ exists row, In row rows /\ row_code row = Some k /\ a = int_to_exit_action (row_action row))
  /\ NoDup (omap row_code rows) /\ (forall k, In k (omap row_code rows) -> bt_get k m = None).
Proof.
  revert m. induction rows as [|row rows IH]; cbn [try_fold]; intros m Hm H.
  - injection H as <-. split; [done|]. split; [|by split; [constructor|]]. intros k a. split; [by left|]. intros [?|(? & [] & _)]. done.
  - inv_bind_as H m1 E. apply add_row_ok in E as [(Et & ->)|(n & Ht & Hn & Hg & ->)].
    + assert (row_code row = None) as Ec by (unfold row_code; by rewrite Et).
      destruct (IH m Hm H) as (H1 & H2 & H3 & H4). split; [done|]. split; [|cbn; by rewrite Ec].
      intros k a. rewrite H2. split; intros [?|(r & Hr & Hk & Ha)]; [by left|right; exists r; split; [by right|done]|by left|].
      destruct Hr as [->|Hr]; [congruence|]. right. by exists r.
    + assert (row_code row = Some (to_dec n)) as Ec.
      { unfold row_code. destruct (trim (row_exit_code row)) eqn:E; [done|]. cbn [is_empty]. by rewrite Hn. }
      destruct (IH _ (bt_insert_ok _ _ _ Hm) H) as (H1 & H2 & H3 & H4). split; [done|].
      assert (~ In (to_dec n) (omap row_code rows)) as Hnew by (intros Hi%H4; by rewrite bt_get_insert_same in Hi).
      split; [|cbn; rewrite Ec; split; [constructor; [by rewrite list_elem_of_In|done]|]].
      * intros k a. rewrite H2. split.
        -- intros [Hb|(r & Hr & Hk & Ha)]; [|right; exists r; split; [by right|done]].
           rewrite bt_get_insert in Hb. destruct (str_eqb (to_dec n) k) eqn:E; [|by left].
           apply str_eqb_eq in E as <-. injection Hb as <-. right. exists row. split; [by left|done].
        -- intros [Hb|(r & [->|Hr] & Hk & Ha)].
           ++ left. rewrite bt_get_insert. destruct (str_eqb (to_dec n) k) eqn:E; [apply str_eqb_eq in E; congruence|done].
           ++ left. rewrite Ec in Hk. injection Hk as <-. by rewrite bt_get_insert_same, Ha.
           ++ right. by exists r.
      * intros k [<-|Hk]; [done|]. specialize (H4 k Hk). rewrite bt_get_insert in H4. by destruct (str_eqb (to_dec n) k).
Qed.

Lemma recovery_to_spec_ok f s : recovery_to_spec f = Ok s ->
  rs_name s = rf_service f
  /\ parse_opt_u32 (rf_restart_delay f) &"Restart delay" = Ok (rs_restart_delay_ms s)
  /\ parse_opt_u32 (rf_throttle f) &"Throttle window" = Ok (rs_throttle_delay_ms s)
  /\ rs_default_action s = int_to_exit_action (rf_default_action f)
  /\ try_fold add_row (rf_rows f) [] = Ok (rs_exit_actions s).
Proof.
  unfold recovery_to_spec. intros H. inv_bind_as H d E1. inv_bind_as H t E2. inv_bind_as H m E3.
  injection H as <-. done.
Qed.

Lemma parse_opt_range s label v n : parse_opt_u32 s label = Ok v -> v = Some n -> u32_wf n.
Proof.
  unfold parse_opt_u32. intros H ->. destruct (is_empty (trim s)); [done|].
  destruct (parse_u32 (trim s)) as [k|] eqn:E; [|done]. injection H as ->. by eapply parse_unsigned_range.
Qed.

Lemma recovery_spec_ok f s : recovery_to_spec f = Ok s -> spec_ok s.
Proof.
  intros H. apply recovery_to_spec_ok in H as (_ & E1 & E2 & _ & E3).
  apply rows_spec in E3 as (H1 & H2 & _ & _); [|apply bt_ok_nil]. split.
  - intros n Hn. exact (parse_opt_range _ _ _ n E1 Hn).
  - intros n Hn. exact (parse_opt_range _ _ _ n E2 Hn).
  - done.
  - intros k a [?|(row & _ & Hk & _)]%H2; [done|]. unfold row_code in Hk. destruct (is_empty _); [done|].
    destruct (parse_i32 _) as [n|] eqn:E; [|done]. injection Hk as <-. exists n. split; [by eapply parse_i32_range|done].
Qed.

(** Opening the recovery editor on a policy and saving it untouched saves
    the same policy, exactly when the policy is one the form can produce at all:
    delays of 32 bits, and every exit code once, in its canonical spelling. *)
Theorem recovery_form_roundtrip s : recovery_to_spec (from_spec s) = Ok s <-> spec_ok s.
Proof.
  split; [apply recovery_spec_ok|]. intros [H1 H2 H3 H4]. unfold recovery_to_spec. cbn [rf_restart_delay rf_throttle rf_rows rf_service rf_default_action from_spec].
  rewrite !parse_ms_field by done. cbn [rbind]. rewrite (add_rows [] (rs_exit_actions s)).
  - cbn [rbind app]. rewrite exit_action_int. by destruct s.
  - done.
  - intros k a Hin. apply (H4 k a). by apply bt_get_In.
Qed.

(** The policy saved is the policy typed: a form is accepted only when no
    two rows name the same exit code, in whatever spelling, and then an exit
    code has an action exactly when a row gives it that action; the other rows
    are blank. Every code passes the check of the operations crate. *)
Theorem recovery_form_exact f s : recovery_to_spec f = Ok s ->
  NoDup (omap row_code (rf_rows f))
  /\ (forall n a, i32_wf n -> (bt_get (to_dec n) (rs_exit_actions s) = Some a <->
        exists row, In row (rf_rows f) /\ parse_i32 (trim (row_exit_code row)) = Some n /\ a = int_to_exit_action (row_action row)))
  /\ (forall row, In row (rf_rows f) -> row_code row = None -> trim (row_exit_code row) = [])
  /\ Forall (fun k => validate_exit_action_key k = Ok tt) (bt_keys (rs_exit_actions s)).
Proof.
  intros H. pose proof (recovery_spec_ok f s H) as [_ _ Hok Hcodes]. apply recovery_to_spec_ok in H as (_ & _ & _ & _ & E).
  pose proof (rows_spec _ _ _ bt_ok_nil E) as (_ & H2 & H3 & _). split; [done|].
  assert (forall n row, parse_i32 (trim (row_exit_code row)) = Some n -> row_code row = Some (to_dec n)) as Hrc.
  { intros n row Hp. unfold row_code. destruct (trim (row_exit_code row)); [done|]. cbn [is_empty]. by rewrite Hp. }
  split; [|split].
  - intros n a Hn. rewrite H2. split.
    + intros [?|(row & Hr & Hk & Ha)]; [done|]. exists row. split; [done|]. split; [|done].
      unfold row_code in Hk. destruct (is_empty _); [done|]. destruct (parse_i32 _) as [m|] eqn:Ep; [|done].
      injection Hk as Hk. apply to_dec_inj in Hk; [by subst|by eapply parse_i32_range|done].
    + intros (row & Hr & Hp & Ha). right. exists row. split; [done|]. split; [by apply Hrc|done].
  - clear -E. revert E. generalize (@nil (rstr * ExitAction)) as m. induction (rf_rows f) as [|r rows IH]; intros m E row Hr Hc; [done|].
    cbn [try_fold] in E. inv_bind_as E m1 E1. destruct Hr as [->|Hr]; [|by eapply IH].
    apply add_row_ok in E1 as [[? _]|(n & Hne & Hn & _)]; [done|]. unfold row_code in Hc.
    destruct (trim (row_exit_code row)); [done|]. cbn [is_empty] in Hc. by rewrite Hn in Hc.
  - apply List.Forall_forall. intros k Hk. apply in_map_iff in Hk as ([k' a] & <- & Hin). apply bt_get_In in Hin; [|done].
    destruct (Hcodes _ _ Hin) as (n & Hn & ->). cbn. apply validate_exit_action_key_iff. by exists n.
Qed.

(** ** The edit form *)

Lemma trim_start_head s : match trim_start s with [] => True | c :: _ => is_whitespace c = false end.
Proof. induction s as [|c s IH]; cbn; [done|]. by destruct (is_whitespace c) eqn:E. Qed.

Lemma trim_idem s : trim (trim s) = trim s.
Proof.
  unfold trim, trim_end at 2. pose proof (trim_start_head s) as Hh. set (u := trim_start s) in *.
  destruct (trim_start_spec (rev u)) as (ws & Hu & _). set (t := trim_start (rev u)) in *.
  assert (trim_start (rev t) = rev t) as ->.
  { assert (u = rev t ++ rev ws) as E by (by rewrite <- rev_app_distr, <- Hu, rev_involutive).
    destruct (rev t) as [|c r]; [done|]. rewrite E in Hh. cbn in Hh |- *. by rewrite Hh. }
  unfold trim_end. rewrite rev_involutive. f_equal. pose proof (trim_start_head (rev u)) as Ht. fold t in Ht.
  change (trim_start t = t). clear -Ht. destruct t as [|c r]; [done|]. cbn. by rewrite Ht.
Qed.

(** The form was opened on [def]; the user may have changed what is typed. *)
Definition opened_on (def : ServiceDefinition) (f : EditForm) : Prop :=
  let g := from_definition def in
  ef_name f = ef_name g /\ orig_display_name f = orig_display_name g /\ orig_description f = orig_description g
  /\ orig_application f = orig_application g /\ orig_app_parameters f = orig_app_parameters g
  /\ orig_app_directory f = orig_app_directory g /\ orig_stdout f = orig_stdout g /\ orig_stderr f = orig_stderr g
  /\ orig_account f = orig_account g /\ orig_start_type f = orig_start_type g.

Lemma diff_spec new orig old : unwrap_or [] old = orig -> unwrap_or [] (or_else (diff new orig) old) = new.
Proof. intros E. unfold diff. destruct (str_eqb new orig) eqn:Es; [|done]. apply str_eqb_eq in Es. by subst. Qed.
Lemma diff_trim_spec new orig old : unwrap_or [] old = orig -> unwrap_or [] (or_else (diff_trim new orig) old) = trim new.
Proof. intros E. unfold diff_trim. destruct (str_eqb (trim new) orig) eqn:Es; [|done]. apply str_eqb_eq in Es. by subst. Qed.
Lemma stream_spec new orig old : stream_path old = orig -> stream_path (merge_stream_path old (diff_trim new orig)) = trim new.
Proof.
  intros E. unfold diff_trim. destruct (str_eqb (trim new) orig) eqn:Es; cbn [negb].
  - apply str_eqb_eq in Es. cbn. congruence.
  - cbn [merge_stream_path]. destruct (trim new) as [|c r]; [done|]. cbn [is_empty]. by destruct old.
Qed.

(** Attributes of a redirection that stays or moves, but is not cleared. *)
Definition same_attributes (a b : IoStream) : Prop :=
  share_mode a = share_mode b /\ creation_disposition a = creation_disposition b
  /\ flags_and_attributes a = flags_and_attributes b /\ copy_and_truncate a = copy_and_truncate b.


Definition typed_rows : RecoveryForm := {|
  rf_service := &"svc"; rf_restart_delay := &" 250 "; rf_throttle := []; rf_default_action := 2;
  rf_rows := [{| row_exit_code := &" +7"; row_action := 1 |}; {| row_exit_code := &" "; row_action := 0 |};
              {| row_exit_code := &"-1"; row_action := 3 |}] |}.

Lemma recovery_form_exact_witness :
  bt_get (to_dec 7) [(&"-1", Suicide); (&"7", Ignore)] = Some Ignore.
Proof.
  refine (proj2 (proj1 (proj2 (recovery_form_exact typed_rows
    {| rs_name := &"svc"; rs_restart_delay_ms := Some 250; rs_throttle_delay_ms := None; rs_default_action := Exit;
       rs_exit_actions := [(&"-1", Suicide); (&"7", Ignore)] |} _)) 7 Ignore _) _).
  - vm_compute. reflexivity.
  - unfold i32_wf, i32_min, i32_max. lia.
  - exists {| row_exit_code := &" +7"; row_action := 1 |}. split; [left; reflexivity|]. split; vm_compute; reflexivity.
Defined.

Definition edited_service : ServiceDefinition :=
  {| native := native (native_with_image &"runner.exe");
     managed := Some ManagedApplicationConfig_default; runtime := None |}.
Definition edited_form : EditForm :=
  let f := from_definition edited_service in
  {| ef_name := ef_name f; ef_display_name := &"Shown"; ef_description := ef_description f;
     ef_application := &" C:\app.exe "; ef_app_parameters := &" -x "; ef_app_directory := ef_app_directory f;
     ef_stdout := &"C:\out.log"; ef_stderr := ef_stderr f; ef_account := &".\me"; ef_password := &"secret";
     ef_start_type := ef_start_type f; orig_display_name := orig_display_name f; orig_description := orig_description f;
     orig_application := orig_application f; orig_app_parameters := orig_app_parameters f;
     orig_app_directory := orig_app_directory f; orig_stdout := orig_stdout f; orig_stderr := orig_stderr f;
     orig_account := orig_account f; orig_start_type := orig_start_type f |}.
Definition edited_spec : EditSpec :=
  match edit_to_spec edited_form with Ok s => s | Err _ => sample_edit end.

