(* ===== verification/GuiRequests.v ===== *)
(** * Request lifecycles of the GUI: gui [requests.rs]

    Which result of the worker still concerns what is on the screen: request
    identifiers, the modal dialog, the log view, the recovery editor and the
    status line, as state passing ([None] is the panic of an exhausted counter). *)

From Stdlib Require Import ZArith Lia List.
From S2P Require Import Prelude Text Model OpsConfig GuiForms.

(** ** Requests *)

Record Request (T : Type) := { req_id : Z; req_target : T }.
Arguments Build_Request {T}.
Arguments req_id {T}.
Arguments req_target {T}.

(** [checked_add(1).expect(..)] *)
Definition next_u64 (n : Z) : option Z := if n <? u64_max then Some (n + 1) else None.

Definition issue {T} (next_id : Z) (target : T) : option (Request T * Z) :=
  id ← next_u64 next_id; Some (Build_Request id target, id).

Record Pending (T : Type) := { sequence : Z; current : option (Request T) }.
Arguments Build_Pending {T}.
Arguments sequence {T}.
Arguments current {T}.

Definition Pending_default {T} : Pending T := Build_Pending 0 None.

Section Pending.
Context {T : Type} `{EqDecision T}.

#[export] Instance Request_eq_dec : EqDecision (Request T).
Proof. solve_decision. Defined.

Definition busy (p : Pending T) : bool := is_some (current p).
Definition invalidate (p : Pending T) : Pending T := Build_Pending (sequence p) None.

(** [send] hands the request to the worker's queue, or fails. *)
Definition submit {E} (target : T) (send : Request T -> result E unit) (p : Pending T)
    : option (result E (Request T) * Pending T) :=
  let p := invalidate p in
  '(request, next) ← issue (sequence p) target;
  match send request with
  | Err e => Some (Err e, Build_Pending next None)
  | Ok _ => Some (Ok request, Build_Pending next (Some request))
  end.

Definition finish (request : Request T) (p : Pending T) : bool * Pending T :=
  if bool_decide (current p = Some request) then (true, Build_Pending (sequence p) None) else (false, p).
End Pending.

(** [RefreshState::request] *)
Definition refresh_request {E} (send : result E unit) (retry : bool) : result E unit * bool :=
  match send with Ok _ => (Ok tt, false) | Err e => (Err e, true) end.

(** ** The modal dialog *)

Inductive ModalKind := Closed | Install | Edit | Remove | Processes | Warnings.
#[export] Instance ModalKind_eq_dec : EqDecision ModalKind.
Proof. solve_decision. Defined.

Record ModalTarget := { mt_kind : ModalKind; mt_service : rstr }.
#[export] Instance ModalTarget_eq_dec : EqDecision ModalTarget.
Proof. solve_decision. Defined.

Inductive SubmitError (E : Type) := Busy | Inactive | Send (e : E).
Arguments Busy {E}.
Arguments Inactive {E}.
Arguments Send {E} e.

Definition submit_error_to_string {E} (display : E -> rstr) (e : SubmitError E) : rstr :=
  match e with
  | Busy => &"An operation is already in progress."
  | Inactive => &"This editor is no longer active."
  | Send e => &"Background worker unavailable: " ++ display e ++ &". Please retry."
  end.

(** [map_err(SubmitError::Send)] under the panic of the counter. *)
Definition sent {E T S} (wrap : Pending T -> S) (o : option (result E (Request T) * Pending T))
    : option (result (SubmitError E) (Request T) * S) :=
  '(r, p) ← o; Some (map_err Send r, wrap p).

Record ModalState := { modal_kind : ModalKind; modal_generation : Z; modal_pending : Pending ModalTarget }.
Definition ModalState_default : ModalState := Build_ModalState Closed 0 Pending_default.
Definition modal_busy (s : ModalState) : bool := busy (modal_pending s).

Definition modal_replace (kind : ModalKind) (s : ModalState) : option (bool * ModalState) :=
  if modal_busy s && match modal_kind s with Install | Edit => true | _ => false end then Some (false, s)
  else
    generation ← next_u64 (modal_generation s);
    Some (true, Build_ModalState kind generation (invalidate (modal_pending s))).

Definition modal_submit {E} (service : rstr) (send : Request ModalTarget -> result E unit) (s : ModalState)
    : option (result (SubmitError E) (Request ModalTarget) * ModalState) :=
  if modal_busy s then Some (Err Busy, s)
  else if negb match modal_kind s with Install | Edit | Processes => true | _ => false end then Some (Err Inactive, s)
  else sent (Build_ModalState (modal_kind s) (modal_generation s))
         (submit {| mt_kind := modal_kind s; mt_service := service |} send (modal_pending s)).

Definition modal_finish (request : Request ModalTarget) (s : ModalState) : bool * ModalState :=
  let '(b, p) := finish request (modal_pending s) in (b, Build_ModalState (modal_kind s) (modal_generation s) p).

(** ** The log view *)

Record LogTarget := { lt_service : rstr; lt_stderr : bool }.
#[export] Instance LogTarget_eq_dec : EqDecision LogTarget.
Proof. solve_decision. Defined.

Record LogViewState := {
  lv_pending : Pending LogTarget; lv_target : option LogTarget; lv_status : rstr; lv_lines : list rstr }.
Definition LogViewState_default : LogViewState := Build_LogViewState Pending_default None [] [].

Definition log_leave (s : LogViewState) : LogViewState :=
  Build_LogViewState (invalidate (lv_pending s)) (lv_target s) (lv_status s) (lv_lines s).

Definition log_request {E} (display : E -> rstr) (target : option LogTarget)
    (send : Request LogTarget -> result E unit) (s : LogViewState) : option LogViewState :=
  let p := invalidate (lv_pending s) in
  match target with
  | None => Some (Build_LogViewState p None &"Select a service in the Services view to view its log." [])
  | Some t =>
      '(r, p) ← submit t send p;
      Some (Build_LogViewState p target
              match r with Ok _ => &"Loading…" | Err e => &"Log request not queued: " ++ display e ++ &". Please retry." end [])
  end.

Definition log_received (request : Request LogTarget) (status : rstr) (lines : list rstr) (s : LogViewState)
    : bool * LogViewState :=
  let '(b, p) := finish request (lv_pending s) in
  if b then (true, Build_LogViewState p (lv_target s) status lines) else (false, s).

(** ** The recovery editor *)

Inductive RecoveryWork := Read | Save.
#[export] Instance RecoveryWork_eq_dec : EqDecision RecoveryWork.
Proof. solve_decision. Defined.

Record RecoveryTarget := { rt_service : rstr; rt_generation : Z; rt_work : RecoveryWork }.
#[export] Instance RecoveryTarget_eq_dec : EqDecision RecoveryTarget.
Proof. solve_decision. Defined.

Record RecoveryEditor := {
  re_draft : option RecoveryForm; re_service : option rstr; re_generation : Z; re_pending : Pending RecoveryTarget }.
Definition RecoveryEditor_default : RecoveryEditor := Build_RecoveryEditor None None 0 Pending_default.

Definition recovery_busy (s : RecoveryEditor) : bool := busy (re_pending s).
Definition recovery_active (s : RecoveryEditor) : bool := is_some (re_service s).

(** [editable_draft]: the draft, when the caller may write it. *)
Definition editable_draft (s : RecoveryEditor) : option RecoveryForm :=
  if negb (recovery_active s) || recovery_busy s then None else re_draft s.

Definition recovery_leave (s : RecoveryEditor) : RecoveryEditor :=
  Build_RecoveryEditor (re_draft s) None (re_generation s) (invalidate (re_pending s)).

Definition recovery_activate (service : rstr) (s : RecoveryEditor) : option RecoveryEditor :=
  let s := recovery_leave s in
  generation ← next_u64 (re_generation s);
  let draft := if is_some_and (fun form => negb (str_eqb (rf_service form) service)) (re_draft s) then None else re_draft s in
  Some (Build_RecoveryEditor draft (Some service) generation (re_pending s)).

Definition recovery_submit {E} (work : RecoveryWork) (send : Request RecoveryTarget -> result E unit) (s : RecoveryEditor)
    : option (result (SubmitError E) (Request RecoveryTarget) * RecoveryEditor) :=
  if recovery_busy s then Some (Err Busy, s)
  else match re_service s with
       | None => Some (Err Inactive, s)
       | Some service =>
           sent (Build_RecoveryEditor (re_draft s) (re_service s) (re_generation s))
             (submit {| rt_service := service; rt_generation := re_generation s; rt_work := work |} send (re_pending s))
       end.

Definition recovery_finish (request : Request RecoveryTarget) (s : RecoveryEditor) : bool * RecoveryEditor :=
  let '(b, p) := finish request (re_pending s) in
  (b, Build_RecoveryEditor (re_draft s) (re_service s) (re_generation s) p).

Definition recovery_loaded (request : Request RecoveryTarget) (r : result Error RecoverySpec) (s : RecoveryEditor)
    : option (result rstr unit) * RecoveryEditor :=
  let '(b, s) := recovery_finish request s in
  if negb b then (None, s)
  else match r with
       | Ok spec =>
           if str_eqb (rs_name spec) (rt_service (req_target request))
           then (Some (Ok tt), Build_RecoveryEditor (Some (from_spec spec)) (re_service s) (re_generation s) (re_pending s))
           else (Some (Err &"Recovery response did not match the requested service."), s)
       | Err e => (Some (Err (error_to_string e)), s)
       end.

(** ** Outcomes and the status line *)

Record MutationOutcome := { mo_apply_local : bool; mo_refresh : bool; mo_error : option rstr; mo_message : rstr }.

Definition mutation_outcome (apply_local : bool) (operation : rstr) (r : result Error rstr) : MutationOutcome :=
  match r with
  | Ok message => Build_MutationOutcome apply_local true None message
  | Err e =>
      let error := error_to_string e in
      Build_MutationOutcome apply_local true (Some error) (operation ++ &": " ++ error)
  end.

Inductive OperationId := OpAction (n : Z) | OpModal (n : Z) | OpRecovery (n : Z).
#[export] Instance OperationId_eq_dec : EqDecision OperationId.
Proof. solve_decision. Defined.

Record StatusState := { st_scan : rstr; st_outcome : option rstr; st_pending : list (OperationId * rstr) }.

Definition without (id : OperationId) (l : list (OperationId * rstr)) : list (OperationId * rstr) :=
  List.filter (fun e => negb (bool_decide (e.1 = id))) l.

Definition status_scan (text : rstr) (s : StatusState) : StatusState :=
  Build_StatusState text (st_outcome s) (st_pending s).
Definition status_operation (text : rstr) (s : StatusState) : StatusState :=
  Build_StatusState (st_scan s) (Some text) (st_pending s).
Definition status_begin (id : OperationId) (text : rstr) (s : StatusState) : StatusState :=
  let pending := without id (st_pending s) in
  let pending := if (length pending =? 32)%nat then tail pending else pending in
  Build_StatusState (st_scan s) None (pending ++ [(id, text)]).
Definition status_finish (id : OperationId) (text : rstr) (s : StatusState) : StatusState :=
  Build_StatusState (st_scan s) (Some text) (without id (st_pending s)).

Definition status_text (s : StatusState) : rstr :=
  let parts := match st_outcome s with Some o => [o] | None => [] end in
  let parts := match last (st_pending s) with
               | Some (_, pending) =>
                   parts ++ [if (length (st_pending s) =? 1)%nat then pending
                             else pending ++ &" (+" ++ to_dec (Z.of_nat (length (st_pending s)) - 1) ++ &" other pending)"]
               | None => parts
               end in
  let parts := if negb (is_empty (st_scan s)) then parts ++ [st_scan s] else parts in
  join &"  |  " parts.

Definition status_details (s : StatusState) : list rstr :=
  match st_outcome s with Some o => [o] | None => [] end ++ (st_pending s).*2.

(** ** A request, once lost, stays lost *)

Section PendingLemmas.
Context {T : Type} `{EqDecision T}.
Implicit Types (p : Pending T) (r : Request T).

(** Identifiers are issued upwards. *)
Definition pending_ok p : Prop := forall r, current p = Some r -> req_id r <= sequence p.
(** [r] was issued, and is not what is waited for. *)
Definition lost r p : Prop := req_id r <= sequence p /\ current p <> Some r.

Lemma pending_default_ok : pending_ok (@Pending_default T).
Proof. done. Qed.
Lemma invalidate_ok p : pending_ok p -> pending_ok (invalidate p).
Proof. done. Qed.
Lemma invalidate_lost r p : req_id r <= sequence p -> lost r (invalidate p).
Proof. done. Qed.

Lemma submit_inv {E} target (send : Request T -> result E unit) p o p' :
  submit target send p = Some (o, p') ->
  let r := Build_Request (sequence p + 1) target in
  sequence p' = sequence p + 1
  /\ ((o = Ok r /\ current p' = Some r /\ send r = Ok tt) \/ exists e, o = Err e /\ current p' = None /\ send r = Err e).
Proof.
  unfold submit, issue, next_u64. cbn. destruct (sequence p <? u64_max); [|done]. cbn. intros H.
  destruct (send _) as [[]|e] eqn:Hs; injection H as <- <-; cbn; eauto 10.
Qed.

Lemma submit_ok {E} target (send : Request T -> result E unit) p o p' :
  submit target send p = Some (o, p') -> pending_ok p'.
Proof.
  intros H. destruct (submit_inv _ _ _ _ _ H) as (Es & [(-> & Hc & _)|(e & -> & Hc & _)]); intros r Hr; rewrite Hc in Hr; [|done].
  injection Hr as <-. cbn. lia.
Qed.
Lemma submit_lost {E} r target (send : Request T -> result E unit) p o p' :
  submit target send p = Some (o, p') -> req_id r <= sequence p -> lost r p'.
Proof.
  intros H Hr. destruct (submit_inv _ _ _ _ _ H) as (Es & [(-> & Hc & _)|(e & -> & Hc & _)]); split; rewrite ?Hc; try lia; try done.
  intros [= E0]. rewrite <- E0 in Hr. cbn in Hr. lia.
Qed.

Lemma finish_inv r p b p' : finish r p = (b, p') ->
  (b = true /\ current p = Some r /\ p' = invalidate p) \/ (b = false /\ current p <> Some r /\ p' = p).
Proof. unfold finish. case_bool_decide; intros [= <- <-]; [by left|by right]. Qed.
Lemma finish_ok r p : pending_ok p -> pending_ok (finish r p).2.
Proof. unfold finish. by case_bool_decide. Qed.
Lemma finish_lost r r' p : lost r p -> lost r (finish r' p).2.
Proof. unfold finish, lost. intros [H1 H2]. by case_bool_decide. Qed.
End PendingLemmas.

(** ** The modal dialog shows no late result *)

Inductive modal_event :=
| MReplace (kind : ModalKind)
| MSubmit (service : rstr) (accepted : bool)
| MFinish (r : Request ModalTarget).

Definition send_of {T} (accepted : bool) (_ : Request T) : result unit unit := if accepted then Ok tt else Err tt.

Definition modal_step (e : modal_event) (s : ModalState) : option ModalState :=
  match e with
  | MReplace kind => snd <$> modal_replace kind s
  | MSubmit service accepted => snd <$> modal_submit service (send_of accepted) s
  | MFinish r => Some (modal_finish r s).2
  end.
Fixpoint modal_run (es : list modal_event) (s : ModalState) : option ModalState :=
  match es with [] => Some s | e :: es => s' ← modal_step e s; modal_run es s' end.

Definition mutating (k : ModalKind) : bool := match k with Install | Edit => true | _ => false end.

(** What one event does to the generation and to the pending request. *)
Lemma modal_step_inv e s s' : modal_step e s = Some s' ->
  (modal_generation s' = modal_generation s + 1 /\ (modal_busy s && mutating (modal_kind s)) = false
     /\ modal_pending s' = invalidate (modal_pending s) /\ exists k, e = MReplace k)
  \/ (modal_generation s' = modal_generation s /\ modal_kind s' = modal_kind s
      /\ ((modal_pending s' = modal_pending s /\ forall r, e = MFinish r -> current (modal_pending s) <> Some r)
          \/ (current (modal_pending s) = None /\ exists svc ok o, submit {| mt_kind := modal_kind s; mt_service := svc |}
                (send_of ok) (modal_pending s) = Some (o, modal_pending s'))
          \/ exists r, e = MFinish r /\ current (modal_pending s) = Some r /\ modal_pending s' = invalidate (modal_pending s))).
Proof.
  destruct e as [kind|svc ok|r]; cbn.
  - unfold modal_replace, next_u64. fold (mutating (modal_kind s)). destruct (modal_busy s && mutating (modal_kind s)); cbn.
    + intros [= <-]. right. split; [done|]. split; [done|]. left. by split.
    + destruct (modal_generation s <? u64_max); cbn; [|done]. intros [= <-]. left. eauto 10.
  - unfold modal_submit. destruct (modal_busy s) eqn:Hb; [intros [= <-]; right; split; [done|]; split; [done|]; left; by split|].
    destruct (negb _); [intros [= <-]; right; split; [done|]; split; [done|]; left; by split|]. unfold sent. intros H.
    destruct (submit _ (send_of ok) (modal_pending s)) as [[o p]|] eqn:E; [|done]. injection H as <-. right. split; [done|]. split; [done|].
    right. left. split; [unfold modal_busy, busy in Hb; by destruct (current _)|]. by exists svc, ok, o.
  - unfold modal_finish. destruct (finish r (modal_pending s)) as [b p] eqn:E. intros [= <-]. right. split; [done|]. split; [done|].
    apply finish_inv in E as [(-> & Hc & ->)|(-> & Hc & ->)]; [right; right; by exists r|left].
    split; [done|]. by intros r' [= <-].
Qed.

Lemma modal_run_lost es : forall s s' r, modal_run es s = Some s' -> lost r (modal_pending s) ->
  lost r (modal_pending s') /\ modal_generation s <= modal_generation s'.
Proof.
  induction es as [|e es IH]; cbn; intros s s' r H Hl; [by injection H as <-|].
  destruct (modal_step e s) as [s1|] eqn:E; [|done]. cbn in H.
  apply modal_step_inv in E as [(Hg & _ & Hp & _)|(Hg & _ & [[Hp _]|[(_ & svc & ok & o & Hp)|(r' & _ & _ & Hp)]])];
    (destruct (IH s1 s' r H) as [H1 H2]; [|split; [done|lia]]).
  - rewrite Hp. apply invalidate_lost. apply Hl.
  - by rewrite Hp.
  - eapply submit_lost; [exact Hp|apply Hl].
  - rewrite Hp. apply invalidate_lost. apply Hl.
Qed.

Lemma modal_run_waiting es : forall s s' r, modal_run es s = Some s' ->
  current (modal_pending s) = Some r -> req_id r <= sequence (modal_pending s) ->
  modal_generation s <= modal_generation s'
  /\ (current (modal_pending s') = Some r <-> modal_generation s' = modal_generation s /\ ~ In (MFinish r) es)
  /\ (current (modal_pending s') = Some r -> modal_kind s' = modal_kind s)
  /\ (mutating (modal_kind s) = true -> ~ In (MFinish r) es -> modal_generation s' = modal_generation s).
Proof.
  induction es as [|e es IH]; intros s s' r H Hc Hr.
  - injection H as <-. split; [lia|]. split; [by split; [intros _; split; [done|intros []]|]|]. done.
  - cbn in H. destruct (modal_step e s) as [s1|] eqn:E; [|done]. cbn in H.
    assert (modal_busy s = true) as Hb by (unfold modal_busy, busy; by rewrite Hc).
    apply modal_step_inv in E as [(Hg & Hm & Hp & k & ->)|(Hg & Hk & [[Hp Hne]|[(Hn & _)|(r' & -> & Hc' & Hp)]])]; [..|congruence|].
    + destruct (modal_run_lost es s1 s' r H) as [[_ Hl] Hge]; [rewrite Hp; by apply invalidate_lost|].
      rewrite Hb in Hm. cbn in Hm. rewrite Hm. split; [lia|]. split; [|done]. split; [done|]. intros [? _]. lia.
    + rewrite <- Hp in Hc, Hr. destruct (IH s1 s' r H Hc Hr) as (H1 & H2 & H3 & H4). rewrite Hg in *. rewrite Hk in *.
      rewrite Hp in Hc. split; [done|]. split; [|split; [done|]].
      * rewrite H2. split; intros [? Hi]; (split; [done|]); intros Hin; apply Hi; [destruct Hin as [->|Hin]; [by destruct (Hne r)|done]|by right].
      * intros Hm Hi. apply H4; [done|]. intros Hin. apply Hi. by right.
    + rewrite Hc in Hc'. injection Hc' as <-. destruct (modal_run_lost es s1 s' r H) as [[_ Hl] Hge]; [rewrite Hp; by apply invalidate_lost|].
      split; [lia|]. split; [|split; [done|]]; [split; [done|]; intros [_ Hi]; exfalso; apply Hi; by left|].
      intros _ Hi. exfalso. apply Hi. by left.
Qed.

Lemma modal_finish_iff r s : (modal_finish r s).1 = true <-> current (modal_pending s) = Some r.
Proof. unfold modal_finish, finish. case_bool_decide; cbn; by split. Qed.

(** A worker's result is applied to the modal dialog it was asked for and to
    no other: after a request was accepted, whatever else happens, its result
    counts exactly when the dialog has not been replaced since and the result
    has not been counted before, and then the dialog is still of the kind that
    asked. While a service is being installed or edited the dialog cannot be
    replaced at all, so that the outcome of such a request always arrives, once. *)
Theorem modal_result_current {E} service (send : Request ModalTarget -> result E unit) s0 r s1 es s2 :
  modal_submit service send s0 = Some (Ok r, s1) -> modal_run es s1 = Some s2 ->
  ((modal_finish r s2).1 = true <-> modal_generation s2 = modal_generation s1 /\ ~ In (MFinish r) es)
  /\ ((modal_finish r s2).1 = true -> modal_kind s2 = mt_kind (req_target r))
  /\ (mutating (mt_kind (req_target r)) = true -> ((modal_finish r s2).1 = true <-> ~ In (MFinish r) es))
  /\ (modal_finish r (modal_finish r s2).2).1 = false.
Proof.
  intros Hs Hr. unfold modal_submit in Hs. destruct (modal_busy s0); [done|]. destruct (negb _); [done|]. unfold sent in Hs.
  destruct (submit _ send (modal_pending s0)) as [[o p]|] eqn:E0; [|done]. cbn in Hs. injection Hs as Ho <-.
  destruct (submit_inv _ _ _ _ _ E0) as (Hseq & [(-> & Hc & _)|(e & -> & _)]); [|done]. cbn in Ho. injection Ho as <-.
  set (r := Build_Request _ _) in *.
  destruct (modal_run_waiting es _ s2 r Hr Hc) as (_ & H2 & H3 & H4); [cbn; lia|]. cbn in H2, H3, H4.
  rewrite !modal_finish_iff. cbn [req_target mt_kind r]. split; [exact H2|]. split; [exact H3|]. split.
  - intros Hm. rewrite H2. split; [by intros [_ ?]|]. intros Hi. split; [by apply H4|done].
  - destruct (modal_finish r (modal_finish r s2).2).1 eqn:Hf; [|done]. apply modal_finish_iff in Hf.
    unfold modal_finish, finish in Hf. case_bool_decide; cbn in Hf; done.
Qed.

Definition edit_of (service : rstr) : ModalTarget := {| mt_kind := Edit; mt_service := service |}.

Lemma modal_result_current_witness :
  (modal_finish (Build_Request 1 (edit_of &"svc")) (Build_ModalState Edit 1 (Build_Pending 1 (Some (Build_Request 1 (edit_of &"svc")))))).1 = true.
Proof.
  assert (modal_submit &"svc" (send_of true) (Build_ModalState Edit 1 Pending_default)
    = Some (Ok (Build_Request 1 (edit_of &"svc")), Build_ModalState Edit 1 (Build_Pending 1 (Some (Build_Request 1 (edit_of &"svc")))))) as Hs
    by reflexivity.
  refine (proj2 (proj1 (proj2 (proj2 (modal_result_current &"svc" (send_of true) _ _ _ [MReplace Processes; MSubmit &"svc" true] _ Hs eq_refl))) eq_refl) _).
  intros [H|[H|[]]]; discriminate H.
Defined.

(** ** The log view never labels content as another's *)

Inductive log_event :=
| LLeave
| LRequest (target : option LogTarget) (accepted : bool)
| LReceived (r : Request LogTarget) (status : rstr) (lines : list rstr).

Definition log_step (e : log_event) (s : LogViewState) : option LogViewState :=
  match e with
  | LLeave => Some (log_leave s)
  | LRequest target accepted => log_request (fun _ => []) target (send_of accepted) s
  | LReceived r status lines => Some (log_received r status lines s).2
  end.
Fixpoint log_run (es : list log_event) (s : LogViewState) : option LogViewState :=
  match es with [] => Some s | e :: es => s' ← log_step e s; log_run es s' end.

(** The lines shown were received for the log that is shown. *)
Definition labelled (es : list log_event) (s : LogViewState) : Prop :=
  pending_ok (lv_pending s)
  /\ (forall r, current (lv_pending s) = Some r -> lv_target s = Some (req_target r))
  /\ (lv_lines s <> [] -> exists r status, In (LReceived r status (lv_lines s)) es /\ lv_target s = Some (req_target r)
        /\ lv_status s = status).

Lemma labelled_step es e s s' : labelled es s -> log_step e s = Some s' -> labelled (es ++ [e]) s'.
Proof.
  intros (Hp & Hc & Hl) H.
  assert (lv_lines s <> [] -> exists r status, In (LReceived r status (lv_lines s)) (es ++ [e]) /\ lv_target s = Some (req_target r)
        /\ lv_status s = status) as Hl' by (intros Hne; destruct (Hl Hne) as (r & st & Hi & Ht); exists r, st; split; [apply in_or_app; by left|done]).
  destruct e as [|[t|] ok|r status lines]; cbn in H.
  - injection H as <-. split; [done|]. by split.
  - unfold log_request in H. destruct (submit t (send_of ok) (invalidate (lv_pending s))) as [[o p]|] eqn:E; [|done]. injection H as <-.
    split; [by eapply submit_ok|]. split; [|by intros []]. cbn. intros r Hr.
    destruct (submit_inv _ _ _ _ _ E) as (_ & [(_ & Hc' & _)|(e & _ & Hc' & _)]); rewrite Hc' in Hr; [by injection Hr as <-|done].
  - injection H as <-. split; [done|]. split; [done|by intros []].
  - injection H as <-. unfold log_received. destruct (finish r (lv_pending s)) as [b p] eqn:E.
    apply finish_inv in E as [(-> & Hcr & ->)|(-> & Hcr & ->)]; cbn [snd]; [|by split].
    split; [done|]. split; [done|]. cbn. intros _. exists r, status. split; [apply in_or_app; right; by left|]. split; [by apply Hc|done].
Qed.

(** Whatever requests, results and changes of view follow one another, the
    log view shows lines only if they were received as the answer for the
    service and stream it names, with the status that came with them; a late
    answer for another log changes nothing. *)
Theorem log_view_labelled es s : log_run es LogViewState_default = Some s ->
  lv_lines s <> [] ->
  exists r status, In (LReceived r status (lv_lines s)) es /\ lv_target s = Some (req_target r) /\ lv_status s = status.
Proof.
  assert (forall es' es s s', labelled es' s -> log_run es s = Some s' -> labelled (es' ++ es) s') as G.
  { intros es' es0. revert es'. induction es0 as [|e es0 IH]; cbn; intros es' s0 s' Hs H; [injection H as <-; by rewrite app_nil_r|].
    destruct (log_step e s0) as [s1|] eqn:E; [|done]. cbn in H. rewrite (app_assoc es' [e] es0 : es' ++ e :: es0 = _).
    eapply IH; [|exact H]. by eapply labelled_step. }
  intros H. apply (G [] es LogViewState_default s); [|done]. split; [apply pending_default_ok|]. by split.
Qed.

Definition stdout_of (service : rstr) : LogTarget := {| lt_service := service; lt_stderr := false |}.

Lemma log_view_labelled_witness : exists r status,
  In (LReceived r status [&"line"])
     [LRequest (Some (stdout_of &"a")) true; LReceived (Build_Request 1 (stdout_of &"a")) &"ok" [&"line"]]
  /\ Some (stdout_of &"a") = Some (req_target r) /\ &"ok" = status.
Proof.
  refine (log_view_labelled _ (Build_LogViewState (Build_Pending 1 None) (Some (stdout_of &"a")) &"ok" [&"line"]) _ _).
  - reflexivity.
  - discriminate.
Defined.

(** ** The recovery editor edits the policy of the service it shows *)

Inductive recovery_event :=
| RLeave
| RActivate (service : rstr)
| RSubmit (work : RecoveryWork) (accepted : bool)
| RLoaded (r : Request RecoveryTarget) (answer : result Error RecoverySpec)
| RSaved (r : Request RecoveryTarget)
| REdit (form : RecoveryForm).

(** The fields captured from the window go into the editable draft; the name of
    the service is not one of them. *)
Definition edit_draft (form : RecoveryForm) (s : RecoveryEditor) : RecoveryEditor :=
  match editable_draft s with
  | Some d => Build_RecoveryEditor
      (Some {| rf_service := rf_service d; rf_restart_delay := rf_restart_delay form; rf_throttle := rf_throttle form;
               rf_default_action := rf_default_action form; rf_rows := rf_rows form |})
      (re_service s) (re_generation s) (re_pending s)
  | None => s
  end.

Definition recovery_step (e : recovery_event) (s : RecoveryEditor) : option RecoveryEditor :=
  match e with
  | RLeave => Some (recovery_leave s)
  | RActivate service => recovery_activate service s
  | RSubmit work accepted => snd <$> recovery_submit work (send_of accepted) s
  | RLoaded r answer => Some (recovery_loaded r answer s).2
  | RSaved r => Some (recovery_finish r s).2
  | REdit form => Some (edit_draft form s)
  end.
Fixpoint recovery_run (es : list recovery_event) (s : RecoveryEditor) : option RecoveryEditor :=
  match es with [] => Some s | e :: es => s' ← recovery_step e s; recovery_run es s' end.

Record editor_ok (s : RecoveryEditor) : Prop := {
  eo_draft f svc : re_draft s = Some f -> re_service s = Some svc -> rf_service f = svc;
  eo_pending r : current (re_pending s) = Some r ->
    re_service s = Some (rt_service (req_target r)) /\ rt_generation (req_target r) = re_generation s }.

Lemma recovery_finish_inv r s b s' : recovery_finish r s = (b, s') ->
  re_draft s' = re_draft s /\ re_service s' = re_service s /\ re_generation s' = re_generation s
  /\ ((b = true /\ current (re_pending s) = Some r /\ current (re_pending s') = None) \/ (b = false /\ s' = s)).
Proof.
  unfold recovery_finish. destruct (finish r (re_pending s)) as [b' p] eqn:E. intros [= <- <-]. do 3 (split; [done|]).
  apply finish_inv in E as [(-> & Hc & ->)|(-> & Hc & ->)]; [by left|right]. split; [done|]. by destruct s.
Qed.

Lemma editor_step e s s' : editor_ok s -> recovery_step e s = Some s' -> editor_ok s'.
Proof.
  intros [Hd Hp] H. destruct e as [|svc|work ok|r answer|r|form]; cbn in H.
  - injection H as <-. split; cbn; [done|done].
  - unfold recovery_activate, next_u64 in H. cbn in H. destruct (re_generation s <? u64_max); [|done]. injection H as <-.
    split; cbn; [|done]. intros f svc' Hf [= <-]. destruct (re_draft s) as [d|]; [|done]. cbn in Hf.
    destruct (str_eqb (rf_service d) svc) eqn:Es; [|done]. injection Hf as <-. by apply str_eqb_eq in Es.
  - unfold recovery_submit in H. destruct (recovery_busy s); [by injection H as <-|].
    destruct (re_service s) as [svc|] eqn:Esvc; [|injection H as <-; split; [intros f svc Hf Hs; congruence|intros r Hr; destruct (Hp r Hr); congruence]].
    unfold sent in H. destruct (submit _ _ (re_pending s)) as [[o p]|] eqn:E; [|done]. injection H as <-.
    split; cbn; [intros f svc' Hf Hsvc; apply (Hd f svc'); congruence|]. intros r Hr.
    destruct (submit_inv _ _ _ _ _ E) as (_ & [(_ & Hc & _)|(e & _ & Hc & _)]); rewrite Hc in Hr; [|done]. by injection Hr as <-.
  - injection H as <-. unfold recovery_loaded. destruct (recovery_finish r s) as [b s1] eqn:E.
    apply recovery_finish_inv in E as (E1 & E2 & E3 & [(-> & Hc & Hn)|(-> & ->)]); [|by split]. cbn [negb].
    assert (editor_ok s1) as H1 by (split; [intros f svc Hf Hs; apply (Hd f svc); congruence|intros r' Hr'; congruence]).
    destruct answer as [spec|e]; [|done]. destruct (str_eqb (rs_name spec) _) eqn:Es; [|done]. cbn [snd].
    destruct H1 as [_ H1]. split; cbn; [|exact H1]. intros f svc [= <-] Hsvc. cbn. apply str_eqb_eq in Es. rewrite Es.
    destruct (Hp r Hc) as [Hs _]. congruence.
  - injection H as <-. destruct (recovery_finish r s) as [b s1] eqn:E. cbn [snd].
    apply recovery_finish_inv in E as (E1 & E2 & E3 & [(-> & Hc & Hn)|(-> & ->)]); [|by split].
    split; [intros f svc Hf Hs; apply (Hd f svc); congruence|intros r' Hr'; congruence].
  - injection H as <-. unfold edit_draft, editable_draft. destruct (negb _ || _); [by split|].
    destruct (re_draft s) as [d|] eqn:Ed; [|by split; rewrite ?Ed]. split; cbn; [|exact Hp].
    intros f svc [= <-] Hs. cbn. by apply (Hd d).
Qed.

(** Along every sequence of views, requests, answers and edits, the draft
    on show is of the service on show, so that saving it saves that service's
    policy; and an answer is accepted only for the service, the visit and the
    request that are current: every other one leaves the editor as it is. *)
Theorem recovery_editor_isolated es s :
  recovery_run es RecoveryEditor_default = Some s ->
  (forall f svc, re_draft s = Some f -> re_service s = Some svc -> rf_service f = svc)
  /\ (forall f svc spec, re_draft s = Some f -> re_service s = Some svc -> recovery_to_spec f = Ok spec -> rs_name spec = svc)
  /\ forall r answer,
       ((recovery_loaded r answer s).1 = None -> (recovery_loaded r answer s).2 = s)
       /\ ((recovery_loaded r answer s).1 <> None ->
             current (re_pending s) = Some r /\ re_service s = Some (rt_service (req_target r))
             /\ rt_generation (req_target r) = re_generation s).
Proof.
  assert (forall es s s', editor_ok s -> recovery_run es s = Some s' -> editor_ok s') as G.
  { intros es0. induction es0 as [|e es0 IH]; cbn; intros s0 s' Hs H; [by injection H as <-|].
    destruct (recovery_step e s0) as [s1|] eqn:E; [|done]. cbn in H. eapply IH; [|exact H]. by eapply editor_step. }
  intros H. destruct (G es RecoveryEditor_default s) as [Hd Hp]; [by split|done|]. split; [exact Hd|]. split.
  { intros f svc spec Hf Hs Hspec. apply recovery_to_spec_ok in Hspec as (-> & _). by apply (Hd f). }
  intros r answer. unfold recovery_loaded. destruct (recovery_finish r s) as [b s1] eqn:E.
  apply recovery_finish_inv in E as (_ & _ & _ & [(-> & Hc & _)|(-> & ->)]); cbn [negb].
  - split; [intros Hn; destruct answer; [case_match; done|done]|]. intros _. split; [done|]. by apply Hp.
  - split; [done|]. by intros [].
Qed.

Definition read_policy : RecoverySpec :=
  {| rs_name := &"a"; rs_restart_delay_ms := Some 5; rs_throttle_delay_ms := None; rs_default_action := Ignore; rs_exit_actions := [] |}.

(** A policy is read, the user leaves for another service and comes back. *)
Lemma recovery_editor_isolated_witness : rf_service (from_spec read_policy) = &"a".
Proof.
  refine (proj1 (recovery_editor_isolated
    [RActivate &"a"; RSubmit Read true;
     RLoaded (Build_Request 1 {| rt_service := &"a"; rt_generation := 1; rt_work := Read |}) (Ok read_policy);
     RLeave; RActivate &"a"]
    (Build_RecoveryEditor (Some (from_spec read_policy)) (Some &"a") 2 (Build_Pending 1 None)) _) _ _ eq_refl eq_refl).
  vm_compute. reflexivity.
Defined.
