(* ===== verification/GuiQueue.v ===== *)
(** * The GUI's worker: gui [data.rs]

    The bounded queue between the UI thread and the worker with its coalesced
    refreshes, as a step relation, and what the worker does with each job, as a
    program of its calls. *)

From Stdlib Require Import ZArith Lia List.
From S2P Require Import Prelude Text Model OpsConfig OpsControl Effects GuiForms GuiRequests.

(** ** Jobs *)

Inductive ActionKind := AStart | AStop | ARestart | APause | AContinue | ARotate | ARemove.
#[export] Instance ActionKind_eq_dec : EqDecision ActionKind.
Proof. solve_decision. Defined.
Record ActionTarget := { at_service : rstr; at_kind : ActionKind }.

Inductive Job :=
| Refresh
| JInstall (spec : InstallSpec) (request : Request ModalTarget)
| JEdit (spec : EditSpec) (request : Request ModalTarget)
| JAction (request : Request ActionTarget)
| JProcesses (request : Request ModalTarget)
| JReadLog (request : Request LogTarget)
| JReadRecovery (request : Request RecoveryTarget)
| JSaveRecovery (spec : RecoverySpec) (request : Request RecoveryTarget).

Definition is_refresh (j : Job) : bool := match j with Refresh => true | _ => false end.

(** ** The queue *)

Definition JOB_CHANNEL_CAP : nat := 16.

Inductive JobSendError := Full | Disconnected.
Definition job_send_error_to_string (e : JobSendError) : rstr :=
  match e with Full => &"job queue full" | Disconnected => &"worker thread disconnected" end.

(** The channel, the flag, and whether the receiver is alive. *)
Record Shared := { sh_jobs : list Job; sh_pending_refresh : bool; sh_alive : bool }.

(** Where the UI thread, the only sender, is inside [JobSender::send]. *)
Inductive Sender :=
| SIdle
| SSwapped (job : Job)                       (* past the swap, before [try_send] *)
| SFailed (e : JobSendError) (refresh : bool)  (* [try_send] failed, the flag not yet restored *)
| SDone (r : result JobSendError unit) (refresh : bool).

(** Where the worker is. *)
Inductive Worker := WIdle | WGot (job : Job) | WRun (job : Job).

(** [pending_refresh.swap(true)], for a refresh only. *)
Definition send_begin (job : Job) (s : Shared) : Sender * Shared :=
  if is_refresh job && sh_pending_refresh s then (SDone (Ok tt) true, s)
  else (SSwapped job,
        if is_refresh job then {| sh_jobs := sh_jobs s; sh_pending_refresh := true; sh_alive := sh_alive s |} else s).

(** [inner.try_send(job)] *)
Definition try_send (job : Job) (s : Shared) : Sender * Shared :=
  if negb (sh_alive s) then (SFailed Disconnected (is_refresh job), s)
  else if (JOB_CHANNEL_CAP <=? length (sh_jobs s))%nat then (SFailed Full (is_refresh job), s)
  else (SDone (Ok tt) (is_refresh job),
        {| sh_jobs := sh_jobs s ++ [job]; sh_pending_refresh := sh_pending_refresh s; sh_alive := sh_alive s |}).

(** [pending_refresh.store(false)] *)
Definition clear_flag (s : Shared) : Shared :=
  {| sh_jobs := sh_jobs s; sh_pending_refresh := false; sh_alive := sh_alive s |}.

Definition send_fail (e : JobSendError) (refresh : bool) (s : Shared) : Sender * Shared :=
  (SDone (Err e) refresh, if refresh then clear_flag s else s).

(** [rx.recv()] *)
Definition recv (s : Shared) : option (Job * Shared) :=
  match sh_jobs s with
  | j :: r => Some (j, {| sh_jobs := r; sh_pending_refresh := sh_pending_refresh s; sh_alive := sh_alive s |})
  | [] => None
  end.

(** The flag is cleared before a refresh is executed. *)
Definition worker_begin (job : Job) (s : Shared) : Worker * Shared :=
  (WRun job, if is_refresh job then clear_flag s else s).

(** [owed]: a refresh was accepted, at the swap that found one pending or at the
    push, and no refresh has begun since. A worker that panics drops the
    receiver and what is queued. *)
Record Config := { cf_shared : Shared; cf_sender : Sender; cf_worker : Worker; cf_owed : bool }.
Definition Config_start : Config :=
  {| cf_shared := {| sh_jobs := []; sh_pending_refresh := false; sh_alive := true |};
     cf_sender := SIdle; cf_worker := WIdle; cf_owed := false |}.

Definition accepts (u : Sender) : bool := match u with SDone (Ok _) true => true | _ => false end.

Inductive queue_step : Config -> Config -> Prop :=
| Q_send s w o job u s' : send_begin job s = (u, s') -> queue_step (Build_Config s SIdle w o) (Build_Config s' u w (o || accepts u))
| Q_try s w o job u s' : try_send job s = (u, s') -> queue_step (Build_Config s (SSwapped job) w o) (Build_Config s' u w (o || accepts u))
| Q_fail s w o e b u s' : send_fail e b s = (u, s') -> queue_step (Build_Config s (SFailed e b) w o) (Build_Config s' u w o)
| Q_return s w o r b : queue_step (Build_Config s (SDone r b) w o) (Build_Config s SIdle w o)
| Q_recv s u o j s' : sh_alive s = true -> recv s = Some (j, s') ->
    queue_step (Build_Config s u WIdle o) (Build_Config s' u (WGot j) o)
| Q_begin s u o j w s' : sh_alive s = true -> worker_begin j s = (w, s') ->
    queue_step (Build_Config s u (WGot j) o) (Build_Config s' u w (o && negb (is_refresh j)))
| Q_end s u o j : sh_alive s = true -> queue_step (Build_Config s u (WRun j) o) (Build_Config s u WIdle o)
| Q_panic s u o j : queue_step (Build_Config s u (WRun j) o)
    (Build_Config {| sh_jobs := []; sh_pending_refresh := sh_pending_refresh s; sh_alive := false |} u (WRun j) o).

Definition reachable : Config -> Prop := rtc queue_step Config_start.

Definition refreshes (l : list Job) : nat := length (List.filter is_refresh l).
Arguments refreshes : simpl never.
Definition sender_refresh (u : Sender) : nat :=
  match u with SSwapped j => if is_refresh j then 1 else 0 | SFailed _ true => 1 | _ => 0 end%nat.
Definition worker_refresh (w : Worker) : nat := match w with WGot j => if is_refresh j then 1 else 0 | _ => 0 end%nat.

(** The flag counts the refreshes under way, of which there is at most one. *)
Record queue_ok (c : Config) : Prop := {
  qo_room : (length (sh_jobs (cf_shared c)) <= JOB_CHANNEL_CAP)%nat;
  qo_count : sh_alive (cf_shared c) = true ->
    (refreshes (sh_jobs (cf_shared c)) + sender_refresh (cf_sender c) + worker_refresh (cf_worker c)
     = if sh_pending_refresh (cf_shared c) then 1 else 0)%nat;
  qo_owed : sh_alive (cf_shared c) = true -> cf_owed c = true ->
    (0 < refreshes (sh_jobs (cf_shared c)) + worker_refresh (cf_worker c))%nat }.

Lemma refreshes_app l m : refreshes (l ++ m) = (refreshes l + refreshes m)%nat.
Proof. unfold refreshes. by rewrite List.filter_app, length_app. Qed.
Lemma refreshes_cons j l : refreshes (j :: l) = ((if is_refresh j then 1 else 0) + refreshes l)%nat.
Proof. unfold refreshes. cbn [List.filter]. by destruct (is_refresh j). Qed.

(** Each kind of step, with the counts of the three places a refresh can be in. *)
Ltac queue_arith :=
  intros; cbn in *; rewrite ?refreshes_app, ?refreshes_cons in *; change (refreshes []) with 0%nat in *; cbn in *;
  repeat match goal with
  | H : ?x = true, K : ?x = true -> _ |- _ => specialize (K H)
  | K : true = true -> _ |- _ => specialize (K eq_refl)
  | |- context [if ?b then _ else _] => destruct b eqn:?
  | H : context [if ?b then _ else _] |- _ => destruct b eqn:?
  end; cbn in *; rewrite ?orb_false_r, ?andb_true_r, ?andb_false_r in *;
  try congruence; try lia;
  match goal with H : ?x = true, K : ?x = true -> _ |- _ => specialize (K H) end; lia.

Lemma send_begin_ok s w o job u s' : queue_ok (Build_Config s SIdle w o) -> send_begin job s = (u, s') ->
  queue_ok (Build_Config s' u w (o || accepts u)).
Proof.
  intros [Hr Hc Ho] E. unfold send_begin in E. cbn [cf_shared cf_sender cf_worker cf_owed] in *.
  destruct (is_refresh job) eqn:Hj; cbn [andb] in E; [destruct (sh_pending_refresh s) eqn:Hp|];
    injection E as <- <-; split; queue_arith.
Qed.

Lemma try_send_ok s w o job u s' : queue_ok (Build_Config s (SSwapped job) w o) -> try_send job s = (u, s') ->
  queue_ok (Build_Config s' u w (o || accepts u)).
Proof.
  intros [Hr Hc Ho] E. unfold try_send in E. cbn [cf_shared cf_sender cf_worker cf_owed] in *.
  destruct (sh_alive s) eqn:Ha; cbn [negb] in E; [destruct (Nat.leb_spec JOB_CHANNEL_CAP (length (sh_jobs s)))|];
    injection E as <- <-; split; try (cbn; rewrite ?length_app; cbn; lia); queue_arith.
Qed.

Lemma queue_step_ok c c' : queue_ok c -> queue_step c c' -> queue_ok c'.
Proof.
  intros Hok H. destruct H as [s w o job u s' E|s w o job u s' E|s w o e b u s' E|s w o r b|s u o j s' Ha E|s u o j w s' Ha E|s u o j Ha|s u o j].
  - by eapply send_begin_ok.
  - by eapply try_send_ok.
  - destruct Hok as [Hr Hc Ho]. unfold send_fail in E. injection E as <- <-. split; queue_arith.
  - destruct Hok as [Hr Hc Ho]. split; queue_arith.
  - destruct Hok as [Hr Hc Ho]. unfold recv in E. destruct s as [[|j' l] p al]; [done|]. injection E as <- <-. split; queue_arith.
  - destruct Hok as [Hr Hc Ho]. unfold worker_begin in E. injection E as <- <-. split; queue_arith.
  - destruct Hok as [Hr Hc Ho]. split; queue_arith.
  - split; cbn; [unfold JOB_CHANNEL_CAP; lia|done|done].
Qed.

Lemma reachable_ok c : reachable c -> queue_ok c.
Proof.
  unfold reachable. intros H. remember Config_start as c0 eqn:E.
  assert (queue_ok c0) as H0 by (subst; split; cbn; unfold JOB_CHANNEL_CAP; lia || done). clear E.
  induction H as [|x y z Hs _ IH]; [done|]. eauto using queue_step_ok.
Qed.

(** C28. The coalescing loses no refresh: in every state the queue can reach with
    its worker alive, a refresh that was accepted (pushed, or dropped because one
    was pending) and has not begun is in the queue or in the worker's hands; and
    there is never more than one refresh under way, nor more than sixteen jobs
    queued. *)
Theorem refresh_never_lost (c : Config) : reachable c ->
  (length (sh_jobs (cf_shared c)) <= JOB_CHANNEL_CAP)%nat /\
  (sh_alive (cf_shared c) = true ->
   (refreshes (sh_jobs (cf_shared c)) + worker_refresh (cf_worker c) <= 1)%nat /\
   (cf_owed c = true -> List.In Refresh (sh_jobs (cf_shared c)) \/ cf_worker c = WGot Refresh)).
Proof.
  intros [Hr Hc Ho]%reachable_ok. split; [done|]. intros Ha. specialize (Hc Ha). specialize (Ho Ha). split.
  - destruct (sh_pending_refresh _); lia.
  - intros Hp%Ho. destruct (decide (0 < refreshes (sh_jobs (cf_shared c)))%nat) as [Hq|Hq]; [left|right].
    + unfold refreshes in Hq. destruct (List.filter is_refresh _) as [|j l] eqn:E; [cbn in Hq; lia|].
      assert (List.In j (List.filter is_refresh (sh_jobs (cf_shared c)))) as [Hin Hj]%filter_In by (rewrite E; by left).
      by destruct j.
    + destruct (cf_worker c) as [|j|]; cbn in Hp; [lia| |lia]. by destruct j; cbn in Hp; try lia.
Qed.

(** A refresh is sent and coalesced with a second one while the worker is busy. *)
Lemma refresh_never_lost_witness :
  List.In Refresh [Refresh] \/ WIdle = WGot Refresh.
Proof.
  refine (proj2 (proj2 (refresh_never_lost
    (Build_Config {| sh_jobs := [Refresh]; sh_pending_refresh := true; sh_alive := true |} (SDone (Ok tt) true) WIdle true) _) eq_refl) eq_refl).
  eapply rtc_l; [apply (Q_send _ _ _ Refresh); reflexivity|].
  eapply rtc_l; [apply (Q_try _ _ _ Refresh); reflexivity|].
  eapply rtc_l; [apply Q_return|].
  eapply rtc_l; [apply (Q_send _ _ _ Refresh); reflexivity|].
  apply rtc_refl.
Defined.
