(* ===== verification/GuiTail.v ===== *)
(** * The log tail: gui [data.rs] ([tail_file])

    The end of a service's log as the GUI shows it: encoding by byte order mark,
    a bounded read, lossy decoding and the last lines; and that what is shown is
    the end of the log, exactly, wherever the read cuts a character. *)

From Stdlib Require Import ZArith Lia List.
From S2P Require Import Prelude Text Utf8 Model EventLog LogReader.

(** ** [str::lines] *)

Definition lf : rchar := 10.
Definition cr : rchar := 13.
Definition strip_cr (line : rstr) : rstr :=
  match rev line with c :: r => if c =? cr then rev r else line | [] => line end.

(** Lines end in a line feed, which goes with a carriage return before it; the
    last one may be unterminated. *)
Fixpoint lines_from (line : rstr) (s : rstr) : list rstr :=
  match s with
  | [] => if is_empty line then [] else [line]
  | c :: r => if c =? lf then strip_cr line :: lines_from [] r else lines_from (line ++ [c]) r
  end.
Definition lines : rstr -> list rstr := lines_from [].

(** ** decode_tail *)

Inductive TailEncoding := TailUtf8 | TailUtf16Le | TailUtf16Be.

Definition detect_encoding (head : list Z) : TailEncoding :=
  match head with
  | 255 :: 254 :: _ => TailUtf16Le
  | 254 :: 255 :: _ => TailUtf16Be
  | _ => TailUtf8
  end.

(** [chunks_exact(2)] of whole code units *)
Fixpoint units (of_bytes : Z -> Z -> Z) (b : list Z) : list Z :=
  match b with b0 :: b1 :: r => of_bytes b0 b1 :: units of_bytes r | _ => [] end.
Definition from_le_bytes (b0 b1 : Z) : Z := b0 + 256 * b1.
Definition from_be_bytes (b0 b1 : Z) : Z := 256 * b0 + b1.

Definition decode_tail (buf : list Z) (encoding : TailEncoding) : rstr :=
  match encoding with
  | TailUtf8 => from_utf8_lossy buf
  | TailUtf16Le => from_utf16_lossy (units from_le_bytes buf)
  | TailUtf16Be => from_utf16_lossy (units from_be_bytes buf)
  end.
Definition is_utf16 (e : TailEncoding) : bool := match e with TailUtf8 => false | _ => true end.

(** ** tail_reader *)

Definition TAIL : Z := 64 * 1024.

(** The lines of the bytes that were read. *)
Definition tail_lines (t : Tail) (encoding : TailEncoding) : list rstr :=
  let ls := lines (decode_tail (bytes t) encoding) in
  let ls := if partial t && negb (is_empty ls) then tl ls else ls in
  let extra := (length ls - 400)%nat in
  if (0 <? extra)%nat then drop extra ls else ls.

Definition tail_reader (read : Z -> Z -> IO (list Z)) (len : Z) : IO (list rstr) :=
  let! head := read 0 (Z.min len 4) in
  let encoding := detect_encoding head in
  let! t := read_tail read len TAIL (is_utf16 encoding) in
  mret (tail_lines t encoding).

Definition tail_file (p : rstr) : IO (list rstr) :=
  let! f := open_read p in
  let! len := file_len f in
  tail_reader (read_file f) len.

(** ** Lines of concatenations *)

Lemma lines_from_app line a t : ~ In lf a -> lines_from line (a ++ lf :: t) = strip_cr (line ++ a) :: lines t.
Proof.
  revert line. induction a as [|c a IH]; intros line Ha; cbn [app lines_from].
  - by rewrite app_nil_r.
  - destruct (Z.eqb_spec c lf) as [->|Hc]; [exfalso; apply Ha; by left|]. rewrite IH by (intros H; apply Ha; by right).
    by rewrite <- app_assoc.
Qed.
Lemma lines_from_unterminated line a : ~ In lf a -> lines_from line a = if is_empty (line ++ a) then [] else [line ++ a].
Proof.
  revert line. induction a as [|c a IH]; intros line Ha; cbn [lines_from]; [by rewrite app_nil_r|].
  destruct (Z.eqb_spec c lf) as [->|Hc]; [exfalso; apply Ha; by left|]. rewrite IH by (intros H; apply Ha; by right).
  by rewrite <- app_assoc.
Qed.

(** What follows the first line feed. *)
Definition after_newline (s : rstr) : rstr := match split_once lf s with Some (_, t) => t | None => [] end.

Lemma lines_app a t : lines (a ++ lf :: t) = lines (a ++ [lf]) ++ lines t.
Proof.
  unfold lines. generalize (@nil rchar) at 1 2. induction a as [|c a IH]; intros line; cbn [app lines_from].
  - rewrite Z.eqb_refl. done.
  - destruct (c =? lf); [cbn; f_equal; apply IH|apply IH].
Qed.

(** The first line, when it is cut, takes the garbage before it along. *)
Lemma tl_lines g s : ~ In lf g ->
  (if negb (is_empty (lines (g ++ s))) then tl (lines (g ++ s)) else lines (g ++ s)) = lines (after_newline s).
Proof.
  intros Hg. unfold after_newline. destruct (split_once lf s) as [[a t]|] eqn:E.
  - apply split_once_Some in E as [-> Ha]. rewrite app_assoc. unfold lines at 1 2 3.
    rewrite lines_from_app; [done|]. intros [?|?]%in_app_or; done.
  - apply split_once_None in E. unfold lines at 1 2 3. rewrite lines_from_unterminated by (intros [?|?]%in_app_or; done).
    cbn [app]. by destruct (g ++ s).
Qed.

(** The part after a line feed has whole lines of the text. *)
Lemma after_newline_suffix s : exists pre, s = pre ++ after_newline s /\ lines s = lines pre ++ lines (after_newline s).
Proof.
  unfold after_newline. destruct (split_once lf s) as [[a t]|] eqn:E.
  - apply split_once_Some in E as [-> _]. exists (a ++ [lf]). split; [by rewrite <- app_assoc|]. apply lines_app.
  - exists s. by rewrite !app_nil_r.
Qed.

(** ** A cut in the middle of a character *)

Definition le_bytes (u : Z) : list Z := [u mod 256; u / 256].
Definition be_bytes (u : Z) : list Z := [u / 256; u mod 256].

(** The bytes of a log in each encoding. *)
Definition encoded_as (e : TailEncoding) (s : rstr) : list Z :=
  match e with
  | TailUtf8 => as_bytes s
  | TailUtf16Le => flat_map le_bytes (encode_utf16 s)
  | TailUtf16Be => flat_map be_bytes (encode_utf16 s)
  end.
(** A UTF-16 log starts with its byte order mark. *)
Definition bom : rchar := 65279.
Definition has_bom (e : TailEncoding) (s : rstr) : Prop := is_utf16 e = true -> exists r, s = bom :: r.

Lemma drop_encode_utf16 s k : wf_str s ->
  exists cut rest g, s = cut ++ rest /\ drop k (encode_utf16 s) = g ++ encode_utf16 rest
    /\ (g = [] \/ exists u, g = [u] /\ 56320 <= u <= 57343).
Proof.
  intros Hs. revert k. induction Hs as [|c s Hc Hs IH]; intros k.
  - exists [], [], []. split; [done|]. split; [by destruct k|by left].
  - destruct k as [|k]; [by exists [], (c :: s), []; split; [|split; [|left]]|].
    cbn [encode_utf16 flat_map]. unfold encode_char at 1. destruct (Z.ltb_spec c 65536).
    + cbn [app drop]. destruct (IH k) as (cut & rest & g & -> & E & Hg). by exists (c :: cut), rest, g.
    + cbn [app]. destruct k as [|k]; cbn [drop].
      * exists [c], s, [56320 + (c - 65536) mod 1024]. split; [done|]. split; [done|]. right. eexists. split; [done|].
        pose proof (Z.mod_pos_bound (c - 65536) 1024 ltac:(lia)). lia.
      * destruct (IH k) as (cut & rest & g & -> & E & Hg). by exists (c :: cut), rest, g.
Qed.

Section Units.
Variable of_bytes : Z -> Z -> Z.
Variable to_bytes : Z -> list Z.
Hypothesis to_bytes_two : forall u, exists b0 b1, to_bytes u = [b0; b1] /\ of_bytes b0 b1 = u.

Lemma units_flat_map us : units of_bytes (flat_map to_bytes us) = us.
Proof.
  induction us as [|u us IH]; [done|]. cbn [flat_map]. destruct (to_bytes_two u) as (b0 & b1 & -> & E). cbn. by rewrite E, IH.
Qed.
Lemma length_flat_map_two us : length (flat_map to_bytes us) = (2 * length us)%nat.
Proof.
  induction us as [|u us IH]; [done|]. cbn [flat_map]. destruct (to_bytes_two u) as (b0 & b1 & -> & E). cbn [app length]. lia.
Qed.
Lemma drop_flat_map_two k us : drop (2 * k) (flat_map to_bytes us) = flat_map to_bytes (drop k us).
Proof.
  revert us. induction k as [|k IH]; intros us; [done|]. destruct us as [|u us]; [by rewrite !drop_nil|].
  cbn [flat_map]. destruct (to_bytes_two u) as (b0 & b1 & -> & E). replace (2 * S k)%nat with (S (S (2 * k))) by lia.
  cbn [app drop]. apply IH.
Qed.

Lemma drop_utf16_bytes s k : wf_str s ->
  exists cut rest g, s = cut ++ rest /\ from_utf16_lossy (units of_bytes (drop (2 * k) (flat_map to_bytes (encode_utf16 s)))) = g ++ rest
    /\ ~ In lf g /\ (length (drop (2 * k) (flat_map to_bytes (encode_utf16 s))) <= length (flat_map to_bytes (encode_utf16 rest)) + 2)%nat
    /\ (length (flat_map to_bytes (encode_utf16 rest)) <= length (drop (2 * k) (flat_map to_bytes (encode_utf16 s))))%nat.
Proof.
  intros Hs. rewrite drop_flat_map_two, units_flat_map, !length_flat_map_two.
  destruct (drop_encode_utf16 s k Hs) as (cut & rest & g & -> & -> & Hg). apply wf_str_app in Hs as [_ Hr].
  exists cut, rest. rewrite length_flat_map_two, length_app. destruct Hg as [->|(u & -> & Hu)].
  - exists []. cbn [app]. rewrite lossy_encode_utf16 by done. cbn. repeat split; try done; lia.
  - exists [replacement]. cbn [app from_utf16_lossy]. unfold high_surrogate, low_surrogate, replacement.
    rewrite (proj2 (Z.leb_gt u 56319)), andb_false_r, !(proj2 (Z.leb_le _ _)) by lia. cbn [andb].
    rewrite lossy_encode_utf16 by done. cbn [length]. repeat split; try lia. unfold lf. cbn. lia.
Qed.
End Units.

Lemma le_two u : exists b0 b1, le_bytes u = [b0; b1] /\ from_le_bytes b0 b1 = u.
Proof. exists (u mod 256), (u / 256). split; [done|]. unfold from_le_bytes. pose proof (Z.div_mod u 256). lia. Qed.
Lemma be_two u : exists b0 b1, be_bytes u = [b0; b1] /\ from_be_bytes b0 b1 = u.
Proof. exists (u / 256), (u mod 256). split; [done|]. unfold from_be_bytes. pose proof (Z.div_mod u 256). lia. Qed.

(** Decoding from anywhere (at an even place, for UTF-16) gives the rest of the
    text, after at most three replacement characters. *)
Lemma decode_cut e s k : wf_str s -> (is_utf16 e = true -> exists m, k = (2 * m)%nat) ->
  exists cut rest g, s = cut ++ rest /\ decode_tail (drop k (encoded_as e s)) e = g ++ rest /\ ~ In lf g
    /\ (length (drop k (encoded_as e s)) <= length (encoded_as e rest) + 3)%nat
    /\ (length (encoded_as e rest) <= length (drop k (encoded_as e s)))%nat.
Proof.
  intros Hs Hk. destruct e; cbn [decode_tail encoded_as].
  - destruct (drop_as_bytes s k Hs) as (cut & rest & g & -> & -> & Hg & Hn). apply wf_str_app in Hs as [_ Hr].
    exists cut, rest, (repeat replacement (length g)). rewrite lossy_continuations, lossy_as_bytes, length_app by done.
    repeat split; try lia. intros H%repeat_spec. done.
  - destruct (Hk eq_refl) as [m ->]. destruct (drop_utf16_bytes _ _ le_two s m Hs) as (cut & rest & g & H1 & H2 & H3 & H4 & H5).
    exists cut, rest, g. repeat split; try done. lia.
  - destruct (Hk eq_refl) as [m ->]. destruct (drop_utf16_bytes _ _ be_two s m Hs) as (cut & rest & g & H1 & H2 & H3 & H4 & H5).
    exists cut, rest, g. repeat split; try done. lia.
Qed.

Lemma utf8_char_bound c : scalar c -> Forall (fun b => b <= 247) (utf8_char c).
Proof.
  unfold scalar, utf8_char. intros Hc. destruct (Z.ltb_spec c 128); [repeat constructor; lia|].
  destruct (Z.ltb_spec c 2048); [repeat constructor; Z.to_euclidean_division_equations; lia|].
  destruct (Z.ltb_spec c 65536); repeat constructor; Z.to_euclidean_division_equations; lia.
Qed.
Lemma as_bytes_bound s : wf_str s -> Forall (fun b => b <= 247) (as_bytes s).
Proof. induction 1 as [|c s Hc _ IH]; [constructor|]. apply Forall_app. split; [by apply utf8_char_bound|done]. Qed.

Lemma detect_utf8 b : Forall (fun b => b <= 247) b -> detect_encoding b = TailUtf8.
Proof.
  intros [|x l Hx Hl]; [done|]. unfold detect_encoding.
  repeat match goal with |- context [match ?z with _ => _ end] => is_var z; destruct z; try done end; lia.
Qed.

Lemma detect_encoded e s n : wf_str s -> has_bom e s -> (4 <= n)%nat ->
  detect_encoding (take n (encoded_as e s)) = e.
Proof.
  intros Hs Hb Hn. destruct e; cbn [encoded_as].
  - by apply detect_utf8, Forall_take, as_bytes_bound.
  - destruct (Hb eq_refl) as [r ->]. do 2 (destruct n as [|n]; [lia|]). reflexivity.
  - destruct (Hb eq_refl) as [r ->]. do 2 (destruct n as [|n]; [lia|]). reflexivity.
Qed.

Lemma encoded_even e s : is_utf16 e = true -> exists m, length (encoded_as e s) = (2 * m)%nat.
Proof.
  intros He. exists (length (encode_utf16 s)). destruct e; [done| |]; cbn [encoded_as].
  - apply (length_flat_map_two _ _ le_two).
  - apply (length_flat_map_two _ _ be_two).
Qed.

Definition last_lines (n : nat) (ls : list rstr) : list rstr := drop (length ls - n) ls.

Lemma extra_drop (ls : list rstr) :
  (if (0 <? length ls - 400)%nat then drop (length ls - 400) ls else ls) = last_lines 400 ls.
Proof. unfold last_lines. destruct (Nat.ltb_spec 0 (length ls - 400)); [done|]. by replace (length ls - 400)%nat with 0%nat by lia. Qed.

(** Where the read starts, in a text of [len] bytes. *)
Lemma tail_start e s : let len := Z.of_nat (length (encoded_as e s)) in
  let start := sat_sub len TAIL in
  (if is_utf16 e && negb (start mod 2 =? 0) then start + 1 else start) = start
  /\ (is_utf16 e = true -> exists m, Z.to_nat start = (2 * m)%nat)
  /\ 0 <= start <= len /\ Z.min (sat_sub len start) TAIL = len - start /\ (start = 0 <-> len <= TAIL) /\ (0 < start -> len - start = TAIL).
Proof.
  intros len start. assert (0 <= len) as Hl by lia. unfold start, sat_sub, TAIL in *. split; [|split; [|lia]].
  - destruct (is_utf16 e) eqn:He; [|done]. destruct (encoded_even e s He) as [m Hm]. cbn [andb].
    destruct (Z.eqb_spec (Z.max 0 (len - 64 * 1024) mod 2) 0) as [|Hne]; [done|]. exfalso. apply Hne.
    unfold len. rewrite Hm. destruct (Z.max_spec 0 (Z.of_nat (2 * m) - 64 * 1024)) as [[_ ->]|[_ ->]]; [|done].
    apply Z.mod_divide; [done|]. exists (Z.of_nat m - 32 * 1024). lia.
  - intros He. destruct (encoded_even e s He) as [m Hm]. exists (Z.to_nat (Z.of_nat m - 32 * 1024)). unfold len. rewrite Hm. lia.
Qed.

Lemma read_file_ok b start count w : w_faults w = [] ->
  exists w', read_file b start count w = (Ok (take (Z.to_nat count) (drop (Z.to_nat start) b)), w') /\ w_faults w' = [].
Proof. intros H. unfold read_file, fallible, next_fault. rewrite H. eexists. by split. Qed.

(** The two reads of a log that only grows while it is read. *)
Lemma tail_reader_eq e s later w : w_faults w = [] -> wf_str s -> has_bom e s ->
  let b := encoded_as e s in
  let start := Z.to_nat (sat_sub (Z.of_nat (length b)) TAIL) in
  exists w', tail_reader (read_file (b ++ later)) (Z.of_nat (length b)) w
    = (Ok (tail_lines {| bytes := drop start b; partial := (0 <? sat_sub (Z.of_nat (length b)) TAIL) |} e), w').
Proof.
  intros Hw Hs Hb b start. unfold tail_reader, mbind.
  destruct (read_file_ok (b ++ later) 0 (Z.min (Z.of_nat (length b)) 4) w Hw) as (w1 & -> & Hw1).
  assert (detect_encoding (take (Z.to_nat (Z.min (Z.of_nat (length b)) 4)) (drop (Z.to_nat 0) (b ++ later))) = e) as ->.
  { rewrite drop_0, firstn_app. replace (Z.to_nat _ - length b)%nat with 0%nat by lia. rewrite take_0, app_nil_r.
    destruct (decide (4 <= length b)%nat); [by rewrite (detect_encoded e s) by (done || lia)|].
    rewrite firstn_all2 by lia. rewrite <- (firstn_all2 (n := 4) b) by lia. by apply detect_encoded. }
  unfold read_tail, mbind. destruct (tail_start e s) as (Es & _ & Hr & Ec & _). fold b in Es, Hr, Ec. rewrite Es, Ec.
  match goal with |- context [read_file ?x ?y ?z w1] => destruct (read_file_ok x y z w1 Hw1) as (w2 & -> & _) end.
  eexists. unfold mret. do 4 f_equal. fold start. rewrite drop_app_le by lia. rewrite firstn_app, length_drop.
  replace (Z.to_nat _ - _)%nat with 0%nat by lia. rewrite take_0, app_nil_r. apply firstn_all2. rewrite length_drop. lia.
Qed.

(** The log view shows the end of the log. Of a log whose text is [s], in
    UTF-8 or in UTF-16 with its byte order mark, that grows while it is read, a
    read without errors gives the last lines, at most 400, of a text [shown]: of
    the whole of [s] when it is no longer than 64 KiB; otherwise of what follows
    the first line feed among the last characters of [s] that fill 64 KiB up to a
    cut character, so that all lines shown are whole lines of the log. *)
Theorem tail_shows_the_end e s later w : w_faults w = [] -> wf_str s -> has_bom e s ->
  let b := encoded_as e s in
  exists ls w' pre shown, tail_reader (read_file (b ++ later)) (Z.of_nat (length b)) w = (Ok ls, w')
    /\ ls = last_lines 400 (lines shown) /\ (length ls <= 400)%nat
    /\ s = pre ++ shown /\ lines s = lines pre ++ lines shown
    /\ (Z.of_nat (length b) <= TAIL -> shown = s)
    /\ (TAIL < Z.of_nat (length b) -> exists cut rest, s = cut ++ rest /\ shown = after_newline rest
          /\ TAIL - 3 <= Z.of_nat (length (encoded_as e rest)) <= TAIL).
Proof.
  intros Hw Hs Hb b. destruct (tail_reader_eq e s later w Hw Hs Hb) as [w' E]. fold b in E.
  destruct (tail_start e s) as (_ & Hm & Hr & _ & H0 & Hp). fold b in Hm, Hr, H0, Hp.
  set (start := sat_sub (Z.of_nat (length b)) TAIL) in *. unfold tail_lines in E. cbn [bytes partial] in E. rewrite extra_drop in E.
  destruct (decode_cut e s (Z.to_nat start) Hs Hm) as (cut & rest & g & Es & Ed & Hg & Hlo & Hhi). fold b in Ed, Hlo, Hhi.
  rewrite length_drop in Hlo, Hhi. rewrite Ed in E. clear Hw Hb Hm.
  assert (forall l, (length (last_lines 400 l) <= 400)%nat) as Hn by (intros l; unfold last_lines; rewrite length_drop; lia).
  destruct (Z.ltb_spec 0 start) as [Hlt|Hle]; cbn [andb] in E.
  - rewrite tl_lines in E by done. destruct (after_newline_suffix rest) as (pre & Hpre & _). set (shown := after_newline rest) in *.
    exists (last_lines 400 (lines shown)), w'. destruct (split_once lf rest) as [[a t]|] eqn:Ea.
    + assert (shown = t) as Ht by (unfold shown, after_newline; by rewrite Ea). apply split_once_Some in Ea as [Ea _].
      exists (cut ++ a ++ [lf]), shown. rewrite Ht in *. split; [done|]. split; [done|]. split; [apply Hn|].
      split; [by rewrite Es, Ea, <- !app_assoc|]. split; [by rewrite Es, Ea, !app_assoc, <- lines_app|].
      split; [lia|]. intros _. exists cut, rest. split; [done|]. split; [done|]. lia.
    + assert (shown = []) as Ht by (unfold shown, after_newline; by rewrite Ea). rewrite Ht in *.
      exists s, []. split; [done|]. split; [done|]. split; [apply Hn|]. rewrite !app_nil_r. split; [done|]. split; [done|].
      split; [lia|]. intros _. exists cut, rest. split; [done|]. split; [done|]. lia.
  - assert (start = 0) as Hz by lia. rewrite Hz in Ed. change (Z.to_nat 0) with 0%nat in Ed. rewrite drop_0 in Ed.
    assert (decode_tail b e = s) as Hd.
    { unfold b. destruct e; cbn [decode_tail encoded_as]; [by apply lossy_as_bytes|..].
      - rewrite (units_flat_map _ _ le_two). by apply lossy_encode_utf16.
      - rewrite (units_flat_map _ _ be_two). by apply lossy_encode_utf16. }
    rewrite <- Ed, Hd in E. exists (last_lines 400 (lines s)), w', [], s. split; [done|]. split; [done|]. split; [apply Hn|].
    split; [done|]. split; [done|]. split; [done|]. lia.
Qed.

Lemma tail_shows_the_end_witness :
  exists ls w' pre shown, tail_reader (read_file (encoded_as TailUtf16Le (bom :: &"one
two")  ++ [10; 0])) 18 (sample_world []) = (Ok ls, w') /\ ls = last_lines 400 (lines shown) /\ bom :: &"one
two" = pre ++ shown.
Proof.
  destruct (tail_shows_the_end TailUtf16Le (bom :: &"one
two") [10; 0] (sample_world [])) as (ls & w' & pre & shown & H1 & H2 & _ & H3 & _).
  - reflexivity.
  - apply wf_str_b. vm_compute. reflexivity.
  - intros _. eexists. reflexivity.
  - exists ls, w', pre, shown. split; [exact H1|]. split; [exact H2|exact H3].
Defined.
Example tail_sample : (tail_reader (read_file (encoded_as TailUtf16Le (bom :: &"one
two"))) 16 (sample_world [])).1 = Ok [bom :: &"one"; &"two"].
Proof. vm_compute. reflexivity. Qed.
