(* ===== verification/GuiWorker.v ===== *)
(** * The GUI's worker: gui [data.rs] ([execute], [processes], [read_log])

    What the worker does with each job, as a program of its calls into the other
    crates and the files, and what its answers promise to the views. *)

From Stdlib Require Import ZArith Lia List.
From S2P Require Import Prelude Text Utf8 BTree Model Expansion Effects OpsConfig OpsControl BrokerHandlers EventLog LogReader Metrics.
From S2P Require Import GuiRequests GuiQueue GuiTail.

(** ** Calls and results *)

(** [Ops] are the calls into the operations, registry and win32 crates. *)
Inductive WorkE : Type -> Type :=
| Ops {X} (e : HandlerE X) : WorkE (result Error X)
| NowUtc : WorkE Z
| ReadSince (since : Z) : WorkE (result io_error (list EventRecord))
| ReadRecent (max : Z) : WorkE (list EventRecord)
| TailFile (path : rstr) : WorkE (result io_error (list rstr)).
Abbreviation WorkProg A := (Prog WorkE Empty_set A) (only parsing).
Abbreviation WorkEvent := (Event WorkE Empty_set) (only parsing).

Inductive JobResult :=
| RServices (defs : list ServiceDefinition) (warnings : list rstr) (events : list EventRecord) (metrics : DashboardMetrics)
| RProcesses (request : Request ModalTarget) (r : result Error (list ProcessInfo))
| RActed (request : Request ActionTarget) (r : result Error rstr)
| RLog (request : Request LogTarget) (status : rstr) (lines : list rstr)
| RRecoverySaved (request : Request RecoveryTarget) (r : result Error rstr)
| RRecoveryLoaded (request : Request RecoveryTarget) (r : result Error RecoverySpec)
| RInstalled (request : Request ModalTarget) (r : result Error rstr)
| REdited (request : Request ModalTarget) (r : result Error rstr)
| RScanError (e : Error).

Definition with_unknown (m : DashboardMetrics) : DashboardMetrics := {|
  total := total m; running := running m; stopped := stopped m; manual_start := manual_start m; failed := failed m;
  auto_recovering := auto_recovering m; availability_pct := availability_pct m;
  availability_window_days := availability_window_days m; availability_daily := availability_daily m;
  availability_unknown := true |}.

(** ** log_needs_service_environment *)

(** [s.match_indices(c)]: the places in bytes. *)
Fixpoint match_indices (c : rchar) (off : Z) (s : rstr) : list Z :=
  match s with
  | [] => []
  | x :: r => let next := off + Z.of_nat (length (utf8_char x)) in
              if x =? c then off :: match_indices c next r else match_indices c next r
  end.
Fixpoint has_reference (signs : list Z) : bool :=
  match signs with
  | start :: stop :: r => if start + 1 <? stop then true else has_reference r
  | _ => false
  end.
Definition log_needs_service_environment (config : ManagedApplicationConfig) (field path : rstr) : bool :=
  if negb (is_expandable_string config field) then false else has_reference (match_indices c_percent 0 path).

(** ** execute *)

Definition processes (name : rstr) : WorkProg (result Error (list ProcessInfo)) :=
  let@ snap := perform (Ops (ScmQuery name)) in
  match snap with
  | Err e => PRet (Ok (Err e))
  | Ok snap =>
      match ns_runtime snap ≫= pid with
      | None => PRet (Ok (Err (error_other (&"service '" ++ name ++ &"' is not running"))))
      | Some pid => perform (Ops (EnumerateDescendants pid))
      end
  end.

(** The value name of a stream and its configured path. *)
Definition log_field (stderr : bool) : rstr := if stderr then &"AppStderr" else &"AppStdout".
Definition log_path (stderr : bool) (cfg : ManagedApplicationConfig) : option rstr :=
  Model.path <$> (if stderr then Model.stderr (io cfg) else stdout (io cfg)).

Definition read_log (request : Request LogTarget) : WorkProg JobResult :=
  let service := lt_service (req_target request) in
  let stderr := lt_stderr (req_target request) in
  let which := if stderr then &"stderr" else &"stdout" in
  let log status lines := PRet (Ok (RLog request status lines)) in
  let@ cfg := perform (Ops (RegReadManaged service)) in
  match cfg with
  | Ok None => log (&"'" ++ service ++ &"' is not an NGSM-managed service.") []
  | Err e => log (&"Cannot read '" ++ service ++ &"' config: " ++ error_to_string e) []
  | Ok (Some cfg) =>
      match log_path stderr cfg with
      | None => log (&"No " ++ which ++ &" log is configured for '" ++ service ++ &"'.") []
      | Some path =>
          if log_needs_service_environment cfg (log_field stderr) path
          then log (which ++ &" uses service-environment references. The GUI cannot safely resolve another service account's environment; open the resolved log path instead. Configured path: " ++ path) []
          else
            let@ tail := perform (TailFile path) in
            match tail with
            | Ok lines => log (which ++ &"  ·  " ++ path ++ &"  ·  " ++ to_dec (Z.of_nat (length lines)) ++ &" lines") lines
            | Err e => log (&"Cannot read " ++ which ++ &" log '" ++ path ++ &"': " ++ io_error_text e) []
            end
      end
  end.

Definition action_call (name : rstr) (kind : ActionKind) : HandlerE rstr :=
  match kind with
  | AStart => OpsStart name
  | AStop => OpsStop name
  | ARestart => OpsRestart name 30000 false
  | APause => OpsPause name
  | AContinue => OpsContinue name
  | ARotate => OpsRotate name
  | ARemove => OpsRemove name false true
  end.

Section Worker.
Context {T : Clock} (compare_string_ordinal : list Z -> list Z -> bool).

Definition refresh : WorkProg JobResult :=
  let@ listed := perform (Ops OpsList) in
  match listed with
  | Err e => PRet (Ok (RScanError (error_other (&"enumerate: " ++ error_to_string e))))
  | Ok (defs, warnings) =>
      let@ now := perform NowUtc in
      let@ read := perform (ReadSince (now - WINDOW)) in
      let '(window, warnings, read_failed) :=
        match read with
        | Ok v => (v, warnings, false)
        | Err e => ([], warnings ++ [&"event log unreadable: " ++ io_error_text e ++ &" — availability unknown"], true)
        end in
      let metrics := compute_metrics compare_string_ordinal defs window now in
      let metrics := if read_failed then with_unknown metrics else metrics in
      let@ events := perform (ReadRecent 50) in
      PRet (Ok (RServices defs warnings events metrics))
  end.

Definition execute (job : Job) : WorkProg JobResult :=
  match job with
  | Refresh => refresh
  | JInstall spec request => let@ r := perform (Ops (OpsInstall spec)) in PRet (Ok (RInstalled request r))
  | JEdit spec request => let@ r := perform (Ops (OpsEdit spec)) in PRet (Ok (REdited request r))
  | JAction request =>
      let@ r := perform (Ops (action_call (at_service (req_target request)) (at_kind (req_target request)))) in
      PRet (Ok (RActed request r))
  | JProcesses request => let@ r := processes (mt_service (req_target request)) in PRet (Ok (RProcesses request r))
  | JReadLog request => read_log request
  | JReadRecovery request =>
      let@ r := perform (Ops (OpsReadRecovery (rt_service (req_target request)))) in PRet (Ok (RRecoveryLoaded request r))
  | JSaveRecovery spec request => let@ r := perform (Ops (OpsSaveRecovery spec)) in PRet (Ok (RRecoverySaved request r))
  end.
End Worker.

(** ** Which log paths depend on an environment *)

(** A reference between the signs of one pair, the pairs counted from the start. *)
Inductive references : rstr -> Prop :=
| ref_here pre nm rest : ~ In c_percent pre -> ~ In c_percent nm -> nm <> [] ->
    references (pre ++ c_percent :: nm ++ c_percent :: rest)
| ref_later pre rest : ~ In c_percent pre -> references rest -> references (pre ++ c_percent :: c_percent :: rest).

Lemma utf8_char_length c : (1 <= length (utf8_char c))%nat.
Proof. unfold utf8_char. repeat case_match; cbn; lia. Qed.

Lemma match_indices_app c a : forall off t, ~ In c a ->
  match_indices c off (a ++ t) = match_indices c (off + Z.of_nat (length (as_bytes a))) t.
Proof.
  induction a as [|x a IH]; intros off t Ha; cbn [app match_indices as_bytes flat_map]; [cbn [length]; f_equal; lia|].
  destruct (Z.eqb_spec x c) as [->|Hx]; [exfalso; apply Ha; by left|]. rewrite IH by (intros H; apply Ha; by right).
  rewrite length_app. f_equal. unfold as_bytes. lia.
Qed.
Lemma match_indices_none c s off : ~ In c s -> match_indices c off s = [].
Proof. intros H. rewrite <- (app_nil_r s), match_indices_app by done. done. Qed.

Lemma length_as_bytes_pos s : s <> [] -> (0 < length (as_bytes s))%nat.
Proof. destruct s as [|c s]; [done|]. intros _. cbn. rewrite length_app. pose proof (utf8_char_length c). lia. Qed.

(** One pair of signs. *)
Lemma has_reference_pair off pre nm rest : ~ In c_percent pre -> ~ In c_percent nm ->
  exists off', has_reference (match_indices c_percent off (pre ++ c_percent :: nm ++ c_percent :: rest))
    = negb (is_empty nm) || has_reference (match_indices c_percent off' rest).
Proof.
  intros Hp Hn. rewrite match_indices_app by done. set (o := off + _). cbn [match_indices]. rewrite Z.eqb_refl.
  rewrite match_indices_app by done. cbn [match_indices]. rewrite Z.eqb_refl. cbn [has_reference].
  change (Z.of_nat (length (utf8_char c_percent))) with 1. set (o2 := o + 1 + _). exists (o2 + 1).
  destruct nm as [|x nm]; cbn [is_empty negb orb].
  - replace (o + 1 <? o2) with false; [done|]. symmetry. apply Z.ltb_ge. unfold o2. cbn. lia.
  - pose proof (length_as_bytes_pos (x :: nm) ltac:(done)). by replace (o + 1 <? o2) with true by lia.
Qed.

Lemma has_reference_iff s : forall off, has_reference (match_indices c_percent off s) = true <-> references s.
Proof.
  induction s as [s IH'] using (induction_ltof1 _ (@length rchar)). unfold ltof in IH'. intros off.
  destruct (split_once c_percent s) as [[pre cand]|] eqn:E1.
  - apply split_once_Some in E1 as [-> Hpre]. destruct (split_once c_percent cand) as [[nm after]|] eqn:E2.
    + apply split_once_Some in E2 as [-> Hname]. destruct (has_reference_pair off pre nm after Hpre Hname) as [off' ->].
      rewrite orb_true_iff, (IH' after) by (rewrite length_app; cbn; rewrite length_app; cbn; lia). split.
      * intros [H|H]; destruct nm as [|x nm]; try done; [by apply ref_here|by apply (ref_later pre after)|by apply ref_here].
      * intros H. remember (pre ++ c_percent :: nm ++ c_percent :: after) as s' eqn:Es.
        destruct H as [p q r Hp Hq Hne|p r Hp Hr]; apply app_percent_inj in Es as [_ Es]; try done.
        -- apply app_percent_inj in Es as [<- _]; [left; by destruct q|done|done].
        -- apply (app_percent_inj [] r) in Es as [<- <-]; [by right|intros []|done].
    + apply split_once_None in E2. rewrite match_indices_app by done. cbn [match_indices]. rewrite Z.eqb_refl, match_indices_none by done.
      split; [done|]. intros H. exfalso. remember (pre ++ c_percent :: cand) as s' eqn:Es.
      destruct H as [p q r Hp Hq Hne|p r Hp Hr]; apply app_percent_inj in Es as [_ <-]; try done; apply E2; [apply in_elt|by left].
  - apply split_once_None in E1. rewrite match_indices_none by done. split; [done|]. intros H. exfalso. apply E1. destruct H; apply in_elt.
Qed.

Lemma no_reference_expansion lookup s out : ~ references s -> expansion lookup s out -> out = s.
Proof.
  intros Hn H. induction H as [s Hs|pre post Hp Hq|pre nm rest value out Hp Hq Hne Hl Ho IH|pre nm rest out Hp Hq Hor Ho IH]; try done.
  - exfalso. apply Hn. by apply ref_here.
  - destruct nm as [|c nm]; [|exfalso; apply Hn; by apply ref_here].
    rewrite IH; [done|]. intros Hr. apply Hn. by apply (ref_later pre rest).
Qed.

(** With every variable empty, a reference makes the text shorter. *)
Definition all_empty (_ : rstr) : option rstr := Some [].
Definition shrinks (s out : rstr) : Prop := (length out <= length s)%nat /\ utf16_len out <= utf16_len s /\ (forall c, In c out -> In c s).

Ltac in_lists := repeat first [rewrite in_app_iff in * | progress cbn [In] in *]; intuition auto.

Lemma shrinks_pair pre nm rest out : shrinks rest out ->
  shrinks (pre ++ c_percent :: nm ++ c_percent :: rest) (pre ++ [] ++ out)
  /\ shrinks (pre ++ c_percent :: nm ++ c_percent :: rest) (pre ++ c_percent :: nm ++ c_percent :: out).
Proof.
  intros (H1 & H2 & H3). pose proof (utf16_len_nonneg nm). cbn [app].
  assert (forall t, utf16_len (c_percent :: t) = 1 + utf16_len t) as Hu by (intros t; apply (utf16_len_app [c_percent] t)).
  split; (split; [rewrite ?length_app; cbn [length]; rewrite ?length_app; cbn [length]; rewrite ?length_app; lia|]);
    (split; [rewrite ?utf16_len_app, ?Hu, ?utf16_len_app, ?Hu; lia|]); intros c Hc; in_lists.
Qed.
Lemma shrinks_refl s : shrinks s s.
Proof. by repeat split. Qed.

Lemma expansion_all_empty s : exists out, expansion all_empty s out /\ shrinks s out.
Proof.
  induction s as [s IH] using (induction_ltof1 _ (@length rchar)). unfold ltof in IH.
  destruct (split_once c_percent s) as [[pre cand]|] eqn:E1.
  - apply split_once_Some in E1 as [-> Hpre]. destruct (split_once c_percent cand) as [[nm after]|] eqn:E2.
    + apply split_once_Some in E2 as [-> Hnm]. destruct (IH after) as (out & Ho & Hs).
      { rewrite length_app. cbn [length]. rewrite length_app. cbn [length]. lia. }
      destruct (shrinks_pair pre nm after out Hs) as [S1 S2]. destruct (decide (nm = [])) as [->|Hne].
      * eexists. split; [by apply (exp_unknown _ pre [] after out); auto|done].
      * eexists. split; [by apply (exp_variable _ pre nm after [] out)|done].
    + apply split_once_None in E2. eexists. split; [by apply exp_unmatched|apply shrinks_refl].
  - apply split_once_None in E1. eexists. split; [by apply exp_plain|apply shrinks_refl].
Qed.

Lemma reference_expansion s : references s ->
  exists out, expansion all_empty s out /\ shrinks s out /\ out <> s.
Proof.
  intros H. cut (exists out, expansion all_empty s out /\ shrinks s out /\ (length out < length s)%nat).
  { intros (out & H1 & H2 & H3). exists out. split; [done|]. split; [done|]. intros ->. lia. }
  induction H as [pre nm rest Hp Hn Hne|pre rest Hp Hr (out & Ho & Hs & Hl)].
  - destruct (expansion_all_empty rest) as (out & Ho & Hs). exists (pre ++ [] ++ out). split; [by apply exp_variable|].
    split; [by apply shrinks_pair|]. destruct Hs as [Hl _]. cbn [app]. repeat (rewrite length_app || cbn [length]). lia.
  - exists (pre ++ c_percent :: [] ++ c_percent :: out). split; [apply (exp_unknown _ pre [] rest out); auto|].
    split; [by apply (shrinks_pair pre [] rest)|]. cbn [app]. repeat (rewrite length_app || cbn [length]). lia.
Qed.

(** The log view withholds a log exactly when its place depends on the
    service's environment: for a configured path that Windows accepts as it is,
    [log_needs_service_environment] is false if and only if every environment in
    which the supervisor can resolve the path resolves it to the path itself. *)
Theorem log_needs_service_environment_exact cfg stderr s :
  within_limits (Model.path s) ->
  log_needs_service_environment cfg (log_field stderr) (Model.path s) = false <->
  (forall lookup s', resolve_stream cfg lookup (log_field stderr) (Some s) = Ok (Some s') -> Model.path s' = Model.path s).
Proof.
  intros [Hnul Hlen]. unfold log_needs_service_environment, resolve_stream.
  destruct (is_expandable_string cfg (log_field stderr)); cbn [negb].
  - split.
    + intros Hr lookup s' H. apply rbind_ok in H as (out & H & [= <-]). cbn [Model.path with_path].
      apply expand_spec in H as (He & _). eapply no_reference_expansion; [|exact He]. rewrite <- (has_reference_iff _ 0), Hr. done.
    + intros H. apply not_true_is_false. rewrite has_reference_iff. intros (out & Ho & (_ & Hu & Hi) & Hne)%reference_expansion.
      apply Hne. specialize (H all_empty (with_path out s)). cbn [Model.path with_path] in H. apply H.
      assert (expand (log_field stderr) all_empty (Model.path s) = Ok out) as ->; [|done].
      apply expand_spec. split; [done|]. split; [|lia]. intros Hc. by apply Hnul, Hi.
  - split; [|done]. by intros _ lookup s' [= <-].
Qed.

(** ** What the answers promise *)

Lemma run_call {X A} (e : WorkE X) (k : X -> WorkProg A) log r :
  runs (pbind (perform e) k) log r -> exists x log', log = Ev e (Ok x) :: log' /\ runs (k x) log' r.
Proof. intros ([x|[]] & log' & -> & H). by exists x, log'. Qed.
Ltac run_calls H := repeat (let x := fresh "x" in let l := fresh "l" in apply run_call in H as (x & l & -> & H)).

Definition tailed (e : WorkEvent) : option rstr := match e with Ev (TailFile p) _ => Some p | _ => None end.
Definition stream_of (stderr : bool) (cfg : ManagedApplicationConfig) : option IoStream :=
  if stderr then Model.stderr (io cfg) else stdout (io cfg).

(** The log view opens the file the service's output goes to, or none: a
    read for a service and stream either opens no file and shows no lines, or
    opens exactly the path configured for that stream of that service, a path
    that every environment the supervisor may run in leaves as it is, and shows
    what the file's tail was, under the request it was made for. *)
Theorem log_view_reads_service_log request log res : runs (read_log request) log (Ok res) ->
  exists status lines, res = RLog request status lines /\
  ((omap tailed log = [] /\ lines = [])
   \/ exists cfg s tail,
        log = [Ev (Ops (RegReadManaged (lt_service (req_target request)))) (Ok (Ok (Some cfg))); Ev (TailFile (Model.path s)) (Ok tail)]
        /\ stream_of (lt_stderr (req_target request)) cfg = Some s
        /\ lines = match tail with Ok ls => ls | Err _ => [] end
        /\ forall lookup s', resolve_stream cfg lookup (log_field (lt_stderr (req_target request))) (Some s) = Ok (Some s') ->
             Model.path s' = Model.path s).
Proof.
  intros H. unfold read_log in H. apply run_call in H as (cfg & l & -> & H).
  destruct cfg as [[cfg|]|e]; [|destruct H as [-> [= ->]]; do 2 eexists; split; [reflexivity|by left]..].
  unfold log_path in H. fold (stream_of (lt_stderr (req_target request)) cfg) in H.
  destruct (stream_of _ cfg) as [s|] eqn:Es; cbn [option_fmap option_map fmap] in H;
    [|destruct H as [-> [= ->]]; do 2 eexists; split; [reflexivity|by left]].
  destruct (log_needs_service_environment cfg _ (Model.path s)) eqn:En;
    [destruct H as [-> [= ->]]; do 2 eexists; split; [reflexivity|by left]|].
  apply run_call in H as (tail & l' & -> & H).
  assert (forall lookup s', resolve_stream cfg lookup (log_field (lt_stderr (req_target request))) (Some s) = Ok (Some s') -> Model.path s' = Model.path s) as Hr.
  { unfold log_needs_service_environment, resolve_stream in *. destruct (is_expandable_string cfg _); cbn [negb] in *.
    - intros lookup s' Hx. apply rbind_ok in Hx as (out & Hx & [= <-]). cbn [Model.path with_path]. apply expand_spec in Hx as (He & _).
      eapply no_reference_expansion; [|exact He]. rewrite <- (has_reference_iff _ 0), En. done.
    - by intros lookup s' [= <-]. }
  destruct tail as [ls|e]; destruct H as [-> [= ->]]; do 2 eexists; (split; [reflexivity|]); right;
    [exists cfg, s, (Ok ls)|exists cfg, s, (Err e)]; done.
Qed.

(** The calls that change a service or its configuration. *)
Definition changing (e : WorkEvent) : bool :=
  match e with
  | Ev (Ops c) _ =>
      match c with
      | OpsList | OpsReadRecovery _ | RegReadManaged _ | ScmQuery _ | EnumerateDescendants _ => false
      | _ => true
      end
  | _ => false
  end.

(** The worker does what the job says and answers the request it was sent
    with: a mutation makes exactly its one call, with the specification or the
    service and action of the job (a removal purges and is never forced onto a
    foreign service, a restart waits 30 seconds), and reports that call's own
    outcome under the job's request; every other job changes nothing. *)
Theorem execute_as_asked {T : Clock} compare job log res : runs (execute compare job) log (Ok res) ->
  match job, res with
  | JInstall spec q, RInstalled q' r => q' = q /\ log = [Ev (Ops (OpsInstall spec)) (Ok r)]
  | JEdit spec q, REdited q' r => q' = q /\ log = [Ev (Ops (OpsEdit spec)) (Ok r)]
  | JSaveRecovery spec q, RRecoverySaved q' r => q' = q /\ log = [Ev (Ops (OpsSaveRecovery spec)) (Ok r)]
  | JAction q, RActed q' r =>
      q' = q /\ log = [Ev (Ops (action_call (at_service (req_target q)) (at_kind (req_target q)))) (Ok r)]
  | JReadRecovery q, RRecoveryLoaded q' r => q' = q /\ log = [Ev (Ops (OpsReadRecovery (rt_service (req_target q)))) (Ok r)]
  | JProcesses q, RProcesses q' _ => q' = q /\ existsb changing log = false
  | JReadLog q, RLog q' _ _ => q' = q /\ existsb changing log = false
  | Refresh, (RServices _ _ _ _ | RScanError _) => existsb changing log = false
  | _, _ => False
  end.
Proof.
  intros H. destruct job as [|spec q|spec q|q|q|q|q|spec q]; cbn [execute] in H.
  - unfold refresh in H. apply run_call in H as (l & log' & -> & H). destruct l as [[defs ws]|e]; [|by destruct H as [-> [= ->]]].
    apply run_call in H as (now & log'' & -> & H). apply run_call in H as (rd & log3 & -> & H).
    destruct rd as [v|e]; apply run_call in H as (ev & log4 & -> & H); by destruct H as [-> [= ->]].
  - apply run_call in H as (r & l & -> & H). by destruct H as [-> [= ->]].
  - apply run_call in H as (r & l & -> & H). by destruct H as [-> [= ->]].
  - apply run_call in H as (r & l & -> & H). by destruct H as [-> [= ->]].
  - apply runs_bind in H as [(e & [= ] & _)|(l1 & l2 & r & -> & H1 & H2)]. destruct H2 as [-> [= ->]]. split; [done|]. rewrite app_nil_r.
    unfold processes in H1. apply run_call in H1 as (snap & l & -> & H1). destruct snap as [snap|e]; [|by destruct H1 as [-> _]].
    destruct (ns_runtime snap ≫= pid); [|by destruct H1 as [-> _]]. by destruct H1 as (x & l' & -> & -> & _).
  - unfold read_log in H. apply run_call in H as (cfg & l & -> & H).
    destruct cfg as [[cfg|]|e]; [|by destruct H as [-> [= ->]]..]. destruct (log_path _ cfg); [|by destruct H as [-> [= ->]]].
    destruct (log_needs_service_environment _ _ _); [by destruct H as [-> [= ->]]|].
    apply run_call in H as (tail & l' & -> & H). destruct tail; by destruct H as [-> [= ->]].
  - apply run_call in H as (r & l & -> & H). by destruct H as [-> [= ->]].
  - apply run_call in H as (r & l & -> & H). by destruct H as [-> [= ->]].
Qed.

Definition marked_config : ManagedApplicationConfig :=
  let d := ManagedApplicationConfig_default in {|
  application := application d; app_parameters := app_parameters d; app_directory := app_directory d;
  environment := environment d; environment_extra := environment_extra d; priority := priority d; affinity := affinity d;
  restart := restart d; shutdown := shutdown d; io := io d; rotation := rotation d; exit_actions := exit_actions d;
  hooks := hooks d; expandable_strings := [(&"AppStdout", tt)] |}.

Lemma log_needs_service_environment_exact_witness :
  log_needs_service_environment marked_config &"AppStdout" &"%LOGS%\out.log" = true
  /\ forall lookup s', resolve_stream marked_config lookup &"AppStdout" (Some (io_stream &"C:\100%.log")) = Ok (Some s') ->
       Model.path s' = &"C:\100%.log".
Proof.
  split; [vm_compute; reflexivity|].
  refine (proj1 (log_needs_service_environment_exact marked_config false (io_stream &"C:\100%.log") _) _).
  - split; [vm_compute; intuition discriminate|vm_compute; reflexivity].
  - vm_compute. reflexivity.
Defined.

Definition sample_log_request : Request LogTarget := Build_Request 3 {| lt_service := &"svc"; lt_stderr := false |}.

Lemma log_view_reads_service_log_witness : exists status lines,
  RLog sample_log_request &"'svc' is not an NGSM-managed service." [] = RLog sample_log_request status lines /\ lines = [].
Proof.
  destruct (log_view_reads_service_log sample_log_request
    [Ev (Ops (RegReadManaged &"svc")) (Ok (Ok None))] (RLog sample_log_request &"'svc' is not an NGSM-managed service." [])) as (st & ls & H & [[_ Hl]|(c & s & t & Hc & _)]).
  - exists (Ok (Ok None)), []. split; [reflexivity|]. split; vm_compute; reflexivity.
  - exists st, ls. split; [exact H|exact Hl].
  - apply (f_equal (@length _)) in Hc. discriminate Hc.
Defined.

Definition sample_removal : Request ActionTarget := Build_Request 1 {| at_service := &"svc"; at_kind := ARemove |}.
Definition no_clock : Clock := {| parse_rfc3339_ts := fun _ => None; now_utc := fun _ => 0; hms_at := fun _ _ => (0, 0, 0) |}.

Lemma execute_as_asked_witness :
  sample_removal = sample_removal
  /\ [Ev (Ops (OpsRemove &"svc" false true)) (Ok (Ok &"removed"))] = [Ev (Ops (OpsRemove &"svc" false true)) (@Ok Empty_set _ (@Ok Error _ &"removed"))].
Proof.
  refine (execute_as_asked (T := no_clock) (fun _ _ => true) (JAction sample_removal)
    [Ev (Ops (OpsRemove &"svc" false true)) (Ok (Ok &"removed"))] (RActed sample_removal (Ok &"removed")) _).
  exists (Ok (Ok &"removed")), []. split; [reflexivity|]. split; reflexivity.
Defined.
