(* ===== verification/Cli.v ===== *)
(** * The command line: servicemanager-cli [main.rs], [hooks.rs]

    What each command checks, calls and prints, as a program of its calls. The
    command line itself is parsed by clap, whose result is the input. *)

From Stdlib Require Import ZArith Lia List.
From S2P Require Import Prelude Text BTree Model Validate Win32 OpsConfig Effects OpsControl BrokerPipe RegValues BrokerHandlers Supervisor.

(** ** Arguments *)

Inductive StartTypeArg := ArgManual | ArgAutomatic | ArgDisabled.
Definition start_type_into (a : StartTypeArg) : InstallStartType :=
  match a with ArgManual => StartManual | ArgAutomatic => StartAutomatic | ArgDisabled => StartDisabled end.

Inductive RotateOnlineArg := ArgOffline | ArgOnline | ArgOnlineAsap.
#[export] Instance RotateOnlineArg_eq_dec : EqDecision RotateOnlineArg.
Proof. solve_decision. Defined.
Definition as_nssm_value (a : RotateOnlineArg) : Z := match a with ArgOffline => 0 | ArgOnline => 1 | ArgOnlineAsap => 2 end.

Inductive ExitActionArg := ArgRestart | ArgIgnore | ArgExit | ArgSuicide.
Definition exit_action_into (a : ExitActionArg) : ExitAction :=
  match a with ArgRestart => Restart | ArgIgnore => Ignore | ArgExit => Exit | ArgSuicide => Suicide end.

Record InstallArgs := {
  ci_name : rstr; ci_application : rstr; ci_app_parameters : option rstr; ci_app_directory : option rstr;
  ci_display : option rstr; ci_description : option rstr; ci_start : StartTypeArg;
  ci_depend_service : list rstr; ci_depend_group : list rstr; ci_account : option rstr; ci_password_stdin : bool;
  ci_stdout : option rstr; ci_stderr : option rstr; ci_rotate_bytes : option Z; ci_rotate_seconds : option Z;
  ci_rotate_online : RotateOnlineArg; ci_hook : list rstr }.

Record EditArgs := {
  ce_name : rstr; ce_application : option rstr; ce_app_parameters : option rstr; ce_app_directory : option rstr;
  ce_display : option rstr; ce_description : option rstr; ce_start : option StartTypeArg;
  ce_depend_service : list rstr; ce_depend_group : list rstr; ce_clear_dependencies : bool;
  ce_account : option rstr; ce_password_stdin : bool; ce_stdout : option rstr; ce_stderr : option rstr; ce_force_native : bool }.

Record RecoverySetArgs := {
  cr_default_action : option ExitActionArg; cr_restart_delay_ms : option Z; cr_no_restart_delay : bool;
  cr_throttle_delay_ms : option Z; cr_no_throttle_delay : bool; cr_exit_actions : list rstr; cr_clear_exit_actions : bool }.

Inductive Command :=
| CList (filter : ListFilterArg)
| CDump (name : rstr)
| CStatus (name : rstr)
| CInstall (args : InstallArgs)
| CRemove (name : rstr) (no_purge_config force_native : bool)
| CStart (name : rstr) (force_native : bool)
| CStop (name : rstr) (force_native : bool)
| CPause (name : rstr) (force_native : bool)
| CContinue (name : rstr) (force_native : bool)
| CRestart (name : rstr) (timeout_ms : Z) (force_native : bool)
| CGet (name param : rstr)
| CSet (name param value : rstr)
| CUnset (name param : rstr)
| CReset (name param : rstr)
| CStatusCode (name : rstr)
| CEdit (args : EditArgs)
| CRepair (name : rstr)
| CRotate (name : rstr)
| CRecovery (name : rstr) (json : bool) (set : option RecoverySetArgs)
| CProcesses (name : rstr)
| CRunService (name : rstr)
| CBroker (owner_sid pipe_nonce : rstr) (idle_timeout_secs : Z)
| CGui.

Record CliArgs := { cli_json : bool; cli_command : option Command }.

(** ** Calls *)

Inductive Output := OutText (t : rstr) | OutJson (pretty : bool) (v : Value).

Inductive CliE : Type -> Type :=
| Do {X} (e : HandlerE X) : CliE X
| GetValue (name param : rstr) : CliE (option ValueRecord)
| SetValue (name param value : rstr) : CliE unit
| UnsetValue (name param : rstr) : CliE unit
| UpdateRecovery (name : rstr) (update : RecoverySpec -> result Error RecoverySpec) : CliE rstr
| StdinLine : CliE (result io_error rstr)
| Println (o : Output) : CliE unit
| Eprintln (t : rstr) : CliE unit
| GuiRun : CliE (result rstr unit)
| RunnerRun (name : rstr) : CliE unit
| BrokerServe (owner_sid pipe_nonce : rstr) (idle_timeout_secs : Z) (token : rstr) : CliE unit
| GetConsoleProcessList : CliE Z
| FreeConsole : CliE unit.
Abbreviation CliProg A := (Prog CliE Error A) (only parsing).
Abbreviation CliEvent := (Event CliE Error) (only parsing).

Definition call {X} (e : HandlerE X) : CliProg X := perform (Do e).
(** Calls that do not fail. *)
Definition println (o : Output) : CliProg unit := pthen (perform (Println o)) (fun _ => PRet (Ok tt)).
Definition eprintln (t : rstr) : CliProg unit := pthen (perform (Eprintln t)) (fun _ => PRet (Ok tt)).
Definition say (t : rstr) : CliProg unit := println (OutText t).
(** [println!("{}", json!({..}))] and its pretty form. *)
Definition say_json (fields : list (rstr * Value)) : CliProg unit := println (OutJson false (VObject fields)).
Definition say_pretty (v : Value) : CliProg unit := println (OutJson true v).
Fixpoint eprint_all (l : list rstr) : CliProg unit :=
  match l with [] => PRet (Ok tt) | w :: l => eprintln (&"warning: " ++ w) ;@ eprint_all l end.
Fixpoint say_all (l : list rstr) : CliProg unit :=
  match l with [] => PRet (Ok tt) | t :: l => say t ;@ say_all l end.

(** ** Formatting *)

Definition pad (width : nat) (s : rstr) : rstr := s ++ repeat 32 (width - length s).
Definition truncate (s : rstr) (max : nat) : rstr :=
  if (length s <=? max)%nat then s else take (max - 1) s ++ &"…".

Definition option_debug (o : option Z) : rstr :=
  match o with Some n => &"Some(" ++ to_dec n ++ &")" | None => &"None" end.
Definition startup_debug (s : StartupType) : rstr :=
  match s with
  | Boot => &"Boot" | System => &"System" | Automatic => &"Automatic" | AutomaticDelayed => &"AutomaticDelayed"
  | Manual => &"Manual" | Disabled => &"Disabled" | UnknownStartup => &"Unknown"
  end.
Definition service_type_debug (s : ServiceType) : rstr :=
  match s with
  | KernelDriver => &"KernelDriver" | FileSystemDriver => &"FileSystemDriver" | Win32OwnProcess => &"Win32OwnProcess"
  | Win32SharedProcess => &"Win32SharedProcess" | InteractiveProcess => &"InteractiveProcess" | UnknownType => &"Unknown"
  end.
Definition action_debug (a : ExitAction) : rstr :=
  match a with Restart => &"Restart" | Ignore => &"Ignore" | Exit => &"Exit" | Suicide => &"Suicide" end.
Definition kind_debug (k : ManagedValueKind) : rstr :=
  match k with KString => &"String" | KMultiString => &"MultiString" | KNumber => &"Number" end.

Definition value_of_option {A} (f : A -> Value) (o : option A) : Value := match o with Some a => f a | None => VNull end.
Definition VDec (n : Z) : Value := VNumber (to_dec n).

(** ** hooks.rs *)

Definition SUPPORTED_HOOK_POINTS : list (rstr * rstr) :=
  [(&"Start", &"Pre"); (&"Start", &"Post"); (&"Stop", &"Pre"); (&"Exit", &"Post");
   (&"Rotate", &"Pre"); (&"Rotate", &"Post"); (&"Power", &"Change"); (&"Power", &"Resume")].
Definition supported_hook_points_pretty : rstr :=
  join &", " (map (fun ea : rstr * rstr => ea.1 ++ &"/" ++ ea.2) SUPPORTED_HOOK_POINTS).

Definition parse_hook_spec (raw : rstr) : result Error HookConfig :=
  let malformed := InvalidConfig (&"hook spec '" ++ raw ++ &"' must be EVENT/ACTION=command") in
  match split_once c_equals raw with
  | None => Err malformed
  | Some (lhs, command) =>
      match split_once c_slash lhs with
      | None => Err malformed
      | Some (event, action) =>
          let event := trim event in
          let action := trim action in
          let command := trim command in
          validate_hook_component event &"event" ;?
          validate_hook_component action &"action" ;?
          if negb (existsb (fun ea : rstr * rstr => eq_ignore_ascii_case event ea.1 && eq_ignore_ascii_case action ea.2) SUPPORTED_HOOK_POINTS)
          then Err (InvalidConfig (&"hook spec '" ++ raw ++ &"' uses unsupported event/action '" ++ event ++ &"/" ++ action
                 ++ &"'; supported points are: " ++ supported_hook_points_pretty))
          else if is_empty command
          then Err (InvalidConfig (&"hook spec '" ++ raw ++ &"' has an empty command — provide a command to run"))
          else Ok {| event := event; hook_action := action; command := command |}
      end
  end.

(** ** Checks of the arguments *)

Definition install_args_have_rotation (a : InstallArgs) : bool :=
  is_some (ci_rotate_bytes a) || is_some (ci_rotate_seconds a) || negb (bool_decide (ci_rotate_online a = ArgOffline)).

Definition dependencies_from_cli (services groups : list rstr) : result Error ServiceDependencies :=
  let dependencies := {| dep_services := services; dep_groups := groups |} in
  deps_validate dependencies ;? Ok dependencies.

Definition validate_password_stdin_usage (account : option rstr) (password_stdin : bool) : result Error unit :=
  if password_stdin && is_none account then Err (InvalidConfig &"--password-stdin requires --account") else Ok tt.

Definition validate_install_args (a : InstallArgs) : result Error unit :=
  if install_args_have_rotation a && is_none (ci_stdout a) && is_none (ci_stderr a)
  then Err (InvalidConfig &"rotation flags (--rotate-bytes, --rotate-seconds, --rotate-online) require --stdout and/or --stderr; rotation cannot operate without a redirected log stream")
  else
    dependencies_from_cli (ci_depend_service a) (ci_depend_group a) ;?
    validate_password_stdin_usage (ci_account a) (ci_password_stdin a).

Definition edit_dependencies_from_cli (a : EditArgs) : result Error (option ServiceDependencies) :=
  if ce_clear_dependencies a then Ok (Some {| dep_services := []; dep_groups := [] |})
  else if is_empty (ce_depend_service a) && is_empty (ce_depend_group a) then Ok None
  else let? d := dependencies_from_cli (ce_depend_service a) (ce_depend_group a) in Ok (Some d).

Definition nothing_to_change (a : EditArgs) : bool :=
  is_none (ce_application a) && is_none (ce_app_parameters a) && is_none (ce_app_directory a) && is_none (ce_display a)
  && is_none (ce_description a) && is_none (ce_start a) && is_empty (ce_depend_service a) && is_empty (ce_depend_group a)
  && negb (ce_clear_dependencies a) && is_none (ce_account a) && negb (ce_password_stdin a)
  && is_none (ce_stdout a) && is_none (ce_stderr a).

Definition validate_edit_args (a : EditArgs) : result Error unit :=
  if nothing_to_change a
  then Err (InvalidConfig &"no edit fields specified; try `ngsm edit --help` to see editable fields")
  else
    edit_dependencies_from_cli a ;?
    validate_password_stdin_usage (ce_account a) (ce_password_stdin a).

(** [line.pop()] of the terminator. *)
Definition chomp (line : rstr) : rstr :=
  match rev line with
  | 10 :: 13 :: r => rev r
  | 10 :: r => rev r
  | _ => line
  end.

Definition read_password_stdin_line : CliProg rstr :=
  let@ read := perform StdinLine in
  match read with
  | Err e => PRet (Err (error_other (&"read password from stdin: " ++ io_error_text e)))
  | Ok line =>
      if is_empty line
      then PRet (Err (InvalidConfig &"--password-stdin was specified but stdin did not provide a line"))
      else
        let line := chomp line in
        if contains_char c_nul line
        then PRet (Err (InvalidConfig &"password read from stdin contains an embedded NUL"))
        else PRet (Ok line)
  end.
Definition optional_password (password_stdin : bool) : CliProg (option rstr) :=
  if password_stdin then let@ p := read_password_stdin_line in PRet (Ok (Some p)) else PRet (Ok None).

(** ** Recovery *)

Definition parse_exit_action (s : rstr) : result rstr ExitAction :=
  let t := to_ascii_lowercase (trim s) in
  if str_eqb t &"restart" then Ok Restart
  else if str_eqb t &"ignore" then Ok Ignore
  else if str_eqb t &"exit" then Ok Exit
  else if str_eqb t &"suicide" then Ok Suicide
  else Err (&"unknown action '" ++ t ++ &"'; expected restart, ignore, exit, or suicide").

(** One [--exit-action]. *)
Definition apply_exit_action (exit_actions : btree ExitAction) (raw : rstr) : result Error (btree ExitAction) :=
  match split_once c_equals raw with
  | None => Err (InvalidConfig (&"exit-action '" ++ raw ++ &"' must be CODE=ACTION (e.g. 0=ignore)"))
  | Some (code_str, action_str) =>
      let? action := map_err (fun e => InvalidConfig (&"exit-action '" ++ raw ++ &"': " ++ e)) (parse_exit_action action_str) in
      let code := trim code_str in
      map_err (fun e => InvalidConfig (&"exit-action '" ++ raw ++ &"': " ++ error_to_string e)) (validate_exit_action_key code) ;?
      Ok (bt_insert code action exit_actions)
  end.

Definition merge_recovery_args (name : rstr) (current : RecoverySpec) (a : RecoverySetArgs) : result Error RecoverySpec :=
  let restart_delay_ms := if cr_no_restart_delay a then None else or_else (cr_restart_delay_ms a) (rs_restart_delay_ms current) in
  let throttle_delay_ms := if cr_no_throttle_delay a then None else or_else (cr_throttle_delay_ms a) (rs_throttle_delay_ms current) in
  let exit_actions := if cr_clear_exit_actions a then [] else rs_exit_actions current in
  let? exit_actions := try_fold apply_exit_action (cr_exit_actions a) exit_actions in
  let default_action := match cr_default_action a with Some arg => exit_action_into arg | None => rs_default_action current end in
  Ok {| rs_name := name; rs_restart_delay_ms := restart_delay_ms; rs_throttle_delay_ms := throttle_delay_ms;
        rs_default_action := default_action; rs_exit_actions := exit_actions |}.

(** ** statuscode *)

Definition statuscode_exit_code (s : ServiceState) : Z :=
  match s with
  | Stopped => 1 | StartPending => 2 | StopPending => 3 | Running => 4
  | ContinuePending => 5 | PausePending => 6 | Paused => 7 | UnknownState => 0
  end.
Definition statuscode_state_text (s : ServiceState) : rstr :=
  match s with
  | Stopped => &"SERVICE_STOPPED" | StartPending => &"SERVICE_START_PENDING" | StopPending => &"SERVICE_STOP_PENDING"
  | Running => &"SERVICE_RUNNING" | ContinuePending => &"SERVICE_CONTINUE_PENDING" | PausePending => &"SERVICE_PAUSE_PENDING"
  | Paused => &"SERVICE_PAUSED" | UnknownState => &"SERVICE_UNKNOWN"
  end.

(** ** Commands *)

Inductive ServiceAction := ActStart | ActStop | ActPause | ActContinue.

Section Commands.
Context {C : Codec}.

Definition quoted (name : rstr) : rstr := &"'" ++ name ++ &"'".
(** [if json { json! } else { text }] *)
Definition report (json : bool) (fields : list (rstr * Value)) (text : rstr) : CliProg unit :=
  if json then say_json fields else say text.

Definition list_row (d : ServiceDefinition) : rstr :=
  let state := match runtime d with Some r => state_debug (state r) | None => &"-" end in
  let kind := match management_kind d with Managed => &"managed" | Native => &"native" end in
  pad 32 (truncate (Model.name (native d)) 32) ++ &" " ++ pad 10 kind ++ &" " ++ pad 10 (truncate state 10)
  ++ &" " ++ display_name (native d).

Definition cmd_list (filter : ListFilterArg) (json : bool) : CliProg unit :=
  let@ (all_defs, warnings) := call OpsList in
  let definitions := List.filter (fun d => match filter with FilterManaged => is_managed d | FilterAll => true end) all_defs in
  eprint_all warnings ;@
  if json then say_pretty (VObject [(&"services", ser_definitions definitions)])
  else
    say (pad 32 &"NAME" ++ &" " ++ pad 10 &"KIND" ++ &" " ++ pad 10 &"STATE" ++ &" DISPLAY NAME") ;@
    say_all (map list_row definitions).

Definition print_human (def : ServiceDefinition) : list rstr :=
  let opt {A} (o : option A) (f : A -> rstr) := match o with Some a => [f a] | None => [] end in
  let n := native def in
  [&"Service:      " ++ Model.name n; &"Display:      " ++ display_name n]
  ++ opt (description n) (fun d => &"Description:  " ++ d)
  ++ [&"Startup:      " ++ startup_debug (startup n); &"Type:         " ++ service_type_debug (service_type n);
      &"Image:        " ++ image_path n]
  ++ opt (account n) (fun a => &"Account:      " ++ a)
  ++ opt (runtime def) (fun rt => &"State:        " ++ state_debug (state rt) ++ &" (pid=" ++ option_debug (pid rt) ++ &")")
  ++ match managed def with
     | Some m =>
         [&"--- Managed (NSSM-compatible) ---"]
         ++ opt (application m) (fun a => &"Application:  " ++ a)
         ++ opt (app_parameters m) (fun p => &"AppParameters: " ++ p)
         ++ opt (app_directory m) (fun d => &"AppDirectory: " ++ d)
         ++ (if negb (is_empty (exit_actions m))
             then &"ExitActions:" :: map (fun kv : rstr * ExitActionPolicy => &"  " ++ kv.1 ++ &" => " ++ action_debug (action kv.2)) (exit_actions m)
             else [])
     | None => [&"(no managed configuration detected)"]
     end.

Definition serialize (r : result rstr Value) : CliProg Value :=
  plift (map_err (fun e => error_other (&"serialize: " ++ e)) r).

Definition cmd_dump (name : rstr) (json : bool) : CliProg unit :=
  let@ q := call (ScmQuery name) in
  let@ m := call (RegReadManaged name) in
  let def := definition_of q m in
  if json then let@ v := serialize (ser_definition def) in say_pretty v else say_all (print_human def).

Definition cmd_status (name : rstr) (json : bool) : CliProg unit :=
  let@ q := call (ScmQuery name) in
  let n := Model.name (ns_config q) in
  if json
  then say_pretty (VObject [(&"name", VString n); (&"state", value_of_option (fun r => VString (state_debug (state r))) (ns_runtime q));
                            (&"pid", value_of_option VDec (ns_runtime q ≫= pid))])
  else match ns_runtime q with
       | Some r => say (n ++ &": " ++ state_debug (state r) ++ &" (pid=" ++ option_debug (pid r) ++ &")")
       | None => say (n ++ &": unknown")
       end.

Definition install_rotation (a : InstallArgs) : LogRotationConfig :=
  if install_args_have_rotation a
  then Build_LogRotationConfig (Some true) (Some (as_nssm_value (ci_rotate_online a))) (ci_rotate_seconds a) (ci_rotate_bytes a) None
  else LogRotationConfig_default.

Fixpoint parse_hooks (l : list rstr) : result Error (list HookConfig) :=
  match l with [] => Ok [] | raw :: l => let? h := parse_hook_spec raw in let? hs := parse_hooks l in Ok (h :: hs) end.

Definition cmd_install (a : InstallArgs) (json : bool) : CliProg unit :=
  plift (validate_install_args a) ;@
  let@ dependencies := plift (dependencies_from_cli (ci_depend_service a) (ci_depend_group a)) in
  let@ hooks := plift (parse_hooks (ci_hook a)) in
  let@ password := optional_password (ci_password_stdin a) in
  let spec := {|
    is_name := ci_name a; is_display_name := ci_display a; is_description := ci_description a; is_application := ci_application a;
    is_app_parameters := ci_app_parameters a; is_app_directory := ci_app_directory a; is_stdout := ci_stdout a; is_stderr := ci_stderr a;
    is_rotation := install_rotation a; is_hooks := hooks; is_start_type := start_type_into (ci_start a);
    is_dependencies := dependencies; is_account := ci_account a; is_password := password |} in
  let@ msg := call (OpsInstall spec) in
  report json [(&"installed", VString (ci_name a))] msg.

Definition cmd_remove (name : rstr) (purge_config force_native json : bool) : CliProg unit :=
  let@ msg := call (OpsRemove name force_native purge_config) in
  report json [(&"removed", VString name)] msg.

(** A control sent to the SCM directly: [key] and [verb] are what is printed. *)
Definition force_control (name : rstr) (signal : ServiceControlSignal) (key verb : rstr) (json : bool) : CliProg unit :=
  let@ st := call (ScmControl name signal) in
  report json [(key, VString name); (&"state", VString (state_debug (state st)))]
    (verb ++ &" requested for " ++ quoted name ++ &" (state: " ++ state_debug (state st) ++ &").").

Definition cmd_control (name : rstr) (action : ServiceAction) (force_native json : bool) : CliProg unit :=
  if force_native then
    match action with
    | ActStart =>
        call (ScmStart name) ;@
        report json [(&"started", VString name)] (&"Start requested for " ++ quoted name ++ &".")
    | ActStop => force_control name SigStop &"stopped" &"Stop" json
    | ActPause => force_control name SigPause &"paused" &"Pause" json
    | ActContinue => force_control name SigContinue &"continued" &"Continue" json
    end
  else
    let '(operation, json_key) :=
      match action with
      | ActStart => (OpsStart name, &"started")
      | ActStop => (OpsStop name, &"stopped")
      | ActPause => (OpsPause name, &"paused")
      | ActContinue => (OpsContinue name, &"continued")
      end in
    let@ msg := call operation in
    report json [(json_key, VString name)] msg.

Definition cmd_restart (name : rstr) (timeout_ms : Z) (force_native json : bool) : CliProg unit :=
  let@ msg := call (OpsRestart name timeout_ms force_native) in
  report json [(&"restarted", VString name)] msg.

Definition cmd_get (name param : rstr) (json : bool) : CliProg unit :=
  let@ record := perform (GetValue name param) in
  if json
  then say_pretty (VObject match record with
         | Some r => [(&"service", VString name); (&"param", VString param); (&"kind", VString (kind_debug (RegValues.kind r))); (&"value", VString (RegValues.value r))]
         | None => [(&"service", VString name); (&"param", VString param); (&"value", VNull)]
         end)
  else say match record with Some r => RegValues.value r | None => &"(unset)" end.

Definition cmd_set (name param value : rstr) (json : bool) : CliProg unit :=
  perform (SetValue name param value) ;@
  report json [(&"service", VString name); (&"param", VString param); (&"value", VString value)]
    (&"Set " ++ param ++ &" for " ++ quoted name ++ &".").

Definition cmd_unset (name param : rstr) (json : bool) : CliProg unit :=
  perform (UnsetValue name param) ;@
  report json [(&"service", VString name); (&"unset", VString param)] (&"Unset " ++ param ++ &" on " ++ quoted name ++ &".").

Definition cmd_reset (name param : rstr) (json : bool) : CliProg unit :=
  perform (UnsetValue name param) ;@
  report json [(&"service", VString name); (&"reset", VString param)] (&"Reset " ++ param ++ &" on " ++ quoted name ++ &".").

Definition cmd_statuscode_exit (name : rstr) (json : bool) : CliProg Z :=
  let@ q := ptry (call (ScmQuery name)) in
  match q with
  | Ok q =>
      let state := match ns_runtime q with Some r => state r | None => UnknownState end in
      let code := statuscode_exit_code state in
      let text := statuscode_state_text state in
      report json [(&"service", VString name); (&"state", VString text); (&"code", VDec code)] text ;@
      PRet (Ok code)
  | Err e =>
      (if json
       then say_json [(&"service", VString name); (&"state", VString &"SERVICE_UNKNOWN"); (&"code", VDec 0); (&"error", VString (error_to_string e))]
       else eprintln (&"error: " ++ error_to_string e)) ;@
      PRet (Ok 0)
  end.

Definition edit_any_managed (a : EditArgs) : bool :=
  is_some (ce_application a) || is_some (ce_app_parameters a) || is_some (ce_app_directory a)
  || is_some (ce_stdout a) || is_some (ce_stderr a).
Definition edit_want_native (a : EditArgs) (dependencies : option ServiceDependencies) : bool :=
  is_some (ce_display a) || is_some (ce_description a) || is_some (ce_start a) || is_some dependencies
  || is_some (ce_account a) || ce_password_stdin a.

Definition cmd_edit (a : EditArgs) (json : bool) : CliProg unit :=
  plift (validate_edit_args a) ;@
  let@ dependencies := plift (edit_dependencies_from_cli a) in
  let start := start_type_into <$> ce_start a in
  let edited msg := report json [(&"edited", VString (ce_name a))] msg in
  if ce_force_native a && edit_any_managed a
  then PRet (Err (error_other &"--force-native cannot be combined with managed-field flags (--application, --app-parameters, --app-directory, --stdout, --stderr). Run two separate `ngsm edit` invocations — one with --force-native for native-only fields, and one without it for managed fields."))
  else if ce_force_native a && edit_want_native a dependencies then
    let@ password := optional_password (ce_password_stdin a) in
    call (ScmUpdateNative (ce_name a) (ce_display a) (ce_description a) start dependencies (ce_account a) password) ;@
    edited (&"Edited " ++ quoted (ce_name a) ++ &".")
  else
    let@ password := optional_password (ce_password_stdin a) in
    let spec := {|
      es_name := ce_name a; es_display_name := ce_display a; es_description := ce_description a; es_application := ce_application a;
      es_app_parameters := ce_app_parameters a; es_app_directory := ce_app_directory a; es_stdout := ce_stdout a;
      es_stderr := ce_stderr a; es_start_type := start; es_dependencies := dependencies; es_account := ce_account a;
      es_password := password |} in
    let@ msg := call (OpsEdit spec) in
    edited msg.

Definition cmd_repair (name : rstr) (json : bool) : CliProg unit :=
  let@ msg := call (OpsRepairRunner name) in
  report json [(&"repaired", VString name); (&"runner", VBool true)] msg.

Definition cmd_rotate (name : rstr) (json : bool) : CliProg unit :=
  let@ msg := call (OpsRotate name) in
  if json then
    let@ q := ptry (call (ScmQuery name)) in
    let state := match q with Ok q => ns_runtime q | Err _ => None end in
    say_json [(&"rotated", VString name); (&"state", value_of_option (fun r => VString (state_debug (Model.state r))) state)]
  else say msg.

Definition lower_action (a : ExitAction) : rstr := to_ascii_lowercase (action_debug a).

Definition cmd_recovery_show (name : rstr) (json : bool) : CliProg unit :=
  let@ spec := call (OpsReadRecovery name) in
  let delay label v := &"  " ++ label ++ match v with Some ms => to_dec ms ++ &"ms" | None => &"(none)" end in
  if json then
    say_pretty (VObject [
      (&"service", VString (rs_name spec));
      (&"restart_delay_ms", value_of_option VDec (rs_restart_delay_ms spec));
      (&"throttle_delay_ms", value_of_option VDec (rs_throttle_delay_ms spec));
      (&"default_action", VString (lower_action (rs_default_action spec)));
      (&"exit_actions", VObject (map (fun kv : rstr * ExitAction => (kv.1, VString (lower_action kv.2))) (rs_exit_actions spec)))])
  else
    say_all ([&"Recovery policy for " ++ quoted (rs_name spec) ++ &":";
              delay &"Restart delay: " (rs_restart_delay_ms spec); delay &"Throttle delay: " (rs_throttle_delay_ms spec);
              &"  Default action: " ++ action_debug (rs_default_action spec)]
             ++ if is_empty (rs_exit_actions spec) then [&"  Per-exit-code: (none)"]
                else &"  Per-exit-code:" :: map (fun kv : rstr * ExitAction => &"    AppExit\" ++ kv.1 ++ &" -> " ++ action_debug kv.2) (rs_exit_actions spec)).

Definition cmd_recovery_set (name : rstr) (a : RecoverySetArgs) (json : bool) : CliProg unit :=
  let@ msg := perform (UpdateRecovery name (fun current => merge_recovery_args name current a)) in
  report json [(&"saved", VString name)] msg.

Definition cmd_recovery (name : rstr) (json : bool) (set : option RecoverySetArgs) (global_json : bool) : CliProg unit :=
  let json := json || global_json in
  match set with None => cmd_recovery_show name json | Some a => cmd_recovery_set name a json end.

Definition process_row (p : ProcessInfo) : rstr :=
  pad 8 (to_dec (pi_pid p)) ++ &" " ++ pad 8 (to_dec (pi_parent_pid p)) ++ &" " ++ pi_image_name p.

Definition cmd_processes (name : rstr) (json : bool) : CliProg unit :=
  let@ q := call (ScmQuery name) in
  match ns_runtime q ≫= pid with
  | None => PRet (Err (error_other (&"service " ++ quoted name ++ &" is not running (no PID reported)")))
  | Some pid =>
      let@ descendants := call (EnumerateDescendants pid) in
      if json
      then say_json [(&"service", VString name); (&"root_pid", VDec pid); (&"processes", ser_processes descendants)]
      else
        say_all ((pad 8 &"PID" ++ &" " ++ pad 8 &"PPID" ++ &" IMAGE") :: map process_row descendants) ;@
        if (length descendants =? 1)%nat then say &"(only the runner is visible — child has not been spawned yet)" else PRet (Ok tt)
  end.

Definition run_gui : CliProg unit :=
  let@ r := perform GuiRun in
  plift (map_err (fun e => error_other (&"gui: " ++ e)) r).

Definition run_broker (owner_sid pipe_nonce : rstr) (idle_timeout_secs : Z) : CliProg unit :=
  let@ read := perform StdinLine in
  let@ token := plift (map_err (fun e => error_other (&"reading broker token from stdin: " ++ io_error_text e)) read) in
  perform (BrokerServe owner_sid pipe_nonce idle_timeout_secs (trim token)).

Definition run (cli : CliArgs) : CliProg unit :=
  let json := cli_json cli in
  match cli_command cli with
  | None | Some CGui => run_gui
  | Some (CList filter) => cmd_list filter json
  | Some (CDump name) => cmd_dump name json
  | Some (CStatus name) => cmd_status name json
  | Some (CInstall a) => cmd_install a json
  | Some (CRemove name no_purge_config force_native) => cmd_remove name (negb no_purge_config) force_native json
  | Some (CStart name force_native) => cmd_control name ActStart force_native json
  | Some (CStop name force_native) => cmd_control name ActStop force_native json
  | Some (CPause name force_native) => cmd_control name ActPause force_native json
  | Some (CContinue name force_native) => cmd_control name ActContinue force_native json
  | Some (CRestart name timeout_ms force_native) => cmd_restart name timeout_ms force_native json
  | Some (CGet name param) => cmd_get name param json
  | Some (CSet name param value) => cmd_set name param value json
  | Some (CUnset name param) => cmd_unset name param json
  | Some (CReset name param) => cmd_reset name param json
  | Some (CStatusCode name) => cmd_statuscode_exit name json ;@ PRet (Ok tt)
  | Some (CEdit a) => cmd_edit a json
  | Some (CRepair name) => cmd_repair name json
  | Some (CRotate name) => cmd_rotate name json
  | Some (CRecovery name json' set) => cmd_recovery name json' set json
  | Some (CProcesses name) => cmd_processes name json
  | Some (CRunService name) => perform (RunnerRun name)
  | Some (CBroker owner_sid pipe_nonce idle) => run_broker owner_sid pipe_nonce idle
  end.

(** ** main *)

Definition EXIT_SUCCESS : Z := 0.
Definition EXIT_FAILURE : Z := 1.

Definition detach_console_if_standalone : CliProg unit :=
  let@ count := ptry (perform GetConsoleProcessList) in
  if match count with Ok n => n =? 1 | Err _ => false end
  then pthen (perform FreeConsole) (fun _ => PRet (Ok tt)) else PRet (Ok tt).

(** [cli] is what clap parsed; [None] stands for a command line without any argument. *)
Definition main (cli : option CliArgs) : CliProg Z :=
  detach_console_if_standalone ;@
  match cli with
  | None =>
      let@ r := ptry (perform GuiRun) in
      match r with
      | Ok (Ok _) => PRet (Ok EXIT_SUCCESS)
      | Ok (Err e) => eprintln (&"gui: " ++ e) ;@ PRet (Ok EXIT_FAILURE)
      | Err _ => PRet (Ok EXIT_FAILURE)
      end
  | Some cli =>
      match cli_command cli with
      | Some (CStatusCode name) => cmd_statuscode_exit name (cli_json cli)
      | _ =>
          let@ r := ptry (run cli) in
          match r with
          | Ok _ => PRet (Ok EXIT_SUCCESS)
          | Err e =>
              (if cli_json cli then say_pretty (VObject [(&"error", VString (error_to_string e))])
               else eprintln (&"error: " ++ error_to_string e)) ;@
              PRet (Ok EXIT_FAILURE)
          end
      end
  end.
End Commands.
