(* ===== verification/CliSafety.v ===== *)
(** * What a command line does: theorems about [Cli]

    Every command makes the one change it names, and its exit code says whether
    it was made; recovery updates change what their flags say; the hooks the
    command line accepts are hooks the supervisor runs. *)

From Stdlib Require Import ZArith Lia List.
From S2P Require Import Prelude Text BTree Model Validate Win32 OpsConfig Effects OpsControl BrokerPipe RegValues BrokerHandlers Supervisor Cli.

(** ** What was commanded *)

Definition changing_call {X} (c : HandlerE X) : bool :=
  match c with
  | OpsList | OpsReadRecovery _ | RegReadManaged _ | ScmQuery _ | EnumerateDescendants _ => false
  | _ => true
  end.
(** Calls that change a service or its configuration, and those that hand the
    process over to the GUI, the runner or the broker. *)
Definition changing (e : CliEvent) : bool :=
  match e with
  | Ev c _ =>
      match c with
      | Do h => changing_call h
      | SetValue _ _ _ | UnsetValue _ _ | UpdateRecovery _ _ | GuiRun | RunnerRun _ | BrokerServe _ _ _ _ => true
      | _ => false
      end
  end.
Definition succeeded (e : CliEvent) : bool :=
  match e with
  | Ev c x =>
      match c in CliE X return result Error X -> bool with
      | GuiRun => fun x => match x with Ok (Ok _) => true | _ => false end
      | _ => fun x => is_ok x
      end x
  end.

(** The password of a specification was asked for. *)
Definition asked_password (password : option rstr) (flag : bool) : Prop := is_some password = flag.

Definition commanded (c : Command) (e : CliEvent) : Prop :=
  match e with
  | Ev call _ =>
      match call with
      | Do h =>
          match h with
          | OpsInstall s => exists a, c = CInstall a /\ validate_install_args a = Ok tt
              /\ is_name s = ci_name a /\ is_application s = ci_application a /\ is_rotation s = install_rotation a
              /\ parse_hooks (ci_hook a) = Ok (is_hooks s) /\ is_account s = ci_account a
              /\ asked_password (is_password s) (ci_password_stdin a)
          | OpsEdit s => exists a, c = CEdit a /\ validate_edit_args a = Ok tt /\ es_name s = ce_name a
              /\ edit_dependencies_from_cli a = Ok (es_dependencies s) /\ es_account s = ce_account a
              /\ (ce_force_native a = true -> touches_managed s = false /\ touches_native s = false)
              /\ asked_password (es_password s) (ce_password_stdin a)
          | ScmUpdateNative n _ _ _ _ account password => exists a, c = CEdit a /\ validate_edit_args a = Ok tt /\ n = ce_name a
              /\ ce_force_native a = true /\ edit_any_managed a = false /\ account = ce_account a
              /\ asked_password password (ce_password_stdin a)
          | OpsRemove n force purge => exists no_purge, c = CRemove n no_purge force /\ purge = negb no_purge
          | OpsStart n => c = CStart n false
          | OpsStop n => c = CStop n false
          | OpsPause n => c = CPause n false
          | OpsContinue n => c = CContinue n false
          | ScmStart n => c = CStart n true
          | ScmControl n s => (c = CStop n true /\ s = SigStop) \/ (c = CPause n true /\ s = SigPause) \/ (c = CContinue n true /\ s = SigContinue)
          | OpsRestart n t force => c = CRestart n t force
          | OpsRepairRunner n => c = CRepair n
          | OpsRotate n => c = CRotate n
          | OpsSaveRecovery _ => False
          | _ => True
          end
      | SetValue n p v => c = CSet n p v
      | UnsetValue n p => c = CUnset n p \/ c = CReset n p
      | UpdateRecovery n f => exists json a, c = CRecovery n json (Some a) /\ f = (fun current => merge_recovery_args n current a)
      | GuiRun => c = CGui
      | RunnerRun n => c = CRunService n
      | BrokerServe owner nonce idle _ => c = CBroker owner nonce idle
      | _ => True
      end
  end.

(** Commands that read only. *)
Definition reads_only (c : Command) : bool :=
  match c with
  | CList _ | CDump _ | CStatus _ | CGet _ _ | CStatusCode _ | CProcesses _ | CRecovery _ _ None => true
  | _ => false
  end.

Definition changes_of (log : list CliEvent) : list CliEvent := List.filter changing log.
(** The one change was made, and the result says how it went; or it was refused. *)
Definition changed_once (log : list CliEvent) (r : result Error unit) : Prop :=
  (changes_of log = [] /\ r <> Ok tt) \/ exists e, changes_of log = [e] /\ (succeeded e = true <-> r = Ok tt).

(** ** Printing and reading *)

Definition quiet (log : list CliEvent) : Prop := Forall (fun e => changing e = false) log.

Lemma quiet_app l m : quiet l -> quiet m -> quiet (l ++ m).
Proof. intros. by apply Forall_app. Qed.
Lemma quiet_commanded c log : quiet log -> Forall (commanded c) log.
Proof.
  intros H. eapply Forall_impl; [exact H|]. intros [X e x] Hx. destruct e as [X h| | | | | | | | | | | |]; try done. by destruct h.
Qed.
Lemma quiet_changes log : quiet log -> changes_of log = [].
Proof. induction 1 as [|e l H _ IH]; [done|]. unfold changes_of. cbn [List.filter]. by rewrite H. Qed.
Lemma changes_app l m : changes_of (l ++ m) = changes_of l ++ changes_of m.
Proof. apply List.filter_app. Qed.

Lemma println_runs o log r : runs (println o) log r -> r = Ok tt /\ quiet log.
Proof. intros (x & l & -> & -> & ->). split; [done|]. by repeat constructor. Qed.
Lemma eprintln_runs t log r : runs (eprintln t) log r -> r = Ok tt /\ quiet log.
Proof. intros (x & l & -> & -> & ->). split; [done|]. by repeat constructor. Qed.

(** A printing program and what follows. *)
Lemma silent_then (p k : CliProg unit) log r :
  (forall l q, runs p l q -> q = Ok tt /\ quiet l) -> (forall l q, runs k l q -> q = Ok tt /\ quiet l) ->
  runs (p ;@ k) log r -> r = Ok tt /\ quiet log.
Proof.
  intros Hp Hk [(e & -> & H)|(l1 & l2 & a & -> & H1 & H2)]%runs_bind; [by apply Hp in H as [? _]|].
  apply Hp in H1 as [_ H1]. apply Hk in H2 as [-> H2]. split; [done|]. by apply quiet_app.
Qed.
Lemma done_runs log r : runs (PRet (Ok tt) : CliProg unit) log r -> r = Ok tt /\ quiet log.
Proof. intros [-> ->]. split; [done|constructor]. Qed.
Lemma say_all_runs l : forall log r, runs (say_all l) log r -> r = Ok tt /\ quiet log.
Proof. induction l as [|t l IH]; intros log r; cbn [say_all]; [apply done_runs|]. apply silent_then; [apply println_runs|exact IH]. Qed.
Lemma eprint_all_runs l : forall log r, runs (eprint_all l) log r -> r = Ok tt /\ quiet log.
Proof. induction l as [|t l IH]; intros log r; cbn [eprint_all]; [apply done_runs|]. apply silent_then; [apply eprintln_runs|exact IH]. Qed.
Lemma report_runs json fields text log r : runs (report json fields text) log r -> r = Ok tt /\ quiet log.
Proof. destruct json; apply println_runs. Qed.
#[export] Hint Resolve println_runs eprintln_runs done_runs say_all_runs eprint_all_runs report_runs silent_then : quiet.

(** ** The shapes of commands *)

Lemma plift_runs {A B} (x : result Error A) (k : A -> CliProg B) log r :
  runs (pbind (plift x) k) log r <-> match x with Ok a => runs (k a) log r | Err e => log = [] /\ r = Err e end.
Proof. by destruct x. Qed.

(** A call and a report of it. *)
Lemma call_quiet {X} (e : CliE X) (k : X -> CliProg unit) log r :
  (forall x l q, runs (k x) l q -> q = Ok tt /\ quiet l) ->
  runs (pbind (perform e) k) log r ->
  exists x rest, log = Ev e x :: rest /\ quiet rest /\ (is_ok x = true <-> r = Ok tt).
Proof.
  intros Hk (x & l & -> & H). exists x, l. split; [done|]. destruct x as [x|err]; cbn in H.
  - apply Hk in H as [-> H]. by split.
  - destruct H as [-> ->]. split; [constructor|]. by split.
Qed.

Lemma changed_once_call {X} (e : CliE X) x rest (r : result Error unit) c :
  changing (Ev e x) = true -> succeeded (Ev e x) = is_ok x -> commanded c (Ev e x) -> quiet rest ->
  (is_ok x = true <-> r = Ok tt) ->
  Forall (commanded c) (Ev e x :: rest) /\ changed_once (Ev e x :: rest) r.
Proof.
  intros Hc Hs Hd Hq Hr. split; [constructor; [done|by apply quiet_commanded]|].
  right. exists (Ev e x). unfold changes_of. cbn [List.filter]. rewrite Hc. pose proof (quiet_changes _ Hq) as E.
  unfold changes_of in E. rewrite E. split; [done|]. by rewrite Hs.
Qed.

Section Commands.
Context {C : Codec}.

(** The password comes from one line of the standard input, when asked for. *)
Lemma optional_password_runs {B} flag (k : option rstr -> CliProg B) log r :
  runs (pbind (optional_password flag) k) log r ->
  exists pre, changes_of pre = [] /\ (forall c, Forall (commanded c) pre) /\
  ((exists e, log = pre /\ r = Err e)
   \/ exists p rest, log = pre ++ rest /\ asked_password p flag /\ runs (k p) rest r).
Proof.
  destruct flag; cbn [optional_password].
  - intros [(e & -> & H)|(l1 & l2 & p & -> & H1 & H2)]%runs_bind.
    + apply runs_bind in H as [(e' & [= <-] & H)|(l1 & l2 & p & -> & _ & H2)]; [|by destruct H2 as [_ H2]].
      destruct H as (x & l & -> & H). exists (Ev StdinLine x :: l). assert (l = []) as ->.
      { destruct x as [[line|err]|err]; cbn in H; repeat case_match; by destruct H as [-> _]. }
      split; [done|]. split; [by repeat constructor|]. left. eauto.
    + apply runs_bind in H1 as [(e & [=] & _)|(l3 & l4 & q & -> & H1 & H3)]. destruct H3 as [-> [= ->]].
      destruct H1 as (x & l & -> & H). exists (Ev StdinLine x :: l). assert (l = []) as ->.
      { destruct x as [[line|err]|err]; cbn in H; repeat case_match; by destruct H as [-> _]. }
      split; [done|]. split; [by repeat constructor|]. right. exists (Some q), l2. by repeat split.
  - intros H. exists []. split; [done|]. split; [by constructor|]. right. by exists None, log.
Qed.

Lemma changed_once_prefix c pre rest r :
  changes_of pre = [] -> Forall (commanded c) pre ->
  Forall (commanded c) rest /\ changed_once rest r -> Forall (commanded c) (pre ++ rest) /\ changed_once (pre ++ rest) r.
Proof.
  intros Hp Hc [Hr Ho]. split; [by apply Forall_app|]. unfold changed_once in *. by rewrite changes_app, Hp.
Qed.
Lemma refused c log e : changes_of log = [] -> Forall (commanded c) log -> Forall (commanded c) log /\ changed_once log (Err e).
Proof. intros H1 H2. split; [done|]. left. by split. Qed.
Lemma refused_now c e : Forall (commanded c) [] /\ changed_once [] (Err e).
Proof. by apply refused. Qed.

(** A command that makes one call and reports. *)
Lemma call_once {X} c (e : CliE X) (k : X -> CliProg unit) log r :
  (forall x l q, runs (k x) l q -> q = Ok tt /\ quiet l) ->
  (forall x, changing (Ev e x) = true) -> (forall x, succeeded (Ev e x) = is_ok x) -> (forall x, commanded c (Ev e x)) ->
  runs (pbind (perform e) k) log r -> Forall (commanded c) log /\ changed_once log r.
Proof. intros Hk H1 H2 H3 H. apply call_quiet in H as (x & rest & -> & Hq & Hr); [|done]. by apply changed_once_call. Qed.

Lemma install_once a json log r : runs (cmd_install a json) log r ->
  Forall (commanded (CInstall a)) log /\ changed_once log r.
Proof.
  unfold cmd_install. intros H. rewrite plift_runs in H. destruct (validate_install_args a) as [[]|e] eqn:Ev; [|destruct H as [-> ->]; apply refused_now].
  rewrite plift_runs in H. destruct (dependencies_from_cli _ _) as [deps|e]; [|destruct H as [-> ->]; apply refused_now].
  rewrite plift_runs in H. destruct (parse_hooks _) as [hooks|e] eqn:Eh; [|destruct H as [-> ->]; apply refused_now].
  apply optional_password_runs in H as (pre & Hp & Hc & [(e & -> & ->)|(p & rest & -> & Ha & H)]); [by apply refused|].
  apply changed_once_prefix; [done|done|]. eapply call_once; [| | | |exact H]; try done; [apply report_runs|].
  intros x. exists a. by repeat split.
Qed.

Lemma edit_once a json log r : runs (cmd_edit a json) log r ->
  Forall (commanded (CEdit a)) log /\ changed_once log r.
Proof.
  unfold cmd_edit. intros H. rewrite plift_runs in H. destruct (validate_edit_args a) as [[]|e] eqn:Ev; [|destruct H as [-> ->]; apply refused_now].
  rewrite plift_runs in H. destruct (edit_dependencies_from_cli a) as [deps|e] eqn:Ed; [|destruct H as [-> ->]; apply refused_now].
  destruct (ce_force_native a && edit_any_managed a) eqn:Em; [destruct H as [-> ->]; apply refused_now|].
  destruct (ce_force_native a && edit_want_native a deps) eqn:En;
    apply optional_password_runs in H as (pre & Hp & Hc & [(e & -> & ->)|(p & rest & -> & Ha & H)]); try by apply refused.
  - apply andb_true_iff in En as [Hf _]. rewrite Hf in Em. cbn [andb] in Em.
    apply changed_once_prefix; [done|done|]. eapply call_once; [| | | |exact H]; try done; [intros x; apply report_runs|].
    intros x. exists a. by repeat split.
  - apply changed_once_prefix; [done|done|]. eapply call_once; [| | | |exact H]; try done; [apply report_runs|].
    intros x. exists a. split; [done|]. split; [done|]. split; [done|]. split; [done|]. split; [done|]. split; [|done].
    intros Hf. rewrite Hf in Em, En. cbn [andb] in Em, En. split; [exact Em|].
    unfold edit_want_native in En. unfold touches_native. cbn [es_display_name es_description es_start_type es_dependencies es_account es_password].
    unfold asked_password in Ha. rewrite Ha. by destruct (ce_start a).
Qed.

(** ** Commands that read only *)

Definition reading {A} (p : CliProg A) : Prop := forall log r, runs p log r -> quiet log.

Lemma reading_ret {A} (r : result Error A) : reading (PRet r).
Proof. intros log r' [-> _]. constructor. Qed.
Lemma reading_plift {A} (r : result Error A) : reading (plift r).
Proof. apply reading_ret. Qed.
Lemma reading_call {X} (e : CliE X) : (forall x, changing (Ev e x) = false) -> reading (perform e).
Proof. intros H log r (x & l & -> & -> & _). by repeat constructor. Qed.
Lemma reading_bind {A B} (p : CliProg A) (k : A -> CliProg B) : reading p -> (forall a, reading (k a)) -> reading (pbind p k).
Proof.
  intros Hp Hk log r [(e & -> & H)|(l1 & l2 & a & -> & H1 & H2)]%runs_bind; [by eapply Hp|].
  apply quiet_app; [by eapply Hp|by eapply Hk].
Qed.
Lemma reading_try {A} (p : CliProg A) : reading p -> reading (ptry p).
Proof. intros Hp log r (l1 & l2 & a & -> & H1 & [-> _])%runs_then. rewrite app_nil_r. by eapply Hp. Qed.
Lemma reading_quiet (p : CliProg unit) : (forall l q, runs p l q -> q = Ok tt /\ quiet l) -> reading p.
Proof. intros H log r Hr. by apply H in Hr as [_ ?]. Qed.
Lemma reading_say t : reading (say t).
Proof. apply reading_quiet, println_runs. Qed.
Lemma reading_pretty v : reading (say_pretty v).
Proof. apply reading_quiet, println_runs. Qed.
Lemma reading_json v : reading (say_json v).
Proof. apply reading_quiet, println_runs. Qed.
Lemma reading_all l : reading (say_all l).
Proof. apply reading_quiet, say_all_runs. Qed.
Lemma reading_eall l : reading (eprint_all l).
Proof. apply reading_quiet, eprint_all_runs. Qed.
Lemma reading_eprint t : reading (eprintln t).
Proof. apply reading_quiet, eprintln_runs. Qed.
Lemma reading_report json fields text : reading (report json fields text).
Proof. apply reading_quiet, report_runs. Qed.

Ltac reading :=
  repeat first
  [ progress unfold call, serialize
  | apply reading_bind; [|intros] | apply reading_try | apply reading_call; done
  | apply reading_say | apply reading_pretty | apply reading_json | apply reading_all | apply reading_eall | apply reading_eprint
  | apply reading_report | apply reading_ret | apply reading_plift
  | match goal with |- reading (match ?x with _ => _ end) => destruct x end ].

Lemma statuscode_reading name json : reading (cmd_statuscode_exit name json).
Proof. unfold cmd_statuscode_exit. reading. Qed.

Lemma reads_only_reading cli c : cli_command cli = Some c -> reads_only c = true -> reading (run cli).
Proof.
  intros Hc Hr. unfold run. rewrite Hc. destruct c as [| | | | | | | | | | | | | | | | | | nm js [set|] | | | | ]; try done;
    unfold cmd_list, cmd_dump, cmd_status, cmd_get, cmd_recovery, cmd_recovery_show, cmd_processes; reading.
Qed.

(** ** Every command *)

Lemma rotate_quiet name (k : result Error NativeService -> CliProg unit) l q :
  (forall x l q, runs (k x) l q -> q = Ok tt /\ quiet l) ->
  runs (pbind (ptry (call (ScmQuery name))) k) l q -> q = Ok tt /\ quiet l.
Proof.
  intros Hk H. apply runs_bind in H as [(e & -> & (l1 & l2 & a & _ & _ & [_ [=]])%runs_then)|(l1 & l2 & x & -> & H1 & H2)].
  apply Hk in H2 as [-> H2]. split; [done|]. apply quiet_app; [|exact H2].
  revert H1. apply reading_try, reading_call. done.
Qed.

Ltac one_call H := eapply call_once; [..|exact H]; try done; try (intros x; apply report_runs || apply println_runs); intros x; cbn; eauto 6.

Lemma control_once name action force json log r c :
  runs (cmd_control name action force json) log r ->
  c = match action with ActStart => CStart name force | ActStop => CStop name force | ActPause => CPause name force | ActContinue => CContinue name force end ->
  Forall (commanded c) log /\ changed_once log r.
Proof. intros H ->. unfold cmd_control, force_control, call in H. destruct force, action; one_call H. Qed.

Lemma run_commanded cli c log r :
  cli_command cli = Some c -> runs (run cli) log r ->
  Forall (commanded c) log /\ if reads_only c then changes_of log = [] else changed_once log r.
Proof.
  intros Hc H. destruct (reads_only c) eqn:Er.
  { assert (quiet log) as Hq by (by eapply reads_only_reading). split; [by apply quiet_commanded|by apply quiet_changes]. }
  unfold run in H. rewrite Hc in H. destruct c as [| | |a|n np f|n f|n f|n f|n f|n t f| |n p v|n p|n p| |a|n|n|n js [sa|]| |n|o nonce idle|]; try done.
  - by eapply install_once.
  - unfold cmd_remove, call in H. one_call H.
  - by eapply control_once.
  - by eapply control_once.
  - by eapply control_once.
  - by eapply control_once.
  - unfold cmd_restart, call in H. one_call H.
  - unfold cmd_set in H. one_call H.
  - unfold cmd_unset in H. one_call H.
  - unfold cmd_reset in H. one_call H.
  - by eapply edit_once.
  - unfold cmd_repair, call in H. one_call H.
  - unfold cmd_rotate, call in H. eapply call_once; [..|exact H]; try done. intros x.
    destruct (cli_json cli); [|apply println_runs]. intros l q. apply rotate_quiet. intros y. apply println_runs.
  - unfold cmd_recovery, cmd_recovery_set in H. one_call H.
  - destruct H as (x & l & -> & -> & ->). apply changed_once_call; try done; [constructor|]. destruct x as [[]|e]; cbn; split; congruence.
  - unfold run_broker in H. apply runs_bind in H as [(e & -> & (x & l & -> & -> & <-))|(l1 & l2 & x & -> & (y & l & -> & -> & <-) & H)].
    + apply refused; by repeat constructor.
    + rewrite plift_runs in H. apply (changed_once_prefix _ [Ev StdinLine (Ok x)]); [done|by repeat constructor|].
      destruct x as [t|e]; cbn [map_err] in H; [|destruct H as [-> ->]; apply refused_now].
      destruct H as (z & l & -> & -> & ->). apply changed_once_call; try done; [constructor|]. destruct z as [[]|e]; cbn; split; congruence.
  - unfold run_gui in H. apply runs_bind in H as [(e & -> & (x & l & -> & -> & <-))|(l1 & l2 & x & -> & (y & l & -> & -> & <-) & [-> ->])].
    + split; [by repeat constructor|]. right. exists (Ev GuiRun (Err e)). split; [done|]. cbn. split; congruence.
    + split; [by repeat constructor|]. right. exists (Ev GuiRun (Ok x)). split; [done|]. destruct x as [[]|e]; cbn; split; congruence.
Qed.
End Commands.

(** ** The exit code *)

Section ExitCode.
Context {C : Codec}.

Lemma detach_runs (k : unit -> CliProg Z) log r : runs (pbind detach_console_if_standalone k) log r ->
  exists pre rest, log = pre ++ rest /\ quiet pre /\ runs (k tt) rest r.
Proof.
  assert (reading detach_console_if_standalone) as Hd.
  { unfold detach_console_if_standalone. apply reading_bind; [apply reading_try, reading_call; done|].
    intros x. case_match; [|apply reading_ret]. intros log0 r0 (y & l & -> & -> & _). by repeat constructor. }
  intros [(e & -> & H)|(l1 & l2 & [] & -> & H1 & H2)]%runs_bind; [|exists l1, l2; split; [done|]; split; [by eapply Hd|done]].
  unfold detach_console_if_standalone in H. apply runs_bind in H as [(e' & [= <-] & H)|(l1 & l2 & x & -> & _ & H)].
  - apply runs_then in H as (l1 & l2 & a & _ & _ & [_ [=]]).
  - case_match; [by destruct H as (y & l & _ & _ & [=])|by destruct H as [_ [=]]].
Qed.

(** The report of [main]. *)
Definition report_error (json : bool) (e : Error) : CliProg unit :=
  if json then say_pretty (VObject [(&"error", VString (error_to_string e))]) else eprintln (&"error: " ++ error_to_string e).
(** [main] once the command has ended. *)
Definition ended (json : bool) (command : CliProg unit) : CliProg Z :=
  let@ r := ptry command in
  match r with
  | Ok _ => PRet (Ok EXIT_SUCCESS)
  | Err e =>
      report_error json e ;@
      PRet (Ok EXIT_FAILURE)
  end.

Lemma error_report_runs json e log r :
  runs (pbind (report_error json e) (fun _ => PRet (Ok EXIT_FAILURE)) : CliProg Z) log r -> r = Ok EXIT_FAILURE /\ quiet log.
Proof.
  intros [(e' & -> & H)|(l1 & l2 & [] & -> & H1 & [-> ->])]%runs_bind.
  - destruct json; [apply println_runs in H as [[=] _]|apply eprintln_runs in H as [[=] _]].
  - rewrite app_nil_r. split; [done|]. destruct json; [by apply println_runs in H1 as [_ ?]|by apply eprintln_runs in H1 as [_ ?]].
Qed.

(** The exit code of a command that changes something says whether the
    change was made: it is 0 when the one change the command names was made and
    succeeded, and 1 in every other case; whatever happens there is an exit code. *)
Theorem exit_code_honest cli c log r :
  cli_command cli = Some c -> reads_only c = false -> runs (main (Some cli)) log r ->
  exists code, r = Ok code /\ Forall (commanded c) log
    /\ ((code = 0 /\ exists e, changes_of log = [e] /\ succeeded e = true)
        \/ (code = 1 /\ (changes_of log = [] \/ exists e, changes_of log = [e] /\ succeeded e = false))).
Proof.
  intros Hc Hr H. unfold main in H. apply detach_runs in H as (pre & rest & -> & Hq & H). rewrite Hc in H.
  assert (exists r1 l1 l2, rest = l1 ++ l2 /\ runs (run cli) l1 r1 /\ quiet l2
    /\ r = Ok (match r1 with Ok _ => EXIT_SUCCESS | Err _ => EXIT_FAILURE end)) as (r1 & l1 & l2 & -> & Hrun & Hq2 & ->).
  { assert (runs (ended (cli_json cli) (run cli)) rest r) as H' by (destruct c; done). clear H. rename H' into H.
    apply runs_bind in H as [(e & -> & (l1 & l2 & a & _ & _ & [_ [=]])%runs_then)|(l1 & l2 & x & -> & H1 & H2)].
    apply runs_then in H1 as (l3 & l4 & x' & -> & H1 & [-> [= ->]]). exists x', l3, l2. rewrite app_nil_r. split; [done|]. split; [done|].
    destruct x' as [u|e]; [destruct H2 as [-> ->]; by split; [constructor|]|]. apply error_report_runs in H2 as [-> ?]. by split. }
  destruct (run_commanded cli c l1 r1 Hc Hrun) as [Hcmd Ho]. rewrite Hr in Ho.
  eexists. split; [reflexivity|]. split.
  { apply Forall_app. split; [by apply quiet_commanded|]. apply Forall_app. split; [done|by apply quiet_commanded]. }
  rewrite !changes_app, (quiet_changes pre), (quiet_changes l2), app_nil_r by done. cbn [app].
  destruct Ho as [[-> Hne]|(e & -> & He)].
  - right. split; [by destruct r1 as [[]|]|by left].
  - destruct (succeeded e) eqn:Es.
    + left. rewrite (proj1 He eq_refl). eauto.
    + right. split; [destruct r1 as [[]|]; [by discriminate (proj2 He eq_refl)|done]|]. right. eauto.
Qed.
End ExitCode.

(** ** Recovery updates *)

(** The setting an [--exit-action] names. *)
Definition setting (raw : rstr) : option (rstr * ExitAction) :=
  match split_once c_equals raw with
  | Some (code, action) => match parse_exit_action action with Ok a => Some (trim code, a) | Err _ => None end
  | None => None
  end.
Definition valid_setting (raw : rstr) : Prop :=
  exists n a, setting raw = Some (to_dec n, a) /\ i32_wf n.
(** The last setting for [code]. *)
Definition setting_of (code raw : rstr) : option ExitAction :=
  '(c, a) ← setting raw; if str_eqb c code then Some a else None.

Lemma apply_exit_action_ok m raw m' : apply_exit_action m raw = Ok m' <->
  exists n a, setting raw = Some (to_dec n, a) /\ i32_wf n /\ m' = bt_insert (to_dec n) a m.
Proof.
  unfold apply_exit_action, setting. destruct (split_once c_equals raw) as [[code action]|]; [|naive_solver].
  destruct (parse_exit_action action) as [a|e]; cbn [map_err rbind]; [|naive_solver].
  destruct (validate_exit_action_key (trim code)) as [[]|e] eqn:Ev; cbn [map_err rbind]; split.
  - intros [= <-]. apply validate_exit_action_key_iff in Ev as (n & Hn & ->). by exists n, a.
  - by intros (n & a' & [= -> ->] & _ & ->).
  - done.
  - intros (n & a' & [= E ->] & Hn & ->). assert (validate_exit_action_key (trim code) = Ok tt) as E' by (apply validate_exit_action_key_iff; eauto).
    congruence.
Qed.

Lemma apply_exit_actions l : forall m m', bt_ok m -> try_fold apply_exit_action l m = Ok m' ->
  bt_ok m' /\ Forall valid_setting l
  /\ forall code, bt_get code m' = match last (omap (setting_of code) l) with Some a => Some a | None => bt_get code m end.
Proof.
  induction l as [|raw l IH]; intros m m' Hm H; cbn [try_fold] in H; [by injection H as <-|].
  inv_bind_as H m1 E. apply apply_exit_action_ok in E as (n & a & Es & Hn & ->).
  destruct (IH _ _ (bt_insert_ok _ _ _ Hm) H) as (H1 & H2 & H3). split; [done|]. split; [constructor; [by exists n, a|done]|].
  intros code. rewrite H3, bt_get_insert. assert (setting_of code raw = if str_eqb (to_dec n) code then Some a else None) as Eo
    by (unfold setting_of; by rewrite Es).
  cbn [omap list_omap]. rewrite Eo. destruct (str_eqb (to_dec n) code) eqn:Ec.
  - rewrite last_cons. by destruct (last _).
  - by destruct (last _).
Qed.

Lemma apply_exit_actions_total l : Forall valid_setting l -> forall m, exists m', try_fold apply_exit_action l m = Ok m'.
Proof.
  induction 1 as [|raw l (n & a & Es & Hn) _ IH]; intros m; cbn [try_fold]; [eauto|].
  rewrite (proj2 (apply_exit_action_ok m raw _) (ex_intro _ n (ex_intro _ a (conj Es (conj Hn eq_refl))))). cbn [rbind]. apply IH.
Qed.

(** A recovery update changes what its flags say and nothing else. It is
    accepted exactly when every [--exit-action] names an exit code in the
    spelling the supervisor looks up and a known action; then a delay is cleared,
    replaced or kept, the default action is replaced or kept, and an exit code
    has the last action given for it, or else the one it had, unless all were to
    be cleared. *)
Theorem merge_recovery_exact name current a :
  bt_ok (rs_exit_actions current) ->
  (is_ok (merge_recovery_args name current a) = true <-> Forall valid_setting (cr_exit_actions a))
  /\ forall s, merge_recovery_args name current a = Ok s ->
       rs_name s = name /\ bt_ok (rs_exit_actions s)
       /\ rs_restart_delay_ms s = (if cr_no_restart_delay a then None else or_else (cr_restart_delay_ms a) (rs_restart_delay_ms current))
       /\ rs_throttle_delay_ms s = (if cr_no_throttle_delay a then None else or_else (cr_throttle_delay_ms a) (rs_throttle_delay_ms current))
       /\ rs_default_action s = match cr_default_action a with Some x => exit_action_into x | None => rs_default_action current end
       /\ forall code, bt_get code (rs_exit_actions s)
            = or_else (last (omap (setting_of code) (cr_exit_actions a)))
                (if cr_clear_exit_actions a then None else bt_get code (rs_exit_actions current)).
Proof.
  intros Hok. unfold merge_recovery_args. set (start := if cr_clear_exit_actions a then [] else rs_exit_actions current).
  assert (bt_ok start) as Hs by (unfold start; destruct (cr_clear_exit_actions a); [apply bt_ok_nil|done]).
  assert (forall code, bt_get code start = if cr_clear_exit_actions a then None else bt_get code (rs_exit_actions current)) as Hg
    by (intros code; unfold start; by destruct (cr_clear_exit_actions a)).
  split.
  - split.
    + destruct (try_fold _ _ start) as [m|e] eqn:E; cbn [rbind is_ok]; [|done]. intros _. by apply (apply_exit_actions _ _ _ Hs) in E as (_ & ? & _).
    + intros Hv. destruct (apply_exit_actions_total _ Hv start) as [m ->]. done.
  - intros s H. inv_bind_as H m E. injection H as <-. apply (apply_exit_actions _ _ _ Hs) in E as (H1 & _ & H3).
    split; [done|]. split; [exact H1|]. split; [done|]. split; [done|]. split; [done|].
    intros code. cbn [rs_exit_actions]. rewrite H3, Hg. by destruct (last _).
Qed.

Definition sample_policy : RecoverySpec := {|
  rs_name := &"svc"; rs_restart_delay_ms := Some 500; rs_throttle_delay_ms := None; rs_default_action := Restart;
  rs_exit_actions := [(&"0", Exit); (&"3", Ignore)] |}.
Definition sample_update : RecoverySetArgs := {|
  cr_default_action := None; cr_restart_delay_ms := None; cr_no_restart_delay := false; cr_throttle_delay_ms := Some 9;
  cr_no_throttle_delay := false; cr_exit_actions := [&"3=Suicide"; &" 7 = exit"]; cr_clear_exit_actions := false |}.

Lemma merge_recovery_exact_witness :
  Forall valid_setting (cr_exit_actions sample_update)
  /\ option_map (fun s => (rs_restart_delay_ms s, bt_get &"3" (rs_exit_actions s)))
       (match merge_recovery_args &"svc" sample_policy sample_update with Ok s => Some s | Err _ => None end) = Some (Some 500, Some Suicide).
Proof.
  assert (bt_ok (rs_exit_actions sample_policy)) as Hok by (repeat constructor).
  destruct (merge_recovery_exact &"svc" sample_policy sample_update Hok) as [H1 _]. split; [|vm_compute; reflexivity].
  apply H1. vm_compute. reflexivity.
Defined.

(** ** Hooks *)

Definition all_hook_points : list HookPoint :=
  [StartPre; StartPost; StopPre; ExitPost; RotatePre; RotatePost; PowerChange; PowerResume].

Lemma supported_points : SUPPORTED_HOOK_POINTS = map (fun p => (hook_event p, hook_point_action p)) all_hook_points.
Proof. reflexivity. Qed.

Lemma accepted_hook_runs raw h : parse_hook_spec raw = Ok h ->
  command h <> [] /\ validate_hook_component (event h) &"event" = Ok tt
  /\ validate_hook_component (hook_action h) &"action" = Ok tt
  /\ exists p, In p all_hook_points /\ find_hook [h] p = Some h
       /\ forall q, find_hook [h] q = Some h -> q = p.
Proof.
  unfold parse_hook_spec. destruct (split_once c_equals raw) as [[lhs cmd]|]; [|done].
  destruct (split_once c_slash lhs) as [[ev act]|]; [|done]. intros H.
  inv_bind_as H u1 E1. inv_bind_as H u2 E2. destruct u1, u2.
  destruct (negb _) eqn:En; [done|]. destruct (is_empty (trim cmd)) eqn:Ec; [done|].
  assert (h = {| event := trim ev; hook_action := trim act; command := trim cmd |}) as -> by congruence. clear H.
  split; [by apply is_empty_false|]. split; [exact E1|]. split; [exact E2|].
  apply negb_false_iff, existsb_exists in En as ([e a] & Hin & Hea). rewrite supported_points in Hin. cbn [fst snd] in Hea.
  apply in_map_iff in Hin as (p & Ep & Hp). assert (e = hook_event p /\ a = hook_point_action p) as [-> ->] by (split; congruence).
  exists p. split; [done|]. unfold find_hook. cbn [find event hook_action]. rewrite Hea. split; [done|].
  intros q. destruct (eq_ignore_ascii_case (trim ev) (hook_event q) && _) eqn:Eq; [|done]. intros _.
  apply andb_true_iff in Hea as [H1 H2]. apply andb_true_iff in Eq as [H3 H4].
  apply eq_ignore_ascii_case_eq in H1, H2, H3, H4. rewrite H1 in H3. rewrite H2 in H4. clear -H3 H4.
  destruct p, q; try done; exfalso; revert H3 H4; vm_compute; congruence.
Qed.

Lemma point_hook_accepted p cmd : trim cmd <> [] ->
  parse_hook_spec (hook_event p ++ &"/" ++ hook_point_action p ++ &"=" ++ cmd)
  = Ok {| event := hook_event p; hook_action := hook_point_action p; command := trim cmd |}.
Proof.
  intros Hc. unfold parse_hook_spec.
  assert (split_once c_equals (hook_event p ++ &"/" ++ hook_point_action p ++ &"=" ++ cmd) = Some (hook_event p ++ &"/" ++ hook_point_action p, cmd)) as ->
    by (apply split_once_Some; split; [by rewrite <- !app_assoc|destruct p; vm_compute; intuition congruence]).
  assert (split_once c_slash (hook_event p ++ &"/" ++ hook_point_action p) = Some (hook_event p, hook_point_action p)) as -> by (by destruct p).
  assert (trim (hook_event p) = hook_event p) as -> by (by destruct p).
  assert (trim (hook_point_action p) = hook_point_action p) as -> by (by destruct p).
  assert (validate_hook_component (hook_event p) &"event" = Ok tt) as -> by (by destruct p).
  assert (validate_hook_component (hook_point_action p) &"action" = Ok tt) as -> by (by destruct p). cbn [rbind].
  assert (existsb (fun ea : rstr * rstr => eq_ignore_ascii_case (hook_event p) ea.1 && eq_ignore_ascii_case (hook_point_action p) ea.2)
            SUPPORTED_HOOK_POINTS = true) as -> by (by destruct p). cbn [negb].
  apply is_empty_false in Hc. by rewrite Hc.
Qed.

(** The command line accepts the hooks the supervisor runs, and no others:
    an accepted [--hook] is not empty, has names the registry can store, and is
    what the supervisor finds at exactly one point of a service's life; and for
    every such point a hook with any command is accepted. *)
Theorem hooks_accepted_are_run :
  (forall raw h, parse_hook_spec raw = Ok h ->
     command h <> [] /\ validate_hook_component (event h) &"event" = Ok tt
     /\ validate_hook_component (hook_action h) &"action" = Ok tt
     /\ exists p, In p all_hook_points /\ find_hook [h] p = Some h /\ forall q, find_hook [h] q = Some h -> q = p)
  /\ forall p cmd, trim cmd <> [] ->
       exists h, parse_hook_spec (hook_event p ++ &"/" ++ hook_point_action p ++ &"=" ++ cmd) = Ok h
         /\ command h = trim cmd /\ find_hook [h] p = Some h.
Proof.
  split; [exact accepted_hook_runs|]. intros p cmd Hc. eexists. split; [by apply point_hook_accepted|]. split; [done|].
  unfold find_hook. cbn [find event hook_action]. by rewrite !eq_ignore_ascii_case_refl.
Qed.

(** ** A run *)

(** Every query and every call of the SCM fails, every operation succeeds. *)
Definition sample_world_call (X : Type) (e : CliE X) (w : unit) : result Error X * unit :=
  (match e in CliE X return result Error X with
   | Do h => match h in HandlerE X return result Error X with
             | OpsStart n | OpsStop n | OpsRotate n => Ok (n ++ &" done")
             | _ => Err (Scm &"busy")
             end
   | GetConsoleProcessList => Ok 2
   | _ => Err (Other &"nothing")
   end, w).
Definition sample_cli (c : Command) : CliArgs := {| cli_json := true; cli_command := Some c |}.
Definition sample_command (c : Command) : result Error Z * list CliEvent :=
  let '(r, log, _) := interp sample_world_call (main (C := sample_codec) (Some (sample_cli c))) tt in (r, log).

Lemma exit_code_honest_witness :
  (sample_command (CStop &"web" false)).1 = Ok 0 /\ (sample_command (CStop &"web" true)).1 = Ok 1
  /\ exists code, (sample_command (CStop &"web" true)).1 = Ok code.
Proof.
  split; [vm_compute; reflexivity|]. split; [vm_compute; reflexivity|].
  destruct (exit_code_honest (C := sample_codec) (sample_cli (CStop &"web" true)) (CStop &"web" true)
    (sample_command (CStop &"web" true)).2 (sample_command (CStop &"web" true)).1) as (code & H & _).
  - reflexivity.
  - reflexivity.
  - exact (interp_runs sample_world_call (main (C := sample_codec) (Some (sample_cli (CStop &"web" true)))) tt).
  - exists code. exact H.
Defined.

Definition sample_run (c : Command) : result Error unit * list CliEvent :=
  let '(r, log, _) := interp sample_world_call (run (C := sample_codec) (sample_cli c)) tt in (r, log).

