(* ===== verification/ProcessTree.v ===== *)
(** * Processes and jobs: servicemanager-win32 [process_tree.rs], [job.rs]

    The walk over the process tree, pinned processes, and the members of a job,
    as programs of their system calls. *)

From Stdlib Require Import ZArith Lia List.
From S2P Require Import Prelude Text Model Win32 Effects OpsControl BrokerPipe BrokerHandlers.

(** ** enumerate_descendants *)

(** [PROCESSENTRY32W], the fields that are read. *)
Record PROCESSENTRY32W := { th32ProcessID : Z; th32ParentProcessID : Z; szExeFile : list Z }.

Definition info_of (e : PROCESSENTRY32W) : ProcessInfo :=
  let name_end := match position (fun c => c =? 0) (szExeFile e) with Some n => n | None => length (szExeFile e) end in
  {| pi_pid := th32ProcessID e; pi_parent_pid := th32ParentProcessID e;
     pi_image_name := from_utf16_lossy (take name_end (szExeFile e)) |}.

Abbreviation ByParent := (gmap Z (list ProcessInfo)) (only parsing).
Abbreviation ByPid := (gmap Z ProcessInfo) (only parsing).

(** One turn of the loop over the snapshot. *)
Definition index_entry (maps : ByParent * ByPid) (e : PROCESSENTRY32W) : ByParent * ByPid :=
  let '(by_parent, by_pid) := maps in
  let info := info_of e in
  let siblings := match by_parent !! pi_parent_pid info with Some l => l | None => [] end in
  (<[pi_parent_pid info := siblings ++ [info]]> by_parent, <[pi_pid info := info]> by_pid).

(** The walk; [None] only when [fuel] runs out. *)
Fixpoint walk (fuel : nat) (by_parent : ByParent) (by_pid : ByPid) (queue : list Z) (seen : gset Z) (out : list ProcessInfo)
    : option (list ProcessInfo) :=
  match queue with
  | [] => Some out
  | pid :: queue =>
      match fuel with
      | O => None
      | S fuel =>
          if decide (pid ∈ seen) then walk fuel by_parent by_pid queue seen out
          else
            let out := match by_pid !! pid with Some info => out ++ [info] | None => out end in
            let queue := match by_parent !! pid with Some children => queue ++ map pi_pid children | None => queue end in
            walk fuel by_parent by_pid queue ({[pid]} ∪ seen) out
      end
  end.

(** The entries of the snapshot; [None] is a failed [Process32FirstW]. *)
Definition enumerate_descendants (snapshot : result rstr (option (list PROCESSENTRY32W))) (root_pid : Z)
    : result Error (option (list ProcessInfo)) :=
  match snapshot with
  | Err e => Err (error_other (&"CreateToolhelp32Snapshot: " ++ e))
  | Ok None => Ok (Some [])
  | Ok (Some entries) =>
      let '(by_parent, by_pid) := fold_left index_entry entries (∅, ∅) in
      Ok (walk (S (length entries)) by_parent by_pid [root_pid] ∅ [])
  end.

(** ** System calls *)

(** What a call fails with: a code with its text, or an error already made. *)
Inductive Fail := Os (code : Z) (text : rstr) | Msg (e : Error).
Definition other_of (context : rstr) (f : Fail) : Fail :=
  match f with Os _ text => Msg (error_other (context ++ &": " ++ text)) | Msg e => Msg e end.

Inductive WinE : Type -> Type :=
| OpenProcess (access pid : Z) : WinE Z
| CloseHandle (h : Z) : WinE unit
| WaitForSingleObject (h timeout : Z) : WinE Z
| LastOsError : WinE rstr
| NtFunction (resume : bool) : WinE unit
| NtSuspendProcess (h : Z) : WinE Z
| NtResumeProcess (h : Z) : WinE Z
| TerminateProcess (h code : Z) : WinE unit
| SetPriorityClass (h priority : Z) : WinE unit
| GetPriorityClass (h : Z) : WinE Z
| GetProcessGroupAffinity (h : Z) : WinE (Z * list Z)
| GetProcessAffinityMask (h : Z) : WinE (Z * Z)
| SetProcessAffinityMask (h mask : Z) : WinE unit
| DuplicateHandle (child : Z) : WinE Z
| CreateJobObject : WinE Z
| SetKillOnClose (job : Z) : WinE unit
| AssignProcessToJobObject (job h : Z) : WinE unit
| IsProcessInJob (h job : Z) : WinE bool
| QueryActiveProcesses (job : Z) : WinE Z
| QueryProcessIdList (job capacity : Z) : WinE (Z * list Z)
| TerminateJobObject (job code : Z) : WinE unit
| InstantNow : WinE Z
| SleepMs (ms : Z) : WinE unit.
Abbreviation WinProg A := (Prog WinE Fail A) (only parsing).
Abbreviation WinEvent := (Event WinE Fail) (only parsing).

Definition WAIT_OBJECT_0 : Z := 0.
Definition WAIT_TIMEOUT : Z := 258.
Definition ERROR_INVALID_PARAMETER : Z := 87.
Definition ERROR_MORE_DATA : Z := 234.
Definition PROCESS_TERMINATE : Z := 1.
Definition PROCESS_SUSPEND_RESUME : Z := 2048.
Definition PROCESS_QUERY_LIMITED_INFORMATION : Z := 4096.
Definition PROCESS_SYNCHRONIZE : Z := 1048576.

(** A call whose result is ignored. *)
Definition ignore_call {X} (e : WinE X) : WinProg unit := pthen (perform e) (fun _ => PRet (Ok tt)).
Definition close (h : Z) : WinProg unit := ignore_call (CloseHandle h).
Definition fail {A} (e : Error) : WinProg A := PRet (Err (Msg e)).
Definition perform_as {X} (context : rstr) (e : WinE X) : WinProg X := pmap_err (other_of context) (perform e).

(** ** PinnedProcess *)

Record PinnedProcess := { pp_handle : Z; pp_pid : Z }.

Definition open_with_access (pid access : Z) : WinProg (option PinnedProcess) :=
  pthen (perform (OpenProcess access pid)) (fun r =>
    match r with
    | Ok h => PRet (Ok (Some {| pp_handle := h; pp_pid := pid |}))
    | Err (Os code text) =>
        if code =? ERROR_INVALID_PARAMETER then PRet (Ok None)
        else fail (error_other (&"OpenProcess(" ++ to_dec pid ++ &"): " ++ text))
    | Err f => PRet (Err f)
    end).
Definition pinned_open (pid : Z) : WinProg (option PinnedProcess) :=
  open_with_access pid (Z.lor PROCESS_QUERY_LIMITED_INFORMATION (Z.lor PROCESS_SUSPEND_RESUME PROCESS_SYNCHRONIZE)).

(** A child is its handle and its identifier. *)
Definition from_child (child : PinnedProcess) : WinProg PinnedProcess :=
  let@ h := perform_as &"duplicate child handle" (DuplicateHandle (pp_handle child)) in
  PRet (Ok {| pp_handle := h; pp_pid := pp_pid child |}).

Definition is_running (p : PinnedProcess) : WinProg bool :=
  let@ w := perform (WaitForSingleObject (pp_handle p) 0) in
  if w =? WAIT_TIMEOUT then PRet (Ok true)
  else if w =? WAIT_OBJECT_0 then PRet (Ok false)
  else
    let@ text := perform LastOsError in
    fail (error_other (&"query process " ++ to_dec (pp_pid p) ++ &": " ++ text)).

(** [{status:#x}] of an [i32] *)
Fixpoint strip_zeros (s : rstr) : rstr :=
  match s with
  | c :: (_ :: _ as r) => if c =? 48 then strip_zeros r else s
  | _ => s
  end.
Definition hex_status (status : Z) : rstr := &"0x" ++ strip_zeros (to_hex_pad 8 (status mod 2 ^ 32)).

Definition change_suspension (p : PinnedProcess) (operation : Z -> WinE Z) (label : rstr) : WinProg bool :=
  let@ running := is_running p in
  if negb running then PRet (Ok false)
  else
    let@ status := perform (operation (pp_handle p)) in
    if status =? 0 then PRet (Ok true)
    else
      let@ running := is_running p in
      if negb running then PRet (Ok false)
      else fail (error_other (label ++ &" process " ++ to_dec (pp_pid p) ++ &": NTSTATUS " ++ hex_status status)).

Definition suspend (p : PinnedProcess) : WinProg bool :=
  perform (NtFunction false) ;@ change_suspension p NtSuspendProcess &"suspend".
Definition resume (p : PinnedProcess) : WinProg bool :=
  perform (NtFunction true) ;@ change_suspension p NtResumeProcess &"resume".

Definition terminate (p : PinnedProcess) (exit_code : Z) : WinProg unit :=
  pthen (perform (TerminateProcess (pp_handle p) exit_code)) (fun r =>
    match r with
    | Ok _ => PRet (Ok tt)
    | Err f =>
        let@ running := is_running p in
        if negb running then PRet (Ok tt)
        else PRet (Err (other_of (&"terminate process " ++ to_dec (pp_pid p)) f))
    end).

Definition supported_priority (p : Z) : bool :=
  existsb (Z.eqb p) [32; 64; 128; 256; 16384; 32768].

Definition configure_priority (p : PinnedProcess) (priority : Z) : WinProg unit :=
  if negb (supported_priority priority) then fail (InvalidConfig &"AppPriority is not a supported priority class")
  else
    perform_as &"set child priority" (SetPriorityClass (pp_handle p) priority) ;@
    let@ granted := perform (GetPriorityClass (pp_handle p)) in
    if negb (granted =? priority) then fail (error_other &"the requested child priority was not granted") else PRet (Ok tt).

Definition configure_affinity (p : PinnedProcess) (affinity : rstr) : WinProg unit :=
  let@ (count, groups) := perform_as &"query child processor groups" (GetProcessGroupAffinity (pp_handle p)) in
  if negb (count =? 1) || negb (match groups with g :: _ => g =? 0 | [] => true end)
  then fail (InvalidConfig &"AppAffinity currently supports only a child in processor group 0")
  else
    let@ (process_mask, system_mask) := perform_as &"query child affinity" (GetProcessAffinityMask (pp_handle p)) in
    let@ mask := plift (map_err Msg (parse_affinity affinity system_mask)) in
    perform_as &"set child affinity" (SetProcessAffinityMask (pp_handle p) mask).

Definition configure (p : PinnedProcess) (priority : option Z) (affinity : option rstr) : WinProg unit :=
  match priority with Some x => configure_priority p x | None => PRet (Ok tt) end ;@
  match affinity with Some x => configure_affinity p x | None => PRet (Ok tt) end.

(** [suspend_process], [resume_process] and [terminate_process] of a PID; the
    handle is closed on every path. *)
Definition suspend_or_resume_process (resume : bool) (pid : Z) : WinProg unit :=
  let@ h := perform_as (&"OpenProcess(" ++ to_dec pid ++ &")") (OpenProcess PROCESS_SUSPEND_RESUME pid) in
  pfinally
    (perform (NtFunction resume) ;@
     let@ status := perform (if resume then NtResumeProcess h else NtSuspendProcess h) in
     if negb (status =? 0)
     then fail (error_other ((if resume then &"NtResumeProcess" else &"NtSuspendProcess") ++ &": NTSTATUS " ++ hex_status status))
     else PRet (Ok tt))
    (close h).
Definition terminate_process (pid exit_code : Z) : WinProg unit :=
  let@ h := perform_as (&"OpenProcess(" ++ to_dec pid ++ &") for terminate") (OpenProcess PROCESS_TERMINATE pid) in
  pfinally (perform_as (&"TerminateProcess(" ++ to_dec pid ++ &")") (TerminateProcess h exit_code)) (close h).

(** ** JobObject *)

Section Job.
Variable job : Z.

Definition is_empty_job : WinProg bool :=
  let@ active := perform_as &"query active job processes" (QueryActiveProcesses job) in
  PRet (Ok (active =? 0)).

(** [fuel] bounds the polls of one wait; [None] is only the end of it. *)
Fixpoint wait_empty_until (fuel : nat) (deadline : Z) : WinProg (option unit) :=
  match fuel with
  | O => PRet (Ok None)
  | S fuel =>
      let@ empty := is_empty_job in
      if empty : bool then PRet (Ok (Some tt))
      else
        let@ now := perform InstantNow in
        if deadline <=? now then fail (error_other &"job still has active processes after the cleanup deadline")
        else ignore_call (SleepMs 5) ;@ wait_empty_until fuel deadline
  end.
Definition wait_empty (fuel : nat) (timeout : Z) : WinProg (option unit) :=
  let@ now := perform InstantNow in
  wait_empty_until fuel (now + timeout).

Definition assign (child_handle : Z) : WinProg unit :=
  pmap_err (fun f => match f with Os _ text => Msg (Scm (&"AssignProcessToJobObject: " ++ text)) | _ => f end)
    (perform (AssignProcessToJobObject job child_handle)).
Definition assign_child (child : PinnedProcess) : WinProg unit := assign (pp_handle child).

Definition contains_handle (p : PinnedProcess) : WinProg bool :=
  perform_as &"query job membership" (IsProcessInJob (pp_handle p) job).

(** The handle is closed on every path on which the process is not returned. *)
Definition unless_returned (p : PinnedProcess) (body : WinProg (option PinnedProcess)) : WinProg (option PinnedProcess) :=
  pthen body (fun r =>
    match r with
    | Ok (Some q) => PRet (Ok (Some q))
    | _ => close (pp_handle p) ;@ PRet r
    end).

Definition pin_member (pid : Z) : WinProg (option PinnedProcess) :=
  let@ opened := pinned_open pid in
  match opened with
  | None => PRet (Ok None)
  | Some p =>
      unless_returned p
        (let@ inside := contains_handle p in
         if negb inside then PRet (Ok None)
         else let@ running := is_running p in PRet (Ok (if running : bool then Some p else None)))
  end.

Definition pin_child (child : PinnedProcess) : WinProg PinnedProcess :=
  let@ p := from_child child in
  pthen (contains_handle p) (fun r =>
    match r with
    | Ok true => PRet (Ok p)
    | Ok false => close (pp_handle p) ;@ fail (error_other &"child is not in the expected job")
    | Err e => close (pp_handle p) ;@ PRet (Err e)
    end).

(** [collect::<Result<Vec<_>>>()]: the first error drops what was collected. *)
Fixpoint pin_all (ids : list Z) (pinned : list PinnedProcess) : WinProg (list PinnedProcess) :=
  match ids with
  | [] => PRet (Ok pinned)
  | id :: ids =>
      pthen (pin_member (id mod 2 ^ 32)) (fun r =>
        match r with
        | Ok (Some p) => pin_all ids (pinned ++ [p])
        | Ok None => pin_all ids pinned
        | Err e => fold_right (fun p k => close (pp_handle p) ;@ k) (PRet (Err e)) pinned
        end)
  end.

(** The capacity doubles from 32 and stops at 65536, after eleven doublings. *)
Fixpoint members_from (doublings : nat) (capacity : Z) : WinProg (list PinnedProcess) :=
  pthen (perform (QueryProcessIdList job capacity)) (fun r =>
    match r with
    | Ok (count, ids) =>
        if capacity <? count then fail (error_other &"job membership exceeds the bounded snapshot")
        else pin_all (take (Z.to_nat count) ids) []
    | Err f =>
        match f, doublings with
        | Os code _, S d => if (code =? ERROR_MORE_DATA) && (capacity <? 65536) then members_from d (capacity * 2)
                            else PRet (Err (other_of &"enumerate job members" f))
        | _, _ => PRet (Err (other_of &"enumerate job members" f))
        end
    end).
Definition members : WinProg (list PinnedProcess) := members_from 11 32.

Definition contains (pid : Z) : WinProg bool :=
  pthen (perform (OpenProcess PROCESS_QUERY_LIMITED_INFORMATION pid)) (fun r =>
    match r with
    | Err _ => PRet (Ok false)
    | Ok h =>
        pthen (perform (IsProcessInJob h job)) (fun inside =>
          close h ;@ PRet (Ok match inside with Ok b => b | Err _ => false end))
    end).

Definition terminate_job (exit_code : Z) : WinProg unit :=
  pmap_err (fun f => match f with Os _ text => Msg (Scm (&"TerminateJobObject: " ++ text)) | _ => f end)
    (perform (TerminateJobObject job exit_code)).
End Job.

Definition new_kill_on_close : WinProg Z :=
  let@ job := pmap_err (fun f => match f with
                | Os code text => Msg (Scm (&"CreateJobObject: " ++ text ++ &" (code " ++ to_dec code ++ &")"))
                | _ => f
                end) (perform CreateJobObject) in
  pthen (perform (SetKillOnClose job)) (fun r =>
    match r with
    | Ok _ => PRet (Ok job)
    | Err (Os _ text) => close job ;@ PRet (Err (Msg (Scm (&"SetInformationJobObject: " ++ text))))
    | Err f => close job ;@ PRet (Err f)
    end).
