(* ===== verification/ProcessTreeSpec.v ===== *)
(** * What the process tree and the job members are: theorems about [ProcessTree]

    The walk lists exactly the processes that descend from the root, whatever
    the snapshot's parent links are; the members pinned are confirmed members of
    the job, and no handle is leaked. *)

From Stdlib Require Import ZArith Lia List.
From S2P Require Import Prelude Text Model Effects BrokerHandlers ProcessTree.

(** ** The index of the snapshot *)

Section Walk.
Variable entries : list PROCESSENTRY32W.

Definition with_parent (p : Z) (l : list PROCESSENTRY32W) : list PROCESSENTRY32W :=
  List.filter (fun e => th32ParentProcessID e =? p) l.
Definition with_pid (p : Z) (l : list PROCESSENTRY32W) : list PROCESSENTRY32W :=
  List.filter (fun e => th32ProcessID e =? p) l.

Lemma index_parent l : forall maps p,
  match (fold_left index_entry l maps).1 !! p with Some c => c | None => [] end
  = match maps.1 !! p with Some c => c | None => [] end ++ map info_of (with_parent p l).
Proof.
  induction l as [|e l IH]; intros [bp bi] p; cbn [fold_left]; [by rewrite app_nil_r|]. rewrite IH. cbn [index_entry fst with_parent List.filter].
  change (pi_parent_pid (info_of e)) with (th32ParentProcessID e).
  destruct (Z.eqb_spec (th32ParentProcessID e) p) as [<-|Hne].
  - rewrite lookup_insert_eq. by rewrite <- app_assoc.
  - by rewrite lookup_insert_ne.
Qed.

Lemma index_pid l : forall maps p,
  (fold_left index_entry l maps).2 !! p = match last (with_pid p l) with Some e => Some (info_of e) | None => maps.2 !! p end.
Proof.
  induction l as [|e l IH]; intros [bp bi] p; cbn [fold_left]; [done|]. rewrite IH. cbn [index_entry snd with_pid List.filter].
  change (pi_pid (info_of e)) with (th32ProcessID e).
  destruct (Z.eqb_spec (th32ProcessID e) p) as [<-|Hne].
  - rewrite last_cons. fold (with_pid (th32ProcessID e) l). destruct (last _); [done|]. by rewrite lookup_insert_eq.
  - fold (with_pid p l). destruct (last _); [done|]. by rewrite lookup_insert_ne.
Qed.

(** ** Descent *)

Definition parent_of (p q : Z) : Prop :=
  exists e, In e entries /\ th32ParentProcessID e = p /\ th32ProcessID e = q.
(** [q] is [root] or descends from it. *)
Definition descends (root q : Z) : Prop := rtc parent_of root q.
(** What the snapshot says of a process: its last entry. *)
Definition described (p : Z) (info : ProcessInfo) : Prop := info_of <$> last (with_pid p entries) = Some info.

Definition children (p : Z) : list Z := map pi_pid (map info_of (with_parent p entries)).
Lemma children_iff p q : In q (children p) <-> parent_of p q.
Proof.
  unfold children, with_parent. rewrite map_map, in_map_iff. split.
  - intros (e & <- & [Hin Hp]%filter_In). apply Z.eqb_eq in Hp. by exists e.
  - intros (e & Hin & <- & <-). exists e. split; [done|]. apply filter_In. split; [done|apply Z.eqb_refl].
Qed.
Lemma described_pid p info : described p info -> pi_pid info = p.
Proof.
  unfold described. destruct (last (with_pid p entries)) as [e|] eqn:E; [|done]. intros [= <-].
  assert (In e (with_pid p entries)) as [_ H]%filter_In by (by apply list_elem_of_In, last_Some_elem_of). by apply Z.eqb_eq in H.
Qed.

Variables (by_parent : gmap Z (list ProcessInfo)) (by_pid : gmap Z ProcessInfo).
Hypothesis parent_index : forall p, match by_parent !! p with Some c => c | None => [] end = map info_of (with_parent p entries).
Hypothesis pid_index : forall p, by_pid !! p = info_of <$> last (with_pid p entries).

Lemma next_queue p queue :
  match by_parent !! p with Some c => queue ++ map pi_pid c | None => queue end = queue ++ children p.
Proof. unfold children. rewrite <- parent_index. destruct (by_parent !! p); [done|]. by rewrite app_nil_r. Qed.

(** Entries whose children are still to be queued. *)
Definition unseen (seen : gset Z) : nat := length (List.filter (fun e => negb (bool_decide (th32ParentProcessID e ∈ seen))) entries).

Lemma unseen_step p seen : p ∉ seen -> (unseen ({[p]} ∪ seen) + length (children p) = unseen seen)%nat.
Proof.
  intros Hp. unfold unseen, children, with_parent. rewrite !length_map.
  clear parent_index pid_index. induction entries as [|e l IH]; [done|]. cbn [List.filter].
  destruct (Z.eqb_spec (th32ParentProcessID e) p) as [->|Hne].
  - rewrite bool_decide_true, bool_decide_false by set_solver. cbn [negb length]. lia.
  - destruct (decide (th32ParentProcessID e ∈ seen)).
    + rewrite !bool_decide_true by set_solver. cbn [negb]. done.
    + rewrite !bool_decide_false by set_solver. cbn [negb length]. lia.
Qed.

Lemma walk_spec root fuel : forall queue seen out,
  (length queue + unseen seen <= fuel)%nat ->
  (forall p q, p ∈ seen -> parent_of p q -> q ∈ seen \/ In q queue) ->
  (forall p, p ∈ seen \/ In p queue -> descends root p) -> (root ∈ seen \/ In root queue) ->
  (forall info, In info out <-> exists p, p ∈ seen /\ described p info) -> NoDup (map pi_pid out) ->
  exists out', walk fuel by_parent by_pid queue seen out = Some (out ++ out')
    /\ (forall info, In info (out ++ out') <-> exists p, descends root p /\ described p info) /\ NoDup (map pi_pid (out ++ out')).
Proof.
  induction fuel as [|fuel IH]; intros queue seen out Hf Hclosed Hreach Hroot Hout Hnd.
  all: destruct queue as [|p queue]; cbn [walk].
  1,3: exists []; rewrite app_nil_r; split; [done|]; split; [|done]; intros info; rewrite Hout; split; intros (p & Hp & Hd); exists p; split; [by apply Hreach; left|done| |done];
    (assert (root ∈ seen) as Hr by (by destruct Hroot as [?|[]]); clear -Hp Hr Hclosed; induction Hp as [|x y z Hxy _ IHp]; [done|]; apply IHp; by destruct (Hclosed x y Hr Hxy) as [?|[]]).
  { cbn in Hf. lia. }
  rewrite next_queue. cbn [length] in Hf. destruct (decide (p ∈ seen)) as [Hp|Hp].
  - apply IH; try done; [lia|..].
    + intros a b Ha Hab. destruct (Hclosed a b Ha Hab) as [?|[<-|?]]; auto.
    + intros a [Ha|Ha]; apply Hreach; [by left|right; by right].
    + destruct Hroot as [?|[->|?]]; auto.
  - set (new := match by_pid !! p with Some info => [info] | None => [] end).
    assert (match by_pid !! p with Some info => out ++ [info] | None => out end = out ++ new) as ->
      by (unfold new; destruct (by_pid !! p); [done|by rewrite app_nil_r]).
    assert (forall info, In info new <-> described p info) as Hnew.
    { intros info. unfold new, described. rewrite <- pid_index. destruct (by_pid !! p) as [i|]; cbn; [|naive_solver]. split; [by intros [->|[]]|intros [= ->]; by left]. }
    destruct (IH (queue ++ children p) ({[p]} ∪ seen) (out ++ new)) as (out' & Hw & Hx & Hn).
    + pose proof (unseen_step p seen Hp). rewrite length_app. lia.
    + intros a b [->%elem_of_singleton|Ha]%elem_of_union Hab.
      * right. apply in_or_app. right. by apply children_iff.
      * destruct (Hclosed a b Ha Hab) as [?|[<-|?]]; [left; set_solver|left; set_solver|right; apply in_or_app; by left].
    + intros a [[->%elem_of_singleton|Ha]%elem_of_union|[Ha|Ha%children_iff]%in_app_or].
      * apply Hreach. right. by left.
      * apply Hreach. by left.
      * apply Hreach. right. by right.
      * eapply rtc_r; [|exact Ha]. apply Hreach. right. by left.
    + destruct Hroot as [?|[->|?]]; [left; set_solver|left; set_solver|right; apply in_or_app; by left].
    + intros info. rewrite in_app_iff, Hout, Hnew. split.
      * intros [(a & Ha & Hd)|Hd]; [exists a|exists p]; (split; [set_solver|done]).
      * intros (a & [->%elem_of_singleton|Ha]%elem_of_union & Hd); [by right|left; by exists a].
    + rewrite map_app. apply NoDup_app. split; [done|]. split.
      * intros x Hx Hin. apply list_elem_of_In, in_map_iff in Hx as (i & <- & Hi). apply Hout in Hi as (a & Ha & Hd).
        apply list_elem_of_In, in_map_iff in Hin as (j & Ej & Hj). apply Hnew in Hj. apply described_pid in Hd, Hj. congruence.
      * unfold new. destruct (by_pid !! p); cbn; [apply NoDup_singleton|constructor].
    + exists (new ++ out'). rewrite app_assoc. done.
Qed.
End Walk.

(** C31. The walk over the process tree always ends, and lists exactly the
    processes that descend from the root: whatever the parent links of the
    snapshot (cycles, reused identifiers, several entries of one identifier),
    every process reachable from the root that the snapshot describes is listed
    once, as its last entry describes it, and no other; the root comes first. *)
Theorem descendants_exact entries root : exists out,
  enumerate_descendants (Ok (Some entries)) root = Ok (Some out)
  /\ (forall info, In info out <-> exists p, descends entries root p /\ described entries p info)
  /\ NoDup (map pi_pid out)
  /\ (forall info, described entries root info -> head out = Some info).
Proof.
  unfold enumerate_descendants. destruct (fold_left index_entry entries (∅, ∅)) as [bp bi] eqn:E.
  pose proof (index_parent entries (∅, ∅)) as Hp. pose proof (index_pid entries (∅, ∅)) as Hi. rewrite E in Hp, Hi. cbn [fst snd] in Hp, Hi.
  assert (forall p, match bp !! p with Some c => c | None => [] end = map info_of (with_parent p entries)) as Hp' by (intros p; by rewrite Hp, lookup_empty).
  assert (forall p, bi !! p = info_of <$> last (with_pid p entries)) as Hi'.
  { intros p. rewrite Hi, lookup_empty. by destruct (last _). }
  cbn [walk]. rewrite decide_False by set_solver. rewrite (next_queue entries bp Hp'). cbn [app].
  set (first := match bi !! root with Some info => [info] | None => [] end).
  assert (forall info, In info first <-> described entries root info) as Hf.
  { intros info. unfold first, described. rewrite <- Hi'. destruct (bi !! root) as [i|]; cbn; [|naive_solver]. split; [by intros [->|[]]|intros [= ->]; by left]. }
  destruct (walk_spec entries bp bi Hp' Hi' root (length entries) (children entries root) ({[root]} ∪ ∅) first) as (out & Hw & Hx & Hn).
  - pose proof (unseen_step entries root ∅ ltac:(set_solver)) as Hu.
    assert (unseen entries ∅ <= length entries)%nat by (unfold unseen; apply filter_length_le). lia.
  - intros p q Hin Hpq. right. apply children_iff. assert (p = root) as -> by set_solver. done.
  - intros p [Hin|Hin%children_iff]; [assert (p = root) as -> by set_solver; apply rtc_refl|by apply rtc_once].
  - left. set_solver.
  - intros info. rewrite Hf. split; [intros H; exists root; split; [set_solver|done]|]. intros (p & Hin & Hd). by assert (p = root) as -> by set_solver.
  - unfold first. destruct (bi !! root); cbn; [apply NoDup_singleton|constructor].
  - exists (first ++ out). rewrite Hw. split; [done|]. split; [exact Hx|]. split; [exact Hn|].
    intros info Hd. unfold described in Hd. unfold first. rewrite Hi', Hd. done.
Qed.

Example descendants_sample :
  enumerate_descendants (Ok (Some [Build_PROCESSENTRY32W 4 0 &"a"; Build_PROCESSENTRY32W 8 4 &"b"; Build_PROCESSENTRY32W 4 8 &"c"; Build_PROCESSENTRY32W 9 7 &"d"])) 4
  = Ok (Some [Build_ProcessInfo 4 8 &"c"; Build_ProcessInfo 8 4 &"b"]).
Proof. vm_compute. reflexivity. Qed.

(** ** Handles *)

Definition opened (e : WinEvent) : option Z :=
  match e with
  | Ev c x => match c in WinE X return result Fail X -> option Z with
              | OpenProcess _ _ => fun x => match x with Ok h => Some h | Err _ => None end
              | _ => fun _ => None
              end x
  end.
Definition closed (e : WinEvent) : option Z := match e with Ev c _ => match c with CloseHandle h => Some h | _ => None end end.
Definition queried (e : WinEvent) : option Z := match e with Ev c _ => match c with QueryProcessIdList _ n => Some n | _ => None end end.

Definition member_access : Z := Z.lor PROCESS_QUERY_LIMITED_INFORMATION (Z.lor PROCESS_SUSPEND_RESUME PROCESS_SYNCHRONIZE).
(** The process was opened, and then found in the job and running. *)
Definition confirmed (job : Z) (log : list WinEvent) (p : PinnedProcess) : Prop :=
  In (Ev (OpenProcess member_access (pp_pid p)) (Ok (pp_handle p))) log
  /\ In (Ev (IsProcessInJob (pp_handle p) job) (Ok true)) log
  /\ In (Ev (WaitForSingleObject (pp_handle p) 0) (Ok WAIT_TIMEOUT)) log.

Lemma confirmed_app job p l m : confirmed job l p \/ confirmed job m p -> confirmed job (l ++ m) p.
Proof. unfold confirmed. rewrite !in_app_iff. tauto. Qed.

(** The handles of a run: what it returns and what it closed. *)
Definition accounted (log : list WinEvent) (held : list PinnedProcess) : Prop :=
  omap opened log ≡ₚ map pp_handle held ++ omap closed log.

Lemma accounted_app l m held held' : accounted l held -> accounted m held' -> accounted (l ++ m) (held ++ held').
Proof. unfold accounted. intros H1 H2. rewrite !omap_app, map_app, H1, H2. solve_Permutation. Qed.

Section Members.
Variable job : Z.

Lemma pin_member_runs pid log r : runs (pin_member job pid) log r ->
  omap queried log = []
  /\ match r with
     | Ok (Some p) => confirmed job log p /\ pp_pid p = pid /\ accounted log [p]
     | _ => accounted log []
     end.
Proof.
  intros H. unfold pin_member, pinned_open, open_with_access, unless_returned, contains_handle, is_running, perform_as, close, ignore_call, fail in H.
  run_all H; (split; [reflexivity|]); unfold accounted, confirmed; cbn; try reflexivity.
  match goal with H : map_err _ _ = Ok _ |- _ => apply map_err_ok in H; subst end.
  match goal with H : negb ?b = false |- _ => apply negb_false_iff in H; subst end.
  match goal with H : (_ =? _) = true |- _ => apply Z.eqb_eq in H; subst end.
  split; [|by split]. split; [by left|]. split; [right; by left|right; right; by left].
Qed.

Lemma close_all_runs e ps log r : runs (fold_right (fun p k => close (pp_handle p) ;@ k) (PRet (Err e)) ps : WinProg (list PinnedProcess)) log r ->
  omap queried log = [] /\ r = Err e /\ omap opened log = [] /\ omap closed log = map pp_handle ps.
Proof.
  revert log. induction ps as [|p ps IH]; intros log; cbn [fold_right]; [by intros [-> ->]|].
  intros [(e' & -> & (x & l & -> & [_ [=]]))|(l1 & l2 & [] & -> & (x & l & -> & [-> _]) & H)]%runs_bind.
  apply IH in H as (H1 & H2 & H3 & H4). cbn. rewrite H1, H3, H4. done.
Qed.

Lemma pin_all_runs ids : forall pinned log r, runs (pin_all job ids pinned) log r ->
  omap queried log = []
  /\ match r with
     | Ok ps => exists new, ps = pinned ++ new /\ Forall (confirmed job log) new /\ accounted log new
     | Err _ => omap closed log ≡ₚ map pp_handle pinned ++ omap opened log
     end.
Proof.
  induction ids as [|id ids IH]; intros pinned log r; cbn [pin_all].
  - intros [-> ->]. split; [done|]. exists []. rewrite app_nil_r. split; [done|]. split; [by apply Forall_nil|unfold accounted; reflexivity].
  - intros (l1 & l2 & o & -> & H1 & H2)%runs_then. apply pin_member_runs in H1 as [Q1 H1]. destruct o as [[p|]|e].
    + destruct H1 as (Hc & _ & Ha). apply IH in H2 as [Q2 H2]. split; [by rewrite omap_app, Q1, Q2|]. destruct r as [ps|e].
      * destruct H2 as (new & -> & Hf & Hn). exists (p :: new). rewrite <- app_assoc. split; [done|]. split.
        -- constructor; [apply confirmed_app; by left|]. eapply Forall_impl; [exact Hf|]. intros q Hq. apply confirmed_app. by right.
        -- by apply (accounted_app l1 l2 [p] new).
      * unfold accounted in Ha. rewrite !omap_app, H2, Ha, map_app. cbn. solve_Permutation.
    + apply IH in H2 as [Q2 H2]. split; [by rewrite omap_app, Q1, Q2|]. unfold accounted in H1. cbn in H1. destruct r as [ps|e].
      * destruct H2 as (new & -> & Hf & Hn). exists new. split; [done|]. split.
        -- eapply Forall_impl; [exact Hf|]. intros q Hq. apply confirmed_app. by right.
        -- by apply (accounted_app l1 l2 [] new).
      * rewrite !omap_app, H2, H1. solve_Permutation.
    + apply close_all_runs in H2 as (Q2 & -> & H3 & H4). split; [by rewrite omap_app, Q1, Q2|]. unfold accounted in H1. cbn in H1.
      rewrite !omap_app, H3, H4, H1, app_nil_r. solve_Permutation.
Qed.

Ltac no_handles := unfold accounted; cbn; reflexivity.

(** The capacities asked for: each twice the one before, none above 65536. *)
Lemma members_from_runs d : forall capacity log r, runs (members_from job d capacity) log r ->
  (exists n, (1 <= n <= S d)%nat /\ omap queried log = map (fun i => capacity * 2 ^ Z.of_nat i) (seq 0 n))
  /\ match r with
     | Ok ps => Forall (confirmed job log) ps /\ accounted log ps
     | Err _ => accounted log []
     end.
Proof.
  induction d as [|d IH]; intros capacity log r H; cbn [members_from] in H;
    destruct H as (x & l & -> & H); cbn [pthen] in H; destruct x as [[count ids]|f].
  1,3: destruct (capacity <? count) eqn:?;
    [destruct H as [-> ->]; split; [exists 1%nat; split; [lia|]; cbn; f_equal; lia|no_handles]|];
    apply pin_all_runs in H as [Q H]; (split; [exists 1%nat; split; [lia|]; cbn; rewrite Q; f_equal; lia|]); destruct r as [ps|e];
    [destruct H as (new & -> & Hf & Ha); cbn; split; [|exact Ha]; eapply Forall_impl; [exact Hf|]; intros q Hq; by apply (confirmed_app job q [_]); right|].
  1,2: unfold accounted; cbn in *; by symmetry.
  - assert (l = [] /\ exists e, r = Err e) as [-> [e ->]] by (destruct f; destruct H as [-> ->]; eauto).
    split; [exists 1%nat; split; [lia|]; cbn; f_equal; lia|no_handles].
  - assert ((l = [] /\ exists e, r = Err e) \/ runs (members_from job d (capacity * 2)) l r) as [[-> [e ->]]|H'].
    { destruct f as [code text|e]; [destruct (_ && _); [by right|]|]; destruct H as [-> ->]; left; eauto. }
    + split; [exists 1%nat; split; [lia|]; cbn; f_equal; lia|no_handles].
    + apply IH in H' as [(n & Hn & E) H']. split.
      * exists (S n). split; [lia|]. cbn. rewrite E, <- seq_shift, map_map. f_equal; [lia|]. apply map_ext. intros i.
        rewrite Nat2Z.inj_succ, Z.pow_succ_r by lia. lia.
      * destruct r as [ps|e]; [|exact H']. destruct H' as [Hf Ha]. split; [|exact Ha].
        eapply Forall_impl; [exact Hf|]. intros q Hq. by apply (confirmed_app job q [_]); right.
Qed.
End Members.

(** C32. The members of a job are members of the job: every process returned was
    opened by its identifier and then, through the handle that is returned, found
    in the job and running, so that a reused identifier is never taken for a
    member; every other handle that was opened is closed, also when the listing
    fails half way; and the list is asked for at most twelve times. *)
Theorem members_pinned job log r : runs (members job) log r ->
  (length (omap queried log) <= 12)%nat
  /\ match r with
     | Ok ps => Forall (confirmed job log) ps /\ omap opened log ≡ₚ map pp_handle ps ++ omap closed log
     | Err _ => omap opened log ≡ₚ omap closed log
     end.
Proof.
  intros [(n & Hn & E) H]%members_from_runs. rewrite E, length_map, length_seq. split; [lia|].
  destruct r as [ps|e]; exact H.
Qed.

Lemma members_pinned_witness :
  confirmed 1 [Ev (QueryProcessIdList 1 32) (Ok (1, [7])); Ev (OpenProcess member_access 7) (Ok 40);
               Ev (IsProcessInJob 40 1) (Ok true); Ev (WaitForSingleObject 40 0) (Ok WAIT_TIMEOUT)] (Build_PinnedProcess 40 7).
Proof.
  destruct (members_pinned 1 [Ev (QueryProcessIdList 1 32) (Ok (1, [7])); Ev (OpenProcess member_access 7) (Ok 40);
               Ev (IsProcessInJob 40 1) (Ok true); Ev (WaitForSingleObject 40 0) (Ok WAIT_TIMEOUT)] (Ok [Build_PinnedProcess 40 7])) as [_ [H _]].
  - cbn. do 2 eexists. split; [reflexivity|]. cbn. do 2 eexists. split; [reflexivity|]. cbn. do 2 eexists. split; [reflexivity|].
    cbn. do 2 eexists. split; [reflexivity|]. cbn. split; reflexivity.
  - inversion H. assumption.
Defined.
