(* ===== verification/IoTask.v ===== *)
(** * Waiting for filesystem work: servicemanager-supervisor [io_task.rs]

    A task is a thread that may be stuck in the file system. [wait] polls it
    until it has finished, cancels it when its budget is used up or the
    supervisor is stopping, and gives up two seconds later, keeping the task.
    Times are in nanoseconds. *)

From Stdlib Require Import ZArith Lia List.
From S2P Require Import Prelude Text Model Effects Supervisor.

(** The calls of one wait; the task's answer is [None] when it panicked. *)
Inductive TaskE (T : Type) : Type -> Type :=
| IsFinished : TaskE T bool
| Join : TaskE T (option T)
| Stopping : TaskE T bool
| TaskNow : TaskE T Z
| CancelTask : TaskE T unit
| TaskSleep (ms : Z) : TaskE T unit.
Arguments IsFinished {T}.
Arguments Join {T}.
Arguments Stopping {T}.
Arguments TaskNow {T}.
Arguments CancelTask {T}.
Arguments TaskSleep {T} ms.
Abbreviation TaskProg T A := (Prog (TaskE T) Empty_set A) (only parsing).
Abbreviation TaskEvent T := (Event (TaskE T) Empty_set) (only parsing).

(** Every call is answered. *)
Ltac ask H a := let x := fresh "x" in let l := fresh "l" in destruct H as ([a|[]] & l & -> & H); cbn [pthen] in H.

Section Task.
Context {T : Type}.

(** The answer, and whether the handle of the thread is still held. *)
Definition Waited : Type := result io_error T * bool.

Definition timed_out : io_error :=
  mk_io_error KTimedOut &"filesystem I/O did not cancel; host exit is required before log reuse".
Definition joined (x : option T) : result io_error T :=
  match x with Some v => Ok v | None => Err (mk_io_error KOther &"filesystem worker panicked") end.

(** Whether the wait has to cancel now, and until when it then waits. *)
Definition cancel_if_due (deadline : Z) (cancel_deadline : option Z) : TaskProg T (option Z) :=
  match cancel_deadline with
  | Some d => PRet (Ok (Some d))
  | None =>
      let@ stopping := perform Stopping in
      let@ due := if stopping : bool then PRet (Ok true) else let@ now := perform TaskNow in PRet (Ok (deadline <=? now)) in
      if due : bool
      then perform CancelTask ;@ let@ now := perform TaskNow in PRet (Ok (Some (now + secs 2)))
      else PRet (Ok None)
  end.
Definition past_cancellation (cancel_deadline : option Z) : TaskProg T bool :=
  match cancel_deadline with
  | Some d => let@ now := perform TaskNow in PRet (Ok (d <=? now))
  | None => PRet (Ok false)
  end.

(** [None] is the end of [fuel]. *)
Fixpoint wait_from (fuel : nat) (held : bool) (deadline : Z) (cancel_deadline : option Z) : TaskProg T (option Waited) :=
  match fuel with
  | O => PRet (Ok None)
  | S fuel =>
      let@ finished := if held then perform IsFinished else PRet (Ok false) in
      if finished : bool then let@ x := perform Join in PRet (Ok (Some (joined x, false)))
      else if negb held then PRet (Ok (Some (Err (mk_io_error KOther &"filesystem worker was already joined"), false)))
      else
        let@ cancel_deadline := cancel_if_due deadline cancel_deadline in
        let@ expired := past_cancellation cancel_deadline in
        if expired : bool then PRet (Ok (Some (Err timed_out, true)))
        else perform (TaskSleep 5) ;@ wait_from fuel held deadline cancel_deadline
  end.
Definition wait (fuel : nat) (held : bool) (budget : Z) : TaskProg T (option Waited) :=
  let@ now := perform TaskNow in
  wait_from fuel held (now + budget) None.

(** ** What a wait does *)

Definition task_clock (e : TaskEvent T) : option Z :=
  match e with
  | Ev c x => match c in TaskE _ X return result Empty_set X -> option Z with
              | TaskNow => fun x => match x with Ok t => Some t | Err _ => None end | _ => fun _ => None end x
  end.
Definition task_slept (e : TaskEvent T) : Z := match e with Ev c _ => match c with TaskSleep ms => Z.max 0 ms * 1000000 | _ => 0 end end.
Fixpoint task_ticks (t : Z) (log : list (TaskEvent T)) : Prop :=
  match log with
  | [] => True
  | e :: l => match task_clock e with Some x => t <= x /\ task_ticks x l | None => task_ticks (t + task_slept e) l end
  end.
Definition cancels (e : TaskEvent T) : option unit := match e with Ev c _ => match c with CancelTask => Some tt | _ => None end end.
Definition joins (e : TaskEvent T) : option unit := match e with Ev c _ => match c with Join => Some tt | _ => None end end.

(** What the answer of a wait rests on. [cancelled] is the deadline of a
    cancellation that was made before. *)
Definition rests_on (held : bool) (cancelled : option Z) (log : list (TaskEvent T)) (w : Waited) : Prop :=
  (exists l x, log = l ++ [Ev IsFinished (Ok true); Ev Join (Ok x)] /\ omap joins l = [] /\ w = (joined x, false) /\ held = true)
  \/ (omap joins log = [] /\ w.2 = held /\ exists e, w.1 = Err e /\
       if held
       then e = timed_out /\ exists l t, log = l ++ [Ev TaskNow (Ok t)]
              /\ match cancelled with
                 | Some d => d <= t
                 | None => exists l1 c l2, l = l1 ++ Ev CancelTask (Ok tt) :: Ev TaskNow (Ok c) :: l2 /\ c + secs 2 <= t
                 end
       else e = mk_io_error KOther &"filesystem worker was already joined").

Lemma rests_later held cancelled l log w : omap joins l = [] -> rests_on held cancelled log w -> rests_on held cancelled (l ++ log) w.
Proof.
  intros Hl [(m & x & -> & Hj & H)|(Hj & Hw & e & He & H)].
  - left. exists (l ++ m), x. split; [by rewrite <- app_assoc|]. split; [by rewrite omap_app, Hl, Hj|done].
  - right. split; [by rewrite omap_app, Hl, Hj|]. split; [done|]. exists e. split; [done|]. destruct held; [|done].
    destruct H as [-> (m & t & -> & H)]. split; [done|]. exists (l ++ m), t. split; [by rewrite <- app_assoc|].
    destruct cancelled; [done|]. destruct H as (l1 & c & l2 & -> & H). exists (l ++ l1), c, l2. split; [by rewrite <- app_assoc|done].
Qed.

(** After a cancellation. *)
Lemma cancelled_runs n : forall deadline d t log r, runs (wait_from n true deadline (Some d)) log r ->
  task_ticks t log -> d - t <= 5000000 * (Z.of_nat n - 1) -> (1 <= n)%nat ->
  exists w, r = Ok (Some w) /\ rests_on true (Some d) log w /\ omap cancels log = [].
Proof.
  induction n as [|n IH]; intros deadline d t log r H HT Hd Hn; [lia|]. cbn [wait_from] in H. ask H f. destruct f.
  { ask H x. destruct H as [-> ->]. eexists. split; [reflexivity|]. split; [|done]. left. exists [], x. done. }
  cbn [pthen pbind negb cancel_if_due past_cancellation] in H. ask H y. cbn [pthen pbind] in H. cbn in HT. destruct HT as [Hy HT].
  destruct (d <=? y) eqn:E.
  - destruct H as [-> ->]. eexists. split; [reflexivity|]. split; [|done]. right. split; [done|]. split; [done|]. eexists. split; [reflexivity|].
    split; [done|]. exists [Ev IsFinished (Ok false)], y. split; [done|lia].
  - ask H u. cbn in HT. destruct n as [|n]; [lia|].
    destruct (IH deadline d _ _ _ H HT) as (w & -> & Hw & Hc); [lia|lia|]. exists w. split; [done|]. split; [|done].
    by apply (rests_later true (Some d) [_; _; _]).
Qed.

Lemma due_runs deadline log r : runs (cancel_if_due deadline None) log r ->
  (exists l c, r = Ok (Some (c + secs 2)) /\ log = l ++ [Ev CancelTask (Ok tt); Ev TaskNow (Ok c)] /\ omap joins l = [] /\ omap cancels l = [])
  \/ exists y, r = Ok None /\ log = [Ev Stopping (Ok false); Ev TaskNow (Ok y)] /\ y < deadline.
Proof.
  cbn [cancel_if_due]. intros H. ask H s. cbn [pbind pthen] in H. destruct s; cbn [pbind pthen] in H.
  - ask H u. destruct u. ask H c. destruct H as [-> ->]. left. by exists [Ev Stopping (Ok true)], c.
  - ask H y. cbn [pbind pthen] in H. destruct (deadline <=? y) eqn:E; cbn [pbind pthen] in H.
    + ask H u. destruct u. ask H c. destruct H as [-> ->]. left. by exists [Ev Stopping (Ok false); Ev TaskNow (Ok y)], c.
    + destruct H as [-> ->]. right. exists y. split; [done|]. split; [done|lia].
Qed.
Lemma task_ticks_app t l m : task_ticks t (l ++ m) -> exists t', task_ticks t' m /\ t <= t' /\ forall c, last (omap task_clock l) = Some c -> t <= c <= t'.
Proof.
  revert t. induction l as [|e l IH]; intros t; cbn; [intros H; exists t; split; [done|split; [lia|done]]|].
  destruct (task_clock e) as [x|].
  - intros [Hx H]. destruct (IH x H) as (t' & H' & Ht' & Hc). exists t'. split; [done|]. split; [lia|]. intros c Hl.
    rewrite last_cons in Hl. destruct (last (omap task_clock l)) as [z|]; [pose proof (Hc z eq_refl)|]; injection Hl as <-; lia.
  - intros H. destruct (IH _ H) as (t' & H' & Ht' & Hc). exists t'. split; [done|].
    assert (0 <= task_slept e) by (destruct e as [X c x]; destruct c; cbn; lia). split; [lia|]. intros c Hl. specialize (Hc c Hl). lia.
Qed.

Lemma rests_cancelled l c log w : omap joins l = [] -> rests_on true (Some (c + secs 2)) log w ->
  rests_on true None ((l ++ [Ev CancelTask (Ok tt); Ev TaskNow (Ok c)]) ++ log) w.
Proof.
  intros Hl [(m & x & -> & Hj & H)|(Hj & Hw & e & He & -> & m & t & -> & H)].
  - left. exists ((l ++ [Ev CancelTask (Ok tt); Ev TaskNow (Ok c)]) ++ m), x. split; [by rewrite <- !app_assoc|]. split; [by rewrite !omap_app, Hl, Hj|done].
  - right. split; [by rewrite omap_app, Hj, omap_app, Hl|]. split; [done|]. exists timed_out. split; [done|]. split; [done|].
    exists ((l ++ [Ev CancelTask (Ok tt); Ev TaskNow (Ok c)]) ++ m), t. split; [by rewrite <- !app_assoc|]. exists l, c, m. split; [by rewrite <- app_assoc|done].
Qed.

Lemma waiting_runs n : forall deadline t log r, runs (wait_from n true deadline None) log r ->
  task_ticks t log -> deadline - t <= 5000000 * (Z.of_nat n - 402) -> (402 <= n)%nat ->
  exists w, r = Ok (Some w) /\ rests_on true None log w /\ (length (omap cancels log) <= 1)%nat.
Proof.
  induction n as [|n IH]; intros deadline t log r H HT Hd Hn; [lia|]. cbn [wait_from] in H. ask H f. destruct f.
  { ask H x. destruct H as [-> ->]. eexists. split; [reflexivity|]. split; [|cbn; lia]. left. exists [], x. done. }
  cbn [negb] in H. cbn beta iota in H. cbn in HT. apply runs_bind in H as [([] & _)|(l1 & l2 & o & -> & H1 & H)].
  apply task_ticks_app in HT as (t' & HT & Ht' & Hlast).
  apply due_runs in H1 as [(l & c & [= ->] & -> & Hj & Hc)|(y & [= ->] & -> & Hy)].
  - cbn [past_cancellation] in H. ask H z. destruct HT as [Hz HT]. cbn [pbind pthen] in H.
    assert (t + 0 <= c <= t') as Hct by (apply Hlast; rewrite omap_app, last_app; done).
    assert (exists w, r = Ok (Some w) /\ rests_on true (Some (c + secs 2)) (Ev TaskNow (Ok z) :: l0) w /\ omap cancels l0 = []) as (w & -> & Hw & Hcw).
    { destruct (_ <=? z) eqn:E.
      - destruct H as [-> ->]. eexists. split; [reflexivity|]. split; [|done]. right. split; [done|]. split; [done|]. exists timed_out. split; [done|]. split; [done|].
        exists [], z. split; [done|lia].
      - ask H u. cbn in HT. eapply cancelled_runs in H as (w & -> & Hw & Hcw); [|exact HT|unfold secs; lia|lia]. exists w. split; [done|]. split; [|done].
        by apply (rests_later true _ [_; _]). }
    exists w. split; [done|]. split; [|cbn; rewrite !omap_app, Hc; cbn; rewrite Hcw; cbn; lia].
    apply (rests_later true None [Ev IsFinished (Ok false)]); [done|]. by apply rests_cancelled.
  - cbn [past_cancellation pbind pthen] in H. ask H u. cbn in HT. assert (t + 0 <= y <= t') by (by apply Hlast).
    eapply IH in H as (w & -> & Hw & Hc); [|exact HT|lia|lia]. exists w. split; [done|]. split; [|exact Hc].
    by apply (rests_later true None [_; _; _; _]).
Qed.
End Task.

(** Waiting for filesystem work ends, and says what is so: after at most one
    poll per five milliseconds of the budget and 402 more the wait is over; a
    result is the one the finished task was joined for, once; the wait gives up
    only two seconds after it has cancelled the task, and then the task is kept,
    so that the files it may still be writing are not used again; it cancels at
    most once. *)
Theorem wait_settles {T : Type} fuel held budget t log r :
  runs (wait (T := T) fuel held budget) log r -> task_ticks t log ->
  budget <= 5000000 * (Z.of_nat fuel - 402) -> (402 <= fuel)%nat ->
  exists w, r = Ok (Some w) /\ rests_on held None log w /\ (length (omap cancels log) <= 1)%nat.
Proof.
  intros H HT Hb Hf. unfold wait in H. ask H y. destruct HT as [Hy HT]. destruct held.
  - eapply waiting_runs in H as (w & -> & Hw & Hc); [|exact HT|lia|done]. exists w. split; [done|]. split; [|exact Hc]. by apply (rests_later true None [_]).
  - destruct fuel as [|n]; [lia|]. cbn in H. destruct H as [-> ->]. eexists. split; [reflexivity|]. split; [|cbn; lia].
    right. split; [done|]. split; [done|]. eauto.
Qed.

Definition sample_task (X : Type) (e : TaskE Z X) (clock : Z) : result Empty_set X * Z :=
  match e in TaskE _ X return result Empty_set X * Z with
  | IsFinished => (Ok (20000000 <=? clock), clock)
  | Join => (Ok (Some 7), clock)
  | Stopping => (Ok false, clock)
  | TaskNow => (Ok clock, clock)
  | CancelTask => (Ok tt, clock)
  | TaskSleep ms => (Ok tt, clock + ms * 1000000)
  end.
Definition sample_wait := interp sample_task (wait 403 true 5000000) 0.
Lemma wait_settles_witness : task_ticks 0 sample_wait.1.2 /\ exists w, sample_wait.1.1 = Ok (Some w) /\ rests_on true None sample_wait.1.2 w.
Proof.
  assert (task_ticks 0 sample_wait.1.2) as HT by (vm_compute; repeat split; discriminate). split; [exact HT|].
  destruct (wait_settles 403 true 5000000 0 sample_wait.1.2 sample_wait.1.1 (interp_runs _ _ _) HT) as (w & H1 & H2 & _); [lia|lia|]. eauto.
Defined.
