(* ===== verification/Diagnostics.v ===== *)
(** * Host diagnostics: servicemanager-supervisor [diagnostics.rs]

    Any thread may report; a record is cut to its limits and offered to a bounded
    queue; one worker hands the records to the sink. A step of the relation is one
    access to the queue or the counter by one thread, in any order. *)

From Stdlib Require Import ZArith Lia List.
From S2P Require Import Prelude Text.

Record Diagnostic := { d_service : rstr; d_operation : rstr; d_message : rstr }.
#[export] Instance Diagnostic_eq_dec : EqDecision Diagnostic.
Proof. solve_decision. Defined.

(** A flush is named by the channel its sender waits on. *)
Inductive Message := MRecord (d : Diagnostic) | MFlush (done : nat).

Definition bounded (value : rstr) (limit : nat) : rstr := List.filter (fun c => negb (c =? 0)) (take limit value).
Definition diagnostic (service operation message : rstr) : Diagnostic :=
  {| d_service := bounded service 256; d_operation := bounded operation 128; d_message := bounded message 2048 |}.

(** The channel with its capacity, the counter, and what the worker holds. The
    receiving end is gone when the worker could not be started. *)
Record Reporter := { r_queue : list Message; r_open : bool; r_dropped : Z; r_hand : option Message }.
Definition CAPACITY : nat := 64.

Definition Reporter_new (spawned : bool) : Reporter :=
  {| r_queue := []; r_open := spawned; r_dropped := if spawned then 0 else 1; r_hand := None |}.
Definition fetch_add (r : Reporter) : Reporter :=
  {| r_queue := r_queue r; r_open := r_open r; r_dropped := (r_dropped r + 1) mod 2 ^ 64; r_hand := r_hand r |}.

Definition try_send (m : Message) (r : Reporter) : bool * Reporter :=
  if r_open r && (length (r_queue r) <? CAPACITY)%nat
  then (true, {| r_queue := r_queue r ++ [m]; r_open := r_open r; r_dropped := r_dropped r; r_hand := r_hand r |})
  else (false, r).

(** The two accesses of [report]: the offer, and the count when it was refused. *)
Definition report_offer (service operation message : rstr) : Reporter -> bool * Reporter :=
  try_send (MRecord (diagnostic service operation message)).

(** The worker: [recv], and what it does with the message, [written] being the
    answer of the sink. *)
Definition recv (r : Reporter) : option Reporter :=
  match r_hand r, r_queue r with
  | None, m :: q => Some {| r_queue := q; r_open := r_open r; r_dropped := r_dropped r; r_hand := Some m |}
  | _, _ => None
  end.
Definition release (r : Reporter) : Reporter :=
  {| r_queue := r_queue r; r_open := r_open r; r_dropped := r_dropped r; r_hand := None |}.
Definition handle (written : bool) (r : Reporter) : option (Message * Reporter) :=
  match r_hand r with
  | Some (MRecord d) => Some (MRecord d, if written then release r else fetch_add (release r))
  | Some (MFlush f) => Some (MFlush f, release r)
  | None => None
  end.

(** ** Steps, with what happened so far *)

(** [refused] are offers that are still to be counted. *)
Record Host := {
  h_reporter : Reporter;
  h_accepted : list Diagnostic;          (* in the order they were queued *)
  h_settled : list (Diagnostic * bool);  (* what the sink was given, and its answer *)
  h_lost : nat;                          (* records that were refused *)
  h_uncounted : nat;                     (* of these, not counted yet *)
  h_flushes : list (nat * nat);          (* a flush that was accepted, after so many records *)
  h_done : list nat }.                   (* flushes that were answered *)

Inductive step : Host -> Host -> Prop :=
| StepReport s o m r a st l u fl dn r' :
    report_offer s o m r = (true, r') ->
    step (Build_Host r a st l u fl dn) (Build_Host r' (a ++ [diagnostic s o m]) st l u fl dn)
| StepRefused s o m r a st l u fl dn r' :
    report_offer s o m r = (false, r') ->
    step (Build_Host r a st l u fl dn) (Build_Host r' a st (S l) (S u) fl dn)
| StepCount r a st l u fl dn :
    step (Build_Host r a st l (S u) fl dn) (Build_Host (fetch_add r) a st l u fl dn)
| StepFlush r a st l u fl dn f r' :
    f ∉ map fst fl -> try_send (MFlush f) r = (true, r') ->
    step (Build_Host r a st l u fl dn) (Build_Host r' a st l u (fl ++ [(f, length a)]) dn)
| StepRecv r a st l u fl dn r' :
    recv r = Some r' -> step (Build_Host r a st l u fl dn) (Build_Host r' a st l u fl dn)
| StepHandle written r a st l u fl dn d r' :
    handle written r = Some (MRecord d, r') ->
    step (Build_Host r a st l u fl dn) (Build_Host r' a (st ++ [(d, written)]) l u fl dn)
| StepFlushed r a st l u fl dn f r' :
    handle true r = Some (MFlush f, r') ->
    step (Build_Host r a st l u fl dn) (Build_Host r' a st l u fl (dn ++ [f])).

Definition initial (spawned : bool) : Host := Build_Host (Reporter_new spawned) [] [] 0 0 [] [].

(** ** The invariant *)

Definition records (ms : list Message) : list Diagnostic := omap (fun m => match m with MRecord d => Some d | MFlush _ => None end) ms.
Definition waiting (r : Reporter) : list Message := match r_hand r with Some m => m :: r_queue r | None => r_queue r end.
Definition failures (st : list (Diagnostic * bool)) : nat := length (List.filter (fun x => negb x.2) st).

Arguments failures : simpl never.

(** Every flush that waits is behind the records accepted before it. *)
Fixpoint flushes_placed (settled : nat) (ms : list Message) (fl : list (nat * nat)) : Prop :=
  match ms with
  | [] => True
  | MRecord _ :: ms => flushes_placed (S settled) ms fl
  | MFlush f :: ms => In (f, settled) fl /\ flushes_placed settled ms fl
  end.

Record Sound (spawned : bool) (h : Host) : Prop := {
  s_conserved : h_accepted h = map fst (h_settled h) ++ records (waiting (h_reporter h));
  s_counted : (r_dropped (h_reporter h) + Z.of_nat (h_uncounted h)) mod 2 ^ 64
              = (Z.of_nat (h_lost h + failures (h_settled h)) + (if spawned then 0 else 1)) mod 2 ^ 64;
  s_range : 0 <= r_dropped (h_reporter h) < 2 ^ 64;
  s_capacity : (length (r_queue (h_reporter h)) <= CAPACITY)%nat;
  s_placed : flushes_placed (length (h_settled h)) (waiting (h_reporter h)) (h_flushes h);
  s_flushed : forall f, In f (h_done h) -> exists n, In (f, n) (h_flushes h) /\ (n <= length (h_settled h))%nat }.

Lemma records_app a b : records (a ++ b) = records a ++ records b.
Proof. apply omap_app. Qed.
Lemma flushes_more n ms fl more : flushes_placed n ms fl -> flushes_placed n ms (fl ++ more).
Proof. revert n. induction ms as [|[d|f] ms IH]; intros n; cbn; [done|apply IH|]. intros [H1 H2]. split; [apply in_or_app; by left|by apply IH]. Qed.
Lemma flushes_last n ms m fl : flushes_placed n ms fl ->
  match m with MRecord _ => True | MFlush f => In (f, n + length (records ms))%nat fl end -> flushes_placed n (ms ++ [m]) fl.
Proof.
  revert n. induction ms as [|[d|f] ms IH]; intros n; cbn.
  - intros _ H. destruct m; [done|]. split; [by rewrite Nat.add_0_r in H|done].
  - intros H1 H2. apply IH; [done|]. destruct m; [done|]. by rewrite <- Nat.add_succ_comm in H2.
  - intros [H1 H2] H3. split; [done|]. by apply IH.
Qed.

(** What each access does to the messages that wait. *)
Lemma try_send_accepted m r r' : try_send m r = (true, r') ->
  waiting r' = waiting r ++ [m] /\ r_dropped r' = r_dropped r /\ (length (r_queue r') <= CAPACITY)%nat.
Proof.
  unfold try_send, waiting. destruct (_ && _) eqn:E; [|done]. intros [= <-]. cbn. apply andb_true_iff in E as [_ E%Nat.ltb_lt].
  split; [by destruct (r_hand r)|]. split; [done|]. rewrite length_app. cbn. lia.
Qed.
Lemma try_send_refused m r r' : try_send m r = (false, r') -> r' = r.
Proof. unfold try_send. destruct (_ && _); [done|]. by intros [= <-]. Qed.
Lemma recv_keeps r r' : recv r = Some r' -> waiting r' = waiting r /\ r_dropped r' = r_dropped r /\ (length (r_queue r') <= length (r_queue r))%nat.
Proof. unfold recv, waiting. destruct (r_hand r), (r_queue r) as [|msg q] eqn:E; try done. intros [= <-]. cbn. split; [done|]. split; [done|]. lia. Qed.
Lemma handle_takes w r m r' : handle w r = Some (m, r') ->
  waiting r = m :: waiting r' /\ r_queue r' = r_queue r
  /\ r_dropped r' = match m with MRecord _ => if w then r_dropped r else (r_dropped r + 1) mod 2 ^ 64 | MFlush _ => r_dropped r end.
Proof. unfold handle, waiting. destruct (r_hand r) as [[d|f]|]; [destruct w|..]; try done; intros [= <- <-]; done. Qed.

Lemma counted_next a n : a mod 2 ^ 64 = n mod 2 ^ 64 -> (a + 1) mod 2 ^ 64 = (n + 1) mod 2 ^ 64.
Proof. intros H. rewrite <- (Z.add_mod_idemp_l a), H, Z.add_mod_idemp_l by lia. done. Qed.

Lemma step_sound spawned h h' : step h h' -> Sound spawned h -> Sound spawned h'.
Proof.
  intros H [C1 C2 C3 C4 C5 C6]. destruct H as [s o m r a st l u fl dn r' E|s o m r a st l u fl dn r' E|r a st l u fl dn|r a st l u fl dn f r' Hf E|r a st l u fl dn r' E|w r a st l u fl dn d r' E|r a st l u fl dn f r' E];
    cbn in *.
  - apply try_send_accepted in E as (W & D & L). constructor; cbn; rewrite ?W, ?D; try done.
    + rewrite records_app, C1, <- app_assoc. done.
    + by apply flushes_last.
  - apply try_send_refused in E as ->. constructor; cbn; try done.
    replace (Z.of_nat (S (l + failures st)) + (if spawned then 0 else 1)) with (Z.of_nat (l + failures st) + (if spawned then 0 else 1) + 1) by lia.
    apply counted_next in C2. rewrite <- C2. f_equal. lia.
  - constructor; cbn; try done; [|apply Z.mod_pos_bound; lia]. rewrite Z.add_mod_idemp_l by lia. rewrite <- C2. f_equal. lia.
  - apply try_send_accepted in E as (W & D & L). constructor; cbn; rewrite ?W, ?D; try done.
    + rewrite records_app, C1. cbn. by rewrite app_nil_r.
    + apply flushes_last; [by apply flushes_more|]. apply in_or_app. right. left. f_equal. rewrite C1, length_app, length_map. done.
    + intros g Hg. destruct (C6 g Hg) as (n & Hn & Hl). exists n. split; [apply in_or_app; by left|done].
  - apply recv_keeps in E as (W & D & L). constructor; cbn; rewrite ?W, ?D; try done. lia.
  - apply handle_takes in E as (W & Q & D). rewrite W in C1, C5. constructor; cbn; rewrite ?Q; try done.
    + rewrite C1, map_app, <- app_assoc. done.
    + rewrite D. unfold failures. rewrite List.filter_app, length_app. cbn. destruct w; cbn; [by rewrite Nat.add_0_r|].
      apply counted_next in C2. rewrite Z.add_mod_idemp_l by lia. replace (r_dropped r + 1 + Z.of_nat u) with (r_dropped r + Z.of_nat u + 1) by lia.
      rewrite C2. f_equal. unfold failures. lia.
    + rewrite D. destruct w; [done|]. apply Z.mod_pos_bound. lia.
    + rewrite length_app. cbn. rewrite Nat.add_comm. exact C5.
    + intros g Hg. destruct (C6 g Hg) as (n & Hn & Hl). exists n. split; [done|]. rewrite length_app. lia.
  - apply handle_takes in E as (W & Q & D). rewrite W in C1, C5. cbn in C1, C5, D. constructor; cbn; rewrite ?Q, ?D; try done; [apply C5|].
    intros g [Hg|[<-|[]]]%in_app_or; [by apply C6|]. exists (length st). split; [apply C5|done].
Qed.

(** C34. A diagnostic is never lost in silence and never holds up the thread that
    reports it. In every interleaving of reporting threads, the worker and the
    sink: what was accepted is given to the sink once, in order, or still waits;
    at most 64 messages wait and at most one more is in hand; every record that was
    refused, or that the sink failed to write, is counted (modulo the width of
    the counter), once the reporting threads have made their count; and a flush
    is answered only after every record accepted before it was given to the
    sink. *)
Theorem diagnostics_conserved spawned h : rtc step (initial spawned) h ->
  h_accepted h = map fst (h_settled h) ++ records (waiting (h_reporter h))
  /\ (length (waiting (h_reporter h)) <= 65)%nat
  /\ (h_uncounted h = 0%nat ->
        r_dropped (h_reporter h) = (Z.of_nat (h_lost h + failures (h_settled h)) + (if spawned then 0 else 1)) mod 2 ^ 64)
  /\ forall f, In f (h_done h) -> exists n, In (f, n) (h_flushes h) /\ (n <= length (h_settled h))%nat.
Proof.
  intros H. assert (Sound spawned h) as [C1 C2 C3 C4 C5 C6].
  { remember (initial spawned) as i eqn:E. assert (Sound spawned i) as HS by (subst; constructor; cbn; try done; unfold CAPACITY; destruct spawned; cbn; first [lia|reflexivity]).
    clear E. induction H as [|x y z Hs _ IH]; [done|]. apply IH. by eapply step_sound. }
  split; [done|]. split; [|split; [|done]].
  - unfold waiting, CAPACITY in *. destruct (r_hand _); cbn; lia.
  - intros H0. rewrite H0, Z.add_0_r, Z.mod_small in C2 by done. done.
Qed.

Lemma diagnostics_conserved_witness :
  let h := Build_Host (Build_Reporter [] true 1 None) [diagnostic &"a" &"b" &"c"] [(diagnostic &"a" &"b" &"c", false)] 0 0 [] [] in
  rtc step (initial true) h /\ r_dropped (h_reporter h) = 1.
Proof.
  cbv zeta. assert (rtc step (initial true) (Build_Host (Build_Reporter [] true 1 None) [diagnostic &"a" &"b" &"c"] [(diagnostic &"a" &"b" &"c", false)] 0 0 [] [])) as H.
  { eapply rtc_l; [apply (StepReport &"a" &"b" &"c"); reflexivity|]. eapply rtc_l; [apply StepRecv; reflexivity|].
    eapply rtc_l; [apply (StepHandle false); reflexivity|]. apply rtc_refl. }
  split; [exact H|]. destruct (diagnostics_conserved true _ H) as (_ & _ & Hc & _). exact (Hc eq_refl).
Defined.
