(* ===== verification/HookRun.v ===== *)
(** * One run of a hook: servicemanager-supervisor [hooks.rs]

    [run_hook] spawns the command suspended, puts it in a job that is killed when
    it is closed, resumes it, and waits for it until it ends, is cancelled, or has
    used up its time. It is a program of its calls: those of [ProcessTree], and
    the flag, the clock, the child and the diagnostics. Times are in nanoseconds. *)

From Stdlib Require Import ZArith Lia List.
From S2P Require Import Prelude Text Model Effects EventLog LaunchEnv Supervisor ProcessTree.

(** What [Command] is built up to: the program with its raw command line, and
    nothing of the host's own environment or input. *)
Record HookCommand := {
  hk_program : rstr; hk_arguments : list rstr; hk_raw_argument : rstr; hk_creation_flags : Z;
  hk_environment : EnvVars; hk_directory : option rstr }.

Inductive HookE : Type -> Type :=
| Win {X} (e : WinE X) : HookE X
| IsCancelled : HookE bool
| Now : HookE Z
| EnvVar (name : rstr) : HookE (option rstr)
| Spawn (c : HookCommand) : HookE PinnedProcess
| TryWait (child : PinnedProcess) : HookE (option (option Z))
| KillChild (child : PinnedProcess) : HookE unit
| ThreadSleep (ms : Z) : HookE unit
| Diagnose (service operation message : rstr) : HookE unit.
Abbreviation HookProg A := (Prog HookE Fail A) (only parsing).
Abbreviation HookEv := (Event HookE Fail) (only parsing).

(** The calls of a job or of a pinned process, made from here. *)
Fixpoint win {A} (p : Prog WinE Fail A) : HookProg A :=
  match p with
  | PRet r => PRet r
  | PCall e k => PCall (Win e) (fun x => win (k x))
  end.

Inductive HookOutcome := Empty | Completed (code : Z) | HookCancelled | HookTimedOut | HookFailed.
#[export] Instance HookOutcome_eq_dec : EqDecision HookOutcome.
Proof. solve_decision. Defined.

Record HookRuntime := {
  hr_service : rstr; hr_environment : EnvVars; hr_directory : option rstr; hr_deadline : Z; hr_generation : Z }.

Definition CREATE_SUSPENDED : Z := 4.

Definition system_cmd_exe : HookProg rstr :=
  let@ root := perform (EnvVar &"SystemRoot") in
  let@ found := match root with Some r => PRet (Ok (Some r)) | None => perform (EnvVar &"windir") end in
  let root := match found with Some r => r | None => &"C:\Windows" end in
  PRet (Ok (join_path (join_path root &"System32") &"cmd.exe")).

Definition hook_command (hook : HookConfig) (rt : HookRuntime) (cmd_exe : rstr) : HookCommand :=
  {| hk_program := cmd_exe; hk_arguments := [&"/d"; &"/s"; &"/c"]; hk_raw_argument := [c_quote] ++ command hook ++ [c_quote];
     hk_creation_flags := CREATE_SUSPENDED; hk_environment := hr_environment rt; hk_directory := hr_directory rt |}.

(** [Display] of an error. *)
Definition fail_text (f : Fail) : rstr := match f with Os _ text => text | Msg e => error_to_string e end.

Definition outcome (o : HookOutcome) : HookProg (option HookOutcome) := PRet (Ok (Some o)).
Definition diagnosed (service label message : rstr) (o : HookOutcome) : HookProg (option HookOutcome) :=
  perform (Diagnose service label message) ;@ outcome o.

(** Polls until the child has ended or two seconds are over; [None] is the end
    of [fuel]. *)
Fixpoint reap_until (fuel : nat) (child : PinnedProcess) (deadline : Z) : HookProg (option unit) :=
  match fuel with
  | O => PRet (Ok None)
  | S fuel =>
      let@ now := perform Now in
      if deadline <=? now then PRet (Ok (Some tt))
      else
        pthen (perform (TryWait child)) (fun r =>
          match r with
          | Ok None => perform (ThreadSleep 10) ;@ reap_until fuel child deadline
          | _ => PRet (Ok (Some tt))
          end)
  end.
Definition kill_and_reap (fuel : nat) (child : PinnedProcess) : HookProg (option unit) :=
  pthen (perform (KillChild child)) (fun _ =>
    let@ now := perform Now in
    reap_until fuel child (now + secs 2)).
Definition and_then {A} (p : HookProg (option unit)) (k : HookProg (option A)) : HookProg (option A) :=
  let@ o := p in match o with Some _ => k | None => PRet (Ok None) end.

Section Hook.
Variables (reap : nat) (service label : rstr) (deadline : Z) (child : PinnedProcess).

(** The closure that contains and resumes the child; [job] is closed by every
    error in it. *)
Definition resume_in (job : Z) : HookProg Z :=
  win (assign_child job child) ;@
  let@ cancel := perform IsCancelled in
  if cancel : bool then PRet (Err (Msg (error_other &"hook cancelled before resume")))
  else
    let@ now := perform Now in
    if deadline <=? now then PRet (Err (Msg (error_other &"hook deadline expired before resume")))
    else
      let@ pinned := win (pin_child job child) in
      let@ resumed := pfinally (win (resume pinned)) (win (close (pp_handle pinned))) in
      if negb resumed then PRet (Err (Msg (error_other &"hook exited before resume"))) else PRet (Ok job).
Definition contain : HookProg Z :=
  let@ job := win new_kill_on_close in
  pthen (resume_in job) (fun r =>
    match r with
    | Ok job => PRet (Ok job)
    | Err e => win (close job) ;@ PRet (Err e)
    end).

Definition containment_failed (e : Fail) : HookProg (option HookOutcome) :=
  and_then (kill_and_reap reap child)
    (let@ cancel := perform IsCancelled in
     if cancel : bool then outcome HookCancelled
     else
       let@ now := perform Now in
       if deadline <=? now then diagnosed service label &"timed out before resume" HookTimedOut
       else diagnosed service label (&"containment/resume failed: " ++ fail_text e) HookFailed).

Definition stop_tree (job : Z) (cancel : bool) : HookProg (option HookOutcome) :=
  pthen (win (terminate_job job 1)) (fun r =>
    match r with
    | Ok _ => PRet (Ok tt)
    | Err e => perform (Diagnose service label (&"job termination failed: " ++ fail_text e))
    end) ;@
  and_then (kill_and_reap reap child)
    (if cancel then outcome HookCancelled
     else diagnosed service label &"timed out; contained hook tree terminated" HookTimedOut).

(** The loop; [None] is the end of [fuel]. *)
Fixpoint poll_child (fuel : nat) (job : Z) : HookProg (option HookOutcome) :=
  match fuel with
  | O => PRet (Ok None)
  | S fuel =>
      let@ cancel := perform IsCancelled in
      let@ stop := if cancel : bool then PRet (Ok true) else let@ now := perform Now in PRet (Ok (deadline <=? now)) in
      if stop : bool then stop_tree job cancel
      else
        pthen (perform (TryWait child)) (fun r =>
          match r with
          | Ok (Some status) =>
              let code := match status with Some c => c | None => -1 end in
              (if negb (code =? 0) then perform (Diagnose service label (&"exited with code " ++ to_dec code)) else PRet (Ok tt)) ;@
              outcome (Completed code)
          | Ok None => perform (ThreadSleep 20) ;@ poll_child fuel job
          | Err e =>
              perform (Diagnose service label (&"wait failed: " ++ fail_text e)) ;@
              and_then (kill_and_reap reap child) (outcome HookFailed)
          end)
  end.

Definition run_child (fuel : nat) : HookProg (option HookOutcome) :=
  pthen contain (fun r =>
    match r with
    | Ok job => pfinally (poll_child fuel job) (win (close job))
    | Err e => containment_failed e
    end).
End Hook.

Definition hook_label (hook : HookConfig) (rt : HookRuntime) : rstr :=
  &"hook " ++ event hook ++ &"/" ++ hook_action hook ++ &" generation=" ++ to_dec (hr_generation rt).

(** Dropping the child closes its handle. [fuel] bounds the polls of the child,
    [reap] those after it was killed. *)
Definition run_hook (fuel reap : nat) (hook : HookConfig) (rt : HookRuntime) : HookProg (option HookOutcome) :=
  if is_empty (trim (command hook)) then outcome Empty
  else
    let@ cancel := perform IsCancelled in
    if cancel : bool then outcome HookCancelled
    else
      let@ started := perform Now in
      let deadline := Z.min (hr_deadline rt) (started + HOOK_TIMEOUT) in
      let label := hook_label hook rt in
      let@ cmd_exe := system_cmd_exe in
      let@ cancel := perform IsCancelled in
      if cancel : bool then outcome HookCancelled
      else
        let@ now := perform Now in
        if deadline <=? now then diagnosed (hr_service rt) label &"timed out before spawn" HookTimedOut
        else
          pthen (perform (Spawn (hook_command hook rt cmd_exe))) (fun r =>
            match r with
            | Err e => diagnosed (hr_service rt) label (&"spawn failed: " ++ fail_text e) HookFailed
            | Ok child =>
                pfinally (run_child reap (hr_service rt) label deadline child fuel) (win (close (pp_handle child)))
            end).
