(* ===== verification/HookRunSpec.v ===== *)
(** * A hook is contained, bounded and reported as it ended: theorems about [HookRun] *)

From Stdlib Require Import ZArith Lia List.
From S2P Require Import Prelude Text Model Effects LaunchEnv Supervisor ProcessTree HookRun.

(** ** What a log says *)

(** The flag, the clock, sleeping and reporting do not fail. *)
Definition answered (e : HookEv) : Prop :=
  match e with
  | Ev c x => match c with
              | Win _ | Spawn _ | TryWait _ | KillChild _ => True
              | _ => match x with Ok _ => True | Err _ => False end
              end
  end.

(** The handle a call has made. *)
Definition made (e : HookEv) : option Z :=
  match e with
  | Ev c x => match c in HookE X return result Fail X -> option Z with
              | Spawn _ => fun x => match x with Ok child => Some (pp_handle child) | Err _ => None end
              | Win w => match w in WinE X return result Fail X -> option Z with
                         | CreateJobObject | DuplicateHandle _ | OpenProcess _ _ => fun x => match x with Ok h => Some h | Err _ => None end
                         | _ => fun _ => None
                         end
              | _ => fun _ => None
              end x
  end.
Definition dropped (e : HookEv) : option Z :=
  match e with Ev c _ => match c with Win w => match w with CloseHandle h => Some h | _ => None end | _ => None end end.
Definition spawned (e : HookEv) : option HookCommand := match e with Ev c _ => match c with Spawn s => Some s | _ => None end end.
Definition child_of (e : HookEv) : option PinnedProcess :=
  match e with
  | Ev c x => match c in HookE X return result Fail X -> option PinnedProcess with
              | Spawn _ => fun x => match x with Ok child => Some child | Err _ => None end | _ => fun _ => None end x
  end.
Definition resumed (e : HookEv) : option Z :=
  match e with Ev c _ => match c with Win w => match w with NtResumeProcess h => Some h | _ => None end | _ => None end end.
Definition flag (e : HookEv) : option bool :=
  match e with
  | Ev c x => match c in HookE X return result Fail X -> option bool with
              | IsCancelled => fun x => match x with Ok b => Some b | Err _ => None end | _ => fun _ => None end x
  end.
Definition clock (e : HookEv) : option Z :=
  match e with
  | Ev c x => match c in HookE X return result Fail X -> option Z with
              | Now => fun x => match x with Ok t => Some t | Err _ => None end | _ => fun _ => None end x
  end.

(** Neither makes nor drops a handle, neither spawns nor resumes. *)
Definition still (e : HookEv) : Prop := made e = None /\ dropped e = None /\ spawned e = None /\ resumed e = None.

(** The child and its descendants cannot outlive the job, the time is not over
    and the hook is not cancelled. *)
Definition contained (deadline : Z) (child : PinnedProcess) (past : list HookEv) (h : Z) : Prop :=
  (exists job, In (Ev (Win (SetKillOnClose job)) (Ok tt)) past
     /\ In (Ev (Win (AssignProcessToJobObject job (pp_handle child))) (Ok tt)) past
     /\ In (Ev (Win (DuplicateHandle (pp_handle child))) (Ok h)) past
     /\ In (Ev (Win (IsProcessInJob h job)) (Ok true)) past)
  /\ omap dropped past = []
  /\ last (omap flag past) = Some false
  /\ exists t, last (omap clock past) = Some t /\ t < deadline.
Definition resumes_contained (deadline : Z) (child : PinnedProcess) (log : list HookEv) : Prop :=
  allowed (fun past e => forall h, resumed e = Some h -> contained deadline child past h) log.

Ltac hook_runs H :=
  repeat (cbn beta iota delta [runs perform plift pbind pthen ptry pmap_err pfinally map_err win] in H;
    match type of H with
    | ex _ => let x := fresh "x" in let l := fresh "log" in let E := fresh "E" in destruct H as (x & l & E & H); subst
    | _ /\ _ => destruct H as [? ?]; subst
    | context [match ?b with _ => _ end] => destruct b eqn:?
    end).

Section Contain.
Variables (deadline : Z) (child : PinnedProcess).

Lemma contain_runs log r : Forall answered log -> runs (contain deadline child) log r ->
  omap spawned log = [] /\ resumes_contained deadline child log
  /\ match r with Ok job => omap made log ≡ₚ job :: omap dropped log | Err _ => omap made log ≡ₚ omap dropped log end.
Proof.
  intros HA H.
  unfold contain, resume_in, new_kill_on_close, assign_child, assign, pin_child, from_child, contains_handle, resume, change_suspension, is_running, close,
    ignore_call, fail, perform_as, perform in H.
  hook_runs H; repeat match goal with H : map_err _ ?x = _ |- _ => destruct x; cbn in H; simplify_eq end; repeat match goal with u : unit |- _ => destruct u end;
    (split; [reflexivity|]); (split; [apply allowed_by; cbn; conj_all; try exact I; try (intros ? [=])|cbn; try reflexivity; apply perm_swap]).
  all: subst; match goal with |- contained _ _ (Ev _ (Ok ?job) :: _) _ => split; [exists job; conj_all; in_past|] end.
  all: split; [reflexivity|]; split; [reflexivity|]; eexists; (split; [reflexivity|]); by apply Z.leb_gt.
Qed.
End Contain.

(** ** Polling *)

Lemma answered_ok {X} (c : HookE X) x l : Forall answered (Ev c x :: l) ->
  match c with Win _ | Spawn _ | TryWait _ | KillChild _ => True | _ => exists a, x = Ok a end.
Proof. intros [H _]%Forall_cons. destruct c; try exact I; destruct x; try destruct H; eauto. Qed.

Ltac answer H HA a := let x := fresh "x" in let l := fresh "l" in
  destruct H as (x & l & -> & H); destruct (answered_ok _ _ _ HA) as [a ->]; apply Forall_cons in HA as [_ HA]; cbn [pthen] in H.
Ltac still_all := repeat (apply Forall_cons; split; [done|]); try first [done|by apply Forall_nil].

Section Child.
Variables (reap : nat) (service label : rstr) (deadline : Z) (child : PinnedProcess).

(** The child was asked to end. *)
Definition killed (log : list HookEv) : Prop := exists x, In (Ev (KillChild child) x) log.
(** What a way to end means. *)
Definition ended (log : list HookEv) (o : option HookOutcome) : Prop :=
  match o with
  | None => True
  | Some Empty => False
  | Some (Completed code) => exists status, In (Ev (TryWait child) (Ok (Some status))) log /\ code = match status with Some c => c | None => -1 end
  | Some HookCancelled => In (Ev IsCancelled (Ok true)) log /\ killed log
  | Some HookTimedOut => (exists t, In (Ev Now (Ok t)) log /\ deadline <= t) /\ killed log
  | Some HookFailed => killed log
  end.

Lemma reap_until_runs n : forall d log r, Forall answered log -> runs (reap_until n child d) log r ->
  Forall still log /\ exists o, r = Ok o.
Proof.
  induction n as [|n IH]; intros d log r HA H; cbn [reap_until] in H; [destruct H as [-> ->]; eauto|].
  destruct H as (x & l & -> & H). pose proof (answered_ok _ _ _ HA) as [t ->]. apply Forall_cons in HA as [_ HA].
  cbn [pthen] in H. destruct (d <=? t); [destruct H as [-> ->]; split; [by repeat constructor|eauto]|].
  destruct H as (y & l' & -> & H). apply Forall_cons in HA as [_ HA]. cbn [pthen] in H.
  destruct y as [[status|]|e]; [destruct H as [-> ->]; split; [by repeat constructor|eauto]| |destruct H as [-> ->]; split; [by repeat constructor|eauto]].
  destruct H as (z & m & -> & H). pose proof (answered_ok _ _ _ HA) as [u ->]. apply Forall_cons in HA as [_ HA].
  apply IH in H as [Hs Hr]; [|done]. split; [|done]. repeat (constructor; [done|]). exact Hs.
Qed.
Lemma kill_runs log r : Forall answered log -> runs (kill_and_reap reap child) log r ->
  Forall still log /\ killed log /\ exists o, r = Ok o.
Proof.
  intros HA (x & l & -> & H). apply Forall_cons in HA as [_ HA]. cbn [pthen] in H.
  destruct H as (y & m & -> & H). pose proof (answered_ok _ _ _ HA) as [t ->]. apply Forall_cons in HA as [_ HA].
  apply reap_until_runs in H as [Hs Hr]; [|done]. split; [repeat (constructor; [done|]); exact Hs|]. split; [|done]. exists x. by left.
Qed.

Lemma killed_app l m : killed l \/ killed m -> killed (l ++ m).
Proof. intros [[x H]|[x H]]; exists x; apply in_or_app; auto. Qed.
Lemma ended_app l m o : ended l o \/ ended m o -> ended (l ++ m) o.
Proof.
  intros H. destruct o as [[|code| | |]|]; cbn in *; try tauto.
  - destruct H as [(st & H & ->)|(st & H & ->)]; exists st; rewrite in_app_iff; auto.
  - rewrite in_app_iff. destruct H as [[H K]|[H K]]; (split; [tauto|apply killed_app; tauto]).
  - destruct H as [[(t & H & Ht) K]|[(t & H & Ht) K]]; (split; [exists t; rewrite in_app_iff; tauto|apply killed_app; tauto]).
  - by apply killed_app.
Qed.

(** What follows the kill. *)
Lemma and_then_runs {A} (k : HookProg (option A)) log r :
  Forall answered log -> runs (and_then (kill_and_reap reap child) k) log r ->
  exists l m, log = l ++ m /\ Forall still l /\ killed l /\ (m = [] /\ r = Ok None \/ Forall answered m /\ runs k m r).
Proof.
  intros HA [(e & -> & H)|(l & m & o & -> & H1 & H2)]%runs_bind.
  - apply kill_runs in H as (_ & _ & o & [=]); done.
  - apply Forall_app in HA as [HA1 HA2]. exists l, m. apply kill_runs in H1 as (Hs & Hk & _); [|done]. repeat split; try done.
    destruct o as [u|]; [by right|]. destruct H2 as [-> ->]. by left.
Qed.

Lemma stop_tree_runs job cancel log r : Forall answered log -> runs (stop_tree reap service label child job cancel) log r ->
  Forall still log /\ killed log /\ exists o, r = Ok o /\ (o = None \/ o = Some (if cancel then HookCancelled else HookTimedOut)).
Proof.
  intros HA H.
  assert (exists l m, log = l ++ m /\ Forall still l /\ Forall answered m
    /\ runs (and_then (kill_and_reap reap child) (if cancel then outcome HookCancelled else diagnosed service label &"timed out; contained hook tree terminated" HookTimedOut)) m r)
    as (l & m & -> & Hl & Hm & Hr).
  { destruct H as (x & l & -> & H). apply Forall_cons in HA as [_ HA]. cbn [pthen win pmap_err map_err] in H. destruct x as [u|e]; cbn in H.
    - exists [Ev (Win (TerminateJobObject job 1)) (Ok u)], l. repeat split; try done. still_all.
    - answer H HA u. eexists [_; _], _. split; [reflexivity|]. repeat split; try done. still_all. }
  apply and_then_runs in Hr as (a & b & -> & Ha & Hk & Hb); [|done].
  assert (Forall still b /\ exists o, r = Ok o /\ (o = None \/ o = Some (if cancel then HookCancelled else HookTimedOut))) as [Hsb Hr].
  { destruct Hb as [[-> ->]|[HA2 Hb]]; [split; [done|eauto]|]. destruct cancel; [destruct Hb as [-> ->]; split; [done|eauto]|].
    answer Hb HA2 u. destruct Hb as [-> ->]. split; [still_all|eauto]. }
  split; [|split; [|done]].
  - rewrite !Forall_app. done.
  - apply killed_app. right. apply killed_app. by left.
Qed.

Lemma poll_runs fuel job : forall log r, Forall answered log -> runs (poll_child reap service label deadline child fuel job) log r ->
  Forall still log /\ exists o, r = Ok o /\ ended log o.
Proof.
  induction fuel as [|fuel IH]; intros log r HA H; cbn [poll_child] in H; [destruct H as [-> ->]; split; [done|by exists None]|].
  answer H HA c. cbn [pbind pthen] in H. destruct c.
  { cbn [pbind pthen] in H. apply stop_tree_runs in H as (Hs & Hk & o & -> & Ho); [|done]. split; [still_all|]. exists o. split; [done|].
    destruct Ho as [->| ->]; [done|]. split; [by left|]. apply (killed_app [_]). by right. }
  answer H HA t. cbn [pbind pthen] in H. destruct (deadline <=? t) eqn:Hd.
  { cbn [pbind pthen] in H. apply stop_tree_runs in H as (Hs & Hk & o & -> & Ho); [|done]. split; [still_all|]. exists o. split; [done|].
    destruct Ho as [->| ->]; [done|]. split; [exists t; split; [right; by left|lia]|]. apply (killed_app [_; _]). by right. }
  destruct H as (y & m & -> & H). apply Forall_cons in HA as [_ HA]. cbn [pthen] in H. destruct y as [[status|]|e].
  - destruct (negb _) in H; [answer H HA u|cbn in H]; destruct H as [-> ->]; (split; [still_all|]); eexists; (split; [reflexivity|]);
      exists status; (split; [right; right; by left|done]).
  - answer H HA u. apply IH in H as [Hs (o & -> & Ho)]; [|done]. split; [still_all|]. exists o. split; [done|]. apply (ended_app [_; _; _; _]); by right.
  - answer H HA u. apply and_then_runs in H as (a & b & -> & Ha & Hk & Hb); [|done].
    assert (b = [] /\ exists o, r = Ok o /\ (o = None \/ o = Some HookFailed)) as [-> (o & -> & Ho)]
      by (destruct Hb as [[-> ->]|[_ [-> ->]]]; eauto).
    rewrite app_nil_r. split; [still_all|]. exists o. split; [done|]. destruct Ho as [->| ->]; [done|]. apply (killed_app [_; _; _; _]). by right.
Qed.

Lemma failed_runs e log r : Forall answered log -> runs (containment_failed reap service label deadline child e) log r ->
  Forall still log /\ exists o, r = Ok o /\ ended log o.
Proof.
  intros HA H. apply and_then_runs in H as (l & m & -> & Hl & Hk & [[-> ->]|[HA' H]]); [rewrite app_nil_r; split; [done|by exists None]| |done].
  assert (Forall still m /\ exists o, r = Ok (Some o) /\
    match o with HookCancelled => In (Ev IsCancelled (Ok true)) m | HookTimedOut => exists t, In (Ev Now (Ok t)) m /\ deadline <= t | HookFailed => True | _ => False end)
    as [Hm (o & -> & Ho)].
  { answer H HA' c. destruct c; [destruct H as [-> ->]; split; [still_all|]; eexists; (split; [reflexivity|by left])|].
    answer H HA' t. destruct (deadline <=? t) eqn:Hd; answer H HA' u; destruct H as [-> ->]; (split; [still_all|]); eexists; (split; [reflexivity|]); [|done].
    exists t. split; [right; by left|lia]. }
  split; [by apply Forall_app|]. exists (Some o). split; [done|].
  destruct o; cbn; try done; try (split; [|apply killed_app; by left]).
  - apply in_or_app. by right.
  - destruct Ho as (t & Hin & Ht). exists t. split; [apply in_or_app; by right|done].
  - apply killed_app. by left.
Qed.
End Child.

(** ** A run *)

Lemma still_logs l : Forall still l ->
  omap made l = [] /\ omap dropped l = [] /\ omap spawned l = [] /\ omap resumed l = [].
Proof. induction 1 as [|e l (H1 & H2 & H3 & H4) _ (I1 & I2 & I3 & I4)]; [done|]. cbn. by rewrite H1, H2, H3, H4. Qed.

Lemma none_resumed (ok : list HookEv -> Z -> Prop) past l : omap resumed l = [] ->
  allowed_from (fun past e => forall h, resumed e = Some h -> ok past h) past l.
Proof.
  revert past. induction l as [|e l IH]; intros past H; [done|]. cbn in H. destruct (resumed e) as [h|] eqn:E; [done|].
  split; [intros h' Hh; congruence|by apply IH].
Qed.
Lemma contained_after deadline child pre past h : omap dropped pre = [] ->
  contained deadline child past h -> contained deadline child (pre ++ past) h.
Proof.
  intros Hd ((job & H1 & H2 & H3 & H4) & H5 & H6 & t & H7 & H8). split; [exists job; rewrite !in_app_iff; auto|].
  rewrite !omap_app, Hd, H5. split; [done|]. rewrite !last_app, H6, H7. eauto.
Qed.
Lemma contained_in_order deadline child pre l post : omap dropped pre = [] -> omap resumed pre = [] -> omap resumed post = [] ->
  resumes_contained deadline child l ->
  allowed (fun past e => forall h, resumed e = Some h -> contained deadline child past h /\ exists within, past = pre ++ within) (pre ++ l ++ post).
Proof.
  intros Hd Hp Hq H. apply allowed_by. apply allowed_from_app; [by apply none_resumed|]. cbn [app]. apply allowed_from_app; [|by apply none_resumed].
  assert (forall l past, (forall pa e po h, l = pa ++ e :: po -> resumed e = Some h -> contained deadline child (past ++ pa) h) ->
    (exists within, past = pre ++ within) ->
    allowed_from (fun past e => forall h, resumed e = Some h -> contained deadline child past h /\ exists within, past = pre ++ within) past l) as Hall.
  { clear. induction l as [|e l IH]; intros past H [w Hw]; [done|]. split.
    - intros h Hh. pose proof (H [] e l h eq_refl Hh) as G. rewrite app_nil_r in G. eauto.
    - apply IH; [|exists (w ++ [e]); by rewrite Hw, app_assoc]. intros pa e' po h -> Hh. rewrite <- app_assoc. by apply (H (e :: pa) e' po h). }
  apply Hall; [|exists []; by rewrite app_nil_r]. intros pa e po h -> Hh. apply contained_after; [done|]. by eapply H.
Qed.
Lemma contained_prefix deadline child l post : omap resumed post = [] -> resumes_contained deadline child l -> resumes_contained deadline child (l ++ post).
Proof. intros Hp H past e po E h Hh. by eapply (contained_in_order deadline child [] l post). Qed.

Lemma run_child_runs reap service label deadline child fuel log r :
  Forall answered log -> runs (run_child reap service label deadline child fuel) log r ->
  omap spawned log = [] /\ resumes_contained deadline child log /\ omap made log ≡ₚ omap dropped log
  /\ exists o, r = Ok o /\ ended deadline child log o.
Proof.
  intros HA (l1 & l2 & c & -> & H1 & H2)%runs_then. apply Forall_app in HA as [HA1 HA2].
  apply contain_runs in H1 as (Hs & Hc & Hm); [|done]. destruct c as [job|e].
  - apply runs_then in H2 as (m1 & m2 & q & -> & H2 & H3). apply Forall_app in HA2 as [HA2 _].
    apply poll_runs in H2 as (Hst & o & -> & Ho); [|done]. destruct H3 as (x & l & -> & H3). cbn in H3. destruct H3 as [-> ->].
    pose proof (still_logs _ Hst) as (E1 & E2 & E3 & E4). rewrite !omap_app, E1, E2, E3, Hs. cbn. split; [done|]. split; [|split].
    + apply contained_prefix; [by rewrite omap_app, E4|done].
    + rewrite app_nil_r, Hm. solve_Permutation.
    + exists o. split; [done|]. apply ended_app. right. apply ended_app. by left.
  - apply failed_runs in H2 as (Hst & o & -> & Ho); [|done].
    pose proof (still_logs _ Hst) as (E1 & E2 & E3 & E4). rewrite !omap_app, E1, E2, E3, Hs, !app_nil_r. split; [done|]. split; [|split; [done|]].
    + by apply contained_prefix.
    + exists o. split; [done|]. apply ended_app. by right.
Qed.

(** What a hook is reported to have done. *)
Definition reported (deadline : Z) (log : list HookEv) (o : HookOutcome) : Prop :=
  match o with
  | Empty => log = []
  | Completed code => exists c child status, In (Ev (Spawn c) (Ok child)) log
      /\ In (Ev (TryWait child) (Ok (Some status))) log /\ code = match status with Some c => c | None => -1 end
  | HookCancelled => In (Ev IsCancelled (Ok true)) log
  | HookTimedOut => exists t, In (Ev Now (Ok t)) log /\ deadline <= t
  | HookFailed => (exists c e, In (Ev (Spawn c) (Err e)) log) \/ exists child, killed child log
  end.

(** Up to the spawn. *)
Lemma cmd_exe_runs log r : Forall answered log -> runs system_cmd_exe log r ->
  Forall still log /\ omap clock log = [] /\ exists exe, r = Ok exe.
Proof.
  intros HA H. unfold system_cmd_exe in H. answer H HA root. destruct root as [root|]; cbn [pbind pthen] in H.
  - destruct H as [-> ->]. split; [still_all|]. split; [done|eauto].
  - answer H HA found. destruct H as [-> ->]. split; [still_all|]. split; [done|eauto].
Qed.

Lemma front_runs fuel reap hook rt log r : Forall answered log -> runs (run_hook fuel reap hook rt) log r ->
  exists deadline, (forall started, head (omap clock log) = Some started -> deadline = Z.min (hr_deadline rt) (started + HOOK_TIMEOUT))
  /\ ((Forall still log /\ exists o, r = Ok (Some o) /\ reported deadline log o)
     \/ exists front exe x rest, log = front ++ Ev (Spawn (hook_command hook rt exe)) x :: rest /\ Forall still front /\ Forall answered rest
        /\ (exists started, In (Ev Now (Ok started)) front /\ deadline <= started + HOOK_TIMEOUT)
        /\ runs match x with
                | Err e => diagnosed (hr_service rt) (hook_label hook rt) (&"spawn failed: " ++ fail_text e) HookFailed
                | Ok child => pfinally (run_child reap (hr_service rt) (hook_label hook rt) deadline child fuel) (win (close (pp_handle child)))
                end rest r).
Proof.
  intros HA H. unfold run_hook in H. destruct (is_empty _).
  { destruct H as [-> ->]. exists 0. split; [done|]. left. split; [done|]. by exists Empty. }
  answer H HA c. destruct c.
  { destruct H as [-> ->]. exists 0. split; [done|]. left. split; [still_all|]. exists HookCancelled. split; [done|by left]. }
  answer H HA started. exists (Z.min (hr_deadline rt) (started + HOOK_TIMEOUT)). split; [intros ? [= <-]; done|].
  apply runs_bind in H as [(e & -> & H)|(l1 & l2 & exe & -> & H1 & H)].
  { apply cmd_exe_runs in H as (_ & _ & ? & [=]); done. }
  apply Forall_app in HA as [HA1 HA]. apply cmd_exe_runs in H1 as (Hs & Hc & _); [|done].
  answer H HA c. destruct c.
  { destruct H as [-> ->]. left. split; [still_all; apply Forall_app; split; [done|still_all]|]. exists HookCancelled. split; [done|].
    right. right. apply in_or_app. right. by left. }
  answer H HA t. destruct (_ <=? t) eqn:Hd.
  { answer H HA u. destruct H as [-> ->]. left. split; [still_all; apply Forall_app; split; [done|still_all]|]. exists HookTimedOut. split; [done|].
    exists t. split; [do 2 right; apply in_or_app; right; right; by left|lia]. }
  destruct H as (x & rest & -> & H). apply Forall_cons in HA as [_ HA]. right.
  exists (Ev IsCancelled (Ok false) :: Ev Now (Ok started) :: l1 ++ [Ev IsCancelled (Ok false); Ev Now (Ok t)]), exe, x, rest.
  split; [cbn; by rewrite <- app_assoc|]. split; [still_all; apply Forall_app; split; [done|still_all]|]. split; [done|].
  split; [|done]. exists started. split; [right; by left|lia].
Qed.

Lemma not_spawned l c x : omap spawned l = [] -> In (Ev (Spawn c) x) l -> False.
Proof.
  intros H Hin. assert (In c (omap spawned l)) as Hc; [|by rewrite H in Hc].
  apply list_elem_of_In, list_elem_of_omap. eexists. split; [by apply list_elem_of_In|done].
Qed.

(** C33. A hook is contained, and reported as it ended. Whatever the flag, the
    clock, the job and the child do: at most one command is spawned, the hook's,
    suspended and with the hook's environment and nothing of the host's; it is
    resumed only inside a job that kills it and its descendants when the job is
    closed, before its time is over and not after a cancellation; the job is
    closed and every other handle released on every path; a child that was not
    seen to end was killed; and the outcome is the one that was observed. *)
Theorem hook_contained fuel reap hook rt log r :
  Forall answered log -> runs (run_hook fuel reap hook rt) log r ->
  exists o deadline, r = Ok o
  /\ (forall started, head (omap clock log) = Some started -> deadline = Z.min (hr_deadline rt) (started + HOOK_TIMEOUT))
  /\ omap made log ≡ₚ omap dropped log
  /\ (omap spawned log = [] \/ exists exe, omap spawned log = [hook_command hook rt exe])
  /\ (forall past e post h, log = past ++ e :: post -> resumed e = Some h ->
        exists c child, In (Ev (Spawn c) (Ok child)) past /\ contained deadline child past h)
  /\ (forall o', o = Some o' -> reported deadline log o'
        /\ forall c child, In (Ev (Spawn c) (Ok child)) log ->
             (exists status, In (Ev (TryWait child) (Ok (Some status))) log) \/ killed child log).
Proof.
  intros HA H. apply front_runs in H as (deadline & Hd & [[Hs (o & -> & Ho)]|(front & exe & x & rest & -> & Hf & HA' & _ & H)]); [| |done].
  { exists (Some o), deadline. pose proof (still_logs _ Hs) as (E1 & E2 & E3 & E4). rewrite E1, E2, E3. repeat (split; [by auto|]). split.
    - intros past e post h -> Hh. rewrite omap_app in E4. cbn in E4. rewrite Hh in E4. by apply app_eq_nil in E4 as [_ [=]].
    - intros o' [= <-]. split; [done|]. intros c child Hin. by destruct (not_spawned _ _ _ E3 Hin). }
  pose proof (still_logs _ Hf) as (E1 & E2 & E3 & E4). destruct x as [child|e].
  - apply runs_then in H as (l & m & q & -> & H1 & H2). apply Forall_app in HA' as [HA' _].
    apply run_child_runs in H1 as (S1 & S2 & S3 & o & -> & S4); [|done]. destruct H2 as (y & l' & -> & H2). cbn in H2. destruct H2 as [-> ->].
    exists o, deadline. split; [done|]. split; [done|]. rewrite !omap_app, E1, E2, E3. cbn. rewrite !omap_app, S1. cbn.
    split; [rewrite S3; solve_Permutation|]. split; [eauto|]. split.
    + intros past e post h E Hh.
      destruct (contained_in_order deadline child (front ++ [Ev (Spawn (hook_command hook rt exe)) (Ok child)]) l [Ev (Win (CloseHandle (pp_handle child))) y]
        ltac:(by rewrite omap_app, E2) ltac:(by rewrite omap_app, E4) eq_refl S2 past e post ltac:(by rewrite <- app_assoc) h Hh) as [Hc [w ->]].
      eexists _, child. split; [|exact Hc]. rewrite !in_app_iff. left. right. by left.
    + intros o' ->. assert (forall e, In e l -> In e (front ++ Ev (Spawn (hook_command hook rt exe)) (Ok child) :: l ++ [Ev (Win (CloseHandle (pp_handle child))) y])) as Hl
        by (intros e He; apply in_or_app; right; right; apply in_or_app; by left).
      assert (killed child l -> killed child (front ++ Ev (Spawn (hook_command hook rt exe)) (Ok child) :: l ++ [Ev (Win (CloseHandle (pp_handle child))) y])) as Hk
        by (intros [x Hx]; exists x; by apply Hl).
      split.
      * destruct o' as [|code| | |]; cbn in S4 |- *; try done; try (by destruct S4; apply Hl).
        -- destruct S4 as (st & Hin & ->). do 2 eexists. exists st. split; [apply in_or_app; right; by left|]. split; [by apply Hl|done].
        -- destruct S4 as [(t & Hin & Ht) _]. exists t. split; [by apply Hl|done].
        -- right. exists child. by apply Hk.
      * intros c child' [Hin|[E|[Hin|[[=]|[]]]%in_app_or]]%in_app_or; [by destruct (not_spawned _ _ _ E3 Hin)| |by destruct (not_spawned _ _ _ S1 Hin)].
        apply (f_equal child_of) in E. cbn in E. injection E as <-.
        destruct o' as [|code| | |]; cbn in S4; try done; try (right; apply Hk; apply S4).
        destruct S4 as (st & Hin & _). left. exists st. by apply Hl.
  - destruct H as (u & rest' & -> & H). pose proof (answered_ok _ _ _ HA') as [v ->]. cbn in H. destruct H as [-> ->].
    exists (Some HookFailed), deadline. split; [done|]. split; [done|]. rewrite !omap_app, E1, E2, E3. cbn. split; [done|]. split; [eauto|]. split.
    + intros past e' post h E Hh. assert (omap resumed (past ++ e' :: post) = []) as Hr by (rewrite <- E, omap_app, E4; done).
      rewrite omap_app in Hr. cbn in Hr. rewrite Hh in Hr. by apply app_eq_nil in Hr as [_ [=]].
    + intros o' [= <-]. split; [left; do 2 eexists; apply in_or_app; right; by left|].
      intros c child [Hin|[E|[[=]|[]]]]%in_app_or; [by destruct (not_spawned _ _ _ E3 Hin)|by apply (f_equal child_of) in E].
Qed.

(** ** The end of a run *)

Definition slept (e : HookEv) : Z :=
  match e with Ev c _ => match c with ThreadSleep ms => Z.max 0 ms * 1000000 | _ => 0 end end.
(** The clock does not run backwards, and sleeping takes as long as it is asked to. *)
Fixpoint ticks (t : Z) (log : list HookEv) : Prop :=
  match log with
  | [] => True
  | e :: l => match clock e with Some x => t <= x /\ ticks x l | None => ticks (t + slept e) l end
  end.
Fixpoint time_after (t : Z) (log : list HookEv) : Z :=
  match log with
  | [] => t
  | e :: l => match clock e with Some x => time_after x l | None => time_after (t + slept e) l end
  end.
Lemma ticks_app t l m : ticks t (l ++ m) <-> ticks t l /\ ticks (time_after t l) m.
Proof. revert t. induction l as [|e l IH]; intros t; cbn; [tauto|]. destruct (clock e); rewrite IH; tauto. Qed.
Lemma time_advances t l : ticks t l -> t <= time_after t l.
Proof.
  revert t. induction l as [|e l IH]; intros t; cbn; [lia|]. destruct (clock e) as [x|].
  - intros [Ht H]. specialize (IH x H). lia.
  - intros H. specialize (IH _ H). assert (0 <= slept e) by (destruct e as [X c x]; destruct c; cbn; lia). lia.
Qed.
Lemma time_since l : forall t s, ticks t l -> In (Ev Now (Ok s)) l -> s <= time_after t l.
Proof.
  induction l as [|e l IH]; intros t s; [done|]. cbn. intros H [->|Hin].
  - cbn in H |- *. destruct H as [_ H]. by apply time_advances.
  - destruct (clock e); [destruct H as [_ H]|]; by apply IH.
Qed.

Section Ends.
Variables (reap : nat) (service label : rstr) (deadline : Z) (child : PinnedProcess).
Hypothesis reap_enough : (201 <= reap)%nat.

Lemma reap_ends n : forall d t log r, Forall answered log -> ticks t log -> d - t <= 10000000 * (Z.of_nat n - 1) -> (1 <= n)%nat ->
  runs (reap_until n child d) log r -> r = Ok (Some tt).
Proof.
  induction n as [|n IH]; intros d t log r HA HT Hd Hn H; [lia|]. cbn [reap_until] in H. answer H HA x. destruct HT as [Hx HT].
  destruct (d <=? x) eqn:E; [by destruct H|]. destruct H as (y & m & -> & H). apply Forall_cons in HA as [_ HA]. cbn [pthen] in H.
  destruct y as [[status|]|e]; [by destruct H| |by destruct H]. cbn in HT. answer H HA u. cbn in HT. destruct n as [|n]; [lia|]. eapply (IH d); [| | | |exact H]; [done|exact HT|lia|lia].
Qed.
Lemma kill_ends t log r : Forall answered log -> ticks t log -> runs (kill_and_reap reap child) log r -> r = Ok (Some tt).
Proof.
  intros HA HT (x & l & -> & H). apply Forall_cons in HA as [_ HA]. cbn [pthen] in H. answer H HA y. destruct HT as [_ HT].
  eapply reap_ends; [exact HA|exact HT| | |exact H]; [unfold secs; lia|lia].
Qed.
Lemma and_then_ends {A} (k : HookProg (option A)) t log r :
  Forall answered log -> ticks t log -> runs (and_then (kill_and_reap reap child) k) log r ->
  exists m, Forall answered m /\ runs k m r.
Proof.
  intros HA HT [(e & -> & H)|(l & m & o & -> & H1 & H2)]%runs_bind.
  - by apply (kill_ends t) in H.
  - apply Forall_app in HA as [HA1 HA2]. apply ticks_app in HT as [HT1 HT2]. apply (kill_ends t) in H1 as [= ->]; [|done|done]. by exists m.
Qed.
Lemma stop_tree_ends job cancel t log r : Forall answered log -> ticks t log -> runs (stop_tree reap service label child job cancel) log r ->
  exists o, r = Ok (Some o).
Proof.
  intros HA HT H. apply runs_bind in H as [(e & -> & H)|(l & m & u & -> & H1 & H)].
  - destruct H as (x & l & -> & H). cbn in H. destruct x as [u|f]; cbn in H; [by destruct H|]. apply Forall_cons in HA as [_ HA]. answer H HA u. by destruct H as [_ [=]].
  - apply Forall_app in HA as [_ HA]. apply ticks_app in HT as [_ HT]. apply (and_then_ends _ (time_after t l)) in H as (m' & HA' & H); [|done|done].
    destruct cancel; [destruct H as [_ ->]; eauto|]. answer H HA' v. destruct H as [_ ->]. eauto.
Qed.
Lemma poll_ends job n : forall t log r, Forall answered log -> ticks t log -> deadline - t <= 20000000 * (Z.of_nat n - 1) -> (1 <= n)%nat ->
  runs (poll_child reap service label deadline child n job) log r -> exists o, r = Ok (Some o).
Proof.
  induction n as [|n IH]; intros t log r HA HT Hd Hn H; [lia|]. cbn [poll_child] in H.
  answer H HA c. cbn in HT. cbn [pbind pthen] in H. destruct c.
  { cbn [pbind pthen] in H. by eapply stop_tree_ends. }
  answer H HA x. destruct HT as [Hx HT]. cbn [pbind pthen] in H. destruct (deadline <=? x) eqn:E.
  { cbn [pbind pthen] in H. by eapply stop_tree_ends. }
  destruct H as (y & m & -> & H). apply Forall_cons in HA as [_ HA]. cbn [pthen] in H. cbn in HT. destruct y as [[status|]|e].
  - destruct (negb _) in H; [answer H HA u|cbn in H]; destruct H as [_ ->]; eauto.
  - answer H HA u. cbn in HT. destruct n as [|n]; [lia|]. eapply IH; [| | | |exact H]; [done|exact HT|lia|lia].
  - answer H HA u. apply (and_then_ends _ (x + 0 + 0)) in H as (m' & HA' & H); [|done|exact HT]. destruct H as [_ ->]. eauto.
Qed.
Lemma run_child_ends n t log r : Forall answered log -> ticks t log -> deadline - t <= 20000000 * (Z.of_nat n - 1) -> (1 <= n)%nat ->
  runs (run_child reap service label deadline child n) log r -> exists o, r = Ok (Some o).
Proof.
  intros HA HT Hd Hn (l & m & x & -> & H1 & H)%runs_then. apply Forall_app in HA as [_ HA]. apply ticks_app in HT as [HT1 HT2].
  pose proof (time_advances _ _ HT1). destruct x as [job|e].
  - apply runs_then in H as (a & b & q & -> & H2 & (y & l' & -> & H3)). cbn in H3. destruct H3 as [_ ->]. apply Forall_app in HA as [HA _].
    apply ticks_app in HT2 as [HT2 _]. eapply poll_ends; [| | | |exact H2]; [done|exact HT2|lia|lia].
  - apply (and_then_ends _ (time_after t l)) in H as (m' & HA' & H); [|done|done]. answer H HA' c. destruct c; [destruct H as [_ ->]; eauto|].
    answer H HA' x. destruct (_ <=? _); answer H HA' u; destruct H as [_ ->]; eauto.
Qed.
End Ends.

(** A hook cannot hold up the service: it is given at most thirty seconds,
    polled at most 1501 times, and once it is killed waited for at most two
    seconds more, in at most 201 polls; then the run ends with an outcome. *)
Theorem hook_ends fuel reap hook rt t log r :
  (1501 <= fuel)%nat -> (201 <= reap)%nat -> Forall answered log -> ticks t log -> runs (run_hook fuel reap hook rt) log r ->
  exists o, r = Ok (Some o).
Proof.
  intros Hf Hr HA HT H. apply front_runs in H as (deadline & Hd & [[_ (o & -> & _)]|(front & exe & x & rest & -> & Hs & HA' & (started & Hin & Hst) & H)]); [eauto| |done].
  apply ticks_app in HT as [HT1 HT2]. destruct x as [child|e]; [|destruct H as (u & l & -> & H); destruct (answered_ok _ _ _ HA') as [v ->]; destruct H as [_ ->]; eauto].
  apply runs_then in H as (a & b & q & -> & H1 & (y & l' & -> & H2)). cbn in H2. destruct H2 as [_ ->]. apply Forall_app in HA' as [HA' _].
  cbn in HT2. apply ticks_app in HT2 as [HT2 _]. eapply run_child_ends; [exact Hr|exact HA'|exact HT2| | |exact H1]; [|lia].
  pose proof (time_since _ _ _ HT1 Hin). unfold HOOK_TIMEOUT, secs in Hst. cbn. lia.
Qed.

(** ** A sample: a hook that ends with code 3 after sixty milliseconds *)

Definition sample_win {X} (e : WinE X) : result Fail X :=
  match e in WinE X return result Fail X with
  | CreateJobObject => Ok 50
  | SetKillOnClose _ | AssignProcessToJobObject _ _ | CloseHandle _ | NtFunction _ | TerminateJobObject _ _ => Ok tt
  | DuplicateHandle _ => Ok 60
  | IsProcessInJob _ _ => Ok true
  | WaitForSingleObject _ _ => Ok WAIT_TIMEOUT
  | NtResumeProcess _ => Ok 0
  | _ => Err (Os 1 &"not in this sample")
  end.
Definition sample_host (X : Type) (e : HookE X) (clock : Z) : result Fail X * Z :=
  match e in HookE X return result Fail X * Z with
  | Win w => (sample_win w, clock)
  | IsCancelled => (Ok false, clock)
  | Now => (Ok clock, clock)
  | EnvVar _ => (Ok (Some &"C:\Windows"), clock)
  | Spawn _ => (Ok {| pp_handle := 40; pp_pid := 7 |}, clock)
  | TryWait _ => (Ok (if 60000000 <=? clock then Some (Some 3) else None), clock)
  | ThreadSleep ms => (Ok tt, clock + ms * 1000000)
  | KillChild _ | Diagnose _ _ _ => (Ok tt, clock)
  end.
Definition sample_hook : HookConfig := {| event := &"Start"; hook_action := &"Pre"; command := &"prepare.cmd" |}.
Definition sample_runtime : HookRuntime :=
  {| hr_service := &"demo"; hr_environment := [(&"A", &"1")]; hr_directory := None; hr_deadline := secs 20; hr_generation := 1 |}.
Definition sample_run := interp sample_host (run_hook 1501 201 sample_hook sample_runtime) 0.

Example sample_hook_completes : sample_run.1.1 = Ok (Some (Completed 3)).
Proof. vm_compute. reflexivity. Qed.

Lemma hook_contained_witness : Forall answered sample_run.1.2 /\ omap made sample_run.1.2 ≡ₚ omap dropped sample_run.1.2.
Proof.
  assert (Forall answered sample_run.1.2) as HA by (vm_compute; repeat (constructor; [exact I|]); constructor).
  split; [exact HA|].
  destruct (hook_contained 1501 201 sample_hook sample_runtime sample_run.1.2 sample_run.1.1 HA (interp_runs _ _ _)) as (o & d & _ & _ & H & _). exact H.
Defined.

Lemma hook_ends_witness : ticks 0 sample_run.1.2 /\ exists o, sample_run.1.1 = Ok (Some o).
Proof.
  assert (Forall answered sample_run.1.2) as HA by (vm_compute; repeat (constructor; [exact I|]); constructor).
  assert (ticks 0 sample_run.1.2) as HT by (vm_compute; repeat split; discriminate).
  split; [exact HT|]. apply (hook_ends 1501 201 sample_hook sample_runtime 0 sample_run.1.2); [lia|lia|exact HA|exact HT|apply interp_runs].
Defined.
