(* ===== verification/GuiAdapter.v ===== *)
(** * The service table: gui [adapter.rs]

    Filtering, the rows with their buttons, sorting and the selection. The
    lower-casing of texts is Unicode's; [to_lowercase] stands for it. *)

From Stdlib Require Import ZArith Lia List Sorted Permutation.
From S2P Require Import Prelude Text BTree Model Win32 Effects OpsRestart OpsControl BrokerHandlers LogReader Cli.

Section Adapter.
(** [str::to_lowercase], the full Unicode mapping. *)
Variable to_lowercase : rstr -> rstr.

(** ** Filtering *)

Definition runtime_state (d : ServiceDefinition) : option ServiceState := option_map state (runtime d).

Definition matches_filter (def : ServiceDefinition) (managed_only running_only : bool) (search : rstr) : bool :=
  if managed_only && negb (is_managed def) then false
  else if running_only && negb (bool_decide (runtime_state def = Some Running)) then false
  else
    let q := to_lowercase (trim search) in
    if is_empty q then true
    else contains q (to_lowercase (name (native def))) || contains q (to_lowercase (display_name (native def))).

Record DashboardStats := { total : Z; running : Z; stopped : Z; attention : Z }.
Definition dashboard_stats (defs : list ServiceDefinition) : DashboardStats :=
  fold_left (fun s d =>
    let s := {| total := total s + 1; running := running s; stopped := stopped s; attention := attention s |} in
    match runtime_state d with
    | Some Running => {| total := total s; running := running s + 1; stopped := stopped s; attention := attention s |}
    | Some Stopped =>
        {| total := total s; running := running s; stopped := stopped s + 1;
           attention := match startup (native d) with Automatic | AutomaticDelayed => attention s + 1 | _ => attention s end |}
    | _ => s
    end) (List.filter is_managed defs) {| total := 0; running := 0; stopped := 0; attention := 0 |}.

(** ** Rows *)

Record ServiceRow := {
  sr_name : rstr; sr_display : rstr; sr_kind : rstr; sr_state : rstr; sr_startup : rstr; sr_running : bool;
  sr_image_path : rstr; sr_application : rstr; sr_arguments : rstr; sr_working_dir : rstr; sr_account : rstr; sr_pid : rstr;
  sr_stdout_log : rstr; can_start : bool; can_stop : bool; can_restart : bool; can_pause : bool; can_continue : bool;
  can_rotate : bool; can_edit : bool; can_remove : bool; can_processes : bool }.

Definition is_live (s : option ServiceState) : bool :=
  match s with Some Running | Some Paused | Some StartPending => true | _ => false end.
Definition is_at_rest (s : option ServiceState) : bool := match s with Some Stopped | None => true | _ => false end.

Definition to_service_row (d : ServiceDefinition) (elevated : bool) : ServiceRow :=
  let state := runtime_state d in
  let owned := is_managed d in
  let managed_cfg := is_some (managed d) in
  let enabled := negb (bool_decide (startup (native d) = Disabled)) in
  let can_start := elevated && owned && enabled && is_at_rest state in
  let can_stop := elevated && owned && is_live state in
  let m := managed d in
  let text (f : ManagedApplicationConfig -> option rstr) := unwrap_or [] (match m with Some c => f c | None => None end) in
  {| sr_name := name (native d); sr_display := display_name (native d);
     sr_kind := match management_kind d with Managed => &"managed" | Native => &"native" end;
     sr_state := match state with Some s => state_debug s | None => &"Unknown" end;
     sr_startup := startup_debug (startup (native d));
     sr_running := bool_decide (state = Some Running);
     sr_image_path := image_path (native d);
     sr_application := text application; sr_arguments := text app_parameters; sr_working_dir := text app_directory;
     sr_account := unwrap_or [] (account (native d));
     sr_pid := match runtime d with Some r => match pid r with Some p => to_dec p | None => [] end | None => [] end;
     sr_stdout_log := text (fun c => option_map path (stdout (io c)));
     can_start := can_start; can_stop := can_stop; can_restart := enabled && can_stop;
     can_pause := elevated && managed_cfg && bool_decide (state = Some Running);
     can_continue := elevated && managed_cfg && bool_decide (state = Some Paused);
     can_rotate := elevated && is_some_and has_online_rotation m
                   && match state with Some Running | Some Paused => true | _ => false end;
     can_edit := elevated && managed_cfg; can_remove := elevated && owned && is_at_rest state;
     can_processes := is_live state |}.

(** ** Order and selection *)

Definition row_key (column : Z) (r : ServiceRow) : rstr :=
  to_lowercase (if column =? 1 then sr_display r else if column =? 2 then sr_kind r else if column =? 3 then sr_state r
                else if column =? 4 then sr_startup r else sr_name r).
Definition str_le (a b : rstr) : bool := match str_cmp a b with Gt => false | _ => true end.
Definition sort_service_rows (rows : list ServiceRow) (column : Z) (ascending : bool) : list ServiceRow :=
  let rows := sort_by (fun a b => str_le (row_key column a) (row_key column b)) rows in
  if ascending then rows else rev rows.

Definition remap_selection (selected : option rstr) (names : list rstr) : Z :=
  match selected with
  | Some n => match position (fun m => bool_decide (m = n)) names with Some i => as_i32 (Z.of_nat i) | None => 0 end
  | None => 0
  end.

Record ProcessRow := { pr_pid : rstr; pr_ppid : rstr; pr_image : rstr }.
Definition pid_num (s : rstr) : Z := unwrap_or 0 (parse_unsigned (2 ^ 64 - 1) s).
Definition process_cmp (column : Z) (a b : ProcessRow) : comparison :=
  if column =? 2 then str_cmp (to_lowercase (pr_image a)) (to_lowercase (pr_image b))
  else if column =? 1 then pid_num (pr_ppid a) ?= pid_num (pr_ppid b)
  else pid_num (pr_pid a) ?= pid_num (pr_pid b).
Definition sort_process_rows (rows : list ProcessRow) (column : Z) (ascending : bool) : list ProcessRow :=
  sort_by (fun a b => let ord := process_cmp column a b in
                      match (if ascending then ord else CompOpp ord) with Gt => false | _ => true end) rows.

(** ** app.rs: [refresh_service_model] *)

(** What the window and the controller hold of the table. *)
Record Table := { t_rows : list ServiceRow; t_visible_names : list rstr; t_selected : Z }.
Record View := { v_elevated : bool; v_managed_only : bool; v_running_only : bool; v_search : rstr; v_column : Z; v_ascending : bool }.

Definition refresh_service_model (defs : list ServiceDefinition) (v : View) (t : Table) : Table :=
  let selected_name := nth_error (t_visible_names t) (Z.to_nat (Z.max (t_selected t) 0)) in
  let shown := List.filter (fun d => matches_filter d (v_managed_only v) (v_running_only v) (v_search v)) defs in
  let rows := sort_service_rows (map (fun d => to_service_row d (v_elevated v)) shown) (v_column v) (v_ascending v) in
  let names := map sr_name rows in
  {| t_rows := rows; t_visible_names := names; t_selected := remap_selection selected_name names |}.

(** ** Sorting *)

Lemma str_le_total a b : str_le a b = false -> str_le b a = true.
Proof. unfold str_le. rewrite (str_cmp_antisym a b). by destruct (str_cmp a b). Qed.
Lemma str_le_trans a b c : str_le a b = true -> str_le b c = true -> str_le a c = true.
Proof.
  unfold str_le. destruct (str_cmp a b) eqn:E1, (str_cmp b c) eqn:E2; try done.
  - apply str_cmp_eq in E1 as ->. by rewrite E2.
  - apply str_cmp_eq in E1 as ->. by rewrite E2.
  - apply str_cmp_eq in E2 as <-. by rewrite E1.
  - by rewrite (str_cmp_lt_trans _ _ _ E1 E2).
Qed.

Definition in_order (column : Z) (ascending : bool) (a b : ServiceRow) : Prop :=
  if ascending then str_le (row_key column a) (row_key column b) = true else str_le (row_key column b) (row_key column a) = true.

Lemma StronglySorted_rev {A} (R : A -> A -> Prop) l : StronglySorted R l -> StronglySorted (fun a b => R b a) (rev l).
Proof.
  induction 1 as [|x l Hl IH Hx]; [constructor|]. cbn. apply StronglySorted_app_2; [|done|by repeat constructor].
  intros y z Hy ->%list_elem_of_singleton. apply list_elem_of_In, in_rev in Hy. rewrite List.Forall_forall in Hx. by apply Hx.
Qed.
Lemma StronglySorted_weaken {A} (R S : A -> A -> Prop) l : (forall a b, R a b -> S a b) -> StronglySorted R l -> StronglySorted S l.
Proof. intros H. induction 1 as [|x l Hl IH Hx]; [constructor|]. constructor; [done|]. eapply Forall_impl; [exact Hx|]. apply H. Qed.
Lemma sort_service_rows_spec rows column ascending :
  sort_service_rows rows column ascending ≡ₚ rows
  /\ StronglySorted (in_order column ascending) (sort_service_rows rows column ascending).
Proof.
  unfold sort_service_rows. set (le := fun a b => str_le (row_key column a) (row_key column b)).
  assert (StronglySorted le (sort_by le rows)) as Hs.
  { apply sort_by_sorted; [intros x y; apply str_le_total|intros x y z; apply str_le_trans]. }
  assert (sort_by le rows ≡ₚ rows) as Hp by apply sort_by_perm.
  destruct ascending; (split; [by rewrite <- ?Permutation_rev|]).
  - eapply StronglySorted_weaken; [|exact Hs]. intros x y H. by apply Is_true_true.
  - apply StronglySorted_rev in Hs. eapply StronglySorted_weaken; [|exact Hs]. intros x y H. by apply Is_true_true.
Qed.

Lemma position_spec {A} (p : A -> bool) l : match position p l with
  | Some i => exists x, nth_error l i = Some x /\ p x = true
  | None => forall x, In x l -> p x = false
  end.
Proof.
  induction l as [|x l IH]; cbn; [done|]. destruct (p x) eqn:E; [by exists x|]. destruct (position p l) as [i|]; cbn; [done|].
  intros y [<-|Hy]; [done|by apply IH].
Qed.

(** The table shows the services the filters ask for, each once, in the
    order of the chosen column, and the selection follows the service and not
    its place: the service that was selected is selected again wherever it now
    stands, or the first row when it is no longer shown; the selected row exists
    unless the table is empty. *)
Theorem selection_follows_service defs v t : Z.of_nat (length defs) <= 2 ^ 31 ->
  let t' := refresh_service_model defs v t in
  t_rows t' ≡ₚ map (fun d => to_service_row d (v_elevated v))
                   (List.filter (fun d => matches_filter d (v_managed_only v) (v_running_only v) (v_search v)) defs)
  /\ StronglySorted (in_order (v_column v) (v_ascending v)) (t_rows t')
  /\ t_visible_names t' = map sr_name (t_rows t')
  /\ (forall n, nth_error (t_visible_names t) (Z.to_nat (Z.max (t_selected t) 0)) = Some n -> In n (t_visible_names t') ->
        nth_error (t_visible_names t') (Z.to_nat (t_selected t')) = Some n)
  /\ 0 <= t_selected t' /\ (t_rows t' <> [] -> t_selected t' < Z.of_nat (length (t_rows t'))).
Proof.
  intros Hlen t'. unfold refresh_service_model in t'.
  set (shown := List.filter _ defs) in t' |- *. set (rows := sort_service_rows _ _ _) in t'. set (names := map sr_name rows) in t'. cbn in t'.
  destruct (sort_service_rows_spec (map (fun d => to_service_row d (v_elevated v)) shown) (v_column v) (v_ascending v)) as [Hp Hs].
  fold rows in Hp, Hs. cbn [t' t_rows t_visible_names t_selected]. split; [done|]. split; [done|]. split; [done|].
  assert (length names = length rows) as Hn by apply length_map.
  assert (Z.of_nat (length rows) <= 2 ^ 31) as Hr.
  { rewrite (Permutation_length Hp), length_map. assert (length shown <= length defs)%nat by apply filter_length_le. lia. }
  unfold remap_selection. destruct (nth_error (t_visible_names t) _) as [sel|]; [|split; [done|]; split; [done|]; destruct rows; [done|cbn; lia]].
  pose proof (position_spec (fun m => bool_decide (m = sel)) names) as Hpos. destruct (position _ names) as [i|].
  - destruct Hpos as (x & Hx & ->%bool_decide_eq_true). assert (i < length names)%nat by (apply nth_error_Some; congruence).
    unfold as_i32. rewrite Z.mod_small by lia. replace (_ <? _) with true by lia. rewrite Nat2Z.id. split; [congruence|]. split; lia.
  - split; [|split; [done|]; destruct rows; [done|cbn; lia]]. intros n [= <-] Hin. apply Hpos in Hin. by rewrite bool_decide_true in Hin.
Qed.
End Adapter.

(** ** Buttons and operations *)

Inductive Button := BStart | BStop | BPause | BContinue | BRotate | BRemove.
#[export] Instance Button_eq_dec : EqDecision Button.
Proof. solve_decision. Defined.
Definition enabled_in (b : Button) (r : ServiceRow) : bool :=
  match b with
  | BStart => can_start r | BStop => can_stop r | BPause => can_pause r | BContinue => can_continue r
  | BRotate => can_rotate r | BRemove => can_remove r
  end.
(** The operation behind a button, as the worker calls it. *)
Definition operation (b : Button) (n : rstr) : OpsProg rstr :=
  match b with
  | BStart => start n | BStop => stop n | BPause => pause n | BContinue => continue_service n
  | BRotate => rotate n | BRemove => remove n false true
  end.
Definition carries_out (b : Button) (n : rstr) (e : OpsEvent) : bool :=
  match e with
  | Ev (StartService m) _ => bool_decide (b = BStart /\ m = n)
  | Ev (ControlService m SigStop) _ => bool_decide (b = BStop /\ m = n)
  | Ev (ControlService m SigPause) _ => bool_decide (b = BPause /\ m = n)
  | Ev (ControlService m SigContinue) _ => bool_decide (b = BContinue /\ m = n)
  | Ev (ControlService m (SigUser c)) _ => bool_decide (b = BRotate /\ m = n /\ c = SERVICE_CONTROL_ROTATE)
  | Ev (RemoveService m) _ => bool_decide (b = BRemove /\ m = n)
  | _ => false
  end.

(** The service is still as it is shown, and its lock can be had. *)
Definition as_shown (d : ServiceDefinition) (e : OpsEvent) : Prop :=
  match e with
  | Ev c x => match c in OpsE X return result Error X -> Prop with
              | QueryService _ => fun x => exists q, x = Ok q /\ ns_config q = native d /\ ns_runtime q = runtime d
              | ReadManaged _ => fun x => x = Ok (managed d)
              | LockConfig _ => fun x => exists g, x = Ok g
              | _ => fun _ => True
              end x
  end.

Lemma shown_owned d q : ns_config q = native d -> ns_runtime q = runtime d -> definition_of q (managed d) = d.
Proof. unfold definition_of. intros -> ->. by destruct d. Qed.
Lemma at_rest_stopped d q : ns_runtime q = runtime d -> is_at_rest (runtime_state d) = true -> is_stopped (ns_runtime q) = true.
Proof. unfold is_stopped, runtime_state. intros ->. destruct (runtime d) as [r|]; [cbn|done]. by destruct (state r). Qed.

(** The ownership check passes, whatever follows. *)
Lemma owned_first {A} d n (k : OpsProg A) log r : is_managed d = true -> Forall (as_shown d) log ->
  runs (ensure_ngsm_managed n ;@ k) log r -> exists pre rest, log = pre ++ rest /\ Forall (as_shown d) rest /\ runs k rest r.
Proof.
  intros Hm HA H. destruct H as (x & l & -> & H). apply Forall_cons in HA as [(q & -> & Hq & Hr) HA]. cbn in H.
  destruct H as (y & m & -> & H). apply Forall_cons in HA as [Hy HA]. cbn in Hy. subst y. cbn in H.
  rewrite (shown_owned d q Hq Hr), Hm in H. cbn in H. by exists [Ev (QueryService n) (Ok q); Ev (ReadManaged n) (Ok (managed d))], m.
Qed.


(** ** Samples *)

Definition sample_definition (n : rstr) (s : ServiceState) : ServiceDefinition :=
  definition_of {| ns_config := {| name := n; display_name := n; description := None; startup := Manual;
                     service_type := Win32OwnProcess; image_path := &"C:\NGSM\ngsm.exe run-service " ++ n;
                     account := None; depend_on_services := []; depend_on_groups := [] |};
                   ns_runtime := Some (sample_state s); ns_query_error := None |} None.
Definition sample_query (n : rstr) (s : ServiceState) : NativeService :=
  let d := sample_definition n s in {| ns_config := native d; ns_runtime := runtime d; ns_query_error := None |}.


Definition sample_view : View :=
  {| v_elevated := true; v_managed_only := true; v_running_only := false; v_search := []; v_column := 0; v_ascending := true |}.
Lemma selection_follows_service_witness :
  let t := {| t_rows := []; t_visible_names := [&"b"]; t_selected := 0 |} in
  nth_error (t_visible_names (refresh_service_model to_ascii_lowercase [sample_definition &"b" Running; sample_definition &"A" Stopped] sample_view t))
    (Z.to_nat (t_selected (refresh_service_model to_ascii_lowercase [sample_definition &"b" Running; sample_definition &"A" Stopped] sample_view t))) = Some &"b".
Proof.
  cbv zeta.
  destruct (selection_follows_service to_ascii_lowercase [sample_definition &"b" Running; sample_definition &"A" Stopped] sample_view
              {| t_rows := []; t_visible_names := [&"b"]; t_selected := 0 |}) as (_ & _ & _ & H & _); [discriminate|].
  apply H; [reflexivity|]. vm_compute. right. left. reflexivity.
Defined.
