(* ===== verification/GuiConfig.v ===== *)
(** * The preferences of the GUI: gui [config.rs]

    Reading with defaults and clamping, and saving through a staging file that
    replaces the old one. The JSON codec and the file system are interfaces. *)

From Stdlib Require Import ZArith Lia List.
From S2P Require Import Prelude Text Model Effects EventLog.

Definition AUTO_REFRESH_SECS_MIN : Z := 1.
Definition AUTO_REFRESH_SECS_MAX : Z := 3600.

Record Config := { v : Z; auto_refresh : bool; auto_refresh_secs : Z; managed_only : bool }.
#[export] Instance Config_eq_dec : EqDecision Config.
Proof. solve_decision. Defined.
Definition Config_default : Config := {| v := 1; auto_refresh := false; auto_refresh_secs := 5; managed_only := true |}.

Record ConfigLoad := { cl_config : Config; cl_warning : option rstr }.

(** The derived serde codec, on the text of a file; an error is its display. *)
Class JsonCodec := { from_str : rstr -> result rstr Config; to_string_pretty : Config -> result rstr rstr }.
(** What serde promises of a derived codec. *)
Class JsonLaws `{JsonCodec} : Prop :=
  json_roundtrip : forall c, 0 <= v c <= u32_max -> 0 <= auto_refresh_secs c <= u32_max ->
    exists text, to_string_pretty c = Ok text /\ from_str text = Ok c.

Definition clamp (x lo hi : Z) : Z := if x <? lo then lo else if hi <? x then hi else x.

(** The configuration as it is left, and the warning. *)
Definition normalize (config : Config) : Config * option rstr :=
  let raw := auto_refresh_secs config in
  let clamped := clamp raw AUTO_REFRESH_SECS_MIN AUTO_REFRESH_SECS_MAX in
  if negb (clamped =? raw)
  then ({| v := v config; auto_refresh := auto_refresh config; auto_refresh_secs := clamped; managed_only := managed_only config |},
        Some (&"auto_refresh_secs clamped from " ++ to_dec raw ++ &" to " ++ to_dec clamped ++ &" (allowed: "
              ++ to_dec AUTO_REFRESH_SECS_MIN ++ &"..=" ++ to_dec AUTO_REFRESH_SECS_MAX ++ &")"))
  else (config, None).

Section Json.
Context `{JsonCodec}.

Definition parse_config (text : rstr) : ConfigLoad :=
  match from_str text with
  | Ok config => let '(config, warning) := normalize config in {| cl_config := config; cl_warning := warning |}
  | Err e => {| cl_config := Config_default; cl_warning := Some (&"config.json is corrupt — using defaults: " ++ e) |}
  end.
Definition to_json (config : Config) : result rstr rstr :=
  map_err (fun e => &"serialise config: " ++ e) (to_string_pretty config).

Definition config_path (appdata : option rstr) : option rstr :=
  option_map (fun a => join_path (join_path a &"NGSM") &"config.json") appdata.

(** [read] is [std::fs::read_to_string] of the path. *)
Definition load (appdata : option rstr) (read : rstr -> result io_error rstr) : ConfigLoad :=
  match config_path appdata with
  | None => {| cl_config := Config_default; cl_warning := None |}
  | Some path =>
      match read path with
      | Ok text => parse_config text
      | Err e =>
          if bool_decide (io_error_kind e = KNotFound) then {| cl_config := Config_default; cl_warning := None |}
          else {| cl_config := Config_default;
                  cl_warning := Some (&"config.json could not be read — using defaults: " ++ io_error_text e) |}
      end
  end.
End Json.

(** ** Saving *)

(** What a call fails with: the code of the operating system, if any, and the text. *)
Record IoFailure := { raw_os_error : option Z; failure_text : rstr }.

(** A staging file is known by its name; dropping it deletes the file. *)
Inductive SaveE : Type -> Type :=
| CreateDirAll (dir : rstr) : SaveE unit
| StageIn (dir prefix : rstr) : SaveE rstr
| WriteAll (staged : rstr) (bytes : rstr) : SaveE unit
| SyncAll (staged : rstr) : SaveE unit
| Persist (staged destination : rstr) : SaveE unit
| DeleteStaged (staged : rstr) : SaveE unit
| SleepFor (ms : Z) : SaveE unit.
Abbreviation SaveProg A := (Prog SaveE IoFailure A) (only parsing).
Abbreviation SaveEvent := (Event SaveE IoFailure) (only parsing).

Definition drop_staged (staged : rstr) : SaveProg unit := pthen (perform (DeleteStaged staged)) (fun _ => PRet (Ok tt)).
Definition stage_failure (context : rstr) (e : IoFailure) : IoFailure :=
  {| raw_os_error := None; failure_text := context ++ failure_text e |}.

(** [path.parent()] of a file below a directory, empty when there is none. *)
Fixpoint parent_dir (seen rest : rstr) (best : rstr) : rstr :=
  match rest with
  | [] => best
  | c :: r => parent_dir (seen ++ [c]) r (if (c =? c_backslash) || (c =? c_slash) then seen else best)
  end.

Definition transient (e : IoFailure) : bool :=
  match raw_os_error e with Some c => (c =? 5) || (c =? 32) || (c =? 33) | None => false end.

(** Attempts are numbered 0 to 4; [n] are left. *)
Fixpoint persist_from (n : nat) (attempt : Z) (staged destination : rstr) : SaveProg unit :=
  pthen (perform (Persist staged destination)) (fun r =>
    match r with
    | Ok _ => PRet (Ok tt)
    | Err e =>
        match n with
        | O => drop_staged staged ;@ PRet (Err (stage_failure &"replace config: " e))
        | S n =>
            if negb (transient e)
            then drop_staged staged ;@ PRet (Err (stage_failure &"replace config: " e))
            else pthen (perform (SleepFor (10 * (attempt + 1)))) (fun _ => persist_from n (attempt + 1) staged destination)
        end
    end).
Definition persist_staged (staged destination : rstr) : SaveProg unit := persist_from 4 0 staged destination.
Arguments persist_staged : simpl never.

Definition prepare (staged bytes : rstr) : SaveProg unit :=
  perform (WriteAll staged bytes) ;@ perform (SyncAll staged).

Definition atomic_write_with (path bytes : rstr) : SaveProg unit :=
  let dir := match parent_dir [] path [] with [] => &"." | d => d end in
  pmap_err (stage_failure (&"create " ++ dir ++ &": ")) (perform (CreateDirAll dir)) ;@
  let@ staged := pmap_err (stage_failure &"stage config: ") (perform (StageIn dir &".ngsm-config-")) in
  pthen (prepare staged bytes) (fun r =>
    match r with
    | Ok _ => persist_staged staged path
    | Err e => drop_staged staged ;@ PRet (Err (stage_failure &"write config: " e))
    end).

Definition text_failure (e : rstr) : IoFailure := {| raw_os_error := None; failure_text := e |}.
Definition save_to_path `{JsonCodec} (path : rstr) (config : Config) : SaveProg unit :=
  let@ bytes := plift (map_err text_failure (to_json config)) in atomic_write_with path bytes.
Definition save `{JsonCodec} (appdata : option rstr) (config : Config) : SaveProg unit :=
  match config_path appdata with
  | None => PRet (Err (text_failure &"APPDATA is not set"))
  | Some path => save_to_path path config
  end.

(** ** What a saved configuration is *)

Definition persisted (e : SaveEvent) : option (rstr * rstr) :=
  match e with
  | Ev c x => match c in SaveE X return result IoFailure X -> option (rstr * rstr) with
              | Persist staged destination => fun x => match x with Ok _ => Some (staged, destination) | Err _ => None end
              | _ => fun _ => None
              end x
  end.
Definition staged_file (e : SaveEvent) : option rstr :=
  match e with
  | Ev c x => match c in SaveE X return result IoFailure X -> option rstr with
              | StageIn _ _ => fun x => match x with Ok staged => Some staged | Err _ => None end
              | _ => fun _ => None
              end x
  end.
Definition deleted (e : SaveEvent) : option rstr := match e with Ev c _ => match c with DeleteStaged staged => Some staged | _ => None end end.
Definition attempts (e : SaveEvent) : option unit := match e with Ev c _ => match c with Persist _ _ => Some tt | _ => None end end.

(** The bytes were written out before the staging file took the place of [path],
    and there is no staging file left; or [path] was not touched, and what was
    staged is deleted. *)
Definition replaced (path bytes : rstr) (log : list SaveEvent) (r : result IoFailure unit) : Prop :=
  match r with
  | Ok _ => exists staged pre, omap persisted log = [(staged, path)] /\ omap staged_file log = [staged]
      /\ log = pre ++ [Ev (Persist staged path) (Ok tt)]
      /\ In (Ev (WriteAll staged bytes) (Ok tt)) pre /\ In (Ev (SyncAll staged) (Ok tt)) pre
  | Err _ => omap persisted log = [] /\ omap staged_file log = omap deleted log
  end.

Lemma persist_runs staged path n : forall attempt log r, runs (persist_from n attempt staged path) log r ->
  (length (omap attempts log) <= S n)%nat /\ omap staged_file log = []
  /\ match r with
     | Ok _ => omap persisted log = [(staged, path)] /\ exists pre, log = pre ++ [Ev (Persist staged path) (Ok tt)]
     | Err _ => omap persisted log = [] /\ omap deleted log = [staged]
     end.
Proof.
  induction n as [|n IH]; intros attempt log r (x & l & -> & H); cbn [pthen] in H; (destruct x as [[]|e];
    [destruct H as [-> ->]; split; [cbn; lia|]; split; [done|]; split; [done|]; by exists []|]).
  - destruct H as (y & m & -> & H). cbn in H. destruct H as [-> ->]. split; [cbn; lia|done].
  - destruct (negb (transient e)).
    + destruct H as (y & m & -> & H). cbn in H. destruct H as [-> ->]. split; [cbn; lia|done].
    + destruct H as (y & m & -> & H). cbn [pthen] in H. apply IH in H as (H1 & H2 & H3). split; [cbn; lia|]. split; [done|].
      destruct r; [|done]. destruct H3 as [H3 (pre & ->)]. split; [done|]. by exists (Ev (Persist staged path) (Err e) :: Ev (SleepFor (10 * (attempt + 1))) y :: pre).
Qed.

Lemma atomic_write_runs path bytes log r : runs (atomic_write_with path bytes) log r ->
  (length (omap attempts log) <= 5)%nat /\ replaced path bytes log r.
Proof.
  unfold atomic_write_with. set (dir := match parent_dir [] path [] with [] => _ | d => d end). intros (x & l & -> & H). cbn [pthen pmap_err pbind] in H.
  destruct x as [[]|e]; cbn in H; [|destruct H as [-> ->]; split; [cbn; lia|done]].
  destruct H as (x & m & -> & H). destruct x as [staged|e]; cbn in H; [|destruct H as [-> ->]; split; [cbn; lia|done]].
  destruct H as (w & k & -> & H). destruct w as [[]|e]; cbn in H.
  2: { destruct H as (y & k' & -> & H). cbn in H. destruct H as [-> ->]. split; [cbn; lia|done]. }
  destruct H as (y & k' & -> & H). destruct y as [[]|e]; cbn [pthen] in H.
  2: { destruct H as (z & k & -> & H). cbn in H. destruct H as [-> ->]. split; [cbn; lia|done]. }
  unfold persist_staged in H. apply persist_runs in H as (H1 & H2 & H3). split; [exact H1|]. destruct r as [[]|e]; cbn; rewrite H2.
  - destruct H3 as [H3 (pre & ->)]. exists staged, (Ev (CreateDirAll dir) (Ok tt) :: Ev (StageIn dir &".ngsm-config-") (Ok staged) :: Ev (WriteAll staged bytes) (Ok tt) :: Ev (SyncAll staged) (Ok tt) :: pre).
    split; [done|]. split; [done|]. split; [done|]. split; in_past.
  - destruct H3 as [-> ->]. done.
Qed.

Lemma normalize_in_range c : AUTO_REFRESH_SECS_MIN <= auto_refresh_secs c <= AUTO_REFRESH_SECS_MAX -> normalize c = (c, None).
Proof.
  intros Hc. unfold normalize, clamp, AUTO_REFRESH_SECS_MIN, AUTO_REFRESH_SECS_MAX in *.
  replace (_ <? 1) with false by lia. replace (3600 <? _) with false by lia. by rewrite Z.eqb_refl.
Qed.

(** Saving the preferences is all or nothing, and what was saved is what is
    loaded. A save replaces the file once, by a staging file of the same
    directory that was completely written and flushed, after at most five
    attempts; when it reports an error the old file was not touched and no staging
    file is left behind; and a configuration in range that was saved is loaded as
    it is, without a warning. *)
Theorem preferences_roundtrip `{JsonLaws} appdata c log r :
  0 <= v c <= u32_max -> AUTO_REFRESH_SECS_MIN <= auto_refresh_secs c <= AUTO_REFRESH_SECS_MAX ->
  runs (save appdata c) log r ->
  (length (omap attempts log) <= 5)%nat
  /\ match config_path appdata with
     | None => log = [] /\ exists e, r = Err e
     | Some path => exists text, replaced path text log r
          /\ forall read, read path = Ok text -> load appdata read = {| cl_config := c; cl_warning := None |}
     end.
Proof.
  intros Hv Hs Hr. unfold save in Hr. destruct (config_path appdata) as [path|] eqn:Ep.
  2: { destruct Hr as [-> ->]. split; [cbn; lia|]. eauto. }
  assert (0 <= auto_refresh_secs c <= u32_max) as Hu by (unfold AUTO_REFRESH_SECS_MIN, AUTO_REFRESH_SECS_MAX, u32_max in *; lia).
  destruct (json_roundtrip c Hv Hu) as (text & Ht & Hp).
  unfold save_to_path, to_json in Hr. rewrite Ht in Hr. cbn [map_err plift pbind pthen] in Hr. apply atomic_write_runs in Hr as [H1 H2]. split; [done|].
  exists text. split; [done|]. intros read Hread. unfold load. rewrite Ep, Hread. unfold parse_config. rewrite Hp.
  by rewrite normalize_in_range.
Qed.

(** Whatever is on disk, the interval the GUI runs with is in its range. *)
Theorem load_in_range `{JsonCodec} appdata read :
  AUTO_REFRESH_SECS_MIN <= auto_refresh_secs (cl_config (load appdata read)) <= AUTO_REFRESH_SECS_MAX.
Proof.
  assert (forall x, AUTO_REFRESH_SECS_MIN <= auto_refresh_secs (cl_config (parse_config x)) <= AUTO_REFRESH_SECS_MAX) as Hp.
  { intros x. unfold parse_config. destruct (from_str x) as [c|e]; [|cbn; unfold AUTO_REFRESH_SECS_MIN, AUTO_REFRESH_SECS_MAX; lia].
    unfold normalize. destruct (negb _) eqn:E; cbn.
    - unfold clamp, AUTO_REFRESH_SECS_MIN, AUTO_REFRESH_SECS_MAX. destruct (Z.ltb_spec (auto_refresh_secs c) 1); [lia|]. destruct (Z.ltb_spec 3600 (auto_refresh_secs c)); lia.
    - apply negb_false_iff, Z.eqb_eq in E. rewrite <- E. unfold clamp, AUTO_REFRESH_SECS_MIN, AUTO_REFRESH_SECS_MAX.
      destruct (Z.ltb_spec (auto_refresh_secs c) 1); [lia|]. destruct (Z.ltb_spec 3600 (auto_refresh_secs c)); lia. }
  unfold load. destruct (config_path appdata) as [path|]; [|cbn; unfold AUTO_REFRESH_SECS_MIN, AUTO_REFRESH_SECS_MAX; lia].
  destruct (read path) as [t|e]; [apply Hp|]. destruct (bool_decide _); cbn; unfold AUTO_REFRESH_SECS_MIN, AUTO_REFRESH_SECS_MAX; lia.
Qed.

(** ** A sample codec: the numbers, each followed by a comma *)

Definition sample_text (c : Config) : rstr :=
  [v c; if auto_refresh c then 1 else 0; auto_refresh_secs c; if managed_only c then 1 else 0].
#[export] Instance sample_codec : JsonCodec := {|
  from_str t := match t with
                | [a; b; s; m] => Ok {| v := a; auto_refresh := b =? 1; auto_refresh_secs := s; managed_only := m =? 1 |}
                | _ => Err &"expected value"
                end;
  to_string_pretty c := Ok (sample_text c) |}.
#[export] Instance sample_laws : JsonLaws.
Proof. intros [a r s m] _ _. eexists. split; [reflexivity|]. by destruct r, m. Qed.

(** The first replacement finds the destination in use. *)
Definition sample_disk (X : Type) (e : SaveE X) (tries : nat) : result IoFailure X * nat :=
  match e in SaveE X return result IoFailure X * nat with
  | StageIn dir prefix => (Ok (dir ++ prefix ++ &"1"), tries)
  | Persist _ _ => match tries with O => (Err {| raw_os_error := Some 32; failure_text := &"in use" |}, 1%nat) | _ => (Ok tt, tries) end
  | CreateDirAll _ | WriteAll _ _ | SyncAll _ | DeleteStaged _ | SleepFor _ => (Ok tt, tries)
  end.
Definition sample_save := interp sample_disk (save (Some &"C:\Users\me") Config_default) 0%nat.

Lemma preferences_roundtrip_witness :
  sample_save.1.1 = Ok tt /\ length (omap attempts sample_save.1.2) = 2%nat
  /\ exists path text, config_path (Some &"C:\Users\me") = Some path
       /\ replaced path text sample_save.1.2 sample_save.1.1
       /\ load (Some &"C:\Users\me") (fun _ => Ok text) = {| cl_config := Config_default; cl_warning := None |}.
Proof.
  split; [vm_compute; reflexivity|]. split; [vm_compute; reflexivity|].
  destruct (preferences_roundtrip (Some &"C:\Users\me") Config_default sample_save.1.2 sample_save.1.1) as [_ H];
    [unfold u32_max; cbn; lia|unfold AUTO_REFRESH_SECS_MIN, AUTO_REFRESH_SECS_MAX; cbn; lia|apply interp_runs|].
  destruct (config_path (Some &"C:\Users\me")) as [path|]; [|destruct H as [_ [e H]]; vm_compute in H; discriminate H].
  destruct H as (text & H1 & H2). exists path, text. split; [reflexivity|]. split; [exact H1|]. apply H2. reflexivity.
Defined.
