(* ===== verification/Scm.v ===== *)
(** * The SCM wrappers: servicemanager-win32 [handles.rs], [scm.rs], [control.rs]

    Every operation on the service control manager as a program of its system
    calls: which handles it opens with which rights, what it passes, and when it
    closes and clears what it holds. The decisions are those of [Win32] and
    [Acl]. *)

From Stdlib Require Import ZArith Lia List.
From S2P Require Import Prelude Text BTree Model Validate RegCodec Win32 Acl Effects OpsControl.

(** ** Calls *)

(** [QUERY_SERVICE_CONFIGW], [SERVICE_STATUS_PROCESS] and the entries of an
    enumeration, the fields that are read; a pointer is the memory it points to,
    [None] is null. *)
Record QUERY_SERVICE_CONFIGW := {
  lpDisplayName : option (list Z); lpBinaryPathName : option (list Z); lpServiceStartName : option (list Z);
  lpDependencies : option (list Z); dwStartType : Z; dwServiceType : Z }.
Record SERVICE_STATUS_PROCESS := {
  dwCurrentState : Z; dwProcessId : Z; dwWin32ExitCode : Z; dwCheckPoint : Z; dwWaitHint : Z; dwStatusServiceType : Z }.
Record ENUM_SERVICE_STATUS_PROCESSW := {
  lpServiceName : option (list Z); lpEnumDisplayName : option (list Z); ServiceStatusProcess : SERVICE_STATUS_PROCESS }.

(** The arguments of [CreateServiceW] and [ChangeServiceConfigW]; a null pointer
    is [None]. *)
Record CreateArgs := {
  ca_name : list Z; ca_display : list Z; ca_access : Z; ca_type : Z; ca_start : Z; ca_error : Z; ca_path : list Z;
  ca_dependencies : option (list Z); ca_account : option (list Z); ca_password : option (list Z) }.
Record ChangeArgs := {
  ch_type : Z; ch_start : Z; ch_error : Z; ch_path : option (list Z); ch_dependencies : option (list Z);
  ch_account : option (list Z); ch_password : option (list Z); ch_display : option (list Z) }.

(** What one [EnumServicesStatusExW] leaves: its error, the size it asks for, the
    entries it returned and where it resumes. *)
Record EnumAnswer := {
  en_error : option (Z * rstr); en_bytes_needed : Z; en_returned : list ENUM_SERVICE_STATUS_PROCESSW; en_resume : Z }.

Inductive ScmE : Type -> Type :=
| OpenSCManager (access : Z) : ScmE Z
| OpenServiceW (scm : Z) (name : list Z) (access : Z) : ScmE Z
| CloseServiceHandle (h : Z) : ScmE unit
| CreateServiceW (scm : Z) (a : CreateArgs) : ScmE Z
| DeleteService (h : Z) : ScmE unit
| ChangeServiceConfigW (h : Z) (a : ChangeArgs) : ScmE unit
| ChangeDescription (h : Z) (text : list Z) : ScmE unit
| StartServiceW (h : Z) : ScmE unit
| ControlServiceW (h code : Z) : ScmE unit
| QueryServiceStatusEx (h : Z) : ScmE SERVICE_STATUS_PROCESS
| QueryConfigSize (h : Z) : ScmE Z
| QueryServiceConfigW (h bytes : Z) : ScmE QUERY_SERVICE_CONFIGW
| QueryDelayedAutoStart (h : Z) : ScmE bool
| QueryDescriptionSize (h : Z) : ScmE Z
| QueryDescription (h bytes : Z) : ScmE (option (list Z))
| EnumServicesStatusExW (scm buffer resume : Z) : ScmE EnumAnswer
| ZeroizePassword : ScmE unit
| CurrentExe : ScmE (list Z)
| Canonicalize (path : list Z) : ScmE (list Z)
| EnvVarOs (name : rstr) : ScmE (option (list Z)).

(** A failed call is a code with its text; an error of the library is [Core]. *)
Inductive ScmFail := WinError (code : Z) (text : rstr) | Core (e : Error).
Abbreviation ScmProg A := (Prog ScmE ScmFail A) (only parsing).
Abbreviation ScmEvent := (Event ScmE ScmFail) (only parsing).

(** ** handles.rs *)

Definition ERROR_SERVICE_DOES_NOT_EXIST : Z := 1060.
Definition map_win_error (context : rstr) (f : ScmFail) : ScmFail :=
  match f with
  | WinError code text => Core (if code =? ERROR_SERVICE_DOES_NOT_EXIST then NotFound context else Scm (context ++ &": " ++ text))
  | Core e => Core e
  end.
Definition to_wide (s : rstr) : list Z := encode_utf16 s ++ [0].
Definition checked (r : result Error unit) : ScmProg unit := plift (map_err Core r).
Definition scm_call {X} (context : rstr) (e : ScmE X) : ScmProg X := pmap_err (map_win_error context) (perform e).

(** A handle lives as long as [k] runs. *)
Definition with_handle {A} (open : ScmProg Z) (k : Z -> ScmProg A) : ScmProg A :=
  let@ h := open in pfinally (k h) (perform (CloseServiceHandle h)).

Definition open_scm (access : Z) : ScmProg Z := scm_call &"OpenSCManager" (OpenSCManager access).
Definition open_service_handle (scm : Z) (name : rstr) (access : Z) : ScmProg Z :=
  scm_call (&"OpenService(" ++ name ++ &")") (OpenServiceW scm (to_wide name) access).

Definition SC_MANAGER_CONNECT : Z := 1.
Definition SC_MANAGER_CREATE_SERVICE : Z := 2.
Definition SC_MANAGER_ENUMERATE_SERVICE : Z := 4.
Definition SERVICE_QUERY_CONFIG : Z := 1.
Definition SERVICE_CHANGE_CONFIG : Z := 2.
Definition SERVICE_QUERY_STATUS : Z := 4.
Definition SERVICE_START : Z := 16.
Definition DELETE_ACCESS : Z := 65536.
Definition SERVICE_NO_CHANGE : Z := 4294967295.
Definition SERVICE_WIN32_OWN_PROCESS : Z := 16.
Definition SERVICE_ERROR_NORMAL : Z := 1.

(** ** scm.rs: queries *)

Fixpoint until_nul (m : list Z) : list Z := match m with [] => [] | c :: r => if c =? 0 then [] else c :: until_nul r end.
Definition wide_to_string (ptr : option (list Z)) : option rstr := option_map (fun m => from_utf16_lossy (until_nul m)) ptr.
Definition string_or_default (ptr : option (list Z)) : rstr := unwrap_or [] (wide_to_string ptr).
Definition nonzero (z : Z) : option Z := if z =? 0 then None else Some z.
Definition nonempty (s : rstr) : option rstr := if is_empty s then None else Some s.

Definition query_status (svc : Z) (name : rstr) : ScmProg ServiceRuntimeState :=
  let@ status := scm_call (&"QueryServiceStatusEx(" ++ name ++ &")") (QueryServiceStatusEx svc) in
  PRet (Ok {| state := classify_state (dwCurrentState status); pid := nonzero (dwProcessId status);
              exit_code := nonzero (dwWin32ExitCode status); checkpoint := Some (dwCheckPoint status);
              wait_hint_ms := Some (dwWaitHint status) |}).

Definition query_delayed_auto_start (svc : Z) : ScmProg bool :=
  scm_call &"QueryServiceConfig2(delayed)" (QueryDelayedAutoStart svc).
Definition query_description (svc : Z) : ScmProg (option rstr) :=
  let@ needed := perform (QueryDescriptionSize svc) in
  if needed =? 0 then PRet (Ok None)
  else
    let@ text := scm_call &"QueryServiceConfig2(description)" (QueryDescription svc needed) in
    PRet (Ok match wide_to_string text with Some s => nonempty s | None => None end).

(** [Display] of a failure, as it reaches a message. *)
Definition fail_display (f : ScmFail) : rstr := match f with WinError _ text => text | Core e => error_to_string e end.

(** The value, or a default with one more complaint. *)
Definition tolerate {A} (default : A) (what : rstr) (p : ScmProg A) : ScmProg (A * list rstr) :=
  pthen p (fun r => PRet (Ok match r with
    | Ok a => (a, [])
    | Err e => (default, [what ++ &" unreadable (" ++ fail_display e ++ &")"])
    end)).

Definition query_config (svc : Z) (name : rstr) : ScmProg (NativeServiceConfig * option rstr) :=
  let@ needed := perform (QueryConfigSize svc) in
  if needed =? 0 then PRet (Err (Core (Scm (&"QueryServiceConfig(" ++ name ++ &") returned 0 bytes"))))
  else
    let@ cfg := scm_call (&"QueryServiceConfig(" ++ name ++ &")") (QueryServiceConfigW svc needed) in
    let '(services, groups) := collect_dependencies (lpDependencies cfg) in
    let@ (delayed, e1) := tolerate false &"delayed-auto-start" (query_delayed_auto_start svc) in
    let@ (description, e2) := tolerate None &"description" (query_description svc) in
    let errors := e1 ++ e2 in
    PRet (Ok ({| name := name; display_name := string_or_default (lpDisplayName cfg); description := description;
                 startup := classify_startup (dwStartType cfg) delayed; service_type := classify_type (dwServiceType cfg);
                 image_path := string_or_default (lpBinaryPathName cfg);
                 account := nonempty (string_or_default (lpServiceStartName cfg));
                 depend_on_services := services; depend_on_groups := groups |},
              if is_empty errors then None else Some (join &"; " errors))).

Definition query_service_inner (scm : Z) (name : rstr) : ScmProg (NativeServiceConfig * ServiceRuntimeState * option rstr) :=
  with_handle (open_service_handle scm name (Z.lor SERVICE_QUERY_CONFIG SERVICE_QUERY_STATUS)) (fun svc =>
    let@ (config, query_error) := query_config svc name in
    let@ runtime := query_status svc name in
    PRet (Ok (config, runtime, query_error))).

Definition query_service (name : rstr) : ScmProg NativeService :=
  checked (validate_service_name name) ;@
  with_handle (open_scm SC_MANAGER_CONNECT) (fun scm =>
    let@ (config, runtime, query_error) := query_service_inner scm name in
    PRet (Ok {| ns_config := config; ns_runtime := Some runtime; ns_query_error := query_error |})).

(** ** scm.rs: the listing *)

Definition with_display (c : NativeServiceConfig) (display : rstr) : NativeServiceConfig :=
  if is_empty (display_name c)
  then {| name := name c; display_name := display; description := description c; startup := startup c;
          service_type := service_type c; image_path := image_path c; account := account c;
          depend_on_services := depend_on_services c; depend_on_groups := depend_on_groups c |}
  else c.
Definition partial_config (name display : rstr) (service_type : Z) : NativeServiceConfig :=
  {| Model.name := name; display_name := display; description := None; startup := UnknownStartup;
     Model.service_type := classify_type service_type; image_path := []; account := None;
     depend_on_services := []; depend_on_groups := [] |}.

Definition list_entry (scm : Z) (raw : ENUM_SERVICE_STATUS_PROCESSW) : ScmProg NativeService :=
  let name := string_or_default (lpServiceName raw) in
  let display := string_or_default (lpEnumDisplayName raw) in
  let s := ServiceStatusProcess raw in
  let runtime := {| state := classify_state (dwCurrentState s); pid := nonzero (dwProcessId s); exit_code := None;
                    checkpoint := Some (dwCheckPoint s); wait_hint_ms := Some (dwWaitHint s) |} in
  pthen (query_service_inner scm name) (fun r =>
    PRet (Ok match r with
      | Ok (config, _, query_error) =>
          {| ns_config := with_display config display; ns_runtime := Some runtime; ns_query_error := query_error |}
      | Err e =>
          {| ns_config := partial_config name display (dwStatusServiceType s); ns_runtime := Some runtime;
             ns_query_error := Some (&"SCM config query failed (" ++ fail_display e ++ &") — listed with partial data") |}
      end)).
Fixpoint list_entries (scm : Z) (entries : list ENUM_SERVICE_STATUS_PROCESSW) (out : list NativeService) : ScmProg (list NativeService) :=
  match entries with
  | [] => PRet (Ok out)
  | raw :: entries => let@ s := list_entry scm raw in list_entries scm entries (out ++ [s])
  end.

Definition ERROR_INSUFFICIENT_BUFFER : Z := 122.
Definition ERROR_MORE_DATA : Z := 234.

(** [None] is the end of [fuel]. *)
Fixpoint enumerate_from (fuel : nat) (scm buffer resume : Z) (out : list NativeService) : ScmProg (option (list NativeService)) :=
  match fuel with
  | O => PRet (Ok None)
  | S fuel =>
      let@ answer := perform (EnumServicesStatusExW scm buffer resume) in
      match en_error answer with
      | None => let@ out := list_entries scm (en_returned answer) out in PRet (Ok (Some out))
      | Some (code, text) =>
          if code =? ERROR_MORE_DATA
          then let@ out := list_entries scm (en_returned answer) out in enumerate_from fuel scm buffer (en_resume answer) out
          else if code =? ERROR_INSUFFICIENT_BUFFER
          then enumerate_from fuel scm (Z.max (buffer + en_bytes_needed answer) (buffer * 2)) (en_resume answer) out
          else PRet (Err (map_win_error &"EnumServicesStatusEx" (WinError code text)))
      end
  end.
Definition enumerate_services (fuel : nat) : ScmProg (option (list NativeService)) :=
  with_handle (open_scm (Z.lor SC_MANAGER_CONNECT SC_MANAGER_ENUMERATE_SERVICE)) (fun scm =>
    enumerate_from fuel scm (256 * 1024) 0 []).

(** ** control.rs: changes *)

Definition start_to_win32 (s : InstallStartType) : Z :=
  match s with StartManual => 3 | StartAutomatic => 2 | StartDisabled => 4 end.

(** The password's buffer is cleared as soon as the call has returned. *)
Definition zeroize_after {A} (password : option rstr) (call : ScmProg A) : ScmProg A :=
  pthen call (fun r =>
    match password with
    | Some _ => pthen (perform ZeroizePassword) (fun _ => PRet r)
    | None => PRet r
    end).

Definition change_service_description (svc : Z) (name value : rstr) : ScmProg unit :=
  checked (validate_native_string &"description" value) ;@
  scm_call (&"ChangeServiceConfig2(description:" ++ name ++ &")") (ChangeDescription svc (to_wide value)).

Definition complete_install (created : ScmProg Z) (configure rollback : Z -> ScmProg unit) : ScmProg unit :=
  with_handle created (fun svc =>
    pthen (configure svc) (fun r =>
      match r with
      | Ok _ => PRet (Ok tt)
      | Err primary =>
          pthen (rollback svc) (fun cleanup =>
            PRet (Err (Core (Scm (match cleanup with
              | Ok _ => &"service installation failed and was rolled back: " ++ fail_display primary
              | Err e => &"service installation failed (" ++ fail_display primary ++ &"); rollback also failed ("
                         ++ fail_display e ++ &")"
              end)))))
      end)).

Definition lift_core {A} (r : result Error A) : ScmProg A := plift (map_err Core r).
Definition encode_if_some (d : option ServiceDependencies) : ScmProg (option (list Z)) :=
  match d with
  | Some d => let@ w := lift_core (encode_dependencies d) in PRet (Ok (Some w))
  | None => PRet (Ok None)
  end.
(** The checks of the account and the password that precede the calls. *)
Definition check_account_password (account password : option rstr) : ScmProg unit :=
  checked (if_some validate_account account) ;@
  (if is_some password && is_none account then PRet (Err (Core password_needs_account)) else PRet (Ok tt)) ;@
  checked (if_some validate_password password).

Definition create_args (o : InstallOptions) (dependencies : option (list Z)) : CreateArgs :=
  {| ca_name := to_wide (opt_name o); ca_display := to_wide (opt_display_name o);
     ca_access := Z.lor SERVICE_QUERY_STATUS (Z.lor SERVICE_CHANGE_CONFIG DELETE_ACCESS);
     ca_type := SERVICE_WIN32_OWN_PROCESS; ca_start := start_to_win32 (opt_start_type o); ca_error := SERVICE_ERROR_NORMAL;
     ca_path := to_wide (opt_binary_path o); ca_dependencies := dependencies;
     ca_account := option_map to_wide (opt_account o); ca_password := option_map to_wide (opt_password o) |}.

Definition install_validated_service (o : InstallOptions) : ScmProg unit :=
  with_handle (open_scm (Z.lor SC_MANAGER_CONNECT SC_MANAGER_CREATE_SERVICE)) (fun scm =>
    let@ dependencies := encode_if_some (if deps_is_empty (opt_dependencies o) then None else Some (opt_dependencies o)) in
    check_account_password (opt_account o) (opt_password o) ;@
    complete_install
      (zeroize_after (opt_password o)
         (scm_call (&"CreateService(" ++ opt_name o ++ &")") (CreateServiceW scm (create_args o dependencies))))
      (fun svc => match opt_description o with
                  | Some description => change_service_description svc (opt_name o) description
                  | None => PRet (Ok tt)
                  end)
      (fun svc => scm_call &"DeleteService(install rollback)" (DeleteService svc))).
Definition install_service (o : InstallOptions) : ScmProg unit :=
  checked (validate_install_options o) ;@ install_validated_service o.

Definition remove_service (name : rstr) : ScmProg unit :=
  checked (validate_service_name name) ;@
  with_handle (open_scm SC_MANAGER_CONNECT) (fun scm =>
    with_handle (open_service_handle scm name DELETE_ACCESS) (fun svc =>
      scm_call (&"DeleteService(" ++ name ++ &")") (DeleteService svc))).

Record NativeUpdate := {
  nu_display_name : option rstr; nu_description : option rstr; nu_start_type : option InstallStartType;
  nu_dependencies : option ServiceDependencies; nu_account : option rstr; nu_password : option rstr }.
Definition changes_native (u : NativeUpdate) : bool :=
  is_some (nu_display_name u) || is_some (nu_start_type u) || is_some (nu_dependencies u)
  || is_some (nu_account u) || is_some (nu_password u).
Definition change_args (u : NativeUpdate) (dependencies : option (list Z)) : ChangeArgs :=
  {| ch_type := SERVICE_NO_CHANGE;
     ch_start := match nu_start_type u with Some s => start_to_win32 s | None => SERVICE_NO_CHANGE end;
     ch_error := SERVICE_NO_CHANGE; ch_path := None; ch_dependencies := dependencies;
     ch_account := option_map to_wide (nu_account u); ch_password := option_map to_wide (nu_password u);
     ch_display := option_map to_wide (nu_display_name u) |}.

Definition update_description (svc : Z) (name : rstr) (u : NativeUpdate) : ScmProg unit :=
  match nu_description u with
  | None => PRet (Ok tt)
  | Some description =>
      pthen (change_service_description svc name description) (fun r =>
        match r with
        | Ok _ => PRet (Ok tt)
        | Err error =>
            if changes_native u
            then PRet (Err (Core (Scm (&"native fields were changed, but description update failed: " ++ fail_display error
                   ++ &"; no automatic rollback was attempted (prior account passwords are unreadable)"))))
            else PRet (Err error)
        end)
  end.
Definition update_native_config (name : rstr) (u : NativeUpdate) : ScmProg unit :=
  checked (validate_native_update name (nu_display_name u) (nu_description u) (nu_dependencies u) (nu_account u) (nu_password u)) ;@
  with_handle (open_scm SC_MANAGER_CONNECT) (fun scm =>
    with_handle (open_service_handle scm name SERVICE_CHANGE_CONFIG) (fun svc =>
      let@ dependencies := encode_if_some (nu_dependencies u) in
      check_account_password (nu_account u) (nu_password u) ;@
      (if changes_native u
       then pmap_err (map_win_error (&"ChangeServiceConfig(" ++ name ++ &")"))
              (zeroize_after (nu_password u) (perform (ChangeServiceConfigW svc (change_args u dependencies))))
       else PRet (Ok tt)) ;@
      update_description svc name u)).

Definition start_service (name : rstr) : ScmProg unit :=
  checked (validate_service_name name) ;@
  with_handle (open_scm SC_MANAGER_CONNECT) (fun scm =>
    with_handle (open_service_handle scm name SERVICE_START) (fun svc =>
      scm_call (&"StartService(" ++ name ++ &")") (StartServiceW svc))).

Definition control_service (name : rstr) (signal : ServiceControlSignal) : ScmProg ServiceRuntimeState :=
  checked (check_signal signal) ;@
  checked (validate_service_name name) ;@
  with_handle (open_scm SC_MANAGER_CONNECT) (fun scm =>
    with_handle (open_service_handle scm name (signal_required_access signal)) (fun svc =>
      scm_call (&"ControlService(" ++ name ++ &")") (ControlServiceW svc (signal_to_win32 signal)) ;@
      let@ status := scm_call (&"QueryServiceStatusEx(" ++ name ++ &")") (QueryServiceStatusEx svc) in
      PRet (Ok {| state := classify_state (dwCurrentState status); pid := nonzero (dwProcessId status); exit_code := None;
                  checkpoint := Some (dwCheckPoint status); wait_hint_ms := Some (dwWaitHint status) |}))).

(** ** control.rs: where the runner is *)

Definition verbatim : rstr := &"\\?\".
Definition network_refused (shown : rstr) : Error :=
  error_other (&"refusing to install: the NGSM runner is on a network path ('" ++ shown
    ++ &"'). Install NGSM under a local, administrator-protected directory and run `install` from there.").
Definition writable_refused (shown : rstr) : Error :=
  error_other (&"refusing to install: the NGSM runner is under a user-writable location ('" ++ shown
    ++ &"'). Copy NGSM into an administrator-protected directory (e.g. under Program Files) and run `install` from there.").
Definition without_verbatim (s : rstr) : rstr := match strip_prefix verbatim s with Some r => r | None => s end.
Fixpoint trim_end_backslashes_rev (r : rstr) : rstr :=
  match r with c :: r' => if c =? c_backslash then trim_end_backslashes_rev r' else r | [] => [] end.
Definition trim_end_backslashes (s : rstr) : rstr := rev (trim_end_backslashes_rev (rev s)).

Definition USER_DIRECTORIES : list rstr := [&"USERPROFILE"; &"TEMP"; &"TMP"; &"PUBLIC"; &"LOCALAPPDATA"; &"APPDATA"].

(** The directory a variable names, lower-cased and without its prefix. *)
Definition user_directory (var : rstr) : ScmProg (option rstr) :=
  let@ raw := perform (EnvVarOs var) in
  match raw with
  | None => PRet (Ok None)
  | Some raw_dir =>
      pthen (perform (Canonicalize raw_dir)) (fun r =>
        PRet (Ok match r with
          | Err _ => None
          | Ok dir => match from_utf16 dir with
                      | None => None
                      | Some text => nonempty (without_verbatim (to_ascii_lowercase text))
                      end
          end))
  end.
Fixpoint outside_directories (vars : list rstr) (exe_path shown : rstr) : ScmProg unit :=
  match vars with
  | [] => PRet (Ok tt)
  | var :: vars =>
      let@ dir := user_directory var in
      match dir with
      | None => outside_directories vars exe_path shown
      | Some dir =>
          if starts_with (trim_end_backslashes dir ++ [c_backslash]) exe_path then PRet (Err (Core (writable_refused shown)))
          else outside_directories vars exe_path shown
      end
  end.

Definition is_unc (lower : rstr) : bool :=
  starts_with &"\\?\unc\" lower || (starts_with &"\\" lower && negb (starts_with verbatim lower)).
Definition validate_runner_location_heuristics (canonical : list Z) : ScmProg unit :=
  match from_utf16 canonical with
  | None => PRet (Err (Core (error_other &"cannot validate runner location: path contains invalid Unicode")))
  | Some text =>
      let lower := to_ascii_lowercase text in
      if is_unc lower then PRet (Err (Core (network_refused text)))
      else outside_directories USER_DIRECTORIES (without_verbatim lower) text
  end.

Definition canonicalize_runner_path (exe : list Z) : ScmProg (list Z) :=
  let@ canonical := pmap_err (fun f => Core (error_other (&"cannot resolve runner path '" ++ from_utf16_lossy exe ++ &"': " ++ fail_display f)))
                      (perform (Canonicalize exe)) in
  match from_utf16 canonical with
  | None => PRet (Err (Core (error_other (&"cannot validate runner location: path contains non-UTF-8 characters: "
                                          ++ from_utf16_lossy canonical))))
  | Some _ => PRet (Ok canonical)
  end.

(** The components of a canonical path: its verbatim prefix with the drive, and
    the names between backslashes. *)
Definition canon_path (text : rstr) : CanonPath :=
  match strip_prefix verbatim text with
  | Some rest => {| p_root := verbatim ++ take 3 rest;
                    p_comps := List.filter (fun c => negb (is_empty c)) (split_on (Z.eqb c_backslash) (drop 3 rest)) |}
  | None => {| p_root := take 3 text;
               p_comps := List.filter (fun c => negb (is_empty c)) (split_on (Z.eqb c_backslash) (drop 3 text)) |}
  end.

Section Runner.
(** What Windows says of security descriptors. *)
Variables (os : SidApi) (security_of : CanonPath -> result Z SecurityInfo).

Definition validate_runner_location (exe : list Z) : ScmProg (list Z) :=
  let@ canonical := canonicalize_runner_path exe in
  validate_runner_location_heuristics canonical ;@
  checked (match from_utf16 canonical with
           | Some text => validate_runner_acl_chain os security_of (canon_path text)
           | None => Ok tt
           end) ;@
  PRet (Ok canonical).

Definition build_run_service_command (name : rstr) : ScmProg rstr :=
  checked (validate_service_name name) ;@
  let@ exe := pmap_err (fun f => Core (error_other (&"current_exe: " ++ fail_display f))) (perform CurrentExe) in
  let@ canonical := validate_runner_location exe in
  lift_core (command_for_validated_runner name (from_utf16 canonical)).

Definition repair_args (path : rstr) : ChangeArgs :=
  {| ch_type := SERVICE_WIN32_OWN_PROCESS; ch_start := SERVICE_NO_CHANGE; ch_error := SERVICE_NO_CHANGE;
     ch_path := Some (to_wide path); ch_dependencies := None; ch_account := None; ch_password := None; ch_display := None |}.
Definition repair_service_runner (name : rstr) : ScmProg unit :=
  checked (validate_service_name name) ;@
  let@ binary_path := build_run_service_command name in
  with_handle (open_scm SC_MANAGER_CONNECT) (fun scm =>
    with_handle (open_service_handle scm name SERVICE_CHANGE_CONFIG) (fun svc =>
      scm_call (&"ChangeServiceConfig(repair-runner:" ++ name ++ &")") (ChangeServiceConfigW svc (repair_args binary_path)))).
End Runner.
