(* ===== verification/ScmSpec.v ===== *)
(** * What the SCM wrappers promise: theorems about [Scm]

    Handles are used only while they are open and only for what they were opened
    for, and all of them are closed; an installation is a transaction; passwords do
    not stay in memory; a listing survives a broken service. *)

From Stdlib Require Import ZArith Lia List.
From S2P Require Import Prelude Text BTree Model Validate Win32 Acl Effects Monitor OpsControl Scm.

(** ** Handles *)

(** An open handle: of the manager or of a service, with the rights it was
    opened with. *)
Record OpenHandle := { oh_handle : Z; oh_manager : bool; oh_access : Z }.

Fixpoint close_first (h : Z) (t : list OpenHandle) : list OpenHandle :=
  match t with
  | [] => []
  | o :: t => if oh_handle o =? h then t else o :: close_first h t
  end.

Definition opened_by (e : ScmEvent) : option OpenHandle :=
  match e with
  | Ev c x => match c in ScmE X return result ScmFail X -> option OpenHandle with
              | OpenSCManager a => fun x => match x with Ok h => Some (Build_OpenHandle h true a) | Err _ => None end
              | OpenServiceW _ _ a => fun x => match x with Ok h => Some (Build_OpenHandle h false a) | Err _ => None end
              | CreateServiceW _ a => fun x => match x with Ok h => Some (Build_OpenHandle h false (ca_access a)) | Err _ => None end
              | _ => fun _ => None
              end x
  end.
Definition track (t : list OpenHandle) (e : ScmEvent) : list OpenHandle :=
  match opened_by e with
  | Some o => o :: t
  | None => match e with Ev (CloseServiceHandle h) _ => close_first h t | _ => t end
  end.

(** The rights Windows demands for a control code. *)
Definition control_right (code : Z) : Z :=
  if code =? 1 then 32 else if (code =? 2) || (code =? 3) then 64 else if code =? 4 then 128 else 256.
(** The handle a call is made on, its kind and the rights the call needs. *)
Definition demands (e : ScmEvent) : option (Z * bool * Z) :=
  match e with
  | Ev c _ => match c with
              | OpenServiceW scm _ _ => Some (scm, true, SC_MANAGER_CONNECT)
              | CreateServiceW scm _ => Some (scm, true, SC_MANAGER_CREATE_SERVICE)
              | EnumServicesStatusExW scm _ _ => Some (scm, true, SC_MANAGER_ENUMERATE_SERVICE)
              | DeleteService h => Some (h, false, DELETE_ACCESS)
              | ChangeServiceConfigW h _ | ChangeDescription h _ => Some (h, false, SERVICE_CHANGE_CONFIG)
              | StartServiceW h => Some (h, false, SERVICE_START)
              | ControlServiceW h code => Some (h, false, control_right code)
              | QueryServiceStatusEx h => Some (h, false, SERVICE_QUERY_STATUS)
              | QueryConfigSize h | QueryServiceConfigW h _ | QueryDelayedAutoStart h | QueryDescriptionSize h | QueryDescription h _ =>
                  Some (h, false, SERVICE_QUERY_CONFIG)
              | _ => None
              end
  end.

Section Permitted.
(** The services that may be named. *)
Variable names : list Z -> Prop.

Definition permitted (t : list OpenHandle) (e : ScmEvent) : Prop :=
  (forall h manager right, demands e = Some (h, manager, right) ->
     exists access, In (Build_OpenHandle h manager access) t /\ Z.land access right = right)
  /\ match e with
     | Ev (CloseServiceHandle h) _ => exists o, In o t /\ oh_handle o = h
     | Ev (OpenServiceW _ n _) _ => names n
     | Ev (CreateServiceW _ a) _ => names (ca_name a)
     | _ => True
     end.

(** [p] leaves exactly the handles open that were open. *)
Definition keeps {A} (s : list OpenHandle) (p : ScmProg A) : Prop := spec track permitted (fun t => t = s) p (fun _ t => t = s).

Lemma holds_ret {A} s (r : result ScmFail A) : keeps s (PRet r).
Proof. apply spec_ret. done. Qed.
Lemma holds_then {A B} s (p : ScmProg A) (k : result ScmFail A -> ScmProg B) : keeps s p -> (forall r, keeps s (k r)) -> keeps s (pthen p k).
Proof.
  intros Hp Hk t log r -> (l1 & l2 & a & -> & H1 & H2)%runs_then. destruct (Hp s l1 a eq_refl H1) as [O1 W1].
  destruct (Hk a s l2 r eq_refl H2) as [O2 W2]. rewrite watch_app, W1. split; [apply obeys_app; by rewrite W1|done].
Qed.
Lemma holds_bind {A B} s (p : ScmProg A) (k : A -> ScmProg B) : keeps s p -> (forall a, keeps s (k a)) -> keeps s (pbind p k).
Proof. intros Hp Hk. apply holds_then; [done|]. intros [a|e]; [apply Hk|apply holds_ret]. Qed.
Lemma holds_map_err {A} s f (p : ScmProg A) : keeps s p -> keeps s (pmap_err f p).
Proof. intros H. apply holds_then; [done|]. intros r. apply holds_ret. Qed.
Lemma holds_call {X} s (e : ScmE X) : (forall x, permitted s (Ev e x) /\ track s (Ev e x) = s) -> keeps s (perform e).
Proof. intros H. apply spec_perform. intros t x ->. apply H. Qed.
Lemma holds_checked s r : keeps s (checked r).
Proof. apply holds_ret. Qed.

(** A handle is open while its scope runs, and closed after it. *)
Definition opens (s : list OpenHandle) (manager : bool) (access : Z) (p : ScmProg Z) : Prop :=
  spec track permitted (fun t => t = s) p (fun r => match r with Ok h => fun t => t = Build_OpenHandle h manager access :: s | Err _ => fun t => t = s end).
Lemma holds_handle {A} s manager access open (k : Z -> ScmProg A) :
  opens s manager access open -> (forall h, keeps (Build_OpenHandle h manager access :: s) (k h)) -> keeps s (with_handle open k).
Proof.
  intros Ho Hk. apply (spec_bind _ _ _ _ _ (fun h t => t = Build_OpenHandle h manager access :: s)); [exact Ho|]. intros h.
  intros t log r -> (l1 & l2 & a & -> & H1 & (x & l & -> & [-> ->]))%runs_then. destruct (Hk h _ l1 a eq_refl H1) as [O1 W1].
  rewrite watch_app, W1. split.
  - apply obeys_app. split; [done|]. rewrite W1. split; [|done]. split; [done|]. eexists. split; [by left|done].
  - cbn. by rewrite Z.eqb_refl.
Qed.
Lemma opens_scm s access : opens s true access (open_scm access).
Proof.
  intros t log r -> (x & l & -> & [-> ->]). destruct x as [h|e]; cbn; (split; [|done]); (split; [split; [done|exact I]|done]).
Qed.
Lemma opens_service s scm m n access : In (Build_OpenHandle scm true m) s -> Z.land m SC_MANAGER_CONNECT = SC_MANAGER_CONNECT -> names (to_wide n) ->
  opens s false access (open_service_handle scm n access).
Proof.
  intros Hin Hm Hn t log r -> (x & l & -> & [-> ->]).
  assert (forall x, permitted s (Ev (OpenServiceW scm (to_wide n) access) x)) as Hp.
  { intros y. split; [|exact Hn]. intros h manager right [= <- <- <-]. by exists m. }
  destruct x as [h|e]; cbn; (split; [split; [apply Hp|done]|done]).
Qed.


(** One call on a service handle that is open. *)
Ltac call_ok := apply holds_call; intros ?; split;
  [split; [intros ? ? ? [= <- <- <-]; eexists; split; [repeat first [left; reflexivity|right]|reflexivity]|exact I]|reflexivity].
Ltac free_call := apply holds_call; intros ?; split; [split; [intros ? ? ? [=]|exact I]|reflexivity].
Ltac keeps_step :=
  match goal with
  | |- keeps _ (PRet _) => apply holds_ret
  | |- keeps _ (plift _) => apply holds_ret
  | |- keeps _ (checked _) => apply holds_checked
  | |- keeps _ (lift_core _) => apply holds_ret
  | |- keeps _ (pbind _ _) => apply holds_bind; [|intros ?]
  | |- keeps _ (pthen _ _) => apply holds_then; [|intros ?]
  | |- keeps _ (pmap_err _ _) => apply holds_map_err
  | |- keeps _ (scm_call _ _) => apply holds_map_err
  | |- keeps _ (perform _) => first [call_ok|free_call]
  | |- keeps _ (tolerate _ _ _) => apply holds_then; [|intros ?]
  | |- keeps _ (if ?b then _ else _) => destruct b
  | |- keeps _ (match ?o with _ => _ end) => destruct o
  | |- keeps _ (let '(_, _) := ?o in _) => destruct o
  end.
Ltac keeps_all := repeat keeps_step.

Lemma query_service_inner_keeps s scm m n : In (Build_OpenHandle scm true m) s -> Z.land m SC_MANAGER_CONNECT = SC_MANAGER_CONNECT -> names (to_wide n) ->
  keeps s (query_service_inner scm n).
Proof.
  intros Hin Hm Hn. eapply holds_handle; [by eapply opens_service|]. intros svc. unfold query_config, query_delayed_auto_start, query_description, query_status. keeps_all.
Qed.

Lemma on_service_keeps {A} n access (k : Z -> ScmProg A) : names (to_wide n) ->
  (forall scm svc, keeps [Build_OpenHandle svc false access; Build_OpenHandle scm true SC_MANAGER_CONNECT] (k svc)) ->
  keeps [] (with_handle (open_scm SC_MANAGER_CONNECT) (fun scm => with_handle (open_service_handle scm n access) k)).
Proof.
  intros Hn Hk. eapply holds_handle; [apply opens_scm|]. intros scm.
  eapply holds_handle; [eapply opens_service; [by left|reflexivity|done]|]. intros svc. apply Hk.
Qed.
Lemma query_service_keeps n : names (to_wide n) -> keeps [] (query_service n).
Proof.
  intros Hn. apply holds_bind; [apply holds_checked|]. intros _. eapply holds_handle; [apply opens_scm|]. intros scm.
  apply holds_bind; [eapply query_service_inner_keeps; [by left|reflexivity|done]|]. intros [[config runtime] e]. apply holds_ret.
Qed.
Lemma list_entries_keeps s scm m entries : (forall n, names n) -> In (Build_OpenHandle scm true m) s -> Z.land m SC_MANAGER_CONNECT = SC_MANAGER_CONNECT ->
  forall out, keeps s (list_entries scm entries out).
Proof.
  intros Hn Hin Hm. induction entries as [|raw entries IH]; intros out; cbn [list_entries]; [apply holds_ret|].
  apply holds_bind; [|intros x; apply IH]. unfold list_entry. apply holds_then; [by eapply query_service_inner_keeps|]. intros r. apply holds_ret.
Qed.
Lemma enumerate_from_keeps scm access fuel : (forall n, names n) ->
  Z.land access SC_MANAGER_CONNECT = SC_MANAGER_CONNECT -> Z.land access SC_MANAGER_ENUMERATE_SERVICE = SC_MANAGER_ENUMERATE_SERVICE ->
  forall buffer resume out, keeps [Build_OpenHandle scm true access] (enumerate_from fuel scm buffer resume out).
Proof.
  intros Hn H1 H2. induction fuel as [|fuel IH]; intros buffer resume out; cbn [enumerate_from]; [apply holds_ret|].
  apply holds_bind; [apply holds_call; intros x; split; [split; [intros ? ? ? [= <- <- <-]; eexists; split; [by left|done]|exact I]|done]|]. intros answer.
  destruct (en_error answer) as [[code text]|]; [|apply holds_bind; [eapply list_entries_keeps; [done|by left|done]|intros ?; apply holds_ret]].
  destruct (code =? ERROR_MORE_DATA); [apply holds_bind; [eapply list_entries_keeps; [done|by left|done]|intros ?; apply IH]|].
  destruct (code =? ERROR_INSUFFICIENT_BUFFER); [apply IH|apply holds_ret].
Qed.
Lemma enumerate_services_keeps fuel : (forall n, names n) -> keeps [] (enumerate_services fuel).
Proof. intros Hn. eapply holds_handle; [apply opens_scm|]. intros scm. by apply enumerate_from_keeps. Qed.

Lemma description_keeps s h access n value : In (Build_OpenHandle h false access) s -> Z.land access SERVICE_CHANGE_CONFIG = SERVICE_CHANGE_CONFIG ->
  keeps s (change_service_description h n value).
Proof.
  intros Hin Ha. unfold change_service_description. keeps_step; [keeps_step|]. keeps_step. apply holds_call. intros x. split; [|done].
  split; [|exact I]. intros ? ? ? [= <- <- <-]. eauto.
Qed.
Lemma zeroize_keeps {A} s p (c : ScmProg A) : keeps s c -> keeps s (zeroize_after p c).
Proof. intros H. unfold zeroize_after. apply holds_then; [done|]. intros r. keeps_all. Qed.
Lemma account_keeps s a p : keeps s (check_account_password a p).
Proof. unfold check_account_password. keeps_all. Qed.
Lemma encode_keeps s d : keeps s (encode_if_some d).
Proof. unfold encode_if_some. keeps_all. Qed.

Lemma install_service_keeps o : names (to_wide (opt_name o)) -> keeps [] (install_service o).
Proof.
  intros Hn. apply holds_bind; [apply holds_checked|]. intros _. eapply holds_handle; [apply opens_scm|]. intros scm.
  apply holds_bind; [apply encode_keeps|]. intros deps. apply holds_bind; [apply account_keeps|]. intros _.
  unfold complete_install. eapply (holds_handle _ false (ca_access (create_args o deps))).
  - unfold zeroize_after. intros t log r -> H. apply runs_then in H as (l1 & l2 & a & -> & (x & l & -> & [-> ->]) & H2).
    assert (forall x, permitted [Build_OpenHandle scm true (Z.lor SC_MANAGER_CONNECT SC_MANAGER_CREATE_SERVICE)] (Ev (CreateServiceW scm (create_args o deps)) x)) as Hp.
    { intros y. split; [|exact Hn]. intros ? ? ? [= <- <- <-]. eexists. split; [by left|reflexivity]. }
    assert (exists z, l2 = z /\ r = map_err (map_win_error (&"CreateService(" ++ opt_name o ++ &")")) x /\ (z = [] \/ exists u, z = [Ev ZeroizePassword u])) as (z & -> & -> & Hz).
    { destruct (opt_password o); [destruct H2 as (u & l' & -> & [-> ->]); eauto 6|destruct H2 as [-> ->]; eauto]. }
    assert (forall t y, permitted t (Ev ZeroizePassword y)) as Hq by (intros t y; split; [intros ? ? ? [=]|exact I]).
    destruct x as [h|e]; destruct Hz as [->|[u ->]]; (split; [|reflexivity]); (split; [apply Hp|]); [exact I|split; [apply Hq|exact I]|exact I|split; [apply Hq|exact I]].
  - intros svc. apply holds_then.
    + destruct (opt_description o); [|apply holds_ret]. eapply description_keeps; [by left|reflexivity].
    + intros [u|primary]; [apply holds_ret|]. apply holds_then; [keeps_all|]. intros cleanup. apply holds_ret.
Qed.

Lemma remove_service_keeps n : names (to_wide n) -> keeps [] (remove_service n).
Proof. intros Hn. unfold remove_service. keeps_step; [keeps_step|]. apply on_service_keeps; [done|]. intros scm svc. keeps_all. Qed.
Lemma start_service_keeps n : names (to_wide n) -> keeps [] (start_service n).
Proof. intros Hn. unfold start_service. keeps_step; [keeps_step|]. apply on_service_keeps; [done|]. intros scm svc. keeps_all. Qed.
Lemma signal_rights signal : check_signal signal = Ok tt ->
  Z.land (signal_required_access signal) (control_right (signal_to_win32 signal)) = control_right (signal_to_win32 signal)
  /\ Z.land (signal_required_access signal) SERVICE_QUERY_STATUS = SERVICE_QUERY_STATUS.
Proof.
  destruct signal as [| | | |c]; try (intros _; split; reflexivity). cbn. destruct (_ && _) eqn:E; [|done]. intros _. apply andb_true_iff in E as [E _].
  unfold control_right. replace (c =? 1) with false by lia. replace (c =? 2) with false by lia. replace (c =? 3) with false by lia.
  replace (c =? 4) with false by lia. split; reflexivity.
Qed.
Lemma control_service_keeps n signal : names (to_wide n) -> keeps [] (control_service n signal).
Proof.
  intros Hn. unfold control_service. destruct (check_signal signal) as [[]|e] eqn:E; [|apply holds_ret]. apply signal_rights in E as [E1 E2].
  apply holds_bind; [apply holds_ret|]. intros _. keeps_step; [keeps_step|]. apply on_service_keeps; [done|]. intros scm svc.
  keeps_step; [|keeps_step; [|keeps_step]]; apply holds_map_err, holds_call; intros x; (split; [|done]); (split; [|exact I]);
    intros ? ? ? [= <- <- <-]; eexists; (split; [by left|done]).
Qed.
Lemma update_native_config_keeps n u : names (to_wide n) -> keeps [] (update_native_config n u).
Proof.
  intros Hn. unfold update_native_config. keeps_step; [keeps_step|]. apply on_service_keeps; [done|]. intros scm svc.
  apply holds_bind; [apply encode_keeps|]. intros deps. apply holds_bind; [apply account_keeps|]. intros _.
  apply holds_bind; [destruct (changes_native u); [apply holds_map_err, zeroize_keeps; keeps_all|apply holds_ret]|]. intros _.
  unfold update_description. destruct (nu_description u); [|apply holds_ret].
  apply holds_then; [eapply description_keeps; [by left|reflexivity]|]. intros r. keeps_all.
Qed.

Section Runner.
Variables (os : SidApi) (security_of : CanonPath -> result Z SecurityInfo).
Lemma outside_keeps s vars exe shown : keeps s (outside_directories vars exe shown).
Proof.
  induction vars as [|var vars IH]; cbn [outside_directories]; [apply holds_ret|]. apply holds_bind.
  - unfold user_directory. keeps_all.
  - intros [dir|]; [destruct (starts_with _ _); [apply holds_ret|exact IH]|exact IH].
Qed.
Lemma runner_command_keeps s n : keeps s (build_run_service_command os security_of n).
Proof.
  unfold build_run_service_command, validate_runner_location, canonicalize_runner_path, validate_runner_location_heuristics.
  repeat first [apply outside_keeps|keeps_step].
Qed.
Lemma repair_service_runner_keeps n : names (to_wide n) -> keeps [] (repair_service_runner os security_of n).
Proof.
  intros Hn. unfold repair_service_runner. keeps_step; [keeps_step|]. keeps_step; [apply runner_command_keeps|]. apply on_service_keeps; [done|]. intros scm svc. keeps_all.
Qed.
End Runner.
End Permitted.

(** ** The operations *)

Section Operations.
Variables (os : SidApi) (security_of : CanonPath -> result Z SecurityInfo).

Inductive ScmOp :=
| OpQuery (n : rstr) | OpEnumerate (fuel : nat) | OpInstall (o : InstallOptions) | OpRemove (n : rstr)
| OpUpdate (n : rstr) (u : NativeUpdate) | OpStart (n : rstr) | OpControl (n : rstr) (s : ServiceControlSignal) | OpRepair (n : rstr).
(** An operation, its answer apart. *)
Definition ignore {A} (p : ScmProg A) : ScmProg unit := let@ _ := p in PRet (Ok tt).
Definition operate (op : ScmOp) : ScmProg unit :=
  match op with
  | OpQuery n => ignore (query_service n) | OpEnumerate fuel => ignore (enumerate_services fuel)
  | OpInstall o => install_service o | OpRemove n => remove_service n | OpUpdate n u => update_native_config n u
  | OpStart n => start_service n | OpControl n s => ignore (control_service n s) | OpRepair n => repair_service_runner os security_of n
  end.
Definition subject (op : ScmOp) : option rstr :=
  match op with
  | OpQuery n | OpRemove n | OpUpdate n _ | OpStart n | OpControl n _ | OpRepair n => Some n
  | OpInstall o => Some (opt_name o)
  | OpEnumerate _ => None
  end.
(** The one service an operation names, or any for the listing. *)
Definition may_name (op : ScmOp) (w : list Z) : Prop := match subject op with Some n => w = to_wide n | None => True end.

(** C36. The wrappers of the service control manager need no more than they have
    asked for, and keep nothing. In every run of every operation, each call is made
    on a handle that is open, of the right kind, and was opened with the rights
    Windows demands for that call; no service is opened or created but the one the
    operation is for; every handle is closed when the operation ends, also on
    every error path; and with an invalid name no call is made at all. *)
Theorem scm_calls_authorized op log r : runs (operate op) log r ->
  obeys track (permitted (may_name op)) [] log /\ watch track [] log = []
  /\ match subject op with Some n => validate_service_name n <> Ok tt -> log = [] | None => True end.
Proof.
  intros Hr. assert (keeps (may_name op) [] (operate op)) as Hk.
  { assert (forall A (p : ScmProg A), keeps (may_name op) [] p -> keeps (may_name op) [] (ignore p)) as Hi
      by (intros A p Hp; apply holds_bind; [done|intros a; apply holds_ret]).
    destruct op; cbn [operate]; try apply Hi.
    - by apply query_service_keeps.
    - by apply enumerate_services_keeps.
    - by apply install_service_keeps.
    - by apply remove_service_keeps.
    - by apply update_native_config_keeps.
    - by apply start_service_keeps.
    - by apply control_service_keeps.
    - by apply repair_service_runner_keeps. }
  destruct (Hk [] log r eq_refl Hr) as [Ho Hw]. split; [done|]. split; [done|].
  clear Hk Ho Hw. destruct (subject op) as [n|] eqn:Es; [|done]. intros Hn.
  destruct (validate_service_name n) as [[]|e] eqn:E; [done|].
  destruct op; cbn [subject] in Es; try discriminate Es; injection Es as <-; cbn [operate] in Hr.
  - unfold query_service in Hr. rewrite E in Hr. by destruct Hr.
  - unfold install_service, validate_install_options, validate_native_update in Hr. rewrite E in Hr. by destruct Hr.
  - unfold remove_service in Hr. rewrite E in Hr. by destruct Hr.
  - unfold update_native_config, validate_native_update in Hr. rewrite E in Hr. by destruct Hr.
  - unfold start_service in Hr. rewrite E in Hr. by destruct Hr.
  - unfold control_service in Hr. rewrite E in Hr. destruct (check_signal s); by destruct Hr.
  - unfold repair_service_runner in Hr. rewrite E in Hr. by destruct Hr.
Qed.
End Operations.

(** ** Passwords *)

Definition carries_password (e : ScmEvent) : bool :=
  match e with
  | Ev c _ => match c with CreateServiceW _ a => is_some (ca_password a) | ChangeServiceConfigW _ a => is_some (ch_password a) | _ => false end
  end.
(** A call with a password is followed at once by the clearing of its buffer. *)
Fixpoint cleared (log : list ScmEvent) : Prop :=
  match log with
  | [] => True
  | e :: l => (carries_password e = true -> exists u l', l = Ev ZeroizePassword u :: l') /\ cleared l
  end.
Lemma cleared_app l m : cleared l -> cleared m -> cleared (l ++ m).
Proof.
  induction l as [|e l IH]; [done|]. intros [H1 H2] Hm. split; [|by apply IH]. intros He. destruct (H1 He) as (u & l' & ->). by exists u, (l' ++ m).
Qed.

Definition clears {A} (p : ScmProg A) : Prop := forall log r, runs p log r -> cleared log.
Lemma clears_ret {A} (r : result ScmFail A) : clears (PRet r).
Proof. by intros log x [-> _]. Qed.
Lemma clears_then {A B} (p : ScmProg A) (k : result ScmFail A -> ScmProg B) : clears p -> (forall r, clears (k r)) -> clears (pthen p k).
Proof. intros Hp Hk log r (l1 & l2 & a & -> & H1 & H2)%runs_then. apply cleared_app; [by eapply Hp|by eapply Hk]. Qed.
Lemma clears_bind {A B} (p : ScmProg A) (k : A -> ScmProg B) : clears p -> (forall a, clears (k a)) -> clears (pbind p k).
Proof. intros Hp Hk. apply clears_then; [done|]. intros [a|e]; [apply Hk|apply clears_ret]. Qed.
Lemma clears_map_err {A} f (p : ScmProg A) : clears p -> clears (pmap_err f p).
Proof. intros H. apply clears_then; [done|]. intros r. apply clears_ret. Qed.
Lemma clears_call {X} (e : ScmE X) : (forall x, carries_password (Ev e x) = false) -> clears (perform e).
Proof. intros H log r (x & l & -> & [-> _]). split; [by rewrite H|done]. Qed.
Lemma clears_handle {A} open (k : Z -> ScmProg A) : clears open -> (forall h, clears (k h)) -> clears (with_handle open k).
Proof. intros Ho Hk. apply clears_bind; [done|]. intros h. apply clears_then; [done|]. intros r. apply clears_then; [by apply clears_call|]. intros ?. apply clears_ret. Qed.
Lemma clears_zeroize {A X} password f (e : ScmE X) (k : result ScmFail X -> result ScmFail A) :
  (forall x, carries_password (Ev e x) = is_some password) -> f = (fun r => PRet (k r)) -> clears (zeroize_after password (pthen (perform e) f)).
Proof.
  intros He -> log r H. unfold zeroize_after in H. cbn in H. destruct H as (x & l & -> & H). specialize (He x). destruct password as [p|].
  - destruct H as (u & l' & -> & [-> _]). split; [intros _; eauto|]. split; [done|exact I].
  - destruct H as [-> _]. split; [|exact I]. intros Hc. by rewrite Hc in He.
Qed.

Ltac clears_step :=
  match goal with
  | |- clears (PRet _) => apply clears_ret
  | |- clears (plift _) => apply clears_ret
  | |- clears (checked _) => apply clears_ret
  | |- clears (lift_core _) => apply clears_ret
  | |- clears (with_handle _ _) => apply clears_handle; [|intros ?]
  | |- clears (zeroize_after _ _) => first [eapply clears_zeroize; [intros ?; cbn|reflexivity]]
  | |- clears (pbind _ _) => apply clears_bind; [|intros ?]
  | |- clears (pthen _ _) => apply clears_then; [|intros ?]
  | |- clears (pmap_err _ _) => apply clears_map_err
  | |- clears (scm_call _ _) => apply clears_map_err
  | |- clears (open_scm _) => apply clears_map_err
  | |- clears (open_service_handle _ _ _) => apply clears_map_err
  | |- clears (perform _) => by apply clears_call
  | |- clears (tolerate _ _ _) => apply clears_then; [|intros ?]
  | |- clears (if ?b then _ else _) => destruct b
  | |- clears (match ?o with _ => _ end) => destruct o
  end.

Section Passwords.
Variables (os : SidApi) (security_of : CanonPath -> result Z SecurityInfo).

Lemma query_inner_clears scm n : clears (query_service_inner scm n).
Proof. unfold query_service_inner, query_config, query_delayed_auto_start, query_description, query_status. repeat clears_step. Qed.
Lemma list_entries_clears scm entries : forall out, clears (list_entries scm entries out).
Proof.
  induction entries as [|raw entries IH]; intros out; cbn [list_entries]; [apply clears_ret|]. apply clears_bind; [|intros x; apply IH].
  unfold list_entry. apply clears_then; [apply query_inner_clears|]. intros r. apply clears_ret.
Qed.
Lemma enumerate_clears scm fuel : forall buffer resume out, clears (enumerate_from fuel scm buffer resume out).
Proof.
  induction fuel as [|fuel IH]; intros buffer resume out; cbn [enumerate_from]; repeat first [apply IH|apply list_entries_clears|clears_step].
Qed.
Lemma outside_clears vars exe shown : clears (outside_directories vars exe shown).
Proof. induction vars as [|var vars IH]; cbn [outside_directories]; unfold user_directory; repeat first [apply IH|clears_step]. Qed.
Lemma install_clears o : clears (install_service o).
Proof.
  unfold install_service, install_validated_service, complete_install, encode_if_some, check_account_password, change_service_description. repeat clears_step.
  by destruct (opt_password o).
Qed.
Lemma update_clears n u : clears (update_native_config n u).
Proof.
  assert (forall svc d, clears (zeroize_after (nu_password u) (perform (ChangeServiceConfigW svc (change_args u d))))) as Hz.
  { intros svc d. apply (clears_zeroize (nu_password u) (fun r => PRet r) (ChangeServiceConfigW svc (change_args u d)) (fun r => r)); [|done].
    intros x. cbn. by destruct (nu_password u). }
  unfold update_native_config, encode_if_some, check_account_password, update_description, change_service_description.
  repeat first [apply Hz|clears_step].
Qed.

(** A password does not stay in memory: in every run of every operation, a
    call that was given one is followed at once, whatever it answered, by the
    clearing of the buffer the password was passed in. *)
Theorem passwords_cleared op log r : runs (operate os security_of op) log r ->
  forall past e rest, log = past ++ e :: rest -> carries_password e = true -> exists u rest', rest = Ev ZeroizePassword u :: rest'.
Proof.
  intros Hr. assert (cleared log) as Hc.
  { assert (forall A (p : ScmProg A), clears p -> clears (ignore p)) as Hi by (intros A p Hp; apply clears_bind; [done|intros a; apply clears_ret]).
    revert Hr. generalize log, r. change (clears (operate os security_of op)). destruct op; cbn [operate]; try apply Hi.
    - unfold query_service. repeat first [apply query_inner_clears|clears_step].
    - unfold enumerate_services. repeat first [apply enumerate_clears|clears_step].
    - apply install_clears.
    - unfold remove_service. repeat clears_step.
    - apply update_clears.
    - unfold start_service. repeat clears_step.
    - unfold control_service. repeat clears_step.
    - unfold repair_service_runner, build_run_service_command, validate_runner_location, canonicalize_runner_path, validate_runner_location_heuristics.
      repeat first [apply outside_clears|clears_step]. }
  clear Hr. intros past e rest ->. induction past as [|f past IH]; [by destruct Hc as [H _]|]. destruct Hc as [_ Hc]. by apply IH.
Qed.
End Passwords.

(** ** Installing *)

Definition created (e : ScmEvent) : option (CreateArgs * Z) :=
  match e with
  | Ev c x => match c in ScmE X return result ScmFail X -> option (CreateArgs * Z) with
              | CreateServiceW _ a => fun x => match x with Ok h => Some (a, h) | Err _ => None end
              | _ => fun _ => None
              end x
  end.
Definition undone (e : ScmEvent) : option Z := match e with Ev c _ => match c with DeleteService h => Some h | _ => None end end.

(** How an installation ends: with the service as it was asked for; or without
    one; or, having created it, with the attempt to delete it again and a report of
    how that went. *)
Definition install_ends (o : InstallOptions) (log : list ScmEvent) (r : result ScmFail unit) : Prop :=
  match r with
  | Ok _ => exists deps svc, omap created log = [(create_args o deps, svc)] /\ omap undone log = []
      /\ deps = (if deps_is_empty (opt_dependencies o) then None else match encode_dependencies (opt_dependencies o) with Ok w => Some w | Err _ => None end)
      /\ forall d, opt_description o = Some d -> In (Ev (ChangeDescription svc (to_wide d)) (Ok tt)) log
  | Err e => (omap created log = [] /\ omap undone log = [])
      \/ exists a svc primary cleanup, omap created log = [(a, svc)] /\ omap undone log = [svc] /\ In (Ev (DeleteService svc) cleanup) log
         /\ match cleanup with
            | Ok _ => e = Core (Scm (&"service installation failed and was rolled back: " ++ primary))
            | Err f => e = Core (Scm (&"service installation failed (" ++ primary ++ &"); rollback also failed ("
                                      ++ fail_display (map_win_error &"DeleteService(install rollback)" f) ++ &")"))
            end
  end.

Definition plain (e : ScmEvent) : Prop := created e = None /\ undone e = None.
Lemma plain_log l : Forall plain l -> omap created l = [] /\ omap undone l = [].
Proof. induction 1 as [|e l [H1 H2] _ [I1 I2]]; [done|]. cbn. by rewrite H1, H2. Qed.
Lemma with_handle_runs {A} open (k : Z -> ScmProg A) log r : runs (with_handle open k) log r ->
  (exists e, r = Err e /\ runs open log (Err e))
  \/ exists h l m x, log = l ++ m ++ [Ev (CloseServiceHandle h) x] /\ runs open l (Ok h) /\ runs (k h) m r.
Proof.
  intros [(e & -> & H)|(l1 & l2 & h & -> & H1 & (m & c & a & -> & H2 & (x & l & -> & [-> ->]))%runs_then)]%runs_bind; [left; eauto|].
  right. exists h, l1, m, x. done.
Qed.
Lemma open_scm_plain access log r : runs (open_scm access) log r -> Forall plain log.
Proof. intros (x & l & -> & [-> _]). by repeat constructor. Qed.
Lemma encode_runs d log r : runs (encode_if_some d) log r -> log = [] /\
  match r with Ok w => w = match d with Some d => match encode_dependencies d with Ok w => Some w | Err _ => None end | None => None end | Err _ => True end.
Proof. unfold encode_if_some, lift_core. destruct d as [d|]; [destruct (encode_dependencies d) as [w|e]|]; by intros [-> ->]. Qed.
Lemma checked_runs q log r : runs (checked q) log r -> log = [].
Proof. by intros [-> _]. Qed.
Lemma account_runs a p log r : runs (check_account_password a p) log r -> log = [].
Proof.
  unfold check_account_password, checked. destruct (if_some validate_account a) as [[]|e]; [|by intros [-> _]]. cbn.
  destruct (_ && _); [by intros [-> _]|]. cbn. by intros [-> _].
Qed.
Lemma create_runs o scm deps log r :
  runs (zeroize_after (opt_password o) (scm_call (&"CreateService(" ++ opt_name o ++ &")") (CreateServiceW scm (create_args o deps)))) log r ->
  omap undone log = [] /\ match r with Ok svc => omap created log = [(create_args o deps, svc)] | Err _ => omap created log = [] end.
Proof.
  unfold zeroize_after. intros (x & l & -> & H). cbn in H. destruct (opt_password o); [destruct H as (u & l' & -> & H)|]; destruct H as [-> ->]; by destruct x.
Qed.
Lemma description_runs svc n d log r : runs (change_service_description svc n d) log r ->
  Forall plain log /\ (is_ok r = true -> In (Ev (ChangeDescription svc (to_wide d)) (Ok tt)) log).
Proof.
  unfold change_service_description, checked. destruct (validate_native_string _ d) as [[]|e]; [|by intros [-> ->]].
  intros (x & l & -> & [-> ->]). split; [by repeat constructor|]. destruct x as [[]|f]; [|done]. intros _. by left.
Qed.

(** What is done with the created service. *)
Lemma configured_runs o svc log r :
  runs (pthen match opt_description o with
              | Some description => change_service_description svc (opt_name o) description
              | None => PRet (Ok tt)
              end
          (fun r => match r with
             | Ok _ => PRet (Ok tt)
             | Err primary =>
                 pthen (scm_call &"DeleteService(install rollback)" (DeleteService svc)) (fun cleanup =>
                   PRet (Err (Core (Scm (match cleanup with
                     | Ok _ => &"service installation failed and was rolled back: " ++ fail_display primary
                     | Err e => &"service installation failed (" ++ fail_display primary ++ &"); rollback also failed ("
                                ++ fail_display e ++ &")"
                     end)))))
             end)) log r ->
  omap created log = []
  /\ match r with
     | Ok _ => omap undone log = [] /\ forall d, opt_description o = Some d -> In (Ev (ChangeDescription svc (to_wide d)) (Ok tt)) log
     | Err e => omap undone log = [svc] /\ exists primary cleanup, In (Ev (DeleteService svc) cleanup) log
         /\ match cleanup with
            | Ok _ => e = Core (Scm (&"service installation failed and was rolled back: " ++ primary))
            | Err f => e = Core (Scm (&"service installation failed (" ++ primary ++ &"); rollback also failed ("
                                      ++ fail_display (map_win_error &"DeleteService(install rollback)" f) ++ &")"))
            end
     end.
Proof.
  intros (l & m & c & -> & H1 & H2)%runs_then.
  assert (Forall plain l /\ (is_ok c = true -> forall d, opt_description o = Some d -> In (Ev (ChangeDescription svc (to_wide d)) (Ok tt)) l)) as [Hp Hd].
  { destruct (opt_description o) as [d|]; [|destruct H1 as [-> _]; split; [by constructor|done]].
    apply description_runs in H1 as [H1 H3]. split; [done|]. intros Hc d' [= <-]. by apply H3. }
  apply plain_log in Hp as [P1 P2]. rewrite !omap_app, P1, P2. destruct c as [[]|primary].
  - destruct H2 as [-> ->]. rewrite !app_nil_r. split; [done|]. split; [done|]. by apply Hd.
  - destruct H2 as (x & k & -> & H2). cbn in H2. destruct H2 as [-> ->]. split; [done|]. split; [done|].
    exists (fail_display primary), x. split; [apply in_or_app; right; by left|]. by destruct x.
Qed.

(** Installing a service is a transaction. It succeeds with exactly one service
    created, with the name, command line, start type, dependencies, account and
    password that were asked for, and its description set; otherwise no service
    was created, or the one that was created has been asked to be deleted, and the
    error says whether that succeeded. *)
Theorem install_all_or_nothing o log r : runs (install_service o) log r -> install_ends o log r.
Proof.
  unfold install_service. intros [(e & -> & H)|(l0 & log' & u & -> & H0 & H)]%runs_bind; [apply checked_runs in H as ->; by left|].
  apply checked_runs in H0 as ->. cbn [app].
  apply with_handle_runs in H as [(e & -> & H)|(scm & l & m & x & -> & H1 & H)]; [apply open_scm_plain, plain_log in H; by left|].
  apply open_scm_plain, plain_log in H1 as [P1 P2].
  apply runs_bind in H as [(e & -> & H)|(l1 & m1 & deps & -> & H1 & H)]; [apply encode_runs in H as [-> _]; left; by rewrite !omap_app, P1, P2|].
  apply encode_runs in H1 as [-> Hdeps]. cbn [app].
  apply runs_bind in H as [(e & -> & H)|(l1 & m2 & v & -> & H1 & H)]; [apply account_runs in H as ->; left; by rewrite !omap_app, P1, P2|].
  apply account_runs in H1 as ->. cbn [app]. unfold complete_install in H.
  apply with_handle_runs in H as [(e & -> & H)|(svc & l1 & m & y & -> & H1 & H)].
  { apply create_runs in H as [C1 C2]. left. by rewrite !omap_app, P1, P2, C1, C2. }
  apply create_runs in H1 as [C1 C2]. apply configured_runs in H as [D1 D2].
  assert (forall e, In e m -> In e (l ++ (l1 ++ m ++ [Ev (CloseServiceHandle svc) y]) ++ [Ev (CloseServiceHandle scm) x])) as Hin
    by (intros e He; rewrite !in_app_iff; tauto).
  destruct r as [w|e]; cbn [install_ends].
  - destruct D2 as [D2 D3]. exists deps, svc. rewrite !omap_app, P1, P2, C1, C2, D1, D2. split; [done|]. split; [done|]. split.
    + rewrite Hdeps. by destruct (deps_is_empty _).
    + intros d Hd. apply Hin. by apply D3.
  - destruct D2 as [D2 (primary & cleanup & Hc & He)]. right. exists (create_args o deps), svc, primary, cleanup.
    rewrite !omap_app, P1, P2, C1, C2, D1, D2. split; [done|]. split; [done|]. split; [by apply Hin|exact He].
Qed.

(** ** The listing *)

Definition answer_of (e : ScmEvent) : option EnumAnswer :=
  match e with
  | Ev c x => match c in ScmE X return result ScmFail X -> option EnumAnswer with
              | EnumServicesStatusExW _ _ _ => fun x => match x with Ok a => Some a | Err _ => None end
              | _ => fun _ => None
              end x
  end.
(** The entries an answer returned, unless it asks for a larger buffer. *)
Definition returned (a : EnumAnswer) : list ENUM_SERVICE_STATUS_PROCESSW :=
  match en_error a with Some (code, _) => if code =? ERROR_MORE_DATA then en_returned a else [] | None => en_returned a end.

(** What the listing says of an entry: its name and state are the enumeration's,
    and its settings are the service's own or, when they could not be read, are
    marked as partial. *)
Definition lists (raw : ENUM_SERVICE_STATUS_PROCESSW) (s : NativeService) : Prop :=
  name (ns_config s) = string_or_default (lpServiceName raw)
  /\ option_map state (ns_runtime s) = Some (classify_state (dwCurrentState (ServiceStatusProcess raw)))
  /\ option_map pid (ns_runtime s) = Some (nonzero (dwProcessId (ServiceStatusProcess raw))).

Lemma no_answers l : Forall (fun e => answer_of e = None) l -> omap answer_of l = [].
Proof. induction 1 as [|e l H _ IH]; [done|]. cbn. by rewrite H. Qed.

Lemma query_config_name svc n log r : runs (query_config svc n) log r ->
  omap answer_of log = [] /\ match r with Ok (c, _) => name c = n | Err _ => True end.
Proof.
  unfold query_config, query_delayed_auto_start, query_description, tolerate, scm_call. intros H.
  destruct H as (needed & l & -> & H). destruct needed as [needed|f]; [|destruct H as [-> ->]; done]. cbn [pthen] in H.
  destruct (needed =? 0); [destruct H as [-> ->]; done|]. destruct H as (cfg & m & -> & H). destruct cfg as [cfg|f]; [|destruct H as [-> ->]; done].
  cbn [map_err pthen pbind] in H. destruct (collect_dependencies _) as [services groups].
  destruct H as (delayed & k & -> & H). destruct delayed; cbn in H; destruct H as (size & k1 & -> & H); destruct size as [size|f2]; cbn in H;
    try (destruct H as [-> ->]; done); destruct (size =? 0); cbn in H; try (destruct H as [-> ->]; done);
    destruct H as (text & k2 & -> & H); destruct text; destruct H as [-> ->]; done.
Qed.

Lemma query_inner_name scm n log r : runs (query_service_inner scm n) log r ->
  omap answer_of log = [] /\ match r with Ok (c, _, _) => name c = n | Err _ => True end.
Proof.
  intros [(e & -> & (x & l & -> & [-> _]))|(svc & l & m & x & -> & (y & l' & -> & [-> _]) & H)]%with_handle_runs; [done|].
  rewrite !omap_app. cbn. rewrite app_nil_r.
  apply runs_bind in H as [(e & -> & H)|(l1 & l2 & [c q] & -> & H1 & H)]; [by apply query_config_name in H as [-> _]|].
  apply query_config_name in H1 as [E1 Hn]. destruct H as (z & k & -> & H). rewrite omap_app, E1. cbn. destruct z as [z|f]; cbn in H; destruct H as [-> ->]; done.
Qed.

Lemma list_entry_runs scm raw log r : runs (list_entry scm raw) log r ->
  omap answer_of log = [] /\ exists s, r = Ok s /\ lists raw s.
Proof.
  intros (l & m & q & -> & H & [-> ->])%runs_then. apply query_inner_name in H as [E Hn]. rewrite app_nil_r. split; [done|].
  eexists. split; [reflexivity|]. destruct q as [[[c rt] qe]|e]; [|done]. split; [|done]. cbn. unfold with_display. by destruct (is_empty _).
Qed.
Lemma list_entries_runs scm entries : forall out log r, runs (list_entries scm entries out) log r ->
  omap answer_of log = [] /\ exists new, r = Ok (out ++ new) /\ Forall2 lists entries new.
Proof.
  induction entries as [|raw entries IH]; intros out log r; cbn [list_entries].
  - intros [-> ->]. split; [done|]. exists []. by rewrite app_nil_r.
  - intros [(e & -> & H)|(l & m & s & -> & H1 & H)]%runs_bind; [apply list_entry_runs in H as (_ & s & [=] & _)|].
    apply list_entry_runs in H1 as (E & s' & [= <-] & Hs). apply IH in H as (E2 & new & -> & Hn).
    rewrite omap_app, E, E2. split; [done|]. exists (s :: new). split; [by rewrite <- app_assoc|]. by constructor.
Qed.

(** Why the listing fails: the enumeration itself did. *)
Definition enumeration_failed (log : list ScmEvent) (e : ScmFail) : Prop :=
  (exists a code text, In a (omap answer_of log) /\ en_error a = Some (code, text) /\ code <> ERROR_MORE_DATA /\ code <> ERROR_INSUFFICIENT_BUFFER
     /\ e = map_win_error &"EnumServicesStatusEx" (WinError code text))
  \/ exists scm b r f, In (Ev (EnumServicesStatusExW scm b r) (Err f)) log.

Lemma failed_later l m e : enumeration_failed m e -> enumeration_failed (l ++ m) e.
Proof.
  intros [(a & code & text & Hin & H)|(scm & b & r & f & Hin)].
  - left. exists a, code, text. split; [rewrite omap_app; apply in_or_app; by right|done].
  - right. exists scm, b, r, f. apply in_or_app. by right.
Qed.
Lemma enumerate_runs scm fuel : forall buffer resume out log r, runs (enumerate_from fuel scm buffer resume out) log r ->
  match r with
  | Ok None => True
  | Ok (Some all) => exists new, all = out ++ new /\ Forall2 lists (flat_map returned (omap answer_of log)) new
  | Err e => enumeration_failed log e
  end.
Proof.
  induction fuel as [|fuel IH]; intros buffer resume out log r; cbn [enumerate_from]; [by intros [-> ->]|].
  intros (x & l & -> & H). destruct x as [a|f]; cbn [pthen] in H; [|destruct H as [-> ->]; right; do 4 eexists; by left].
  destruct (en_error a) as [[code text]|] eqn:Ea.
  - destruct (Z.eqb_spec code ERROR_MORE_DATA) as [->|Hm].
    + apply runs_bind in H as [(e & -> & H)|(l1 & l2 & out' & -> & H1 & H)]; [apply list_entries_runs in H as (_ & new & [=] & _)|].
      apply list_entries_runs in H1 as (E & new & [= ->] & Hn). apply IH in H. destruct r as [[all|]|e]; [|done|by apply (failed_later (Ev _ _ :: l1))].
      destruct H as (more & -> & Hmore). exists (new ++ more). split; [by rewrite app_assoc|]. cbn. rewrite omap_app, E. cbn.
      unfold returned at 1. rewrite Ea. by apply Forall2_app.
    + destruct (Z.eqb_spec code ERROR_INSUFFICIENT_BUFFER) as [->|Hi].
      * apply IH in H. destruct r as [[all|]|e]; [|done|by apply (failed_later [Ev _ _])]. destruct H as (more & -> & Hmore).
        exists more. split; [done|]. cbn. unfold returned at 1. by rewrite Ea.
      * destruct H as [-> ->]. left. exists a, code, text. split; [by left|done].
  - apply runs_bind in H as [(e & -> & H)|(l1 & l2 & out' & -> & H1 & [-> ->])]; [apply list_entries_runs in H as (_ & new & [=] & _)|].
    apply list_entries_runs in H1 as (E & new & [= ->] & Hn). exists new. split; [done|]. cbn. rewrite app_nil_r, E. cbn.
    unfold returned. by rewrite Ea, app_nil_r.
Qed.

(** One broken service does not hide the others. Whatever the queries of the
    single services answer, the listing has exactly the services the enumeration
    returned, over all its calls, each once and in order, with the name and state
    the enumeration gave; it fails only when the manager cannot be opened or the
    enumeration itself fails. *)
Theorem listing_is_complete fuel log r : runs (enumerate_services fuel) log r ->
  match r with
  | Ok None => True
  | Ok (Some all) => Forall2 lists (flat_map returned (omap answer_of log)) all
  | Err e => enumeration_failed log e \/ exists access f, log = [Ev (OpenSCManager access) (Err f)]
  end.
Proof.
  intros [(e & -> & H)|(scm & l & m & x & -> & (y & l' & -> & [-> _]) & H)]%with_handle_runs.
  - right. destruct H as (y & l & -> & [-> H]). destruct y as [h|f]; [done|eauto].
  - apply enumerate_runs in H. rewrite !omap_app. cbn. rewrite app_nil_r. destruct r as [[all|]|e]; [|done|].
    + destruct H as (new & -> & H). exact H.
    + left. apply (failed_later [Ev (OpenSCManager (Z.lor SC_MANAGER_CONNECT SC_MANAGER_ENUMERATE_SERVICE)) y]).
      destruct H as [(a & code & text & Hin & H)|(s & b & r' & f & Hin)].
      * left. exists a, code, text. split; [rewrite omap_app; apply in_or_app; by left|done].
      * right. exists s, b, r', f. apply in_or_app. by left.
Qed.

(** ** Samples: a manager that accepts everything but descriptions, with one
    service that cannot be opened *)

Definition sample_status : SERVICE_STATUS_PROCESS :=
  {| dwCurrentState := 4; dwProcessId := 7; dwWin32ExitCode := 0; dwCheckPoint := 0; dwWaitHint := 0; dwStatusServiceType := 16 |}.
Definition sample_entry : ENUM_SERVICE_STATUS_PROCESSW :=
  {| lpServiceName := Some [115; 118; 99; 0]; lpEnumDisplayName := None; ServiceStatusProcess := sample_status |}.
Definition sample_manager (X : Type) (e : ScmE X) (w : unit) : result ScmFail X * unit :=
  (match e in ScmE X return result ScmFail X with
   | OpenSCManager _ => Ok 10
   | OpenServiceW _ _ access => if access =? SERVICE_START then Ok 11 else Err (WinError 5 &"access denied")
   | CreateServiceW _ _ => Ok 12
   | ChangeDescription _ _ => Err (WinError 5 &"access denied")
   | QueryServiceStatusEx _ => Ok sample_status
   | EnumServicesStatusExW _ buffer _ =>
       Ok (if buffer =? 262144 then {| en_error := Some (122, &"too small"); en_bytes_needed := 10; en_returned := []; en_resume := 0 |}
           else {| en_error := None; en_bytes_needed := 0; en_returned := [sample_entry]; en_resume := 0 |})
   | CloseServiceHandle _ | DeleteService _ | ChangeServiceConfigW _ _ | StartServiceW _ | ControlServiceW _ _ | ZeroizePassword => Ok tt
   | _ => Err (WinError 50 &"not supported")
   end, w).
Definition sample_sid : SidApi := sample_sids.
Definition sample_security_of (p : CanonPath) : result Z SecurityInfo := Err 2.
Definition sample_options : InstallOptions :=
  {| opt_name := &"svc"; opt_display_name := &"Service"; opt_description := Some &"text"; opt_binary_path := &"C:\ngsm.exe";
     opt_start_type := StartManual; opt_dependencies := {| dep_services := []; dep_groups := [] |};
     opt_account := Some &".\me"; opt_password := Some &"secret" |}.
Definition sample_operation (op : ScmOp) := interp sample_manager (operate sample_sid sample_security_of op) tt.

Lemma scm_calls_authorized_witness :
  length (sample_operation (OpStart &"svc")).1.2 = 5%nat /\ watch track [] (sample_operation (OpStart &"svc")).1.2 = [].
Proof.
  split; [vm_compute; reflexivity|].
  destruct (scm_calls_authorized sample_sid sample_security_of (OpStart &"svc") (sample_operation (OpStart &"svc")).1.2 (sample_operation (OpStart &"svc")).1.1) as (_ & H & _);
    [apply interp_runs|exact H].
Defined.

Lemma passwords_cleared_witness : exists past e rest,
  (sample_operation (OpInstall sample_options)).1.2 = past ++ e :: rest /\ carries_password e = true /\ exists u rest', rest = Ev ZeroizePassword u :: rest'.
Proof.
  pose proof (passwords_cleared sample_sid sample_security_of (OpInstall sample_options) (sample_operation (OpInstall sample_options)).1.2
    (sample_operation (OpInstall sample_options)).1.1 (interp_runs _ _ _)) as H.
  destruct (sample_operation (OpInstall sample_options)).1.2 as [|a [|e rest]] eqn:E; [vm_compute in E; discriminate E..|].
  exists [a], e, rest. split; [reflexivity|].
  assert (carries_password e = true) as He by (apply (f_equal (fun l => match l with _ :: x :: _ => carries_password x | _ => true end)) in E; rewrite <- E; vm_compute; reflexivity).
  split; [exact He|]. exact (H [a] e rest eq_refl He).
Defined.

Definition sample_install := interp sample_manager (install_service sample_options) tt.
Lemma install_all_or_nothing_witness : omap undone sample_install.1.2 = [12] /\ install_ends sample_options sample_install.1.2 sample_install.1.1.
Proof. split; [vm_compute; reflexivity|]. apply install_all_or_nothing. apply interp_runs. Defined.

Definition sample_listing := interp sample_manager (enumerate_services 5) tt.
Lemma listing_is_complete_witness : exists all, sample_listing.1.1 = Ok (Some all)
  /\ map (fun s => name (ns_config s)) all = [&"svc"] /\ Forall2 lists (flat_map returned (omap answer_of sample_listing.1.2)) all.
Proof.
  pose proof (listing_is_complete 5 sample_listing.1.2 sample_listing.1.1 (interp_runs _ _ _)) as H.
  destruct sample_listing.1.1 as [[all|]|e] eqn:E; [|vm_compute in E; discriminate E..].
  exists all. split; [reflexivity|]. split; [|exact H].
  apply (f_equal (fun r => match r with Ok (Some l) => map (fun s => name (ns_config s)) l | _ => [] end)) in E. cbn beta iota in E. rewrite <- E. vm_compute. reflexivity.
Defined.
