(* ===== verification/StateProg.v ===== *)
(** * Programs over a state of their own

    A program of calls ([Effects]) that also reads and writes a state: [SP S A]
    starts from a state and ends with a result and the state left behind, or
    with an ending of the whole program. [wp] is its logic: every call is
    acceptable and the postcondition holds of the state, whatever is answered. A
    record is updated by [r <| field := v |>]. *)

From Stdlib Require Import ZArith Lia List.
From S2P Require Import Prelude Effects.

(** ** Record update *)

(** [eta] rebuilds a record from its fields; the updates are derived from it. *)
Class Eta (R : Type) := eta : R -> R.
Class Setter {R T : Type} (field : R -> T) := set_field : T -> R -> R.
Arguments set_field {R T} field {Setter} v r : simpl never.

Ltac derive_setter field :=
  match type of field with
  | ?R -> ?T =>
      let v := fresh "v" in let r := fresh "r" in
      refine (fun (v : T) (r : R) => _);
      let e := constr:(eta (R := R) r) in
      let e := eval cbv beta delta [eta] in e in
      let e := match e with ?inst _ => eval unfold inst in e | _ => e end in
      let e := eval cbv beta in e in
      lazymatch eval pattern (field r) in e with
      | ?h _ => let t := eval cbv beta in (h v) in exact t
      end
  end.
#[export] Hint Extern 1 (Setter ?field) => derive_setter field : typeclass_instances.

#[warnings="-postfix-notation-not-level-1"]
Notation "r <| field := v |>" := (set_field field v r)
  (at level 12, left associativity, field at level 0, v at level 200) : rust_scope.

(** ** The monad *)

Section StateProg.
Context {S : Type} {E : Type -> Type} {Er : Type}.

Definition SP (A : Type) : Type := S -> Prog E Er (A * S).
Definition spret {A} (a : A) : SP A := fun s => PRet (Ok (a, s)).
(** The program ends here, its state with it. *)
Definition spend {A} (e : Er) : SP A := fun _ => PRet (Err e).
Definition spbind {A B} (m : SP A) (k : A -> SP B) : SP B :=
  fun s => pthen (m s) (fun r => match r with Ok (a, s') => k a s' | Err e => PRet (Err e) end).
Definition spget : SP S := fun s => PRet (Ok (s, s)).
Definition spmod (f : S -> S) : SP unit := fun s => PRet (Ok (tt, f s)).
Definition spcall {X} (e : E X) : SP X := fun s => pthen (perform e) (fun r => PRet (match r with Ok x => Ok (x, s) | Err e => Err e end)).
Definition spwhen (b : bool) (m : SP unit) : SP unit := if b then m else spret tt.
Fixpoint spfor {A} (l : list A) (f : A -> SP unit) : SP unit :=
  match l with [] => spret tt | x :: l => spbind (f x) (fun _ => spfor l f) end.

(** ** Its logic *)

Fixpoint prog_wp {A} (ok : Event E Er -> Prop) (p : Prog E Er A) (Q : result Er A -> Prop) : Prop :=
  match p with
  | PRet r => Q r
  | PCall e k => forall x, ok (Ev e x) /\ prog_wp ok (k x) Q
  end.

Definition ends_in {A} (Q : A -> S -> Prop) (r : result Er (A * S)) : Prop :=
  match r with Ok (a, s) => Q a s | Err _ => True end.
Definition wp {A} (ok : Event E Er -> Prop) (m : SP A) (s : S) (Q : A -> S -> Prop) : Prop :=
  prog_wp ok (m s) (ends_in Q).

Lemma prog_wp_runs {A} ok (p : Prog E Er A) Q log r : prog_wp ok p Q -> runs p log r -> Forall ok log /\ Q r.
Proof.
  revert log. induction p as [r'|X e k IH]; intros log Hw; [intros [-> ->]; by split; [constructor|]|].
  intros (x & l & -> & H). destruct (Hw x) as [Hx Hk]. destruct (IH x l Hk H). by split; [constructor|].
Qed.
Lemma prog_wp_then {A B} ok (p : Prog E Er A) (k : result Er A -> Prog E Er B) Q :
  prog_wp ok (pthen p k) Q <-> prog_wp ok p (fun r => prog_wp ok (k r) Q).
Proof.
  induction p as [r|X e c IH]; [done|]. cbn. split; intros H x; destruct (H x) as [Hx Hk]; (split; [done|]); by apply IH.
Qed.
Lemma prog_wp_mono {A} (ok ok' : Event E Er -> Prop) (p : Prog E Er A) (Q Q' : result Er A -> Prop) :
  (forall e, ok e -> ok' e) -> (forall r, Q r -> Q' r) -> prog_wp ok p Q -> prog_wp ok' p Q'.
Proof.
  intros He HQ. induction p as [r|X e c IH]; [apply HQ|]. cbn. intros H x. destruct (H x). split; auto.
Qed.

Implicit Types (ok : Event E Er -> Prop) (s : S).

(** What a verified program does, in any environment. *)
Lemma wp_runs {A} ok (m : SP A) s Q log r : wp ok m s Q -> runs (m s) log r -> Forall ok log /\ ends_in Q r.
Proof. apply prog_wp_runs. Qed.
Lemma wp_mono {A} ok (m : SP A) s (Q Q' : A -> S -> Prop) :
  wp ok m s Q -> (forall a s', Q a s' -> Q' a s') -> wp ok m s Q'.
Proof. intros H HQ. eapply prog_wp_mono; [done| |exact H]. intros [[a s']|e]; cbn; auto. Qed.
Lemma wp_bind {A B} ok (m : SP A) (k : A -> SP B) s Q :
  wp ok m s (fun a s' => wp ok (k a) s' Q) -> wp ok (spbind m k) s Q.
Proof.
  unfold wp, spbind. intros H. apply prog_wp_then. eapply prog_wp_mono; [done| |exact H]. by intros [[a s']|e].
Qed.
Lemma wp_ret {A} ok (a : A) s Q : Q a s -> wp ok (spret a) s Q.
Proof. done. Qed.
Lemma wp_end {A} ok (e : Er) s (Q : A -> S -> Prop) : wp ok (spend e) s Q.
Proof. exact I. Qed.
Lemma wp_get ok s Q : Q s s -> wp ok spget s Q.
Proof. done. Qed.
Lemma wp_mod ok f s Q : Q tt (f s) -> wp ok (spmod f) s Q.
Proof. done. Qed.
Lemma wp_call {X} ok (e : E X) s Q : (forall x, ok (Ev e x)) -> (forall x, Q x s) -> wp ok (spcall e) s Q.
Proof. intros He HQ x. split; [apply He|]. destruct x; [apply HQ|done]. Qed.
Lemma wp_for {A} ok (I : S -> Prop) (l : list A) f s :
  I s -> (forall x s, In x l -> I s -> wp ok (f x) s (fun _ => I)) -> wp ok (spfor l f) s (fun _ => I).
Proof.
  revert s. induction l as [|x l IH]; intros s Hs Hf; [done|]. apply wp_bind.
  eapply wp_mono; [apply Hf; [by left|done]|]. intros a s' Hs'. apply IH; [done|]. intros y s0 Hy. apply Hf. by right.
Qed.
End StateProg.

Arguments SP S E Er A : clear implicits.

Notation "'let$' x ':=' e 'in' k" := (spbind e (fun x => k))
  (at level 10, x pattern, e at level 100, k at level 200) : rust_scope.
Notation "e ';$' k" := (spbind e (fun _ => k))
  (at level 199, right associativity) : rust_scope.

(** One step of symbolic execution. *)
Ltac wp_step :=
  first [ apply wp_bind | apply wp_ret | apply wp_get | apply wp_mod | apply wp_end ]; cbv beta.
