(* ===== verification/Sparkline.v ===== *)
(** * The availability sparkline: gui [metrics.rs] ([sparkline_paths])

    The path commands of the dashboard's sparkline, with the fixed-point display
    of single-precision numbers they are written in. *)

From Stdlib Require Import ZArith Lia List SpecFloat.
From S2P Require Import Prelude Text Model EventLog LogReader Metrics.

(** ** [{:.N}] *)

(** The nearest integer to [n / d], ties to even. *)
Definition round_half_even (n d : Z) : Z :=
  let q := n / d in
  let r := n mod d in
  if 2 * r <? d then q else if d <? 2 * r then q + 1 else if Z.even q then q else q + 1.

(** [n] in decimal, with at least [width] digits. *)
Definition zero_padded (width : nat) (n : Z) : rstr :=
  let t := to_dec n in repeat 48 (width - length t) ++ t.

(** A magnitude of [scaled] units of [10 ^ -digits]. *)
Definition fixed_point (digits : nat) (scaled : Z) : rstr :=
  let unit := 10 ^ Z.of_nat digits in
  to_dec (scaled / unit) ++ &"." ++ zero_padded digits (scaled mod unit).

Definition format_fixed (digits : nat) (x : f32) : rstr :=
  let sign (s : bool) := if s then &"-" else [] in
  match x with
  | S754_nan => &"NaN"
  | S754_infinity s => sign s ++ &"inf"
  | S754_zero s => sign s ++ fixed_point digits 0
  | S754_finite s m e =>
      let n := Z.pos m * 10 ^ Z.of_nat digits in
      sign s ++ fixed_point digits (if 0 <=? e then n * 2 ^ e else round_half_even n (2 ^ (- e)))
  end.

(** ** [sparkline_paths] *)

Definition f32_sub : f32 -> f32 -> f32 := SFsub 24 128.

Definition spark_x (n i : Z) : f32 :=
  if n <=? 1 then f32_of 0 else f32_mul (f32_of i) (f32_div (f32_of 100) (f32_of (n - 1))).
Definition spark_y (v : f32) : f32 :=
  f32_sub (f32_of 28) (f32_mul (f32_div (f32_clamp v (f32_of 0) (f32_of 100)) (f32_of 100)) (f32_of 28)).

Definition two (x : f32) : rstr := format_fixed 2 x.
Definition line_to (n i : Z) (v : f32) : rstr := &" L " ++ two (spark_x n i) ++ &" " ++ two (spark_y v).
(** The segments to the days from the [i]-th on. *)
Fixpoint segments (n i : Z) (daily : list f32) : rstr :=
  match daily with [] => [] | v :: l => line_to n i v ++ segments n (i + 1) l end.

Definition sparkline_paths (daily : list f32) : rstr * rstr :=
  match daily with
  | [] => ([], [])
  | first :: rest =>
      let n := Z.of_nat (length daily) in
      let line := &"M " ++ two (spark_x n 0) ++ &" " ++ two (spark_y first) ++ segments n 1 rest in
      let area := &"M " ++ two (spark_x n 0) ++ &" 28" ++ line_to n 0 first ++ segments n 1 rest in
      (line, area ++ &" L " ++ two (spark_x n (n - 1)) ++ &" 28 Z")
  end.

(** Four days: down, up, half, three quarters. *)
Example sparkline_sample :
  sparkline_paths [f32_of 0; f32_of 100; f32_of 50; f32_of 75]
  = (&"M 0.00 28.00 L 33.33 0.00 L 66.67 14.00 L 100.00 7.00",
     &"M 0.00 28 L 0.00 28.00 L 33.33 0.00 L 66.67 14.00 L 100.00 7.00 L 100.00 28 Z").
Proof. vm_compute. reflexivity. Qed.

(** ** The display is the nearest decimal *)

Lemma round_half_even_near n d : 0 < d -> 2 * Z.abs (round_half_even n d * d - n) <= d.
Proof.
  intros Hd. unfold round_half_even. pose proof (Z.div_mod n d ltac:(lia)). pose proof (Z.mod_pos_bound n d Hd).
  set (q := n / d) in *. set (r := n mod d) in *. clearbody q r.
  assert ((q + 1) * d = d * q + d) by ring. assert (q * d = d * q) by ring.
  destruct (Z.ltb_spec (2 * r) d); [|destruct (Z.ltb_spec d (2 * r)); [|destruct (Z.even q)]]; lia.
Qed.
