(* ===== verification/GuiApp.v ===== *)
(** * The controller of the GUI: gui [app.rs]

    The state behind the window, the window as the controller sees it, and every
    callback, as programs over both. The worker's queue, the file the preferences
    are saved to, the timers and the native dialogs are calls. *)

From Stdlib Require Import ZArith Lia List SpecFloat.
From S2P Require Import Prelude Text BTree Model Expansion Effects StateProg Win32 OpsConfig OpsControl BrokerHandlers.
From S2P Require Import EventLog LogReader Metrics Sparkline GuiForms GuiRequests GuiQueue GuiTail GuiWorker GuiConfig GuiAdapter.

(** ** The window *)

(** The properties of [MainWindow] that the controller sets or reads, by type. *)
Inductive TextProp :=
| ModalName | ModalDisplay | ModalDescription | ModalApplication | ModalArguments | ModalWorkingDir | ModalStdout | ModalStderr
| ModalAccount | ModalPassword | ModalServiceName | ModalError
| StatusText | LogServiceName | LogStatus
| RecoveryService | RecoveryPlaceholder | RecoveryStatus | RecoveryRestartDelay | RecoveryThrottle
| StatTotal | StatRunning | StatStopped | StatManualStart | StatFailed | StatAutoRecovering
| StatAvailabilityTitle | StatAvailabilityValue | StatAvailabilityLine | StatAvailabilityArea.
Inductive FlagProp :=
| Elevated | AutoRefresh | ManagedOnly | StatusHasDetails | SortAscending | ModalSortAscending | ModalBusy
| LogStderr | RecoveryAvailable | RecoveryBusy.
Inductive NumProp :=
| SelectedService | SortColumn | ModalSortColumn | ActiveModal | ModalStartType | RecoveryDefaultAction | AutoRefreshSecs.
Inductive LinesProp := StatusDetails | WarningLines | LogLines.
#[export] Instance TextProp_eq_dec : EqDecision TextProp.
Proof. solve_decision. Defined.
#[export] Instance FlagProp_eq_dec : EqDecision FlagProp.
Proof. solve_decision. Defined.
#[export] Instance NumProp_eq_dec : EqDecision NumProp.
Proof. solve_decision. Defined.
#[export] Instance LinesProp_eq_dec : EqDecision LinesProp.
Proof. solve_decision. Defined.

Record EventEntry := { ee_label : rstr; ee_time : rstr; ee_kind : Z }.

Record Window := {
  w_text : TextProp -> rstr; w_flag : FlagProp -> bool; w_num : NumProp -> Z; w_lines : LinesProp -> list rstr;
  w_services : list ServiceRow; w_processes : list ProcessRow; w_recovery_rows : list RecoveryExitRow;
  w_events : list EventEntry }.
#[export] Instance Window_eta : Eta Window := fun w => {|
  w_text := w_text w; w_flag := w_flag w; w_num := w_num w; w_lines := w_lines w; w_services := w_services w;
  w_processes := w_processes w; w_recovery_rows := w_recovery_rows w; w_events := w_events w |}.

Definition updated {P A} `{EqDecision P} (p : P) (a : A) (f : P -> A) : P -> A := fun q => if decide (q = p) then a else f q.

(** [MainWindow::new()]: the values the properties are declared with. *)
Definition window_new : Window := {|
  w_text := fun p => match p with
                     | StatTotal | StatRunning | StatStopped | StatManualStart | StatFailed | StatAutoRecovering => &"0"
                     | StatAvailabilityTitle => &"Availability (30d)"
                     | StatAvailabilityValue => &"—"
                     | _ => []
                     end;
  w_flag := fun p => match p with ManagedOnly => true | _ => false end;
  w_num := fun p => match p with AutoRefreshSecs => 5 | _ => 0 end;
  w_lines := fun _ => []; w_services := []; w_processes := []; w_recovery_rows := []; w_events := [] |}.

(** ** AppState *)

Record AppState := {
  defs : list ServiceDefinition; startup_warning : option rstr; warnings : list rstr;
  managed_only : bool; running_only : bool; search : rstr; sort_column : Z; sort_ascending : bool;
  visible_names : list rstr; log_stderr : bool; logs : LogViewState; event_records : list EventRecord;
  metrics : DashboardMetrics; events : list EventEntry; edit_form : option EditForm;
  proc_rows : list ProcessRow; proc_sort_column : Z; proc_sort_ascending : bool; recovery : RecoveryEditor;
  config : GuiConfig.Config; modal : ModalState; action_ids : Z; status : StatusState;
  scan_error : option rstr; refresh_retry : bool }.
#[export] Instance AppState_eta : Eta AppState := fun s => {|
  defs := defs s; startup_warning := startup_warning s; warnings := warnings s;
  managed_only := managed_only s; running_only := running_only s; search := search s; sort_column := sort_column s;
  sort_ascending := sort_ascending s; visible_names := visible_names s; log_stderr := log_stderr s; logs := logs s;
  event_records := event_records s; metrics := metrics s; events := events s; edit_form := edit_form s;
  proc_rows := proc_rows s; proc_sort_column := proc_sort_column s; proc_sort_ascending := proc_sort_ascending s;
  recovery := recovery s; config := config s; modal := modal s; action_ids := action_ids s; status := status s;
  scan_error := scan_error s; refresh_retry := refresh_retry s |}.
#[export] Instance GuiConfig_eta : Eta GuiConfig.Config := fun c => {|
  GuiConfig.v := GuiConfig.v c; GuiConfig.auto_refresh := GuiConfig.auto_refresh c;
  GuiConfig.auto_refresh_secs := GuiConfig.auto_refresh_secs c; GuiConfig.managed_only := GuiConfig.managed_only c |}.
#[export] Instance EditForm_eta : Eta EditForm := fun f => {|
  ef_name := ef_name f; ef_display_name := ef_display_name f; ef_description := ef_description f;
  ef_application := ef_application f; ef_app_parameters := ef_app_parameters f; ef_app_directory := ef_app_directory f;
  ef_stdout := ef_stdout f; ef_stderr := ef_stderr f; ef_account := ef_account f; ef_password := ef_password f;
  ef_start_type := ef_start_type f; orig_display_name := orig_display_name f; orig_description := orig_description f;
  orig_application := orig_application f; orig_app_parameters := orig_app_parameters f;
  orig_app_directory := orig_app_directory f; orig_stdout := orig_stdout f; orig_stderr := orig_stderr f;
  orig_account := orig_account f; orig_start_type := orig_start_type f |}.

(** The controller and its window. *)
Record Gui := { st : AppState; win : Window }.
#[export] Instance Gui_eta : Eta Gui := fun g => {| st := st g; win := win g |}.

Definition set_text (p : TextProp) (v : rstr) (g : Gui) : Gui := g <| win := win g <| w_text := updated p v (w_text (win g)) |> |>.
Definition set_flag (p : FlagProp) (v : bool) (g : Gui) : Gui := g <| win := win g <| w_flag := updated p v (w_flag (win g)) |> |>.
Definition set_num (p : NumProp) (v : Z) (g : Gui) : Gui := g <| win := win g <| w_num := updated p v (w_num (win g)) |> |>.
Definition set_lines (p : LinesProp) (v : list rstr) (g : Gui) : Gui := g <| win := win g <| w_lines := updated p v (w_lines (win g)) |> |>.
Definition text (g : Gui) : TextProp -> rstr := w_text (win g).
Definition flag (g : Gui) : FlagProp -> bool := w_flag (win g).
Definition num (g : Gui) : NumProp -> Z := w_num (win g).

(** ** Rendering: what changes no request *)

Definition opt_list {A} (o : option A) : list A := match o with Some a => [a] | None => [] end.

Definition render_status (g : Gui) : Gui :=
  let s := st g in
  let g := set_text StatusText (status_text (status s)) g in
  let details := status_details (status s) ++ opt_list (startup_warning s) ++ warnings s ++ opt_list (scan_error s) in
  set_lines StatusDetails details (set_flag StatusHasDetails (negb (is_empty details)) g).

Definition on_status (f : StatusState -> StatusState) (g : Gui) : Gui := g <| st := st g <| status := f (status (st g)) |> |>.
Definition operation_status (message : rstr) (g : Gui) : Gui := render_status (on_status (status_operation message) g).
Definition begin_operation (id : OperationId) (message : rstr) (g : Gui) : Gui := render_status (on_status (status_begin id message) g).

Definition update_scan_status (g : Gui) : Gui :=
  let s := st g in
  let all := opt_list (startup_warning s) ++ warnings s ++ opt_list (scan_error s) in
  let base := unwrap_or (to_dec (Z.of_nat (length (defs s))) ++ &" services") (scan_error s) in
  let line := if is_empty all then base
              else base ++ &" — " ++ to_dec (Z.of_nat (length all)) ++ &" warning(s); click for details" in
  render_status (set_lines WarningLines all (on_status (status_scan line) g)).

Definition clear_modal_password (g : Gui) : Gui := set_text ModalPassword [] g.
Definition clear_modal_fields (g : Gui) : Gui :=
  let clear p g := set_text p [] g in
  let g := fold_left (fun g p => clear p g)
             [ModalName; ModalDisplay; ModalDescription; ModalApplication; ModalArguments; ModalWorkingDir;
              ModalStdout; ModalStderr; ModalAccount] g in
  clear_modal_password (set_num ModalStartType 0 g).

Definition int_to_start_type (v : Z) : InstallStartType :=
  if v =? 1 then StartAutomatic else if v =? 2 then StartDisabled else StartManual.
Definition start_type_to_int (v : InstallStartType) : Z :=
  match v with StartManual => 0 | StartAutomatic => 1 | StartDisabled => 2 end.
Definition modal_kind_int (k : ModalKind) : Z :=
  match k with Closed => 0 | Install => 1 | Edit => 2 | Remove => 3 | Processes => 4 | Warnings => 5 end.

(** [None]: the generation counter is exhausted and the [expect] panics. *)
Definition replace_modal (kind : ModalKind) (service : rstr) (g : Gui) : option (bool * Gui) :=
  '(replaced, m) ← modal_replace kind (modal (st g));
  let g := g <| st := st g <| modal := m |> |> in
  if negb replaced then Some (false, g)
  else
    let g := clear_modal_fields (g <| st := st g <| edit_form := None |> |>) in
    let g := set_text ModalError [] (set_text ModalServiceName service g) in
    Some (true, set_num ActiveModal (modal_kind_int kind) (set_flag ModalBusy false g)).

Definition render_log (g : Gui) : Gui :=
  let l := logs (st g) in
  let g := set_lines LogLines (lv_lines l) g in
  let g := set_text LogServiceName (match lv_target l with Some t => lt_service t | None => [] end) g in
  let g := set_flag LogStderr (match lv_target l with Some t => lt_stderr t | None => log_stderr (st g) end) g in
  set_text LogStatus (lv_status l) g.

Definition push_recovery_rows (form : RecoveryForm) (g : Gui) : Gui := g <| win := win g <| w_recovery_rows := rf_rows form |> |>.
Definition show_recovery_draft (g : Gui) : Gui :=
  match re_draft (recovery (st g)) with
  | None => set_flag RecoveryAvailable false g
  | Some form =>
      let g := set_text RecoveryService (rf_service form) g in
      let g := set_text RecoveryRestartDelay (rf_restart_delay form) g in
      let g := set_text RecoveryThrottle (rf_throttle form) g in
      let g := set_num RecoveryDefaultAction (rf_default_action form) g in
      set_flag RecoveryAvailable true (push_recovery_rows form g)
  end.

(** [editable_draft()] and what is written through it. *)
Definition with_draft (f : RecoveryForm -> RecoveryForm) (s : RecoveryEditor) : RecoveryEditor :=
  match editable_draft s with
  | Some form => Build_RecoveryEditor (Some (f form)) (re_service s) (re_generation s) (re_pending s)
  | None => s
  end.
Definition on_recovery (f : RecoveryEditor -> RecoveryEditor) (g : Gui) : Gui := g <| st := st g <| recovery := f (recovery (st g)) |> |>.
Definition captured (g : Gui) (form : RecoveryForm) : RecoveryForm :=
  {| rf_service := rf_service form; rf_restart_delay := text g RecoveryRestartDelay; rf_throttle := text g RecoveryThrottle;
     rf_default_action := num g RecoveryDefaultAction; rf_rows := rf_rows form |}.
Definition capture_recovery_fields (g : Gui) : Gui := on_recovery (with_draft (captured g)) g.

(** The service selected in the table. *)
Definition selected_name (g : Gui) : option rstr := nth_error (visible_names (st g)) (Z.to_nat (Z.max (num g SelectedService) 0)).

Definition has_warnings (s : AppState) : bool :=
  is_some (startup_warning s) || negb (is_empty (warnings s)) || is_some (scan_error s) || negb (is_empty (status_details (status s))).

Section Controller.
Context {T : Clock}.
(** [UtcOffset::local_offset_at], in seconds, and the Unicode mapping to lower case. *)
Variable local_offset_at : Z -> option Z.
Variable to_lowercase : rstr -> rstr.

Definition format_local_hms (t : rstr) : rstr := format_hms_with t local_offset_at.

Definition refresh_service_model (g : Gui) : Gui :=
  let s := st g in
  let view := {| v_elevated := flag g Elevated; v_managed_only := managed_only s; v_running_only := running_only s;
                 v_search := search s; v_column := sort_column s; v_ascending := sort_ascending s |} in
  let t := GuiAdapter.refresh_service_model to_lowercase (defs s) view
             {| t_rows := w_services (win g); t_visible_names := visible_names s; t_selected := num g SelectedService |} in
  let g := set_num SelectedService (-1) (g <| st := s <| visible_names := t_visible_names t |> |>) in
  set_num SelectedService (t_selected t) (g <| win := win g <| w_services := t_rows t |> |>).

Definition apply_process_model (g : Gui) : Gui :=
  let s := st g in
  g <| win := win g <| w_processes := sort_process_rows to_lowercase (proc_rows s) (proc_sort_column s) (proc_sort_ascending s) |> |>.

Definition render_event (rec : EventRecord) : EventEntry :=
  let svc := ev_service rec in
  let '(label, kind) :=
    match ev_event rec with
    | Started => (svc ++ &" — started", 0)
    | EvStopped => (svc ++ &" — stopped", 1)
    | ChildExited => match ev_exit_code rec with
                     | Some c => (svc ++ &" — exited (code " ++ to_dec c ++ &")", 1)
                     | None => (svc ++ &" — exited", 1)
                     end
    | Restarted => (svc ++ &" — restarted", 2)
    | Throttled => match ev_delay_ms rec with
                   | Some ms => (svc ++ &" — restart throttled (" ++ to_dec ms ++ &"ms)", 2)
                   | None => (svc ++ &" — restart throttled", 2)
                   end
    end in
  {| ee_label := label; ee_time := format_local_hms (ts rec); ee_kind := kind |}.

Definition apply_snapshot (g : Gui) : Gui :=
  let g := refresh_service_model g in
  let m := metrics (st g) in
  let n p v g := set_text p (to_dec v) g in
  let g := n StatTotal (Metrics.total m) g in
  let g := n StatRunning (Metrics.running m) g in
  let g := n StatStopped (Metrics.stopped m) g in
  let g := n StatManualStart (manual_start m) g in
  let g := n StatFailed (failed m) g in
  let g := n StatAutoRecovering (auto_recovering m) g in
  let g := set_text StatAvailabilityTitle (&"Availability (" ++ to_dec (availability_window_days m) ++ &"d)") g in
  let unknown := (Metrics.total m =? 0) || availability_unknown m in
  let g := set_text StatAvailabilityValue (if unknown then &"—" else format_fixed 1 (availability_pct m) ++ &"%") g in
  let '(line, area) :=
    if unknown then ([], [])
    else
      let start := Z.max 0 (Z.of_nat (length (availability_daily m)) - availability_window_days m) in
      sparkline_paths (drop (Z.to_nat start) (availability_daily m)) in
  let g := set_text StatAvailabilityArea area (set_text StatAvailabilityLine line g) in
  let shown := map render_event (take 12 (event_records (st g))) in
  g <| st := st g <| events := shown |> |> <| win := win g <| w_events := shown |> |>.

(** ** Programs over the controller *)

(** A panic on the UI thread, or the exit of the process. *)
Inductive Ended := Panicked | Exited.

(** [SendJob] is [JobSender::send]; [SaveConfig] is [config::save], with the
    display of its error; [StartTimer] starts or restarts a timer of so many
    milliseconds; [PickFile] is the native file dialog. *)
Inductive GuiE : Type -> Type :=
| SendJob (job : Job) : GuiE (result JobSendError unit)
| SaveConfig (c : GuiConfig.Config) : GuiE (result rstr unit)
| StartTimer (repeated : bool) (ms : Z) : GuiE unit
| PickFile : GuiE (option rstr)
| RelaunchAsAdmin : GuiE bool.
Abbreviation UI A := (SP Gui GuiE Ended A) (only parsing).

(** A part of the state with an [expect] in it. *)
Definition uses {A} (f : Gui -> option (A * Gui)) : UI A :=
  let$ g := spget in
  match f g with
  | Some (a, g') => spmod (fun _ => g') ;$ spret a
  | None => spend Panicked
  end.

(** The request a [submit] would hand to its [send], when it gets that far. *)
Definition would_send {R S} (submitted : option (result (SubmitError R) R * S)) : option R :=
  match submitted with Some (Err (Send r), _) => Some r | _ => None end.
Definition send_when {R} (o : option R) (job : R -> Job) : UI (result JobSendError unit) :=
  match o with Some r => spcall (SendJob (job r)) | None => spret (Ok tt) end.

Definition modal_submit_job (service : rstr) (job : Request ModalTarget -> Job)
    : UI (result (SubmitError JobSendError) (Request ModalTarget)) :=
  let$ g := spget in
  let$ sent := send_when (would_send (modal_submit service Err (modal (st g)))) job in
  uses (fun g => '(r, m) ← modal_submit service (fun _ => sent) (modal (st g)); Some (r, g <| st := st g <| modal := m |> |>)).
Definition recovery_submit_job (work : RecoveryWork) (job : Request RecoveryTarget -> Job)
    : UI (result (SubmitError JobSendError) (Request RecoveryTarget)) :=
  let$ g := spget in
  let$ sent := send_when (would_send (recovery_submit work Err (recovery (st g)))) job in
  uses (fun g => '(r, e) ← recovery_submit work (fun _ => sent) (recovery (st g)); Some (r, g <| st := st g <| recovery := e |> |>)).
Definition log_request_job (target : option LogTarget) : UI unit :=
  let$ g := spget in
  let would := t ← target; fst <$> issue (sequence (lv_pending (logs (st g)))) t in
  let$ sent := send_when would JReadLog in
  uses (fun g => l ← log_request job_send_error_to_string target (fun _ => sent) (logs (st g)); Some (tt, g <| st := st g <| logs := l |> |>)).

Definition request_refresh : UI unit :=
  let$ sent := spcall (SendJob Refresh) in
  let$ g := spget in
  let '(r, retry) := refresh_request sent (refresh_retry (st g)) in
  spmod (fun g => g <| st := st g <| refresh_retry := retry |> |>) ;$
  match r with
  | Ok _ => spret tt
  | Err e =>
      let error := &"Refresh not queued: " ++ job_send_error_to_string e ++ &"; retry pending" in
      spmod (fun g => update_scan_status (g <| st := st g <| scan_error := Some error |> |>))
  end.

Definition queue_action (kind : ActionKind) (service message : rstr) : UI (result JobSendError unit) :=
  let$ request := uses (fun g =>
    '(r, next) ← issue (action_ids (st g)) {| at_service := service; at_kind := kind |};
    Some (r, g <| st := st g <| action_ids := next |> |>)) in
  let$ sent := spcall (SendJob (JAction request)) in
  match sent with
  | Err e => spret (Err e)
  | Ok _ => spmod (begin_operation (OpAction (req_id request)) message) ;$ spret (Ok tt)
  end.

Definition dispatch (kind : ActionKind) (service message : rstr) : UI unit :=
  let$ r := queue_action kind service message in
  match r with
  | Ok _ => spret tt
  | Err e => spmod (operation_status (&"Action for '" ++ service ++ &"' not queued: " ++ job_send_error_to_string e ++ &". Please retry."))
  end.

Definition open_modal (kind : ModalKind) (service : rstr) : UI bool := uses (replace_modal kind service).
Definition show_busy : UI unit := spmod (fun g => set_flag ModalBusy (modal_busy (modal (st g))) g).

Definition open_processes_modal (name : rstr) : UI unit :=
  let$ opened := open_modal Processes name in
  if negb opened then spret tt
  else
    spmod (fun g => apply_process_model (g <| st := st g <| proc_rows := [] |> |>)) ;$
    let$ r := modal_submit_job name JProcesses in
    match r with
    | Ok _ => spret tt
    | Err e => spmod (set_text ModalError (submit_error_to_string job_send_error_to_string e))
    end ;$ show_busy.

Definition show_edit_form (form : EditForm) (g : Gui) : Gui :=
  let g := set_text ModalDisplay (ef_display_name form) g in
  let g := set_text ModalDescription (ef_description form) g in
  let g := set_text ModalApplication (ef_application form) g in
  let g := set_text ModalArguments (ef_app_parameters form) g in
  let g := set_text ModalWorkingDir (ef_app_directory form) g in
  let g := set_text ModalStdout (ef_stdout form) g in
  let g := set_text ModalStderr (ef_stderr form) g in
  let g := set_text ModalAccount (ef_account form) g in
  let g := set_text ModalPassword [] g in
  set_num ModalStartType (start_type_to_int (ef_start_type form)) g.
Definition open_edit_modal (name : rstr) : UI unit :=
  let$ g := spget in
  match List.find (fun d => bool_decide (Model.name (native d) = name)) (defs (st g)) with
  | None => spmod (operation_status (&"'" ++ name ++ &"' is no longer present."))
  | Some def =>
      let form := from_definition def in
      let$ opened := open_modal Edit (ef_name form) in
      if negb opened then spret tt
      else spmod (fun g => let g := show_edit_form form g in g <| st := st g <| edit_form := Some form |> |>)
  end.

Definition request_log : UI unit :=
  let$ g := spget in
  let target := option_map (fun service => {| lt_service := service; lt_stderr := log_stderr (st g) |}) (selected_name g) in
  log_request_job target ;$ spmod render_log.

Definition persist_config : UI unit :=
  let$ g := spget in
  let$ saved := spcall (SaveConfig (config (st g))) in
  spmod (operation_status (match saved with Ok _ => &"Settings saved." | Err e => &"Settings not saved: " ++ e end)).

Definition placeholder (msg : rstr) (g : Gui) : Gui :=
  set_text RecoveryPlaceholder msg (set_flag RecoveryBusy false (set_flag RecoveryAvailable false g)).
Definition draft_suffix (g : Gui) : rstr := if is_some (re_draft (recovery (st g))) then &" Draft retained." else [].
Definition activate_recovery (name : rstr) : UI unit :=
  uses (fun g => r ← recovery_activate name (recovery (st g)); Some (tt, g <| st := st g <| recovery := r |> |>)).
Definition show_recovery_busy : UI unit := spmod (fun g => set_flag RecoveryBusy (recovery_busy (recovery (st g))) g).

Definition reload_recovery : UI unit :=
  let$ g := spget in
  if recovery_busy (recovery (st g)) then spret tt
  else
    spmod capture_recovery_fields ;$
    if negb (flag g Elevated) then
      spmod (fun g => placeholder &"Recovery editing needs an administrator session." (on_recovery recovery_leave g))
    else
      match selected_name g with
      | None =>
          spmod (fun g => placeholder &"Select a service in the Services view to edit its recovery policy." (on_recovery recovery_leave g))
      | Some name =>
          activate_recovery name ;$
          spmod (fun g => show_recovery_draft (set_text RecoveryService name g)) ;$
          let message := &"Reloading recovery policy for '" ++ name ++ &"'…" in
          spmod (fun g => set_text RecoveryStatus message (set_text RecoveryPlaceholder message g)) ;$
          let$ r := recovery_submit_job Read JReadRecovery in
          match r with
          | Ok _ => spret tt
          | Err e => spmod (fun g =>
              let message := submit_error_to_string job_send_error_to_string e ++ draft_suffix g in
              set_text RecoveryStatus message (set_text RecoveryPlaceholder message g))
          end ;$ show_recovery_busy
      end.

(** ** Results of the worker *)

Definition action_debug (k : ActionKind) : rstr :=
  match k with
  | AStart => &"Start" | AStop => &"Stop" | ARestart => &"Restart" | APause => &"Pause" | AContinue => &"Continue"
  | ARotate => &"Rotate" | ARemove => &"Remove"
  end.
Definition modal_kind_debug (k : ModalKind) : rstr :=
  match k with
  | Closed => &"Closed" | Install => &"Install" | Edit => &"Edit" | Remove => &"Remove" | Processes => &"Processes"
  | Warnings => &"Warnings"
  end.
Definition quoted_service (what service : rstr) : rstr := what ++ &" '" ++ service ++ &"'".

Definition apply_mutation_outcome (id : OperationId) (outcome : MutationOutcome) : UI unit :=
  spmod (fun g => render_status (on_status (status_finish id (mo_message outcome)) g)) ;$
  if mo_refresh outcome then request_refresh else spret tt.

(** [finish] of the editor a request belongs to, in the state. *)
Definition finish_modal (request : Request ModalTarget) : UI bool :=
  uses (fun g => let '(b, m) := modal_finish request (modal (st g)) in Some (b, g <| st := st g <| modal := m |> |>)).
Definition finish_recovery (request : Request RecoveryTarget) : UI bool :=
  uses (fun g => let '(b, r) := recovery_finish request (recovery (st g)) in Some (b, g <| st := st g <| recovery := r |> |>)).

Definition process_row (p : ProcessInfo) : ProcessRow :=
  {| pr_pid := to_dec (pi_pid p); pr_ppid := to_dec (pi_parent_pid p); pr_image := pi_image_name p |}.

Definition services_result (ds : list ServiceDefinition) (ws : list rstr) (es : list EventRecord) (m : DashboardMetrics) (g : Gui) : Gui :=
  apply_snapshot (update_scan_status
    (g <| st := st g <| defs := ds |> <| warnings := ws |> <| event_records := es |> <| metrics := m |> <| scan_error := None |> |>)).

Definition processes_result (request : Request ModalTarget) (r : result Error (list ProcessInfo)) : UI unit :=
  let$ ours := finish_modal request in
  if negb ours then spret tt
  else spmod (fun g =>
    let g := set_flag ModalBusy false g in
    match r with
    | Ok processes => apply_process_model (g <| st := st g <| proc_rows := map process_row processes |> |>)
    | Err e => set_text ModalError (&"Cannot read processes: " ++ error_to_string e) g
    end).

Definition log_result (request : Request LogTarget) (status : rstr) (lines : list rstr) (g : Gui) : Gui :=
  let '(ours, l) := log_received request status lines (logs (st g)) in
  if ours then render_log (g <| st := st g <| logs := l |> |>) else g.

Definition recovery_loaded_result (request : Request RecoveryTarget) (r : result Error RecoverySpec) (g : Gui) : Gui :=
  let '(loaded, e) := recovery_loaded request r (recovery (st g)) in
  let g := g <| st := st g <| recovery := e |> |> in
  match loaded with
  | None => g
  | Some loaded =>
      let g := set_flag RecoveryBusy false g in
      match loaded with
      | Ok _ => set_text RecoveryStatus &"Policy reloaded from the service configuration." (show_recovery_draft g)
      | Err e =>
          let error := &"Reload failed: " ++ e ++ &"." ++ draft_suffix g ++ &" Please retry." in
          set_text RecoveryPlaceholder error (set_text RecoveryStatus error g)
      end
  end.

Definition recovery_saved_result (request : Request RecoveryTarget) (r : result Error rstr) : UI unit :=
  let$ ours := finish_recovery request in
  let outcome := mutation_outcome ours (quoted_service &"Save recovery for" (rt_service (req_target request))) r in
  spmod (fun g => if mo_apply_local outcome
                  then set_text RecoveryStatus (mo_message outcome) (set_flag RecoveryBusy false g) else g) ;$
  apply_mutation_outcome (OpRecovery (req_id request)) outcome.

Definition modal_mutation_result (request : Request ModalTarget) (r : result Error rstr) : UI unit :=
  let$ ours := finish_modal request in
  let target := req_target request in
  let outcome := mutation_outcome ours (quoted_service (modal_kind_debug (mt_kind target)) (mt_service target)) r in
  (if mo_apply_local outcome then
     spmod (fun g => clear_modal_password (set_flag ModalBusy false g)) ;$
     match mo_error outcome with
     | Some error => spmod (fun g =>
         set_text ModalError error (g <| st := st g <| edit_form := option_map edit_clear_password (edit_form (st g)) |> |>))
     | None => open_modal Closed [] ;$ spret tt
     end
   else spret tt) ;$
  apply_mutation_outcome (OpModal (req_id request)) outcome.

Definition action_result (request : Request ActionTarget) (r : result Error rstr) : UI unit :=
  let target := req_target request in
  let outcome := mutation_outcome false (quoted_service (action_debug (at_kind target)) (at_service target)) r in
  apply_mutation_outcome (OpAction (req_id request)) outcome.

Definition apply_result (r : JobResult) : UI unit :=
  match r with
  | RServices ds ws es m => spmod (services_result ds ws es m)
  | RActed request r => action_result request r
  | RProcesses request r => processes_result request r
  | RLog request status lines => spmod (log_result request status lines)
  | RRecoveryLoaded request r => spmod (recovery_loaded_result request r)
  | RRecoverySaved request r => recovery_saved_result request r
  | RInstalled request r | REdited request r => modal_mutation_result request r
  | RScanError e => spmod (fun g =>
      update_scan_status (g <| st := st g <| scan_error := Some (&"Refresh failed: " ++ error_to_string e) |> |>))
  end.

(** [results] is what [try_recv] yields until it finds the channel empty. *)
Definition drain_results (results : list JobResult) : UI unit :=
  spfor results apply_result ;$
  let$ g := spget in
  if refresh_retry (st g) then request_refresh else spret tt.

(** ** Callbacks *)

Definition auto_refresh_tick : UI unit :=
  let$ g := spget in if flag g AutoRefresh then request_refresh else spret tt.
Definition apply_search : UI unit := spmod refresh_service_model.

Definition on_view_warnings : UI unit :=
  let$ g := spget in
  if has_warnings (st g) then open_modal Warnings [] ;$ spret tt else spret tt.

Definition on_view_changed (view : Z) (g : Gui) : Gui :=
  let g := if negb (view =? 3) then set_flag RecoveryBusy false (on_recovery recovery_leave (capture_recovery_fields g)) else g in
  if negb (view =? 2) then g <| st := st g <| logs := log_leave (logs (st g)) |> |> else g.

Definition on_filter_changed (v : bool) : UI unit :=
  spmod (fun g => refresh_service_model
    (g <| st := st g <| config := config (st g) <| GuiConfig.managed_only := v |> |> <| managed_only := v |> |>)) ;$
  persist_config.
Definition on_running_changed (v : bool) (g : Gui) : Gui := refresh_service_model (g <| st := st g <| running_only := v |> |>).
Definition on_search_changed (typed : rstr) : UI unit :=
  spmod (fun g => g <| st := st g <| search := typed |> |>) ;$ spcall (StartTimer false 180).
Definition on_sort_changed (column : Z) (g : Gui) : Gui :=
  let s := st g in
  let s := if sort_column s =? column then s <| sort_ascending := negb (sort_ascending s) |>
           else s <| sort_column := column |> <| sort_ascending := true |> in
  refresh_service_model (set_flag SortAscending (sort_ascending s) (set_num SortColumn (sort_column s) (g <| st := s |>))).
Definition on_modal_sort_changed (column : Z) (g : Gui) : Gui :=
  let s := st g in
  let s := if proc_sort_column s =? column then s <| proc_sort_ascending := negb (proc_sort_ascending s) |>
           else s <| proc_sort_column := column |> <| proc_sort_ascending := true |> in
  apply_process_model (set_flag ModalSortAscending (proc_sort_ascending s) (set_num ModalSortColumn (proc_sort_column s) (g <| st := s |>))).

Definition on_action (verb name : rstr) : UI unit :=
  let act kind message := dispatch kind name (quoted_service message name ++ &"…") in
  if str_eqb verb &"start" then act AStart &"Starting"
  else if str_eqb verb &"stop" then act AStop &"Stopping"
  else if str_eqb verb &"restart" then act ARestart &"Restarting"
  else if str_eqb verb &"pause" then act APause &"Pausing"
  else if str_eqb verb &"continue" then act AContinue &"Resuming"
  else if str_eqb verb &"rotate" then act ARotate &"Rotating logs for"
  else if str_eqb verb &"processes" then open_processes_modal name
  else if str_eqb verb &"edit" then open_edit_modal name
  else if str_eqb verb &"remove" then open_modal Remove name ;$ spret tt
  else spmod (operation_status (&"Unknown action '" ++ verb ++ &"' — ignored.")).

Definition on_relaunch_admin : UI unit :=
  let$ relaunched := spcall RelaunchAsAdmin in
  if relaunched : bool then spend Exited else spmod (operation_status &"Relaunch declined or failed.").
Definition on_install : UI unit := open_modal Install [] ;$ spret tt.
Definition on_modal_cancel : UI unit := open_modal Closed [] ;$ spret tt.

(** The dialog runs other callbacks while it is open: what follows the choice
    is a step of its own, with the generation the choice was made for. *)
Definition browse_generation (g : Gui) : option Z :=
  let m := modal (st g) in
  if negb (modal_busy m) && match modal_kind m with Install | Edit => true | _ => false end then Some (modal_generation m) else None.
Definition on_modal_browse_app : UI (option (Z * rstr)) :=
  let$ g := spget in
  match browse_generation g with
  | None => spret None
  | Some generation => let$ picked := spcall PickFile in spret (option_map (pair generation) picked)
  end.
Definition app_picked (generation : Z) (path : rstr) (g : Gui) : Gui :=
  let m := modal (st g) in
  if (modal_generation m =? generation) && negb (modal_busy m) then set_text ModalApplication path g else g.

Definition install_form (g : Gui) : InstallForm := {|
  if_name := text g ModalName; if_display_name := text g ModalDisplay; if_description := text g ModalDescription;
  if_application := text g ModalApplication; if_app_parameters := text g ModalArguments; if_app_directory := text g ModalWorkingDir;
  if_stdout := text g ModalStdout; if_stderr := text g ModalStderr; if_account := text g ModalAccount;
  if_password := text g ModalPassword; if_start_type := int_to_start_type (num g ModalStartType) |}.

(** What submitting a form has in common. *)
Definition submit_form (service progress : rstr) (job : Request ModalTarget -> Job) : UI unit :=
  spmod (set_text ModalError []) ;$
  let$ r := modal_submit_job service job in
  match r with
  | Ok request => spmod (begin_operation (OpModal (req_id request)) (quoted_service progress service ++ &"…"))
  | Err e => spmod (set_text ModalError (submit_error_to_string job_send_error_to_string e))
  end ;$ show_busy.

Definition on_modal_install_submit : UI unit :=
  let$ g := spget in
  if negb (bool_decide (modal_kind (modal (st g)) = Install)) || modal_busy (modal (st g)) then spret tt
  else
    let spec := install_to_spec (install_form g) in
    spmod clear_modal_password ;$
    match spec with
    | Ok spec => submit_form (is_name spec) &"Installing" (JInstall spec)
    | Err e => spmod (set_text ModalError e)
    end.

(** The form with what was typed into the window. *)
Definition typed_edit_form (form : EditForm) (g : Gui) : EditForm :=
  form <| ef_display_name := text g ModalDisplay |> <| ef_description := text g ModalDescription |>
       <| ef_application := text g ModalApplication |> <| ef_app_parameters := text g ModalArguments |>
       <| ef_app_directory := text g ModalWorkingDir |> <| ef_stdout := text g ModalStdout |> <| ef_stderr := text g ModalStderr |>
       <| ef_account := text g ModalAccount |> <| ef_password := text g ModalPassword |>
       <| ef_start_type := int_to_start_type (num g ModalStartType) |>.
Definition on_modal_edit_submit : UI unit :=
  let$ g := spget in
  if negb (bool_decide (modal_kind (modal (st g)) = Edit)) || modal_busy (modal (st g)) then spret tt
  else
    match edit_form (st g) with
    | None => spret tt
    | Some form =>
        let form := typed_edit_form form g in
        let spec := edit_to_spec form in
        spmod (fun g => clear_modal_password (g <| st := st g <| edit_form := Some (edit_clear_password form) |> |>)) ;$
        match spec with
        | Ok spec => submit_form (es_name spec) &"Editing" (JEdit spec)
        | Err e => spmod (set_text ModalError e)
        end
    end.

Definition on_modal_remove_confirm : UI unit :=
  let$ g := spget in
  if negb (bool_decide (modal_kind (modal (st g)) = Remove)) then spret tt
  else
    let name := text g ModalServiceName in
    let$ r := queue_action ARemove name (quoted_service &"Removing" name ++ &"…") in
    match r with
    | Ok _ => open_modal Closed [] ;$ spret tt
    | Err e => spmod (set_text ModalError (&"Removal not queued: " ++ job_send_error_to_string e ++ &". Please retry."))
    end.

Definition on_logs_set_stderr (v : bool) : UI unit :=
  spmod (fun g => g <| st := st g <| log_stderr := v |> |>) ;$ request_log.

(** The draft, when the editor is active and idle, with [f] applied to its rows. *)
Definition with_rows (f : list RecoveryExitRow -> list RecoveryExitRow) (form : RecoveryForm) : RecoveryForm :=
  {| rf_service := rf_service form; rf_restart_delay := rf_restart_delay form; rf_throttle := rf_throttle form;
     rf_default_action := rf_default_action form; rf_rows := f (rf_rows form) |}.
Definition edit_rows (f : list RecoveryExitRow -> list RecoveryExitRow) (g : Gui) : Gui := on_recovery (with_draft (with_rows f)) g.
Definition push_draft (g : Gui) : Gui :=
  match editable_draft (recovery (st g)) with Some form => push_recovery_rows form g | None => g end.
Definition on_recovery_add_row (g : Gui) : Gui :=
  push_draft (edit_rows (fun rows => rows ++ [{| row_exit_code := []; row_action := 0 |}]) g).
Definition on_recovery_remove_row (idx : Z) (g : Gui) : Gui :=
  if idx <? 0 then g
  else push_draft (edit_rows (fun rows => if idx <? Z.of_nat (length rows) then delete (Z.to_nat idx) rows else rows) g).
Definition on_recovery_code_changed (idx : Z) (typed : rstr) (g : Gui) : Gui :=
  if idx <? 0 then g
  else edit_rows (alter (fun row => {| row_exit_code := typed; row_action := row_action row |}) (Z.to_nat idx)) g.
Definition on_recovery_action_changed (idx action : Z) (g : Gui) : Gui :=
  if idx <? 0 then g
  else push_draft (edit_rows (alter (fun row => {| row_exit_code := row_exit_code row; row_action := action |}) (Z.to_nat idx)) g).

Definition on_recovery_save : UI unit :=
  let$ g := spget in
  if negb (recovery_active (recovery (st g))) || recovery_busy (recovery (st g)) then spret tt
  else
    spmod capture_recovery_fields ;$
    let$ g := spget in
    match re_draft (recovery (st g)) with
    | None => spret tt
    | Some form =>
        match recovery_to_spec form with
        | Ok spec =>
            let$ r := recovery_submit_job Save (JSaveRecovery spec) in
            match r with
            | Ok request =>
                spmod (set_text RecoveryStatus (quoted_service &"Saving" (rs_name spec) ++ &"…")) ;$
                spmod (begin_operation (OpRecovery (req_id request)) (quoted_service &"Saving recovery for" (rs_name spec) ++ &"…"))
            | Err e => spmod (set_text RecoveryStatus (submit_error_to_string job_send_error_to_string e))
            end ;$ show_recovery_busy
        | Err e => spmod (set_text RecoveryStatus e)
        end
    end.

Definition on_settings_set_auto_refresh (v : bool) : UI unit :=
  spmod (fun g => set_flag AutoRefresh v (g <| st := st g <| config := config (st g) <| GuiConfig.auto_refresh := v |> |> |>)) ;$
  persist_config.
(** [(secs.max(1) as u32).clamp(..)] *)
Definition interval_of (secs : Z) : Z := clamp (Z.max secs 1) AUTO_REFRESH_SECS_MIN AUTO_REFRESH_SECS_MAX.
Definition on_settings_set_interval (secs : Z) : UI unit :=
  let secs := interval_of secs in
  spmod (fun g => g <| st := st g <| config := config (st g) <| GuiConfig.auto_refresh_secs := secs |> |> |>) ;$
  spcall (StartTimer true (1000 * secs)) ;$
  spmod (set_num AutoRefreshSecs (as_i32 secs)) ;$ persist_config.
Definition on_settings_set_managed_only (v : bool) : UI unit :=
  spmod (fun g => refresh_service_model (set_flag ManagedOnly v
    (g <| st := st g <| config := config (st g) <| GuiConfig.managed_only := v |> |> <| managed_only := v |> |>))) ;$
  persist_config.

(** ** build_ui *)

Definition app_new (load : ConfigLoad) : AppState := {|
  defs := []; startup_warning := cl_warning load; warnings := [];
  managed_only := GuiConfig.managed_only (cl_config load); running_only := false; search := []; sort_column := 0;
  sort_ascending := true; visible_names := []; log_stderr := false; logs := LogViewState_default; event_records := [];
  metrics := {| Metrics.total := 0; Metrics.running := 0; Metrics.stopped := 0; manual_start := 0; failed := 0; auto_recovering := 0;
                availability_pct := f32_of 0; availability_window_days := 0; availability_daily := []; availability_unknown := false |};
  events := []; edit_form := None; proc_rows := []; proc_sort_column := 0; proc_sort_ascending := true;
  recovery := RecoveryEditor_default; config := cl_config load; modal := ModalState_default; action_ids := 0;
  status := Build_StatusState [] None []; scan_error := None; refresh_retry := false |}.

(** The window and the controller before the first callback. *)
Definition gui_new (elevated : bool) (load : ConfigLoad) : Gui :=
  let g := {| st := app_new load; win := window_new |} in
  let g := set_flag ModalSortAscending true (set_flag SortAscending true (set_flag Elevated elevated g)) in
  let c := cl_config load in
  let g := set_flag ManagedOnly (GuiConfig.managed_only c) (set_flag AutoRefresh (GuiConfig.auto_refresh c) g) in
  set_num AutoRefreshSecs (as_i32 (auto_refresh_secs c)) g.
Definition build_ui : UI unit :=
  let$ g := spget in
  spcall (StartTimer true (1000 * Z.max (auto_refresh_secs (config (st g))) 1)) ;$
  spmod (on_status (status_scan &"Loading…")) ;$
  request_refresh ;$ spmod render_status.

(** ** What the event loop delivers *)

(** Properties the user writes directly, through the elements bound to them; the
    fields of a form exist only while its dialog is shown. *)
Definition editable_text (g : Gui) (p : TextProp) : bool :=
  match p with
  | ModalName | ModalDisplay | ModalDescription | ModalApplication | ModalArguments | ModalWorkingDir | ModalStdout
  | ModalStderr | ModalAccount | ModalPassword =>
      (num g ActiveModal =? modal_kind_int Install) || (num g ActiveModal =? modal_kind_int Edit)
  | RecoveryRestartDelay | RecoveryThrottle => true
  | _ => false
  end.
Definition editable_flag (p : FlagProp) : bool := match p with AutoRefresh | ManagedOnly => true | _ => false end.
Definition editable_num (p : NumProp) : bool :=
  match p with SelectedService | ModalStartType | RecoveryDefaultAction | AutoRefreshSecs => true | _ => false end.

Inductive UiEvent :=
| TypeText (p : TextProp) (v : rstr) | SwitchFlag (p : FlagProp) (v : bool) | ChooseNum (p : NumProp) (v : Z)
| Tick | SearchPause | ClickRefresh | ClickWarnings | ViewChanged (view : Z) | FilterChanged (v : bool) | RunningChanged (v : bool)
| SearchChanged (typed : rstr) | SortChanged (column : Z) | ClickAction (verb name : rstr) | ClickRelaunch | ClickInstall
| ModalCancel | BrowseApp | AppPicked (generation : Z) (path : rstr) | InstallSubmit | EditSubmit | RemoveConfirm
| ModalSortChanged (column : Z) | LogsReload | LogsSetStderr (v : bool) | RecoveryReload | RecoveryAddRow
| RecoveryRemoveRow (idx : Z) | RecoveryCodeChanged (idx : Z) (typed : rstr) | RecoveryActionChanged (idx action : Z)
| RecoverySave | SetAutoRefresh (v : bool) | SetInterval (secs : Z) | SetManagedOnly (v : bool)
| Results (results : list JobResult).

Definition handle (e : UiEvent) : UI unit :=
  match e with
  | TypeText p v => spmod (fun g => if editable_text g p then set_text p v g else g)
  | SwitchFlag p v => spmod (fun g => if editable_flag p then set_flag p v g else g)
  | ChooseNum p v => spmod (fun g => if editable_num p then set_num p v g else g)
  | Tick => auto_refresh_tick
  | SearchPause => apply_search
  | ClickRefresh => request_refresh
  | ClickWarnings => on_view_warnings
  | ViewChanged view => spmod (on_view_changed view)
  | FilterChanged v => on_filter_changed v
  | RunningChanged v => spmod (on_running_changed v)
  | SearchChanged typed => on_search_changed typed
  | SortChanged column => spmod (on_sort_changed column)
  | ClickAction verb name => on_action verb name
  | ClickRelaunch => on_relaunch_admin
  | ClickInstall => on_install
  | ModalCancel => on_modal_cancel
  | BrowseApp => on_modal_browse_app ;$ spret tt
  | AppPicked generation path => spmod (app_picked generation path)
  | InstallSubmit => on_modal_install_submit
  | EditSubmit => on_modal_edit_submit
  | RemoveConfirm => on_modal_remove_confirm
  | ModalSortChanged column => spmod (on_modal_sort_changed column)
  | LogsReload => request_log
  | LogsSetStderr v => on_logs_set_stderr v
  | RecoveryReload => reload_recovery
  | RecoveryAddRow => spmod on_recovery_add_row
  | RecoveryRemoveRow idx => spmod (on_recovery_remove_row idx)
  | RecoveryCodeChanged idx typed => spmod (on_recovery_code_changed idx typed)
  | RecoveryActionChanged idx action => spmod (on_recovery_action_changed idx action)
  | RecoverySave => on_recovery_save
  | SetAutoRefresh v => on_settings_set_auto_refresh v
  | SetInterval secs => on_settings_set_interval secs
  | SetManagedOnly v => on_settings_set_managed_only v
  | Results results => drain_results results
  end.

(** The GUI from its start, over every sequence of events. *)
Definition session (es : list UiEvent) : UI unit := build_ui ;$ spfor es handle.
End Controller.

Abbreviation GuiCall := (Event GuiE Ended) (only parsing).
