(* ===== verification/GuiAppSpec.v ===== *)
(** * What the GUI shows and does: gui [app.rs]

    Along every session, the window shows the controller's state, the worker
    is sent only what the user asked for on what was shown, and late results
    change nothing. *)

From Stdlib Require Import ZArith Lia List SpecFloat.
From S2P Require Import Prelude Text BTree Model Expansion Effects StateProg Win32 OpsConfig OpsControl BrokerHandlers.
From S2P Require Import EventLog LogReader Metrics Sparkline GuiForms GuiRequests GuiQueue GuiTail GuiWorker GuiConfig GuiAdapter GuiApp.

(** ** Properties of the window *)

Lemma updated_same {P A} `{EqDecision P} (p : P) (a : A) f : updated p a f p = a.
Proof. unfold updated. by rewrite decide_True. Qed.
Lemma updated_other {P A} `{EqDecision P} (p q : P) (a : A) f : q <> p -> updated p a f q = f q.
Proof. intros H. unfold updated. by rewrite decide_False. Qed.

Definition details_of (s : AppState) : list rstr :=
  status_details (status s) ++ opt_list (startup_warning s) ++ warnings s ++ opt_list (scan_error s).

(** The status bar. *)
Definition shows_status (g : Gui) : Prop :=
  text g StatusText = status_text (status (st g)) /\ w_lines (win g) StatusDetails = details_of (st g)
  /\ flag g StatusHasDetails = negb (is_empty (details_of (st g))).
(** The dialog, and the form behind it. Without a dialog that has a password
    field there is no password, and the form never holds one. *)
Definition shows_form (kind : ModalKind) (g : Gui) : Prop :=
  match edit_form (st g) with
  | Some f => kind = Edit /\ text g ModalServiceName = ef_name f /\ ef_password f = []
  | None => kind <> Edit
  end
  /\ (mutating kind = false -> text g ModalPassword = []).
Definition shows_modal (g : Gui) : Prop :=
  num g ActiveModal = modal_kind_int (modal_kind (modal (st g))) /\ shows_form (modal_kind (modal (st g))) g.
(** Which of the two editors waits for the worker. While a request is being
    submitted the flag lags behind ([lm], [lr]). *)
Definition shows_busy (lm lr : bool) (g : Gui) : Prop :=
  (lm = false -> flag g ModalBusy = modal_busy (modal (st g)))
  /\ (lr = false -> flag g RecoveryBusy = recovery_busy (recovery (st g))).
(** The log view. *)
Definition shows_log (g : Gui) : Prop :=
  let l := logs (st g) in
  w_lines (win g) LogLines = lv_lines l /\ text g LogStatus = lv_status l
  /\ text g LogServiceName = match lv_target l with Some t => lt_service t | None => [] end
  /\ flag g LogStderr = match lv_target l with Some t => lt_stderr t | None => log_stderr (st g) end.
(** The recovery editor. *)
Definition shows_recovery (g : Gui) : Prop :=
  editor_ok (recovery (st g))
  /\ (flag g RecoveryAvailable = true -> exists f, re_draft (recovery (st g)) = Some f
        /\ text g RecoveryService = rf_service f /\ map row_action (w_recovery_rows (win g)) = map row_action (rf_rows f)).
(** The table of services; the other tables, the order they are in, the settings. *)
Definition shows_names (g : Gui) : Prop := map sr_name (w_services (win g)) = visible_names (st g).
Definition shows_tables (to_lowercase : rstr -> rstr) (g : Gui) : Prop :=
  num g SortColumn = sort_column (st g) /\ flag g SortAscending = sort_ascending (st g)
  /\ w_processes (win g) = sort_process_rows to_lowercase (proc_rows (st g)) (proc_sort_column (st g)) (proc_sort_ascending (st g))
  /\ num g ModalSortColumn = proc_sort_column (st g) /\ flag g ModalSortAscending = proc_sort_ascending (st g)
  /\ w_events (win g) = events (st g) /\ (length (events (st g)) <= 12)%nat
  /\ GuiConfig.managed_only (config (st g)) = managed_only (st g)
  /\ AUTO_REFRESH_SECS_MIN <= auto_refresh_secs (config (st g)) <= AUTO_REFRESH_SECS_MAX.


(** The window shows the state. *)
Record mirrors (to_lowercase : rstr -> rstr) (lm lr : bool) (g : Gui) : Prop := {
  mi_status : shows_status g; mi_modal : shows_modal g; mi_busy : shows_busy lm lr g; mi_log : shows_log g;
  mi_recovery : shows_recovery g; mi_names : shows_names g; mi_tables : shows_tables to_lowercase g }.

(** ** Rendering keeps the window faithful

    A part of the window and of the state that a function does not touch is the
    same by computation. *)

Ltac framed H :=
  let h1 := fresh "h1" in let h2 := fresh "h2" in let h3 := fresh "h3" in let h4 := fresh "h4" in
  let h5 := fresh "h5" in let h6 := fresh "h6" in let h7 := fresh "h7" in
  destruct H as [h1 h2 h3 h4 h5 h6 h7];
  split; [try exact h1|try exact h2|try exact h3|try exact h4|try exact h5|try exact h6|try exact h7].

(** ** What the GUI may do, and when *)

(** The verb of the button an action is behind; removal has none, it needs the dialog. *)
Definition verb_of (k : ActionKind) : option rstr :=
  match k with
  | AStart => Some &"start" | AStop => Some &"stop" | ARestart => Some &"restart" | APause => Some &"pause"
  | AContinue => Some &"continue" | ARotate => Some &"rotate" | ARemove => None
  end.
Definition dialog (k : ModalKind) (g : Gui) : Prop := num g ActiveModal = modal_kind_int k /\ flag g ModalBusy = false.
Definition settings_event (e : UiEvent) : bool :=
  match e with FilterChanged _ | SetAutoRefresh _ | SetInterval _ | SetManagedOnly _ => true | _ => false end.

(** A call is permitted in the event [e], which found the GUI as [g]: [g] is
    what the user saw. *)
Definition permitted (e : UiEvent) (g : Gui) (c : GuiCall) : Prop :=
  match c with
  | Ev call _ =>
      match call with
      | SendJob Refresh => True
      | SendJob (JInstall spec r) =>
          e = InstallSubmit /\ dialog Install g /\ install_to_spec (install_form g) = Ok spec
          /\ req_target r = {| mt_kind := Install; mt_service := is_name spec |}
      | SendJob (JEdit spec r) =>
          e = EditSubmit /\ dialog Edit g
          /\ (exists form, edit_form (st g) = Some form /\ edit_to_spec (typed_edit_form form g) = Ok spec)
          /\ es_name spec = text g ModalServiceName /\ req_target r = {| mt_kind := Edit; mt_service := es_name spec |}
      | SendJob (JAction r) =>
          (exists verb, e = ClickAction verb (at_service (req_target r)) /\ verb_of (at_kind (req_target r)) = Some verb)
          \/ (e = RemoveConfirm /\ num g ActiveModal = modal_kind_int Remove
             /\ req_target r = {| at_service := text g ModalServiceName; at_kind := ARemove |})
      | SendJob (JProcesses r) => e = ClickAction &"processes" (mt_service (req_target r))
      | SendJob (JReadLog r) =>
          selected_name g = Some (lt_service (req_target r))
          /\ ((e = LogsReload /\ lt_stderr (req_target r) = log_stderr (st g)) \/ e = LogsSetStderr (lt_stderr (req_target r)))
      | SendJob (JReadRecovery r) => e = RecoveryReload /\ flag g Elevated = true /\ selected_name g = Some (rt_service (req_target r))
      | SendJob (JSaveRecovery spec r) =>
          e = RecoverySave /\ flag g RecoveryBusy = false /\ re_service (recovery (st g)) = Some (rt_service (req_target r))
          /\ rs_name spec = rt_service (req_target r)
          /\ exists form, recovery_to_spec form = Ok spec /\ rf_restart_delay form = text g RecoveryRestartDelay
               /\ rf_throttle form = text g RecoveryThrottle /\ rf_default_action form = num g RecoveryDefaultAction
               /\ (flag g RecoveryAvailable = true -> rs_name spec = text g RecoveryService
                     /\ map row_action (rf_rows form) = map row_action (w_recovery_rows (win g)))
      | SaveConfig c => settings_event e = true /\ AUTO_REFRESH_SECS_MIN <= auto_refresh_secs c <= AUTO_REFRESH_SECS_MAX
      | StartTimer repeated ms =>
          (exists typed, e = SearchChanged typed /\ repeated = false) \/ (exists secs, e = SetInterval secs /\ repeated = true /\ 1000 <= ms <= 3600000)
      | PickFile => e = BrowseApp /\ (dialog Install g \/ dialog Edit g)
      | RelaunchAsAdmin => e = ClickRelaunch
      end
  end.

Section Mirrors.
Context {T : Clock}.
Variable local_offset_at : Z -> option Z.
Variable to_lowercase : rstr -> rstr.
Abbreviation mirrors := (mirrors to_lowercase).
Implicit Types (g : Gui) (lm lr : bool).

(** All but the status bar, and all but the names. *)
Definition mirrors_below lm lr g : Prop :=
  shows_modal g /\ shows_busy lm lr g /\ shows_log g /\ shows_recovery g /\ shows_names g /\ shows_tables to_lowercase g.
Lemma mirrors_below_of lm lr g : mirrors lm lr g -> mirrors_below lm lr g.
Proof. by intros []. Qed.

Lemma render_status_mirrors lm lr g : mirrors_below lm lr g -> mirrors lm lr (render_status g).
Proof. intros (H1 & H2 & H3 & H4 & H5 & H6). split; [by repeat split|exact H1|exact H2|exact H3|exact H4|exact H5|exact H6]. Qed.
Lemma on_status_mirrors f lm lr g : mirrors lm lr g -> mirrors lm lr (render_status (on_status f g)).
Proof. intros H%mirrors_below_of. apply render_status_mirrors. exact H. Qed.
Lemma update_scan_mirrors lm lr g : mirrors_below lm lr g -> mirrors lm lr (update_scan_status g).
Proof. intros H. apply render_status_mirrors. exact H. Qed.

Lemma refresh_service_model_mirrors lm lr g :
  shows_status g -> shows_modal g -> shows_busy lm lr g -> shows_log g -> shows_recovery g -> shows_tables to_lowercase g ->
  mirrors lm lr (refresh_service_model to_lowercase g).
Proof. intros H1 H2 H3 H4 H5 H6. split; [exact H1|exact H2|exact H3|exact H4|exact H5|reflexivity|exact H6]. Qed.

Lemma apply_snapshot_mirrors lm lr g : mirrors lm lr g -> mirrors lm lr (apply_snapshot local_offset_at to_lowercase g).
Proof.
  intros [H1 H2 H3 H4 H5 H6 H7].
  assert (forall l, length (map (render_event local_offset_at) (take 12 l)) <= 12)%nat as Hn by (intros l; rewrite length_map, length_take; lia).
  unfold apply_snapshot. destruct (if _ : bool then _ else _).
  split; [exact H1|exact H2|exact H3|exact H4|exact H5|reflexivity|].
  destruct H7 as (a1 & a2 & a3 & a4 & a5 & _ & _ & a6). do 5 (split; [assumption|]). split; [reflexivity|]. split; [apply Hn|exact a6].
Qed.

Lemma clear_password_mirrors lm lr g : mirrors lm lr g -> mirrors lm lr (clear_modal_password g).
Proof. intros H. destruct (mi_modal _ _ _ _ H) as (Ha & Hf & _). framed H. split; [exact Ha|]. split; [exact Hf|reflexivity]. Qed.

(** ** Opening and closing the dialog *)

Lemma modal_replace_inv kind s b s' : modal_replace kind s = Some (b, s') ->
  (b = false /\ s' = s /\ modal_busy s = true /\ mutating (modal_kind s) = true)
  \/ (b = true /\ modal_kind s' = kind /\ modal_busy s' = false /\ modal_generation s' = modal_generation s + 1).
Proof.
  unfold modal_replace, mutating, next_u64. destruct (modal_busy s); cbn [andb]; [destruct (modal_kind s)|]; cbn [andb];
    try (intros [= <- <-]; by left); (destruct (_ <? _); [|done]); intros [= <- <-]; by right.
Qed.

(** A replaced dialog: the fields are empty, the window shows the new kind. *)
Record fresh_modal (kind : ModalKind) (service : rstr) (g g' : Gui) : Prop := {
  fm_kind : modal_kind (modal (st g')) = kind; fm_busy : modal_busy (modal (st g')) = false; fm_form : edit_form (st g') = None;
  fm_name : text g' ModalServiceName = service; fm_password : text g' ModalPassword = [];
  fm_generation : modal_generation (modal (st g')) = modal_generation (modal (st g)) + 1;
  fm_defs : defs (st g') = defs (st g); fm_recovery : recovery (st g') = recovery (st g); fm_logs : logs (st g') = logs (st g) }.

Lemma replace_modal_inv kind service g b g' : replace_modal kind service g = Some (b, g') ->
  (b = false /\ st g' = st g /\ win g' = win g /\ modal_busy (modal (st g)) = true) \/ (b = true /\ fresh_modal kind service g g').
Proof.
  unfold replace_modal. destruct (modal_replace kind (modal (st g))) as [[r m]|] eqn:E; [|done].
  apply modal_replace_inv in E as [(-> & -> & Hb & _)|(-> & Hk & Hb & Hg)]; cbn [mbind option_bind negb]; intros [= <- <-].
  - left. split; [done|]. split; [by destruct g as [[] ?]|]. split; [by destruct g as [? []]|done].
  - right. split; [done|]. by split.
Qed.
Lemma replace_modal_mirrors kind service g b g' lm lr : kind <> Edit ->
  mirrors lm lr g -> replace_modal kind service g = Some (b, g') -> mirrors lm lr g'.
Proof.
  intros Hk [H1 H2 H3 H4 H5 H6 H7] H. pose proof H as H'. unfold replace_modal in H.
  destruct (modal_replace kind (modal (st g))) as [[r m]|] eqn:E; [|done]. cbn [mbind option_bind] in H.
  apply modal_replace_inv in E as [(-> & -> & _)|(-> & Hm & Hb & _)]; cbn [negb] in H; injection H as <- <-.
  - by split; [exact H1|exact H2|exact H3|exact H4|exact H5|exact H6|exact H7].
  - split; [exact H1| | |exact H4|exact H5|exact H6|exact H7].
    + split; [change (modal_kind_int kind = modal_kind_int (modal_kind m)); by rewrite Hm|].
      change (modal_kind m <> Edit /\ (mutating (modal_kind m) = false -> @nil rchar = [])). by rewrite Hm.
    + split; [intros _; symmetry; exact Hb|]. apply H3.
Qed.

(** ** Submitting *)

Lemma would_send_modal service s r : would_send (modal_submit service Err s) = Some r ->
  modal_busy s = false /\ req_target r = {| mt_kind := modal_kind s; mt_service := service |}.
Proof.
  unfold modal_submit. destruct (modal_busy s); [done|]. destruct (negb _); [done|]. unfold sent.
  destruct (submit _ _ _) as [[o p]|] eqn:E; [|done]. cbn.
  destruct (submit_inv _ _ _ _ _ E) as (_ & [(-> & _ & Hs)|(e & -> & _ & Hs)]); [discriminate Hs|]. injection Hs as <-. by intros [= <-].
Qed.
Lemma modal_submit_same {Er} service (send : Request ModalTarget -> result Er unit) s r s' :
  modal_submit service send s = Some (r, s') -> modal_kind s' = modal_kind s /\ modal_generation s' = modal_generation s.
Proof.
  unfold modal_submit. destruct (modal_busy s); [by intros [= _ <-]|]. destruct (negb _); [by intros [= _ <-]|]. unfold sent.
  destruct (submit _ _ _) as [[o p]|]; [|done]. by intros [= _ <-].
Qed.
Lemma would_send_recovery work s r : would_send (recovery_submit work Err s) = Some r ->
  recovery_busy s = false /\ re_service s = Some (rt_service (req_target r)) /\ rt_work (req_target r) = work.
Proof.
  unfold recovery_submit. destruct (recovery_busy s); [done|]. destruct (re_service s) as [svc|]; [|done]. unfold sent.
  destruct (submit _ _ _) as [[o p]|] eqn:E; [|done]. cbn.
  destruct (submit_inv _ _ _ _ _ E) as (_ & [(-> & _ & Hs)|(e & -> & _ & Hs)]); [discriminate Hs|]. injection Hs as <-. by intros [= <-].
Qed.
Lemma recovery_submit_ok {Er} work (send : Request RecoveryTarget -> result Er unit) s r s' :
  recovery_submit work send s = Some (r, s') -> editor_ok s -> re_draft s' = re_draft s /\ editor_ok s'.
Proof.
  unfold recovery_submit. intros H Hok. destruct (recovery_busy s); [by injection H as _ <-|].
  destruct (re_service s) as [svc|] eqn:Esvc; [|by injection H as _ <-]. unfold sent in H.
  destruct (submit _ _ _) as [[o p]|] eqn:E; [|done]. injection H as _ <-. split; [done|]. destruct Hok as [Hd Hp].
  split; cbn; [intros f svc' Hf Hs; apply (Hd f svc'); congruence|]. intros q Hq.
  destruct (submit_inv _ _ _ _ _ E) as (_ & [(_ & Hc & _)|(e & _ & Hc & _)]); rewrite Hc in Hq; [|done]. by injection Hq as <-.
Qed.

(** ** Programs *)

Lemma wp_uses {A} ok (f : Gui -> option (A * Gui)) g Q : (forall a g', f g = Some (a, g') -> Q a g') -> wp ok (uses f) g Q.
Proof. intros H. apply wp_bind, wp_get. destruct (f g) as [[a g']|]; [|apply wp_end]. apply wp_bind, wp_mod, wp_ret. by apply H. Qed.

Section Calls.
Variable ok : GuiCall -> Prop.

Lemma send_when_wp {R} (o : option R) job g Q :
  (forall r x, o = Some r -> ok (Ev (SendJob (job r)) x)) -> (forall x, Q x g) -> wp ok (send_when o job) g Q.
Proof. intros He HQ. destruct o as [r|]; [|apply wp_ret, HQ]. apply wp_call; [|exact HQ]. intros x. by apply He. Qed.

Lemma request_refresh_wp lm lr g : (forall x, ok (Ev (SendJob Refresh) x)) -> mirrors lm lr g ->
  wp ok request_refresh g (fun _ g' => mirrors lm lr g').
Proof.
  intros He H. apply wp_bind, wp_call; [exact He|]. intros sent. apply wp_bind, wp_get.
  assert (forall b, mirrors lm lr (g <| st := st g <| refresh_retry := b |> |>)) as Hb.
  { intros b. by framed H. }
  destruct sent as [[]|e]; cbn [refresh_request]; apply wp_bind, wp_mod; [apply wp_ret, Hb|]. apply wp_mod.
  apply update_scan_mirrors. specialize (Hb true). apply mirrors_below_of in Hb. exact Hb.
Qed.

Lemma queue_action_wp kind service message lm lr g :
  (forall r x, req_target r = {| at_service := service; at_kind := kind |} -> ok (Ev (SendJob (JAction r)) x)) -> mirrors lm lr g ->
  wp ok (queue_action kind service message) g (fun _ g' => mirrors lm lr g' /\ modal (st g') = modal (st g)).
Proof.
  intros He H. apply wp_bind, wp_uses. intros r g' E. destruct (issue _ _) as [[r' next]|] eqn:Ei; [|done]. injection E as <- <-.
  unfold issue in Ei. destruct (next_u64 _); [|done]. injection Ei as <- <-.
  assert (mirrors lm lr (g <| st := st g <| action_ids := z |> |>)) as H'.
  { by framed H. }
  apply wp_bind, wp_call; [intros x; by apply He|]. intros [[]|e]; [|by apply wp_ret].
  apply wp_bind, wp_mod, wp_ret. split; [by apply on_status_mirrors|done].
Qed.

Lemma dispatch_wp kind service message g :
  (forall r x, req_target r = {| at_service := service; at_kind := kind |} -> ok (Ev (SendJob (JAction r)) x)) -> mirrors false false g ->
  wp ok (dispatch kind service message) g (fun _ g' => mirrors false false g').
Proof.
  intros He H. apply wp_bind. eapply wp_mono; [by apply queue_action_wp|]. intros [[]|e] g' [H' _]; [by apply wp_ret|].
  apply wp_mod. by apply on_status_mirrors.
Qed.

Lemma open_modal_wp kind service lm lr g : kind <> Edit -> mirrors lm lr g ->
  wp ok (open_modal kind service) g (fun b g' => mirrors lm lr g' /\ (b = true -> fresh_modal kind service g g')).
Proof.
  intros Hk H. apply wp_uses. intros b g' E. split; [by eapply replace_modal_mirrors|]. intros ->.
  by apply replace_modal_inv in E as [(? & _)|[_ ?]].
Qed.

Lemma modal_submit_job_wp service job g :
  (forall r x, modal_busy (modal (st g)) = false -> req_target r = {| mt_kind := modal_kind (modal (st g)); mt_service := service |} ->
     ok (Ev (SendJob (job r)) x)) ->
  mirrors false false g -> wp ok (modal_submit_job service job) g (fun _ g' => mirrors true false g').
Proof.
  intros He H. apply wp_bind, wp_get. apply wp_bind, send_when_wp; [intros r x [Hb Ht]%would_send_modal; by apply He|].
  intros sent. apply wp_uses. intros r g' E. destruct (modal_submit _ _ _) as [[r' m]|] eqn:Em; [|done]. injection E as <- <-.
  apply modal_submit_same in Em as [Hk _]. destruct H as [H1 H2 H3 H4 H5 H6 H7].
  split; [exact H1| |split; [done|apply H3]|exact H4|exact H5|exact H6|exact H7].
  destruct H2 as [H2 H2']. split; [change (num g ActiveModal = modal_kind_int (modal_kind m)); by rewrite Hk|].
  change (shows_form (modal_kind m) g). by rewrite Hk.
Qed.
Lemma show_busy_wp g : mirrors true false g -> wp ok show_busy g (fun _ g' => mirrors false false g').
Proof. intros H. apply wp_mod. pose proof (mi_busy _ _ _ _ H) as [_ Hb]. framed H. by split. Qed.

Lemma submit_form_wp service progress job g :
  (forall r x, modal_busy (modal (st g)) = false -> req_target r = {| mt_kind := modal_kind (modal (st g)); mt_service := service |} ->
     ok (Ev (SendJob (job r)) x)) ->
  mirrors false false g -> wp ok (submit_form service progress job) g (fun _ g' => mirrors false false g').
Proof.
  intros He H. apply wp_bind, wp_mod. apply wp_bind.
  eapply wp_mono; [apply modal_submit_job_wp; [exact He|by framed H]|].
  clear H. intros r g' H. apply wp_bind. destruct r as [r|e]; apply wp_mod; apply show_busy_wp.
  - by apply on_status_mirrors.
  - by framed H.
Qed.

(** ** The dialogs *)

Lemma apply_process_model_mirrors rows lm lr g : mirrors lm lr g ->
  mirrors lm lr (apply_process_model to_lowercase (g <| st := st g <| proc_rows := rows |> |>)).
Proof.
  intros H. pose proof (mi_tables _ _ _ _ H) as (a1 & a2 & a3 & a). framed H.
  split; [exact a1|]. split; [exact a2|]. split; [reflexivity|exact a].
Qed.

Lemma open_processes_modal_wp name g :
  (forall r x, mt_service (req_target r) = name -> ok (Ev (SendJob (JProcesses r)) x)) -> mirrors false false g ->
  wp ok (open_processes_modal to_lowercase name) g (fun _ g' => mirrors false false g').
Proof.
  intros He H. apply wp_bind. eapply wp_mono; [by apply open_modal_wp|]. intros b g1 [H1 _]. destruct b; cbn [negb]; [|by apply wp_ret].
  apply wp_bind, wp_mod, wp_bind. eapply wp_mono; [apply modal_submit_job_wp|].
  - intros r x _ Ht. apply He. by rewrite Ht.
  - by apply apply_process_model_mirrors.
  - intros [r|e] g2 H2; apply wp_bind; [apply wp_ret|apply wp_mod]; apply show_busy_wp; by framed H2.
Qed.

Lemma open_edit_modal_wp name g : mirrors false false g -> wp ok (open_edit_modal name) g (fun _ g' => mirrors false false g').
Proof.
  intros H. apply wp_bind, wp_get. destruct (List.find _ _) as [def|]; [|apply wp_mod; by apply on_status_mirrors].
  apply wp_bind, wp_uses. intros b g' E. unfold replace_modal in E.
  destruct (modal_replace Edit (modal (st g))) as [[r m]|] eqn:Em; [|done]. cbn [mbind option_bind] in E.
  apply modal_replace_inv in Em as [(-> & -> & _)|(-> & Hm & Hb & _)]; cbn [negb] in E; injection E as <- <-; cbn [negb].
  - apply wp_ret. by framed H.
  - apply wp_mod. pose proof (mi_busy _ _ _ _ H) as [_ Hr]. framed H; [|split; [intros _; symmetry; exact Hb|exact Hr]].
    split; [change (2 = modal_kind_int (modal_kind m)); by rewrite Hm|].
    change ((modal_kind m = Edit /\ ef_name (from_definition def) = ef_name (from_definition def) /\ ef_password (from_definition def) = [])
            /\ (mutating (modal_kind m) = false -> @nil rchar = [])).
    by rewrite Hm.
Qed.

(** ** The log view and the preferences *)

Lemma request_log_wp g :
  (forall r x, selected_name g = Some (lt_service (req_target r)) -> lt_stderr (req_target r) = log_stderr (st g) -> ok (Ev (SendJob (JReadLog r)) x)) ->
  shows_status g -> shows_modal g -> shows_busy false false g -> shows_recovery g -> shows_names g -> shows_tables to_lowercase g ->
  wp ok request_log g (fun _ g' => mirrors false false g').
Proof.
  intros He H1 H2 H3 H4 H5 H6. apply wp_bind, wp_get. apply wp_bind, wp_bind, wp_get. apply wp_bind, send_when_wp.
  - intros r x Hr. destruct (selected_name g) as [svc|] eqn:Es; [|done]. cbn in Hr. unfold issue in Hr.
    destruct (next_u64 _); [|done]. injection Hr as <-. by apply He.
  - intros sent. apply wp_uses. intros [] g' E. destruct (log_request _ _ _ _) as [l|]; [|done]. injection E as <-.
    apply wp_mod. split; [exact H1|exact H2|exact H3|by repeat split|exact H4|exact H5|exact H6].
Qed.

Lemma persist_config_wp g : (forall x, ok (Ev (SaveConfig (config (st g))) x)) -> mirrors false false g ->
  wp ok persist_config g (fun _ g' => mirrors false false g').
Proof. intros He H. apply wp_bind, wp_get. apply wp_bind, wp_call; [exact He|]. intros x. apply wp_mod. by apply on_status_mirrors. Qed.

(** ** The recovery editor *)

Lemma with_draft_ok f s : (forall form, rf_service (f form) = rf_service form) -> editor_ok s -> editor_ok (with_draft f s).
Proof.
  intros Hf [Hd Hp]. unfold with_draft, editable_draft. destruct (negb _ || _); [by split|]. destruct (re_draft s) as [d|] eqn:E; [|by split; rewrite ?E].
  split; cbn; [|exact Hp]. intros form svc [= <-] Hs. rewrite Hf. by apply (Hd d).
Qed.

(** A write through the draft, with the rows the window shows afterwards. *)
Lemma with_draft_mirrors f lm lr g g' : mirrors lm lr g ->
  (forall form, rf_service (f form) = rf_service form) ->
  st g' = st (on_recovery (with_draft f) g) -> win g' = win g <| w_recovery_rows := w_recovery_rows (win g') |> ->
  (flag g RecoveryAvailable = true -> forall form, editable_draft (recovery (st g)) = Some form ->
     map row_action (w_recovery_rows (win g')) = map row_action (rf_rows (f form))) ->
  (editable_draft (recovery (st g)) = None -> w_recovery_rows (win g') = w_recovery_rows (win g)) -> mirrors lm lr g'.
Proof.
  intros H Hf Hst Hw Hr Hn. pose proof (mi_busy _ _ _ _ H) as [Hm Hb]. pose proof (mi_recovery _ _ _ _ H) as [Hok Hs].
  destruct g' as [s' w']. cbn [st win] in Hst, Hw, Hr, Hn. set (rows := w_recovery_rows w') in *.
  clearbody rows. subst s' w'. framed H.
  - split; [exact Hm|]. intros Hl. change (flag g RecoveryBusy = recovery_busy (with_draft f (recovery (st g)))). rewrite (Hb Hl).
    unfold with_draft. by destruct (editable_draft _).
  - split; [by apply with_draft_ok|]. intros Ha. destruct (Hs Ha) as (form & Hd & Ht & Hrows).
    change (exists f0, re_draft (with_draft f (recovery (st g))) = Some f0 /\ text g RecoveryService = rf_service f0 /\ map row_action rows = map row_action (rf_rows f0)).
    unfold with_draft. destruct (editable_draft (recovery (st g))) as [d|] eqn:Ed; cbn [re_draft].
    + assert (d = form) as -> by (unfold editable_draft in Ed; destruct (negb _ || _); congruence).
      exists (f form). split; [done|]. rewrite Hf. split; [done|]. by apply Hr.
    + exists form. rewrite (Hn eq_refl). by repeat split.
Qed.
Lemma editable_some s d : editable_draft s = Some d -> re_draft s = Some d.
Proof. unfold editable_draft. by destruct (negb _ || _). Qed.

Lemma capture_mirrors lm lr g : mirrors lm lr g -> mirrors lm lr (capture_recovery_fields g).
Proof.
  intros H. apply (with_draft_mirrors (captured g) lm lr g _ H); [done|reflexivity|by destruct g as [? []]| |done].
  intros Ha form Hd%editable_some. destruct (mi_recovery _ _ _ _ H) as [_ Hs]. destruct (Hs Ha) as (d & Hd' & _ & Hrows).
  rewrite Hd in Hd'. injection Hd' as <-. exact Hrows.
Qed.
Lemma edit_rows_mirrors f lm lr g : (forall rows, map row_action (f rows) = map row_action rows) ->
  mirrors lm lr g -> mirrors lm lr (edit_rows f g).
Proof.
  intros Hf H. apply (with_draft_mirrors (with_rows f) lm lr g _ H); [done|reflexivity|by destruct g as [? []]| |done].
  intros Ha form Hd%editable_some. destruct (mi_recovery _ _ _ _ H) as [_ Hs]. destruct (Hs Ha) as (d & Hd' & _ & Hrows).
  rewrite Hd in Hd'. injection Hd' as <-. cbn [with_rows rf_rows]. rewrite Hf. exact Hrows.
Qed.
Lemma push_draft_mirrors f lm lr g : mirrors lm lr g -> mirrors lm lr (push_draft (edit_rows f g)).
Proof.
  intros H.
  assert (editable_draft (with_draft (with_rows f) (recovery (st g))) = option_map (with_rows f) (editable_draft (recovery (st g)))) as He.
  { unfold with_draft. destruct (editable_draft (recovery (st g))) as [d|] eqn:Ed; [|exact Ed]. unfold editable_draft in *.
    change (recovery_active _) with (recovery_active (recovery (st g))). change (recovery_busy (Build_RecoveryEditor _ _ _ _)) with (recovery_busy (recovery (st g))).
    by destruct (negb _ || _). }
  apply (with_draft_mirrors (with_rows f) lm lr g _ H); [done| | | |]; unfold push_draft, edit_rows;
    change (recovery (st (on_recovery (with_draft (with_rows f)) g))) with (with_draft (with_rows f) (recovery (st g))); rewrite He;
    destruct (editable_draft (recovery (st g))) as [d|]; try done; try (by destruct g as [? []]).
  by intros _ form [= <-].
Qed.

Lemma show_draft_mirrors lm lr g : editor_ok (recovery (st g)) ->
  shows_status g -> shows_modal g -> shows_busy lm lr g -> shows_log g -> shows_names g -> shows_tables to_lowercase g ->
  mirrors lm lr (show_recovery_draft g).
Proof.
  intros Hok H1 H2 H3 H4 H5 H6. unfold show_recovery_draft. destruct (re_draft (recovery (st g))) as [form|] eqn:Ed.
  - split; [exact H1|exact H2|exact H3|exact H4| |exact H5|exact H6]. split; [exact Hok|]. intros _. exists form. by repeat split.
  - split; [exact H1|exact H2|exact H3|exact H4| |exact H5|exact H6]. by split.
Qed.

Lemma leave_ok s : editor_ok s -> editor_ok (recovery_leave s).
Proof. by intros [Hd Hp]; split. Qed.
Lemma placeholder_mirrors msg lm lr g : mirrors lm lr g -> mirrors lm lr (placeholder msg (on_recovery recovery_leave g)).
Proof.
  intros H. pose proof (mi_busy _ _ _ _ H) as [Hm Hb]. pose proof (mi_recovery _ _ _ _ H) as [Hok Hs]. framed H.
  - by split.
  - split; [by apply leave_ok|done].
Qed.
Lemma activate_ok svc s s' : editor_ok s -> recovery_activate svc s = Some s' ->
  editor_ok s' /\ re_service s' = Some svc /\ recovery_busy s' = false.
Proof.
  intros Hok H. split; [by eapply (editor_step (RActivate svc))|]. unfold recovery_activate in H. cbn in H.
  destruct (next_u64 _); [|done]. by injection H as <-.
Qed.

Lemma recovery_submit_job_wp work job g :
  (forall r x, recovery_busy (recovery (st g)) = false -> re_service (recovery (st g)) = Some (rt_service (req_target r)) ->
     rt_work (req_target r) = work -> ok (Ev (SendJob (job r)) x)) ->
  mirrors false true g -> wp ok (recovery_submit_job work job) g (fun _ g' => mirrors false true g').
Proof.
  intros He H. apply wp_bind, wp_get. apply wp_bind, send_when_wp; [intros r x (Hb & Hs & Ht)%would_send_recovery; by apply He|].
  intros sent. apply wp_uses. intros r g' E. destruct (recovery_submit _ _ _) as [[r' e]|] eqn:Em; [|done]. injection E as <- <-.
  pose proof (mi_busy _ _ _ _ H) as [Hm _]. destruct (mi_recovery _ _ _ _ H) as [Hok Hs].
  apply recovery_submit_ok in Em as [Hd Hok']; [|done]. framed H; [by split|]. split; [exact Hok'|]. intros Ha.
  destruct (Hs Ha) as (f & Hf & Ht). exists f. split; [|exact Ht]. change (re_draft e = Some f). by rewrite Hd.
Qed.
Lemma show_recovery_busy_wp g : mirrors false true g -> wp ok show_recovery_busy g (fun _ g' => mirrors false false g').
Proof. intros H. apply wp_mod. pose proof (mi_busy _ _ _ _ H) as [Hb _]. framed H. by split. Qed.

Lemma reload_recovery_wp g :
  (forall r x, flag g Elevated = true -> selected_name g = Some (rt_service (req_target r)) -> rt_work (req_target r) = Read ->
     ok (Ev (SendJob (JReadRecovery r)) x)) ->
  mirrors false false g -> wp ok reload_recovery g (fun _ g' => mirrors false false g').
Proof.
  intros He H. apply wp_bind, wp_get. destruct (recovery_busy (recovery (st g))); [by apply wp_ret|].
  apply wp_bind, wp_mod. pose proof (capture_mirrors _ _ g H) as Hc. destruct (flag g Elevated) eqn:Eel; cbn [negb]; [|apply wp_mod; by apply placeholder_mirrors].
  destruct (selected_name g) as [name|] eqn:En; [|apply wp_mod; by apply placeholder_mirrors].
  apply wp_bind, wp_uses. intros [] g1 E. destruct (recovery_activate _ _) as [r|] eqn:Er; [|done]. injection E as <-.
  destruct (mi_recovery _ _ _ _ Hc) as [Hok _]. pose proof (mi_busy _ _ _ _ Hc) as [Hm _].
  destruct (activate_ok _ _ _ Hok Er) as (Hok' & Hsvc & Hb). apply wp_bind, wp_mod.
  set (g1 := set_text RecoveryService name _). assert (mirrors false true (show_recovery_draft g1)) as H1.
  { destruct Hc as [H1 H2 H3 H4 H5 H6 H7]. apply show_draft_mirrors; [exact Hok'|exact H1|exact H2|by split|exact H4|exact H6|exact H7]. }
  assert (recovery (st (show_recovery_draft g1)) = r) as Hr by (unfold show_recovery_draft; by destruct (re_draft _)).
  apply wp_bind, wp_mod, wp_bind. eapply wp_mono; [apply recovery_submit_job_wp|].
  - intros q x _ Hs Ht. apply He; [done| |done]. change (re_service (recovery (st (show_recovery_draft g1))) = Some (rt_service (req_target q))) in Hs.
    rewrite Hr, Hsvc in Hs. by injection Hs as ->.
  - by framed H1.
  - intros x g2 H2. apply wp_bind. destruct x as [q|e]; [apply wp_ret|apply wp_mod]; apply show_recovery_busy_wp; by framed H2.
Qed.

(** ** Results of the worker *)

Lemma modal_finish_inv r s b s' : modal_finish r s = (b, s') ->
  modal_kind s' = modal_kind s /\ modal_generation s' = modal_generation s
  /\ ((b = true /\ modal_busy s' = false /\ current (modal_pending s) = Some r) \/ (b = false /\ s' = s /\ current (modal_pending s) <> Some r)).
Proof.
  unfold modal_finish. destruct (finish r (modal_pending s)) as [b' p] eqn:E. intros [= <- <-]. do 2 (split; [done|]).
  apply finish_inv in E as [(-> & Hc & ->)|(-> & Hc & ->)]; [left; by repeat split|right]. split; [done|]. split; [by destruct s|done].
Qed.

Lemma finish_modal_wp r lm lr g : mirrors lm lr g ->
  wp ok (finish_modal r) g (fun b g' => if b : bool then mirrors true lr g' /\ modal_busy (modal (st g')) = false else mirrors lm lr g').
Proof.
  intros H. apply wp_uses. intros b g' E. destruct (modal_finish r (modal (st g))) as [b' m] eqn:Em. injection E as <- <-.
  apply modal_finish_inv in Em as (Hk & _ & Hb). pose proof (mi_busy _ _ _ _ H) as [Hm Hr]. pose proof (mi_modal _ _ _ _ H) as [H2 H2'].
  assert (shows_modal (g <| st := st g <| modal := m |> |>)) as H2m.
  { split; [change (num g ActiveModal = modal_kind_int (modal_kind m)); by rewrite Hk|].
    change (shows_form (modal_kind m) g). by rewrite Hk. }
  destruct Hb as [(-> & Hb & _)|(-> & -> & _)].
  - split; [|exact Hb]. framed H; [exact H2m|by split].
  - by framed H.
Qed.
Lemma set_modal_idle lr g : mirrors true lr g -> modal_busy (modal (st g)) = false -> mirrors false lr (set_flag ModalBusy false g).
Proof. intros H Hb. pose proof (mi_busy _ _ _ _ H) as [_ Hr]. framed H. split; [by intros _; symmetry|exact Hr]. Qed.

Lemma processes_result_wp r x g : mirrors false false g -> wp ok (processes_result to_lowercase r x) g (fun _ g' => mirrors false false g').
Proof.
  intros H. apply wp_bind. eapply wp_mono; [by apply finish_modal_wp|]. intros [] g1; cbn [negb]; [intros [H1 Hb]|intros H1; by apply wp_ret].
  apply wp_mod. apply set_modal_idle in H1; [|done]. destruct x as [l|e]; [by apply apply_process_model_mirrors|by framed H1].
Qed.

Lemma apply_mutation_outcome_wp id o lm lr g : (forall x, ok (Ev (SendJob Refresh) x)) -> mirrors lm lr g ->
  wp ok (apply_mutation_outcome id o) g (fun _ g' => mirrors lm lr g').
Proof.
  intros He H. apply wp_bind, wp_mod. pose proof (on_status_mirrors (status_finish id (mo_message o)) _ _ _ H).
  destruct (mo_refresh o); [by apply request_refresh_wp|by apply wp_ret].
Qed.

Lemma modal_mutation_result_wp r x g : (forall x, ok (Ev (SendJob Refresh) x)) -> mirrors false false g ->
  wp ok (modal_mutation_result r x) g (fun _ g' => mirrors false false g').
Proof.
  intros He H. apply wp_bind. eapply wp_mono; [by apply finish_modal_wp|]. intros b g1 H1. apply wp_bind.
  eapply wp_mono with (Q := fun _ g' => mirrors false false g'); [|intros _ g2 H2; by apply apply_mutation_outcome_wp].
  destruct b; [destruct H1 as [H1 Hb]|destruct x; by apply wp_ret].
  assert (mirrors false false (clear_modal_password (set_flag ModalBusy false g1))) as H2
    by (apply set_modal_idle in H1; [|done]; by apply clear_password_mirrors).
  destruct x as [t|e]; cbn [mutation_outcome mo_apply_local mo_error]; apply wp_bind, wp_mod.
  - apply wp_bind. eapply wp_mono; [by apply open_modal_wp|]. intros b g3 [H3 _]. by apply wp_ret.
  - apply wp_mod. pose proof (mi_modal _ _ _ _ H2) as (Ha & Hf & Hp). framed H2. split; [exact Ha|]. split; [|exact Hp].
    set (g2 := clear_modal_password (set_flag ModalBusy false g1)) in *.
    change (match option_map edit_clear_password (edit_form (st g2)) with
            | Some f => modal_kind (modal (st g2)) = Edit /\ text g2 ModalServiceName = ef_name f /\ ef_password f = []
            | None => modal_kind (modal (st g2)) <> Edit end).
    destruct (edit_form (st g2)) as [f|]; [|exact Hf]. destruct Hf as (? & ? & ?). by repeat split.
Qed.

Lemma recovery_saved_result_wp r x g : (forall x, ok (Ev (SendJob Refresh) x)) -> mirrors false false g ->
  wp ok (recovery_saved_result r x) g (fun _ g' => mirrors false false g').
Proof.
  intros He H. apply wp_bind, wp_uses. intros b g1 E. destruct (recovery_finish r (recovery (st g))) as [b' e] eqn:Ef. injection E as <- <-.
  apply wp_bind, wp_mod. apply apply_mutation_outcome_wp; [exact He|].
  pose proof (mi_busy _ _ _ _ H) as [Hm Hb]. destruct (mi_recovery _ _ _ _ H) as [Hok Hs].
  assert (editor_ok e) as Hok' by (apply (editor_step (RSaved r) _ _ Hok); cbn; by rewrite Ef).
  apply recovery_finish_inv in Ef as (Hd & _ & _ & He').
  assert (forall g', st g' = st g <| recovery := e |> -> flag g' RecoveryAvailable = flag g RecoveryAvailable ->
            text g' RecoveryService = text g RecoveryService -> w_recovery_rows (win g') = w_recovery_rows (win g) -> shows_recovery g') as Hshow.
  { intros g' Eg Ea Et Er. unfold shows_recovery. rewrite Eg, Ea, Et, Er. split; [exact Hok'|]. intros Ha. destruct (Hs Ha) as (f & Hf & Hrest).
    exists f. split; [|exact Hrest]. change (re_draft e = Some f). by rewrite Hd. }
  destruct He' as [(-> & _ & Hn)|(-> & ->)].
  - destruct x; framed H; [split; [exact Hm|intros _; symmetry; change (is_some (current (re_pending e)) = false); by rewrite Hn]|by apply Hshow
      |split; [exact Hm|intros _; symmetry; change (is_some (current (re_pending e)) = false); by rewrite Hn]|by apply Hshow].
  - destruct x; by framed H.
Qed.

Lemma recovery_loaded_result_mirrors r x g : mirrors false false g -> mirrors false false (recovery_loaded_result r x g).
Proof.
  intros H. unfold recovery_loaded_result. destruct (recovery_loaded r x (recovery (st g))) as [o e] eqn:E.
  pose proof (mi_busy _ _ _ _ H) as [Hm Hb]. destruct (mi_recovery _ _ _ _ H) as [Hok Hs].
  assert (editor_ok e) as Hok' by (apply (editor_step (RLoaded r x) _ _ Hok); cbn; by rewrite E).
  unfold recovery_loaded in E. destruct (recovery_finish r (recovery (st g))) as [b e1] eqn:Ef.
  apply recovery_finish_inv in Ef as (Hd & _ & _ & [(-> & _ & Hn)|(-> & ->)]); cbn [negb] in E; [|injection E as <- <-; by framed H].
  assert (forall d, shows_busy false false (set_flag RecoveryBusy false (g <| st := st g <| recovery := Build_RecoveryEditor d (re_service e1) (re_generation e1) (re_pending e1) |> |>))) as Hbusy.
  { intros d. split; [exact Hm|]. intros _. symmetry. change (is_some (current (re_pending e1)) = false). by rewrite Hn. }
  assert (forall t, o = Some (Err t) -> e = e1 ->
            mirrors false false (set_flag RecoveryBusy false (g <| st := st g <| recovery := e |> |>))) as Herr.
  { intros t _ ->. framed H; [specialize (Hbusy (re_draft e1)); by destruct e1|]. split; [exact Hok'|]. intros Ha. destruct (Hs Ha) as (f & Hf & Hrest).
    exists f. split; [|exact Hrest]. change (re_draft e1 = Some f). by rewrite Hd. }
  destruct x as [spec|t]; [destruct (str_eqb _ _)|]; injection E as <- <-; [|specialize (Herr _ eq_refl eq_refl); by framed Herr..].
  assert (mirrors false false (show_recovery_draft (set_flag RecoveryBusy false (g <| st := st g <| recovery :=
            Build_RecoveryEditor (Some (from_spec spec)) (re_service e1) (re_generation e1) (re_pending e1) |> |>)))) as H1.
  { destruct H as [H1 H2 H3 H4 H5 H6 H7]. apply show_draft_mirrors; [exact Hok'|exact H1|exact H2|apply Hbusy|exact H4|exact H6|exact H7]. }
  by framed H1.
Qed.

Lemma log_result_mirrors r status lines g : mirrors false false g -> mirrors false false (log_result r status lines g).
Proof. intros H. unfold log_result. destruct (log_received _ _ _ _) as [[] l]; [|done]. framed H. by repeat split. Qed.

Lemma apply_result_wp r g : (forall x, ok (Ev (SendJob Refresh) x)) -> mirrors false false g ->
  wp ok (apply_result local_offset_at to_lowercase r) g (fun _ g' => mirrors false false g').
Proof.
  intros He H. destruct r as [ds ws es m|req x|req x|req t l|req x|req x|req x|req x|e]; cbn [apply_result].
  - apply wp_mod, apply_snapshot_mirrors, update_scan_mirrors. apply mirrors_below_of in H. exact H.
  - by apply processes_result_wp.
  - by apply apply_mutation_outcome_wp.
  - apply wp_mod. by apply log_result_mirrors.
  - by apply recovery_saved_result_wp.
  - apply wp_mod. by apply recovery_loaded_result_mirrors.
  - by apply modal_mutation_result_wp.
  - by apply modal_mutation_result_wp.
  - apply wp_mod, update_scan_mirrors. apply mirrors_below_of in H. exact H.
Qed.
End Calls.

(** ** Callbacks *)

Section Handlers.
Variable e : UiEvent.
Variable g : Gui.
Hypothesis H : mirrors false false g.
Abbreviation asked := (permitted e g) (only parsing).
Abbreviation handled m := (wp asked m g (fun _ g' => mirrors false false g')) (only parsing).

Lemma refresh_asked x : asked (Ev (SendJob Refresh) x).
Proof. exact I. Qed.
Hint Resolve refresh_asked : core.

Lemma kind_shown k : modal_kind (modal (st g)) = k -> num g ActiveModal = modal_kind_int k.
Proof. intros <-. apply (mi_modal _ _ _ _ H). Qed.
Lemma busy_shown : flag g ModalBusy = modal_busy (modal (st g)).
Proof. by apply (mi_busy _ _ _ _ H). Qed.

Lemma drain_results_wp rs : handled (drain_results local_offset_at to_lowercase rs).
Proof.
  apply wp_bind. eapply wp_mono; [apply (wp_for _ (mirrors false false)); [exact H|]|].
  - intros r g1 _ H1. by apply apply_result_wp.
  - intros u g1 H1. apply wp_bind, wp_get. destruct (refresh_retry (st g1)); [by apply request_refresh_wp|by apply wp_ret].
Qed.

Lemma tick_wp : handled auto_refresh_tick.
Proof. apply wp_bind, wp_get. destruct (flag g AutoRefresh); [by apply request_refresh_wp|by apply wp_ret]. Qed.

Lemma open_wp kind service : kind <> Edit -> handled (open_modal kind service ;$ spret tt).
Proof. intros Hk. apply wp_bind. eapply wp_mono; [by apply open_modal_wp|]. intros b g1 [H1 _]. by apply wp_ret. Qed.
Lemma view_warnings_wp : handled on_view_warnings.
Proof. apply wp_bind, wp_get. destruct (has_warnings _); [by apply open_wp|by apply wp_ret]. Qed.

Lemma view_changed_mirrors view : mirrors false false (on_view_changed view g).
Proof.
  unfold on_view_changed. set (g1 := if negb (view =? 3) then _ else g).
  assert (mirrors false false g1) as H1.
  { unfold g1. destruct (negb _); [|exact H]. pose proof (capture_mirrors _ _ g H) as Hc. pose proof (mi_busy _ _ _ _ Hc) as [Hm Hb].
    pose proof (mi_recovery _ _ _ _ Hc) as [Hok Hs]. framed Hc; [by split|]. split; [by apply leave_ok|exact Hs]. }
  clearbody g1. destruct (negb _); [|exact H1]. by framed H1.
Qed.

(** A change of the view of the table, or of the preferences. *)
Lemma model_mirrors g1 : shows_status g1 -> shows_modal g1 -> shows_busy false false g1 -> shows_log g1 -> shows_recovery g1 ->
  shows_tables to_lowercase g1 -> mirrors false false (refresh_service_model to_lowercase g1).
Proof. apply refresh_service_model_mirrors. Qed.
Lemma managed_only_mirrors v :
  mirrors false false (refresh_service_model to_lowercase (g <| st := st g <| config := config (st g) <| GuiConfig.managed_only := v |> |> <| managed_only := v |> |>)).
Proof.
  destruct H as [H1 H2 H3 H4 H5 H6 H7]. apply model_mirrors; [exact H1|exact H2|exact H3|exact H4|exact H5|].
  destruct H7 as (a1 & a2 & a3 & a4 & a5 & a6 & a7 & _ & a8). do 7 (split; [assumption|]). split; [reflexivity|exact a8].
Qed.
Lemma persist_wp g1 : settings_event e = true -> mirrors false false g1 -> wp asked persist_config g1 (fun _ g' => mirrors false false g').
Proof. intros He H1. apply persist_config_wp; [|exact H1]. intros x. split; [exact He|]. apply (mi_tables _ _ _ _ H1). Qed.

Lemma filter_wp v : e = FilterChanged v -> handled (on_filter_changed to_lowercase v).
Proof. intros He. apply wp_bind, wp_mod, persist_wp; [by rewrite He|]. apply managed_only_mirrors. Qed.
Lemma settings_managed_wp v : e = SetManagedOnly v -> handled (on_settings_set_managed_only to_lowercase v).
Proof.
  intros He. apply wp_bind, wp_mod, persist_wp; [by rewrite He|]. pose proof (managed_only_mirrors v) as H1. by framed H1.
Qed.
Lemma settings_auto_wp v : e = SetAutoRefresh v -> handled (on_settings_set_auto_refresh v).
Proof. intros He. apply wp_bind, wp_mod, persist_wp; [by rewrite He|]. by framed H. Qed.
Lemma interval_range secs : 1 <= interval_of secs <= 3600.
Proof. unfold interval_of, clamp, AUTO_REFRESH_SECS_MIN, AUTO_REFRESH_SECS_MAX. repeat case_match; lia. Qed.
Lemma settings_interval_wp secs : e = SetInterval secs -> handled (on_settings_set_interval secs).
Proof.
  intros He. pose proof (interval_range secs) as Hr. apply wp_bind, wp_mod, wp_bind, wp_call.
  - intros x. right. exists secs. split; [exact He|]. split; [done|lia].
  - intros _. apply wp_bind, wp_mod, persist_wp; [by rewrite He|]. pose proof (mi_tables _ _ _ _ H) as (a1 & a2 & a3 & a4 & a5 & a6 & a7 & a8 & _).
    framed H. do 8 (split; [assumption|]). exact Hr.
Qed.

Lemma search_wp typed : e = SearchChanged typed -> handled (on_search_changed typed).
Proof.
  intros He. apply wp_bind, wp_mod, wp_call; [|intros _; by framed H]. intros x. left. by exists typed.
Qed.
Lemma sort_mirrors column : mirrors false false (on_sort_changed to_lowercase column g).
Proof.
  unfold on_sort_changed. destruct H as [H1 H2 H3 H4 H5 H6 (_ & _ & H7)].
  destruct (_ =? _); (apply model_mirrors; [exact H1|exact H2|exact H3|exact H4|exact H5|split; [reflexivity|split; [reflexivity|exact H7]]]).
Qed.
Lemma modal_sort_mirrors column : mirrors false false (on_modal_sort_changed to_lowercase column g).
Proof.
  unfold on_modal_sort_changed. destruct H as [H1 H2 H3 H4 H5 H6 (a1 & a2 & _ & _ & _ & H7)].
  destruct (_ =? _); (split; [exact H1|exact H2|exact H3|exact H4|exact H5|exact H6|];
    split; [exact a1|split; [exact a2|split; [reflexivity|split; [reflexivity|split; [reflexivity|exact H7]]]]]).
Qed.

Lemma action_wp verb name : e = ClickAction verb name -> handled (on_action to_lowercase verb name).
Proof.
  intros He. assert (forall k v m, verb = v -> verb_of k = Some v -> handled (dispatch k name m)) as Hd.
  { intros k v m -> Hk. apply dispatch_wp; [|exact H]. intros r x Hr. left. exists v. by rewrite Hr. }
  unfold on_action. repeat (case_match eqn:Ev; [apply str_eqb_eq in Ev as Hv; clear Ev|clear Ev]).
  all: try (eapply Hd; [exact Hv|reflexivity]).
  - apply open_processes_modal_wp; [|exact H]. intros r x Hr. cbn. by rewrite He, Hv, Hr.
  - by apply open_edit_modal_wp.
  - by apply open_wp.
  - apply wp_mod. by apply on_status_mirrors.
Qed.

Lemma relaunch_wp : e = ClickRelaunch -> handled on_relaunch_admin.
Proof. intros He. apply wp_bind, wp_call; [by intros x|]. intros []; [apply wp_end|apply wp_mod; by apply on_status_mirrors]. Qed.

Lemma browse_wp : e = BrowseApp -> handled (on_modal_browse_app ;$ spret tt).
Proof.
  intros He. apply wp_bind, wp_bind, wp_get. destruct (browse_generation g) as [n|] eqn:Eb; [|by apply wp_ret, wp_ret].
  apply wp_bind, wp_call; [|intros x; by apply wp_ret, wp_ret]. intros x. split; [exact He|]. unfold browse_generation in Eb.
  destruct (modal_busy (modal (st g))) eqn:Hb; [done|]. unfold dialog. rewrite busy_shown, Hb.
  destruct (modal_kind (modal (st g))) eqn:Ek; try done; [left|right]; (split; [by apply kind_shown|done]).
Qed.

Lemma dialog_idle k : bool_decide (modal_kind (modal (st g)) = k) = true -> modal_busy (modal (st g)) = false -> dialog k g.
Proof. intros Hk%bool_decide_eq_true Hb. split; [by apply kind_shown|]. by rewrite busy_shown. Qed.

Lemma install_submit_wp : e = InstallSubmit -> handled on_modal_install_submit.
Proof.
  intros He. apply wp_bind, wp_get. destruct (bool_decide _) eqn:Ek; [|by apply wp_ret]. destruct (modal_busy _) eqn:Eb; [by apply wp_ret|].
  pose proof (dialog_idle Install Ek Eb) as Hd. pose proof (clear_password_mirrors _ _ g H) as Hc.
  apply wp_bind, wp_mod. destruct (install_to_spec (install_form g)) as [spec|t] eqn:Es; [|apply wp_mod; by framed Hc].
  apply submit_form_wp; [|exact Hc]. intros r x _ Hr. split; [exact He|]. split; [exact Hd|]. split; [exact Es|]. rewrite Hr.
  apply bool_decide_eq_true in Ek. f_equal. exact Ek.
Qed.
Lemma edit_name f spec : edit_to_spec f = Ok spec -> es_name spec = ef_name f.
Proof. unfold edit_to_spec. repeat case_match; try done; by intros [= <-]. Qed.
Lemma edit_submit_wp : e = EditSubmit -> handled on_modal_edit_submit.
Proof.
  intros He. apply wp_bind, wp_get. destruct (bool_decide _) eqn:Ek; [|by apply wp_ret]. destruct (modal_busy _) eqn:Eb; [by apply wp_ret|].
  pose proof (dialog_idle Edit Ek Eb) as Hd. destruct (edit_form (st g)) as [form|] eqn:Ef; [|by apply wp_ret].
  pose proof (mi_modal _ _ _ _ H) as (Hm & Hf & _). rewrite Ef in Hf. destruct Hf as (Hk & Hn & _).
  assert (mirrors false false (clear_modal_password (g <| st := st g <| edit_form := Some (edit_clear_password (typed_edit_form form g)) |> |>))) as H1.
  { framed H. split; [exact Hm|]. split; [|reflexivity]. split; [exact Hk|]. split; [exact Hn|reflexivity]. }
  apply wp_bind, wp_mod. destruct (edit_to_spec (typed_edit_form form g)) as [spec|t] eqn:Es; [|apply wp_mod; by framed H1].
  apply submit_form_wp; [|exact H1]. intros r x _ Hr. split; [exact He|]. split; [exact Hd|]. split; [by exists form|].
  split; [by rewrite (edit_name _ _ Es)|]. rewrite Hr. f_equal. exact Hk.
Qed.
Lemma remove_confirm_wp : e = RemoveConfirm -> handled on_modal_remove_confirm.
Proof.
  intros He. apply wp_bind, wp_get. destruct (bool_decide _) eqn:Ek; [|by apply wp_ret]. apply bool_decide_eq_true in Ek.
  apply wp_bind. eapply wp_mono; [apply queue_action_wp; [|exact H]|].
  - intros r x Hr. right. split; [exact He|]. split; [by apply kind_shown|exact Hr].
  - intros [[]|t] g1 [H1 _]; [|apply wp_mod; by framed H1]. apply wp_bind. eapply wp_mono; [by apply open_modal_wp|]. intros b g2 [H2 _]. by apply wp_ret.
Qed.

Lemma log_wp : e = LogsReload -> handled request_log.
Proof.
  intros He. destruct H as [H1 H2 H3 H4 H5 H6 H7]. apply request_log_wp; try assumption. intros r x Hs Hr. split; [exact Hs|]. by left.
Qed.
Lemma log_stderr_wp v : e = LogsSetStderr v -> handled (on_logs_set_stderr v).
Proof.
  intros He. destruct H as [H1 H2 H3 H4 H5 H6 H7]. apply wp_bind, wp_mod. apply request_log_wp; try assumption.
  intros r x Hs Hr. split; [exact Hs|]. right. rewrite He, Hr. done.
Qed.

Lemma recovery_save_wp : e = RecoverySave -> handled on_recovery_save.
Proof.
  intros He. apply wp_bind, wp_get. destruct (recovery_active _) eqn:Ea; [|by apply wp_ret]. destruct (recovery_busy _) eqn:Eb; [by apply wp_ret|]. cbn [negb orb].
  pose proof (capture_mirrors _ _ g H) as Hc. pose proof (mi_recovery _ _ _ _ H) as [[Hok _] Hs]. pose proof (mi_busy _ _ _ _ H) as [_ Hrb].
  apply wp_bind, wp_mod, wp_bind, wp_get.
  assert (recovery (st (capture_recovery_fields g)) = with_draft (captured g) (recovery (st g))) as Er by done. rewrite Er.
  assert (re_draft (with_draft (captured g) (recovery (st g))) = option_map (captured g) (re_draft (recovery (st g)))) as Hdraft.
  { unfold with_draft, editable_draft. rewrite Ea, Eb. cbn [negb orb]. by destruct (re_draft (recovery (st g))) eqn:Ed. }
  rewrite Hdraft. destruct (re_draft (recovery (st g))) as [form|] eqn:Ed; [|apply wp_ret; exact Hc]. cbn [option_map].
  destruct (recovery_to_spec (captured g form)) as [spec|t] eqn:Es; [|apply wp_mod; by framed Hc].
  assert (rs_name spec = rf_service form) as Hn by (apply recovery_to_spec_ok in Es as (-> & _); done).
  apply wp_bind. eapply wp_mono; [apply recovery_submit_job_wp|].
  - rewrite Er. unfold with_draft, editable_draft. rewrite Ea, Eb, Ed. cbn [negb orb re_service]. intros r x _ Hsvc _.
    split; [exact He|]. split; [by rewrite (Hrb eq_refl), Eb|]. split; [exact Hsvc|].
    split; [rewrite Hn; by apply (Hok form)|]. exists (captured g form). split; [exact Es|]. do 3 (split; [reflexivity|]).
    intros Hav. destruct (Hs Hav) as (d & Hd & Ht & Hrows). assert (d = form) as -> by congruence. split; [congruence|]. symmetry. exact Hrows.
  - pose proof (mi_busy _ _ _ _ Hc) as [Hm _]. framed Hc. by split.
  - intros [r|t] g1 H1; apply wp_bind.
    + apply wp_bind, wp_mod, wp_mod. eapply show_recovery_busy_wp. apply on_status_mirrors. by framed H1.
    + apply wp_mod. apply show_recovery_busy_wp. by framed H1.
Qed.

(** What the user writes into the window directly is not the controller's. *)
Lemma typed_mirrors p v : editable_text g p = true -> mirrors false false (set_text p v g).
Proof.
  intros Hp. destruct (mi_modal _ _ _ _ H) as (Hm & Hf & _). destruct p; try done; framed H. split; [exact Hm|]. split; [exact Hf|]. cbn in Hp.
  rewrite Hm in Hp. unfold mutating. change (modal_kind (modal (st (set_text ModalPassword v g)))) with (modal_kind (modal (st g))).
  by destruct (modal_kind (modal (st g))).
Qed.
Lemma switched_mirrors p v : editable_flag p = true -> mirrors false false (set_flag p v g).
Proof. intros Hp. destruct p; try done; by framed H. Qed.
Lemma chosen_mirrors p v : editable_num p = true -> mirrors false false (set_num p v g).
Proof. intros Hp. destruct p; try done; by framed H. Qed.

Lemma alter_actions (f : RecoveryExitRow -> RecoveryExitRow) i rows :
  (forall r, row_action (f r) = row_action r) -> map row_action (alter f i rows) = map row_action rows.
Proof. intros Hf. revert i. induction rows as [|r rows IH]; intros [|i]; cbn; [done..|by rewrite Hf|by rewrite IH]. Qed.
End Handlers.

(** Every event, from a window that shows the state. *)
Lemma handle_wp e e' g : e = e' -> mirrors false false g ->
  wp (permitted e g) (handle local_offset_at to_lowercase e') g (fun _ g' => mirrors false false g').
Proof.
  intros He H. destruct e'; cbn [handle].
  - apply wp_mod. destruct (editable_text g p) eqn:Ep; [by apply typed_mirrors|exact H].
  - apply wp_mod. destruct (editable_flag p) eqn:Ep; [by apply switched_mirrors|exact H].
  - apply wp_mod. destruct (editable_num p) eqn:Ep; [by apply chosen_mirrors|exact H].
  - by apply tick_wp.
  - apply wp_mod. destruct H as [H1 H2 H3 H4 H5 H6 H7]. by apply model_mirrors.
  - apply request_refresh_wp; [by intros x|exact H].
  - by apply view_warnings_wp.
  - apply wp_mod. by apply view_changed_mirrors.
  - by apply filter_wp.
  - apply wp_mod. destruct H as [H1 H2 H3 H4 H5 H6 H7]. by apply model_mirrors.
  - by apply search_wp.
  - apply wp_mod. by apply sort_mirrors.
  - by apply action_wp.
  - by apply relaunch_wp.
  - by apply open_wp.
  - by apply open_wp.
  - by apply browse_wp.
  - apply wp_mod. unfold app_picked. destruct (_ && _); [by framed H|exact H].
  - by apply install_submit_wp.
  - by apply edit_submit_wp.
  - by apply remove_confirm_wp.
  - apply wp_mod. by apply modal_sort_mirrors.
  - by apply log_wp.
  - by apply log_stderr_wp.
  - apply reload_recovery_wp; [|exact H]. intros r x Hel Hs _. by repeat split.
  - apply wp_mod. by apply push_draft_mirrors.
  - apply wp_mod. unfold on_recovery_remove_row. destruct (_ <? _); [exact H|by apply push_draft_mirrors].
  - apply wp_mod. unfold on_recovery_code_changed. destruct (_ <? _); [exact H|]. apply edit_rows_mirrors; [|exact H].
    intros rows. by apply alter_actions.
  - apply wp_mod. unfold on_recovery_action_changed. destruct (_ <? _); [exact H|by apply push_draft_mirrors].
  - by apply recovery_save_wp.
  - by apply settings_auto_wp.
  - by apply settings_interval_wp.
  - by apply settings_managed_wp.
  - by apply drain_results_wp.
Qed.

(** ** Sessions *)

Context `{JsonCodec}.
Variables (elevated : bool) (appdata : option rstr) (read : rstr -> result io_error rstr).
Abbreviation start := (gui_new elevated (GuiConfig.load appdata read)) (only parsing).

(** [g] is where the window stands after some events. *)
Definition reached (g : Gui) : Prop := exists es log, runs (session local_offset_at to_lowercase es start) log (Ok (tt, g)).

Lemma prog_wp_weaken {A} (ok ok' : GuiCall -> Prop) (m : SP Gui GuiE Ended A) g Q :
  (forall c, ok c -> ok' c) -> wp ok m g Q -> wp ok' m g Q.
Proof. intros Ho. by apply prog_wp_mono. Qed.

Lemma build_ui_wp : wp (fun _ => True) build_ui start (fun _ g => mirrors false false g).
Proof.
  pose proof (load_in_range appdata read) as Hr.
  assert (mirrors_below false false start) as H0.
  { set (l := GuiConfig.load appdata read) in *. clearbody l. split; [by repeat split|]. split; [by split|]. split; [by repeat split|].
    split; [by repeat split|]. split; [done|]. do 6 (split; [reflexivity|]). split; [apply Nat.le_0_l|]. split; [reflexivity|exact Hr]. }
  apply wp_bind, wp_get. apply wp_bind, wp_call; [done|]. intros _. apply wp_bind, wp_mod. apply wp_bind, wp_bind, wp_call; [done|]. intros sent.
  apply wp_bind, wp_get. destruct sent as [[]|e]; cbn [refresh_request]; apply wp_bind, wp_mod; [apply wp_ret|]; apply wp_mod; [|apply wp_mod];
    apply render_status_mirrors; exact H0.
Qed.

Lemma reached_mirrors g : reached g -> mirrors false false g.
Proof.
  intros (es & log & Hr). enough (wp (fun _ => True) (session local_offset_at to_lowercase es) start (fun _ g => mirrors false false g)) as Hw
    by apply (wp_runs _ _ _ _ _ _ Hw Hr).
  apply wp_bind. eapply wp_mono; [apply build_ui_wp|]. intros u g1 H1. apply (wp_for _ (mirrors false false)); [exact H1|].
  intros e g2 _ H2. eapply prog_wp_weaken; [|by apply (handle_wp e e)]. done.
Qed.



(** ** Late results *)

(** A result of a request that is no longer waited for. *)
Definition stale (r : JobResult) (g : Gui) : Prop :=
  match r with
  | RProcesses q _ | RInstalled q _ | REdited q _ => current (modal_pending (modal (st g))) <> Some q
  | RLog q _ _ => current (lv_pending (logs (st g))) <> Some q
  | RRecoveryLoaded q _ | RRecoverySaved q _ => current (re_pending (recovery (st g))) <> Some q
  | _ => False
  end.

(** Everything but the status bar is as it was. *)
Record same_editors (g g' : Gui) : Prop := {
  se_modal : modal (st g') = modal (st g); se_form : edit_form (st g') = edit_form (st g);
  se_recovery : recovery (st g') = recovery (st g); se_logs : logs (st g') = logs (st g); se_rows : proc_rows (st g') = proc_rows (st g);
  se_text p : p <> StatusText -> text g' p = text g p; se_flag p : p <> StatusHasDetails -> flag g' p = flag g p;
  se_num p : num g' p = num g p; se_lines : w_lines (win g') LogLines = w_lines (win g) LogLines;
  se_processes : w_processes (win g') = w_processes (win g); se_draft : w_recovery_rows (win g') = w_recovery_rows (win g) }.

Lemma same_editors_render g g1 : same_editors g g1 -> same_editors g (render_status g1).
Proof.
  intros []. split; try assumption.
  - intros p Hp. rewrite <- (se_text0 p Hp). by apply updated_other.
  - intros p Hp. rewrite <- (se_flag0 p Hp). by apply updated_other.
Qed.
Lemma request_refresh_same ok g g1 : (forall x, ok (Ev (SendJob Refresh) x)) -> same_editors g g1 ->
  wp ok request_refresh g1 (fun _ g' => same_editors g g').
Proof.
  intros He Hs. apply wp_bind, wp_call; [exact He|]. intros sent. apply wp_bind, wp_get.
  destruct sent as [[]|t]; cbn [refresh_request]; apply wp_bind, wp_mod; [apply wp_ret|apply wp_mod]; [by destruct Hs|].
  apply same_editors_render. by destruct Hs.
Qed.
Lemma outcome_same ok id o g g1 : (forall x, ok (Ev (SendJob Refresh) x)) -> same_editors g g1 ->
  wp ok (apply_mutation_outcome id o) g1 (fun _ g' => same_editors g g').
Proof.
  intros He Hs. apply wp_bind, wp_mod.
  assert (same_editors g (render_status (on_status (status_finish id (mo_message o)) g1))) as H1 by (apply same_editors_render; by destruct Hs).
  destruct (mo_refresh o); [by apply request_refresh_same|by apply wp_ret].
Qed.

Lemma finish_stale {X} `{EqDecision X} (q : Request X) p : current p <> Some q -> finish q p = (false, p).
Proof. intros Hq. unfold finish. by rewrite bool_decide_false. Qed.
Lemma modal_finish_stale q s : current (modal_pending s) <> Some q -> modal_finish q s = (false, s).
Proof. intros Hq. unfold modal_finish. rewrite (finish_stale _ _ Hq). by destruct s. Qed.
Lemma recovery_finish_stale q s : current (re_pending s) <> Some q -> recovery_finish q s = (false, s).
Proof. intros Hq. unfold recovery_finish. rewrite (finish_stale _ _ Hq). by destruct s. Qed.

(** A result that arrives after its dialog was replaced, its view was left or
    another request took its place changes nothing of what is shown there: not the
    dialog, its fields, its error or its busy mark, not the log, not the draft; at
    most the status bar says what became of it, and a refresh is asked for. *)
Theorem late_results_ignored r g log g' : stale r g -> runs (apply_result local_offset_at to_lowercase r g) log (Ok (tt, g')) ->
  same_editors g g' /\ Forall (fun c => exists x, c = Ev (SendJob Refresh) x) log.
Proof.
  intros Hst Hr. set (ok := fun c : GuiCall => exists x, c = Ev (SendJob Refresh) x).
  assert (forall x, ok (Ev (SendJob Refresh) x)) as He by (intros x; by exists x).
  enough (wp ok (apply_result local_offset_at to_lowercase r) g (fun _ g' => same_editors g g')) as Hw.
  { destruct (wp_runs _ _ _ _ _ _ Hw Hr). by split. }
  assert (same_editors g g) as Hrefl by by split.
  destruct r as [ds ws es m|q x|q x|q t l|q x|q x|q x|q x|t]; cbn in Hst; try done; cbn [apply_result].
  - apply wp_bind, wp_uses. intros b g1. rewrite (modal_finish_stale _ _ Hst). intros [= <- <-]. apply wp_ret. by split.
  - apply wp_mod. unfold log_result, log_received. by rewrite (finish_stale _ _ Hst).
  - apply wp_bind, wp_uses. intros b g1. rewrite (recovery_finish_stale _ _ Hst). intros [= <- <-]. apply wp_bind, wp_mod.
    destruct x; apply outcome_same; try done; by split.
  - apply wp_mod. unfold recovery_loaded_result, recovery_loaded. rewrite (recovery_finish_stale _ _ Hst). by split.
  - apply wp_bind, wp_uses. intros b g1. rewrite (modal_finish_stale _ _ Hst). intros [= <- <-]. apply wp_bind.
    destruct x; apply wp_ret, outcome_same; try done; by split.
  - apply wp_bind, wp_uses. intros b g1. rewrite (modal_finish_stale _ _ Hst). intros [= <- <-]. apply wp_bind.
    destruct x; apply wp_ret, outcome_same; try done; by split.
Qed.

(** ** Passwords *)

Lemma submit_form_password ok service progress job g : (forall r x, ok (Ev (SendJob (job r)) x)) ->
  wp ok (submit_form service progress job) g (fun _ g' => text g' ModalPassword = text g ModalPassword).
Proof.
  intros He. apply wp_bind, wp_mod, wp_bind, wp_bind, wp_get. apply wp_bind, send_when_wp; [intros r x _; apply He|].
  intros sent. apply wp_uses. intros r g1 E. destruct (modal_submit _ _ _) as [[r' m]|]; [|done]. injection E as <- <-.
  apply wp_bind. destruct r' as [q|t]; by apply wp_mod, wp_mod.
Qed.

(** Submitting takes the password out of the window and of the form, whether
    the form was accepted, refused, or could not be sent. *)
Theorem submitting_clears_password g e log g' : reached g ->
  (e = InstallSubmit /\ dialog Install g) \/ (e = EditSubmit /\ dialog Edit g) ->
  runs (handle local_offset_at to_lowercase e g) log (Ok (tt, g')) -> text g' ModalPassword = [].
Proof.
  intros Hm%reached_mirrors Hd Hr. enough (wp (fun _ => True) (handle local_offset_at to_lowercase e) g (fun _ g' => text g' ModalPassword = [])) as Hw
    by apply (wp_runs _ _ _ _ _ _ Hw Hr).
  assert (forall k, dialog k g -> modal_kind (modal (st g)) = k /\ modal_busy (modal (st g)) = false) as Hk.
  { intros k [Ha Hb]. destruct (mi_modal _ _ _ _ Hm) as [Hk _]. rewrite Hk in Ha. rewrite (busy_shown g Hm) in Hb. split; [|done].
    by destruct (modal_kind _), k. }
  destruct Hd as [[-> Hd]|[-> Hd]]; destruct (Hk _ Hd) as [Ek Eb]; apply wp_bind, wp_get; rewrite Ek, Eb; cbn [negb orb bool_decide].
  - apply wp_bind, wp_mod. destruct (install_to_spec _) as [spec|t]; [|by apply wp_mod].
    eapply wp_mono; [by apply submit_form_password|]. intros [] g1 ->. reflexivity.
  - destruct (mi_modal _ _ _ _ Hm) as (_ & Hf & _). destruct (edit_form (st g)) as [form|]; [|by rewrite Ek in Hf].
    apply wp_bind, wp_mod. destruct (edit_to_spec _) as [spec|t]; [|by apply wp_mod].
    eapply wp_mono; [by apply submit_form_password|]. intros [] g1 ->. reflexivity.
Qed.
End Mirrors.

(** ** A session *)

(** The worker accepts every job; saving works; the file dialog is cancelled. *)
Definition sample_gui (X : Type) (e : GuiE X) (w : unit) : result Ended X * unit :=
  match e in GuiE X return result Ended X * unit with
  | SendJob _ | SaveConfig _ => (Ok (Ok tt), w)
  | StartTimer _ _ => (Ok tt, w)
  | PickFile => (Ok None, w)
  | RelaunchAsAdmin => (Ok false, w)
  end.
Definition sample_load : ConfigLoad := GuiConfig.load None (fun _ => Ok []).
Definition sample_start : Gui := gui_new true sample_load.
Definition sample_run (es : list UiEvent) := interp sample_gui (@session sample_clock (fun _ => None) to_ascii_lowercase es sample_start) tt.
Definition sample_after (es : list UiEvent) : Gui := match (sample_run es).1.1 with Ok (_, g) => g | Err _ => sample_start end.
Definition sample_handle (e : UiEvent) (g : Gui) := interp sample_gui (@handle sample_clock (fun _ => None) to_ascii_lowercase e g) tt.

Definition sample_metrics : DashboardMetrics := metrics (st sample_start).
(** A service is listed, its removal dialog opened; or its form, with a password. *)
Definition listed : UiEvent := Results [RServices [sample_definition &"svc" Stopped] [] [] sample_metrics].
Definition asked_removal : list UiEvent := [listed; ClickAction &"remove" &"svc"].
Definition asked_edit : list UiEvent := [listed; ClickAction &"edit" &"svc"; TypeText ModalPassword &"secret"].

Lemma sample_reached es : is_ok (sample_run es).1.1 = true ->
  @reached sample_clock (fun _ => None) to_ascii_lowercase sample_codec true None (fun _ => Ok []) (sample_after es).
Proof.
  intros Hok. exists es, (sample_run es).1.2. pose proof (interp_runs sample_gui (@session sample_clock (fun _ => None) to_ascii_lowercase es sample_start) tt) as Hr.
  fold (sample_run es) in Hr. unfold sample_after. destruct (sample_run es) as [[[[[] g]|?] log] w]; [exact Hr|done].
Defined.


