(* ===== verification/Sinks.v ===== *)
(** * Opening and sharing log sinks: supervisor [rotation.rs]

    [open_with_io] and [dedup_sinks]: how the files behind stdout and stderr are
    opened, and when the two streams share one. The file system is called; a
    [File] that goes out of scope is closed. *)

From Stdlib Require Import ZArith Lia List.
From S2P Require Import Prelude Text Model Rotation LaunchEnv Effects Monitor.

(** ** Calls *)

(** Volume serial number and file index. *)
Abbreviation FileIdentity := (Z * Z)%type (only parsing).

Inductive SinkE : Type -> Type :=
| OpenOutput (s : IoStream) : SinkE Z                (* [open_output], the handle *)
| ProbeOpen (p : rstr) : SinkE Z                     (* [options.open(path)] without access *)
| FileMetadata (h : Z) : SinkE (bool * Z)            (* [is_file], [len] *)
| IdentityOf (h : Z) : SinkE (FileIdentity * Z)      (* with the number of links *)
| Canonicalize (p : rstr) : SinkE (list Z)           (* the canonical path, in UTF-16 *)
| CloseFile (h : Z) : SinkE unit
| SinkNow : SinkE Z.
Abbreviation SinkProg A := (Prog SinkE SupervisorError A) (only parsing).
Abbreviation SinkEvent := (Event SinkE SupervisorError) (only parsing).

Definition io_fail {A} (text : rstr) : SinkProg A := PRet (Err (SupIo (invalid_input text))).
Definition lift_io {A} (r : result io_error A) : SinkProg A := PRet (map_err SupIo r).
(** A [File] that is dropped when what follows fails, and one that always is. *)
Definition owning {A} (h : Z) (p : SinkProg A) : SinkProg A :=
  pthen p (fun r => match r with Ok a => PRet (Ok a) | Err e => pthen (perform (CloseFile h)) (fun _ => PRet (Err e)) end).
Definition borrowing {A} (h : Z) (p : SinkProg A) : SinkProg A := pfinally p (perform (CloseFile h)).

Definition log_path_text (canonical : list Z) : result io_error rstr :=
  match from_utf16 canonical with
  | Some t => Ok t
  | None => Err (mk_io_error KInvalidData &"canonical log path contains invalid Unicode and cannot be reopened losslessly")
  end.

Definition not_found (e : SupervisorError) : bool := match e with SupIo e => bool_decide (io_error_kind e = KNotFound) | _ => false end.
Definition existing_identity (p : rstr) : SinkProg (option (FileIdentity * Z)) :=
  pthen (perform (ProbeOpen p)) (fun opened =>
    match opened with
    | Ok file => borrowing file (let@ i := perform (IdentityOf file) in PRet (Ok (Some i)))
    | Err e => if not_found e then PRet (Ok None) else PRet (Err e)
    end).

(** ** RotationSink *)

Record Sink := {
  sk_file : Z; sk_identity : FileIdentity; sk_options : IoStream; sk_canonical : list Z;
  sk_bytes_in_current : Z; sk_opened_at : Z; sk_config : LogRotationConfig }.

Definition open_log (p : rstr) (e : SupervisorError) : SupervisorError := match e with SupIo e => OpenLog p e | e => e end.

Definition open_with_io (stream : IoStream) (config : LogRotationConfig) : SinkProg Sink :=
  let path := Model.path stream in
  lift_io (validate_output stream config) ;@
  let@ file := pmap_err (open_log path) (perform (OpenOutput stream)) in
  owning file
    (let@ (is_file, len) := perform (FileMetadata file) in
     if negb is_file then io_fail &"output redirection currently requires a regular file"
     else
       let@ (identity, links) := perform (IdentityOf file) in
       if (1 <? links) && bool_decide (enabled config = Some true)
       then io_fail &"rotation of hard-linked log files is unsupported"
       else
         let@ canonical := perform (Canonicalize path) in
         lift_io (log_path_text canonical) ;@
         let@ now := perform SinkNow in
         PRet (Ok {| sk_file := file; sk_identity := identity; sk_options := stream; sk_canonical := canonical;
                     sk_bytes_in_current := len; sk_opened_at := now; sk_config := config |})).

(** ** dedup_sinks *)

(** The first sink of the file, with its place among the unique ones. *)
Definition find_sink (key : FileIdentity) (unique : list Sink) : option (nat * Sink) :=
  list_find (fun s => sk_identity s = key) unique.

(** An [Arc] of a sink is its place in [unique]. *)
Definition resolve (config : LogRotationConfig) (maybe : option IoStream) (unique : list Sink)
    : SinkProg (option nat * list Sink) :=
  match maybe with
  | None => PRet (Ok (None, unique))
  | Some stream =>
      lift_io (validate_output stream config) ;@
      let@ found := existing_identity (Model.path stream) in
      match x ← found; pair x <$> find_sink x.1 unique with
      | Some ((_, links), (i, existing)) =>
          if negb (same_options (sk_options existing) stream)
          then io_fail &"stdout/stderr sharing one file have conflicting open/rotation options"
          else
            let@ canonical := perform (Canonicalize (Model.path stream)) in
            if negb (bool_decide (canonical = sk_canonical existing)) && (1 <? links)
            then io_fail &"distinct hard-link log aliases cannot share a rotation destination"
            else PRet (Ok (Some i, unique))
      | None =>
          let@ sink := open_with_io stream config in
          PRet (Ok (Some (length unique), unique ++ [sink]))
      end
  end.

(** Conflicts are found before anything is opened for writing. *)
Definition check_conflict (stdout stderr : option IoStream) : SinkProg unit :=
  match stdout, stderr with
  | Some out, Some err =>
      let@ o := existing_identity (Model.path out) in
      let@ e := existing_identity (Model.path err) in
      match o, e with
      | Some (out_id, links), Some (err_id, _) =>
          if bool_decide (out_id = err_id) then
            if negb (same_options out err)
            then io_fail &"stdout/stderr sharing one file have conflicting open/rotation options"
            else if 1 <? links then
              let@ a := perform (Canonicalize (Model.path out)) in
              let@ b := perform (Canonicalize (Model.path err)) in
              if negb (bool_decide (a = b)) then io_fail &"distinct hard-link log aliases cannot share a destination"
              else PRet (Ok tt)
            else PRet (Ok tt)
          else PRet (Ok tt)
      | _, _ => PRet (Ok tt)
      end
  | _, _ => PRet (Ok tt)
  end.

Definition validate_stream (config : LogRotationConfig) (s : option IoStream) : SinkProg unit :=
  match s with Some s => lift_io (validate_output s config) | None => PRet (Ok tt) end.

(** The sinks opened so far are dropped with [unique] when a later step fails. *)
Fixpoint drop_sinks {A} (unique : list Sink) (k : SinkProg A) : SinkProg A :=
  match unique with [] => k | s :: l => pthen (perform (CloseFile (sk_file s))) (fun _ => drop_sinks l k) end.

Definition dedup_sinks (stdout stderr : option IoStream) (config : LogRotationConfig)
    : SinkProg (option nat * option nat * list Sink) :=
  validate_stream config stdout ;@
  validate_stream config stderr ;@
  check_conflict stdout stderr ;@
  let@ (out, unique) := resolve config stdout [] in
  pthen (resolve config stderr unique) (fun r =>
    match r with
    | Ok (err, unique) => PRet (Ok (out, err, unique))
    | Err e => drop_sinks unique (PRet (Err e))
    end).

(** ** What is open *)

(** The open handles with the path each was opened by, the last one first, and
    the paths opened for output so far. *)
Record Files := { fl_open : list (Z * rstr); fl_made : list rstr }.
Definition no_files : Files := {| fl_open := []; fl_made := [] |}.

Fixpoint path_of (h : Z) (l : list (Z * rstr)) : option rstr :=
  match l with [] => None | (k, p) :: l => if k =? h then Some p else path_of h l end.
Fixpoint closed (h : Z) (l : list (Z * rstr)) : list (Z * rstr) :=
  match l with [] => [] | (k, p) :: l => if k =? h then l else (k, p) :: closed h l end.

Definition track (t : Files) (e : SinkEvent) : Files :=
  match e with
  | Ev c x =>
      match c in SinkE X return result SupervisorError X -> Files with
      | OpenOutput s => fun x => match x with Ok h => {| fl_open := (h, Model.path s) :: fl_open t; fl_made := Model.path s :: fl_made t |} | Err _ => t end
      | ProbeOpen p => fun x => match x with Ok h => {| fl_open := (h, p) :: fl_open t; fl_made := fl_made t |} | Err _ => t end
      | CloseFile h => fun _ => {| fl_open := closed h (fl_open t); fl_made := fl_made t |}
      | _ => fun _ => t
      end x
  end.
Abbreviation files := (watch track) (only parsing).

(** A path names one file, [ident], while the sinks are opened: a handle has the
    identity of the path it was opened by, and a file that was opened for output
    is found afterwards by every path that names it. *)
Definition consistent (ident : rstr -> FileIdentity) (t : Files) (e : SinkEvent) : Prop :=
  match e with
  | Ev c x =>
      match c in SinkE X return result SupervisorError X -> Prop with
      | IdentityOf h => fun x => match x with Ok (i, _) => forall p, path_of h (fl_open t) = Some p -> i = ident p | Err _ => True end
      | ProbeOpen p => fun x => match x with Err e => not_found e = true -> forall q, In q (fl_made t) -> ident q <> ident p | Ok _ => True end
      | _ => fun _ => True
      end x
  end.

Section Sharing.
Variable ident : rstr -> FileIdentity.
Abbreviation sane := (obeys track (consistent ident)) (only parsing).
Implicit Types (t : Files) (config : LogRotationConfig).

Lemma lift_io_runs {A} (r : result io_error A) log x : runs (lift_io r) log x -> log = [] /\ x = map_err SupIo r.
Proof. done. Qed.
Lemma closed_top h p l : closed h ((h, p) :: l) = l.
Proof. cbn. by rewrite Z.eqb_refl. Qed.

(** A look at a file leaves nothing open. *)
Lemma existing_runs p log r t : runs (existing_identity p) log r ->
  files t log = t
  /\ (sane t log -> match r with
                    | Ok (Some (i, _)) => i = ident p
                    | Ok None => forall q, In q (fl_made t) -> ident q <> ident p
                    | Err _ => True
                    end).
Proof.
  intros H. unfold existing_identity, borrowing in H. destruct t as [o m].
  run_all H; cbn; rewrite ?closed_top, ?Z.eqb_refl; split; try done; rewrite ?closed_top; try done.
  - destruct a0 as [i n]. intros (_ & Hi & _). by apply Hi.
  - intros (Hn & _). by apply Hn.
Qed.

(** An opened sink is one open file; a failure leaves none. *)
Lemma open_runs s config log r t : runs (open_with_io s config) log r ->
  match r with
  | Ok k => fl_open (files t log) = (sk_file k, Model.path s) :: fl_open t /\ fl_made (files t log) = Model.path s :: fl_made t
            /\ sk_options k = s /\ (sane t log -> sk_identity k = ident (Model.path s))
  | Err _ => fl_open (files t log) = fl_open t
  end.
Proof.
  intros H. unfold open_with_io, owning, lift_io, io_fail in H. destruct t as [o m].
  destruct (validate_output s config) as [[]|e]; [|by destruct H as [-> ->]].
  run_all H; repeat match goal with E : map_err _ ?x = _ |- _ => destruct x; cbn in E; simplify_eq end;
    cbn; rewrite ?closed_top, ?Z.eqb_refl; try done.
  split; [done|]. split; [done|]. split; [done|]. intros (_ & _ & Hi & _). by apply Hi.
Qed.

(** ** Sharing *)

Definition held_by (k : Sink) : Z * rstr := (sk_file k, Model.path (sk_options k)).
(** Exactly the files of the sinks are open. *)
Definition holds (unique : list Sink) t : Prop := fl_open t = rev (map held_by unique).
(** One sink per file. *)
Record one_per_file (unique : list Sink) t : Prop := {
  opf_made : fl_made t = rev (map (fun k => Model.path (sk_options k)) unique);
  opf_ident : Forall (fun k => sk_identity k = ident (Model.path (sk_options k))) unique;
  opf_distinct : NoDup (map sk_identity unique) }.
(** The sink of a stream is the one of the stream's file, opened with the stream's options. *)
Definition sink_of (stream : option IoStream) (o : option nat) (unique : list Sink) : Prop :=
  match stream, o with
  | Some s, Some i => exists k, unique !! i = Some k /\ sk_identity k = ident (Model.path s) /\ same_options (sk_options k) s = true
  | None, None => True
  | _, _ => False
  end.

Lemma same_options_refl s : same_options s s = true.
Proof. unfold same_options. by rewrite !Z.eqb_refl, eqb_reflx. Qed.

Lemma canonicalize_runs {A} p (k : list Z -> SinkProg A) log r t : runs (pbind (perform (Canonicalize p)) k) log r ->
  exists x rest, log = Ev (Canonicalize p) x :: rest /\ files t log = files t rest /\ (sane t log -> sane t rest)
    /\ match x with Ok c => runs (k c) rest r | Err e => r = Err e /\ rest = [] end.
Proof.
  intros (x & rest & -> & H). exists x, rest. split; [done|]. split; [done|]. split; [by intros [_ ?]|].
  destruct x as [c|e]; [exact H|]. by destruct H as [-> ->].
Qed.

Lemma resolve_runs config stream unique log r t : runs (resolve config stream unique) log r -> holds unique t ->
  match r with
  | Ok (o, unique') =>
      holds unique' (files t log) /\ unique `prefix_of` unique' /\ (length unique' <= S (length unique))%nat
      /\ (one_per_file unique t -> sane t log -> one_per_file unique' (files t log) /\ sink_of stream o unique')
  | Err _ => fl_open (files t log) = fl_open t
  end.
Proof.
  intros H Hh. unfold resolve in H. destruct stream as [s|]; [|destruct H as [-> ->]; split; [done|]; split; [done|]; split; [lia|done]].
  apply runs_bind in H as [(e & -> & [-> _])|(l0 & l1 & [] & -> & [-> _] & H)]; [done|]. cbn [app].
  apply runs_bind in H as [(e & -> & H)|(l2 & l3 & found & -> & H1 & H)].
  { by apply (existing_runs _ _ _ t) in H as [-> _]. }
  apply (existing_runs _ _ _ t) in H1 as [Ht Hi].
  destruct (x ← found; pair x <$> find_sink x.1 unique) as [[[key links] [i k]]|] eqn:Ef.
  - destruct found as [[key' links']|]; [|done]. cbn in Ef. destruct (find_sink key' unique) as [[i' k']|] eqn:Es; [|done].
    cbn in Ef. injection Ef as -> -> -> ->. apply list_find_Some in Es as (Hk & Hid & _).
    destruct (same_options (sk_options k) s) eqn:Eo; cbn [negb] in H; [|destruct H as [-> ->]; by rewrite app_nil_r, Ht].
    apply (canonicalize_runs _ _ _ _ t) in H as (x & rest & -> & Hf & Hs & H). destruct x as [c|e]; [|destruct H as [-> ->]; by rewrite watch_app, Ht].
    destruct (_ && _); destruct H as [-> ->]; rewrite watch_app, Ht; [done|]. split; [exact Hh|]. split; [done|]. split; [lia|].
    intros Hone [Hs1 _]%obeys_app. split; [exact Hone|]. exists k. split; [done|]. split; [|done]. rewrite Hid. by apply Hi.
  - apply runs_bind in H as [(e & -> & H)|(l4 & l5 & k & -> & H1 & [-> ->])].
    { apply (open_runs _ _ _ _ t) in H. by rewrite watch_app, Ht. }
    apply (open_runs _ _ _ _ t) in H1 as (Ho & Hm & Hopt & Hid). rewrite app_nil_r, watch_app, Ht.
    split; [unfold holds; rewrite Ho, Hh, map_app, rev_app_distr; cbn; unfold held_by at 2; by rewrite Hopt|]. split; [by exists [k]|].
    split; [rewrite length_app; cbn; lia|].
    intros [Om Oi Od] [Hs1 Hs2]%obeys_app. rewrite Ht in Hs2. specialize (Hid Hs2). specialize (Hi Hs1).
    split; [|exists k; split; [by rewrite lookup_app_r, Nat.sub_diag by lia|]; by rewrite Hopt, same_options_refl].
    split; [by rewrite Hm, Om, map_app, rev_app_distr; cbn; rewrite Hopt|apply Forall_app; split; [done|constructor; [by rewrite Hopt|constructor]]|].
    rewrite map_app. apply NoDup_app. split; [done|]. split; [|apply NoDup_singleton]. intros y Hy ->%list_elem_of_singleton.
    apply list_elem_of_In, in_map_iff in Hy as (k' & Hk' & Hin). destruct found as [[key links]|].
    + cbn in Ef. destruct (find_sink key unique) eqn:Es; [done|]. apply list_find_None in Es. rewrite Forall_forall in Es.
      apply (Es k'); [by apply list_elem_of_In|]. by rewrite Hk', Hid, Hi.
    + apply (Hi (Model.path (sk_options k'))).
      * rewrite Om. apply in_rev. rewrite rev_involutive. apply in_map_iff. by exists k'.
      * rewrite Forall_forall in Oi. rewrite <- (Oi k') by by apply list_elem_of_In. by rewrite Hk', Hid.
Qed.

Lemma conflict_runs out err log r t : runs (check_conflict out err) log r -> files t log = t.
Proof.
  unfold check_conflict, io_fail. destruct out as [o|]; [|by intros [-> _]]. destruct err as [e|]; [|by intros [-> _]]. intros H.
  apply runs_bind in H as [(x & -> & H)|(l1 & l2 & a & -> & H1 & H)]; [by apply (existing_runs _ _ _ t) in H as [-> _]|].
  apply (existing_runs _ _ _ t) in H1 as [Ht _]. rewrite watch_app, Ht.
  apply runs_bind in H as [(x & -> & H)|(l3 & l4 & b & -> & H1 & H)]; [by apply (existing_runs _ _ _ t) in H as [-> _]|].
  apply (existing_runs _ _ _ t) in H1 as [Ht2 _]. rewrite watch_app, Ht2. run_all H; done.
Qed.

Lemma drop_runs {A} unique (x : result SupervisorError A) log r t : runs (drop_sinks unique (PRet x)) log r ->
  r = x /\ fl_open (files t log) = fold_left (fun l k => closed (sk_file k) l) unique (fl_open t).
Proof.
  revert log t. induction unique as [|k unique IH]; intros log t; [by intros [-> ->]|]. intros (y & l & -> & H). by apply (IH l (track t (Ev (CloseFile (sk_file k)) y))) in H.
Qed.

(** C38. Two streams get two sinks exactly when they are two files. Every file is
    opened once: each sink of the result holds one open file, no two sinks hold the
    same file under any name, and a stream's sink is the one of its file, opened
    with options the stream agrees with, so that stdout and stderr share a sink if
    and only if they name one file. When anything fails, on the way to the second
    stream too, no file stays open; and when the options of a stream are invalid
    nothing is opened at all. *)
Theorem sinks_shared_exactly out err config log r : runs (dedup_sinks out err config) log r ->
  match r with
  | Ok (o, e, unique) =>
      holds unique (files no_files log)
      /\ (sane no_files log -> NoDup (map sk_identity unique) /\ sink_of out o unique /\ sink_of err e unique
            /\ forall s1 s2, out = Some s1 -> err = Some s2 -> (o = e <-> ident (Model.path s1) = ident (Model.path s2)))
  | Err _ => fl_open (files no_files log) = []
  end
  /\ (forall s e, out = Some s \/ err = Some s -> validate_output s config = Err e -> log = []).
Proof.
  assert (forall s l x, runs (validate_stream config s) l x -> l = [] /\ ((exists u, x = Ok u) -> forall y, s = Some y -> validate_output y config = Ok tt)) as Hv.
  { intros [s|] l x Hx; cbn in Hx; destruct Hx as [-> ->]; split; try done. intros [u Hu] y [= <-]. by destruct (validate_output s config) as [[]|]. }
  intros H. unfold dedup_sinks in H.
  apply runs_bind in H as [(e & -> & [-> _]%Hv)|(l1 & l2 & u1 & -> & [-> H1]%Hv & H)]; [done|].
  apply runs_bind in H as [(e & -> & [-> _]%Hv)|(l3 & l4 & u2 & -> & [-> H2]%Hv & H)]; [done|]. cbn [app].
  split; [|intros s e [-> | ->] Hs; [specialize (H1 (ex_intro _ u1 eq_refl) s eq_refl)|specialize (H2 (ex_intro _ u2 eq_refl) s eq_refl)]; congruence].
  apply runs_bind in H as [(e & -> & H)|(l5 & l6 & u3 & -> & H3 & H)]; [by rewrite (conflict_runs _ _ _ _ no_files H)|].
  apply (conflict_runs _ _ _ _ no_files) in H3. rewrite watch_app, H3.
  apply runs_bind in H as [(e & -> & H)|(l7 & l8 & [o unique] & -> & H4 & H)]; [by apply (resolve_runs _ _ _ _ _ no_files) in H|].
  apply (resolve_runs _ _ _ _ _ no_files) in H4 as (Hh & _ & Hlen & Hs1); [|done]. rewrite watch_app. set (t := files no_files l7) in *.
  apply runs_then in H as (l9 & l10 & x & -> & H5 & H). apply (resolve_runs _ _ _ _ _ t) in H5; [|exact Hh]. rewrite watch_app.
  destruct x as [[e unique']|x].
  - destruct H as [-> ->]. destruct H5 as (Hh' & Hp & _ & Hs2). split; [exact Hh'|]. rewrite app_nil_r.
    intros [_ [Hsane1 Hsane2]%obeys_app]%obeys_app. rewrite H3 in Hsane1. rewrite H3 in Hsane2.
    destruct Hs1 as [Hone1 Ho]; [split; [done|constructor|constructor]|exact Hsane1|].
    destruct (Hs2 Hone1 Hsane2) as [Hone2 He]. destruct Hone2 as [_ _ Hd]. split; [exact Hd|].
    assert (sink_of out o unique') as Ho'.
    { destruct out as [s|], o as [i|]; try done. destruct Ho as (k & Hk & ?). exists k. split; [|done]. by eapply prefix_lookup_Some. }
    split; [exact Ho'|]. split; [exact He|]. intros s1 s2 -> ->. destruct o as [i|]; [|done]. destruct e as [j|]; [|done].
    destruct Ho' as (k1 & Hk1 & <- & _), He as (k2 & Hk2 & <- & _). split; [intros [= ->]; congruence|].
    intros Heq. f_equal. apply (NoDup_lookup (map sk_identity unique') i j (sk_identity k1)); [exact Hd| |];
      change (map sk_identity unique') with (sk_identity <$> unique'); rewrite list_lookup_fmap; [by rewrite Hk1|rewrite Hk2; cbn; by rewrite Heq].
  - apply (drop_runs _ _ _ _ (files t l9)) in H as [-> Hf]. rewrite Hf, H5, Hh. destruct unique as [|k [|k2 unique]]; cbn in Hlen; [done| |lia].
    cbn. by rewrite Z.eqb_refl.
Qed.
End Sharing.

(** ** Two names of one file *)

(** Every path names the same file; handles are counted upwards. *)
Definition sample_files (X : Type) (e : SinkE X) (next : Z) : result SupervisorError X * Z :=
  match e in SinkE X return result SupervisorError X * Z with
  | OpenOutput _ | ProbeOpen _ => (Ok next, next + 1)
  | FileMetadata _ => (Ok (true, 10), next)
  | IdentityOf _ => (Ok ((1, 7), 1), next)
  | Canonicalize _ => (Ok [67; 58; 92; 97], next)
  | CloseFile _ => (Ok tt, next)
  | SinkNow => (Ok 5, next)
  end.
Definition sample_stream (p : rstr) : IoStream := Build_IoStream p None None None None.
Definition sample_dedup := interp sample_files (dedup_sinks (Some (sample_stream &"C:\a")) (Some (sample_stream &"c:\A")) LogRotationConfig_default) 1.

Lemma sinks_shared_exactly_witness :
  (forall o e unique, sample_dedup.1.1 = Ok (o, e, unique) -> o = e /\ NoDup (map sk_identity unique))
  /\ match sample_dedup.1.1 with Ok (_, _, unique) => length unique = 1%nat | Err _ => False end.
Proof.
  destruct (sinks_shared_exactly (fun _ => (1, 7)) (Some (sample_stream &"C:\a")) (Some (sample_stream &"c:\A"))
              LogRotationConfig_default sample_dedup.1.2 sample_dedup.1.1) as [H _]; [apply interp_runs|].
  split; [|vm_compute; reflexivity]. intros o e unique Hr. rewrite Hr in H. destruct H as [_ H].
  destruct H as (Hd & _ & _ & Hs); [vm_compute; repeat split; intros; reflexivity|].
  split; [by apply (Hs _ _ eq_refl eq_refl)|exact Hd].
Defined.
