(* ===== verification/ReaderTask.v ===== *)
(** * The task that drains a pipe: supervisor [output.rs] ([ReaderTask])

    The thread around the copy loop of [Output], and how its owner ends it: by a
    deadline the loop sees, then by cancelling its I/O, then not at all. Times are
    in nanoseconds. *)

From Stdlib Require Import ZArith Lia List.
From S2P Require Import Prelude Text Model Effects Rotation Output.

Definition MS : Z := 1000000.

Inductive ReaderE : Type -> Type :=
| SpawnThread (name : rstr) : ReaderE (result io_error unit)
| CopyPipe : ReaderE (result io_error ReaderStats)          (* [copy_pipe], on the thread *)
| ReportFailure (service subject text : rstr) : ReaderE unit
| SendReaderFailed (generation : Z) : ReaderE bool
| SetDrainDeadline (deadline : Z) : ReaderE unit
| ThreadFinished : ReaderE bool
| ReaderNow : ReaderE Z
| ReaderSleep (ns : Z) : ReaderE unit
| SetCancelled : ReaderE unit
| CancelSynchronousIo : ReaderE unit
| JoinThread : ReaderE (option (result io_error ReaderStats)).   (* [None]: it panicked *)
Abbreviation ReaderProg A := (Prog ReaderE Empty_set A) (only parsing).
Abbreviation ReaderEvent := (Event ReaderE Empty_set) (only parsing).

(** ** The thread *)

Definition spawn (label : rstr) : ReaderProg (result io_error unit) := perform (SpawnThread (&"ngsm-" ++ label)).
Definition thread_body (service label : rstr) (generation : Z) : ReaderProg (result io_error ReaderStats) :=
  let@ r := perform CopyPipe in
  match r with
  | Ok _ => PRet (Ok r)
  | Err error =>
      perform (ReportFailure service (label ++ &" generation=" ++ to_dec generation) (io_error_text error)) ;@
      perform (SendReaderFailed generation) ;@ PRet (Ok r)
  end.

(** ** Its end *)

(** [cancel], also what dropping the task does; [held]: the handle was not taken. *)
Definition cancel (held : bool) : ReaderProg unit :=
  perform SetCancelled ;@ (if held then perform CancelSynchronousIo else PRet (Ok tt)).
Definition drop_task (held : bool) : ReaderProg unit := cancel held.

(** [self.handle.as_ref().is_some_and(|h| !h.is_finished())] *)
Definition unfinished (held : bool) : ReaderProg bool :=
  if held then let@ f := perform ThreadFinished in PRet (Ok (negb f)) else PRet (Ok false).

(** [None] is the end of [fuel]. *)
Fixpoint poll_until (fuel : nat) (held : bool) (deadline : Z) : ReaderProg (option unit) :=
  match fuel with
  | O => PRet (Ok None)
  | S fuel =>
      let@ u := unfinished held in
      if negb u then PRet (Ok (Some tt))
      else
        let@ now := perform ReaderNow in
        if now <? deadline then perform (ReaderSleep (5 * MS)) ;@ poll_until fuel held deadline
        else PRet (Ok (Some tt))
  end.

Definition default_stats : ReaderStats := {| written := 0; dropped := 0 |}.
Definition not_cancelled : io_error :=
  mk_io_error KTimedOut &"output I/O did not cancel; the host must exit without starting another generation".
Definition joined (x : option (result io_error ReaderStats)) : result io_error ReaderStats :=
  match x with Some r => r | None => Err (mk_io_error KOther &"output reader panicked") end.

(** The answer, and whether the handle is still held. *)
Definition Finished : Type := result io_error ReaderStats * bool.
Definition conclude (held : bool) : ReaderProg (option Finished) :=
  let@ u := unfinished held in
  if u : bool then PRet (Ok (Some (Err not_cancelled, held)))
  else if held then let@ x := perform JoinThread in PRet (Ok (Some (joined x, false)))
  else PRet (Ok (Some (Ok default_stats, false))).
Definition force (fuel : nat) (held : bool) : ReaderProg (option unit) :=
  cancel held ;@
  let@ now := perform ReaderNow in
  poll_until fuel held (now + 500 * MS).

Definition finish (fuel : nat) (held : bool) (deadline : Z) : ReaderProg (option Finished) :=
  perform (SetDrainDeadline deadline) ;@
  let@ polled := poll_until fuel held deadline in
  match polled with
  | None => PRet (Ok None)
  | Some _ =>
      let@ u := unfinished held in
      if u : bool then
        let@ forced := force fuel held in
        match forced with None => PRet (Ok None) | Some _ => conclude held end
      else conclude held
  end.

(** ** What finishing does *)

Definition reader_clock (e : ReaderEvent) : option Z :=
  match e with
  | Ev c x => match c in ReaderE X return result Empty_set X -> option Z with
              | ReaderNow => fun x => match x with Ok t => Some t | Err _ => None end | _ => fun _ => None end x
  end.
Definition reader_slept (e : ReaderEvent) : Z := match e with Ev c _ => match c with ReaderSleep ns => Z.max 0 ns | _ => 0 end end.
(** A clock that never goes back, and sleeps that take their time. *)
Fixpoint reader_ticks (t : Z) (log : list ReaderEvent) : Prop :=
  match log with
  | [] => True
  | e :: l => match reader_clock e with Some x => t <= x /\ reader_ticks x l | None => reader_ticks (t + reader_slept e) l end
  end.
(** The time after a log. *)
Fixpoint reader_time (t : Z) (log : list ReaderEvent) : Z :=
  match log with
  | [] => t
  | e :: l => reader_time (match reader_clock e with Some x => x | None => t + reader_slept e end) l
  end.
Lemma reader_ticks_app t l m : reader_ticks t (l ++ m) <-> reader_ticks t l /\ reader_ticks (reader_time t l) m.
Proof. revert t. induction l as [|e l IH]; intros t; cbn; [tauto|]. destruct (reader_clock e); rewrite IH; tauto. Qed.
Lemma reader_time_app t l m : reader_time t (l ++ m) = reader_time (reader_time t l) m.
Proof. revert t. induction l as [|e l IH]; intros t; cbn; [done|apply IH]. Qed.

Definition cancelling (e : ReaderEvent) : option unit := match e with Ev c _ => match c with SetCancelled => Some tt | _ => None end end.
Definition joining (e : ReaderEvent) : option unit := match e with Ev c _ => match c with JoinThread => Some tt | _ => None end end.
(** A log that neither cancels nor joins. *)
Definition waits (l : list ReaderEvent) : Prop := omap cancelling l = [] /\ omap joining l = [].
Lemma waits_app l m : waits l -> waits m -> waits (l ++ m).
Proof. intros [H1 H2] [H3 H4]. split; by rewrite omap_app, ?H1, ?H2, ?H3, ?H4. Qed.

Ltac answered H a := let x := fresh "x" in let l := fresh "l" in destruct H as ([a|[]] & l & -> & H); cbn [pthen pbind] in H.

(** A poll ends: the thread was seen finished, or the deadline had passed. *)
Lemma reader_poll_runs fuel deadline t log r : runs (poll_until fuel true deadline) log r -> reader_ticks t log ->
  deadline - t <= 5 * MS * (Z.of_nat fuel - 1) -> (1 <= fuel)%nat ->
  r = Ok (Some tt) /\ waits log
  /\ (last log = Some (Ev ThreadFinished (Ok true)) \/ deadline <= reader_time t log) /\ t <= reader_time t log.
Proof.
  revert t log. induction fuel as [|fuel IH]; intros t log H HT Hd Hf; [lia|]. cbn [poll_until unfinished] in H. answered H f.
  destruct f; cbn [negb pbind pthen] in H; [destruct H as [-> ->]; split; [done|]; split; [done|]; split; [by left|cbn; lia]|].
  answered H y. cbn in HT. destruct HT as [Hy HT]. destruct (y <? deadline) eqn:E.
  - answered H u. cbn in HT. destruct fuel as [|fuel]; [unfold MS in *; lia|].
    destruct (IH _ _ H HT) as (-> & [Hc Hj] & Hl & Ht); [unfold MS in *; lia|lia|]. split; [done|]. split; [by split|]. split; [|cbn in *; unfold MS in *; lia].
    destruct Hl as [Hl|Hl]; [left|right; done]. by rewrite !last_cons, Hl.
  - destruct H as [-> ->]. split; [done|]. split; [done|]. split; [right; cbn; lia|cbn; lia].
Qed.

Lemma conclude_runs log r : runs (conclude true) log r ->
  (exists x, log = [Ev ThreadFinished (Ok true); Ev JoinThread (Ok x)] /\ r = Ok (Some (joined x, false)))
  \/ (log = [Ev ThreadFinished (Ok false)] /\ r = Ok (Some (Err not_cancelled, true))).
Proof.
  intros H. unfold conclude, unfinished in H. answered H f. destruct f; cbn [negb pthen pbind] in H.
  - answered H x. destruct H as [-> ->]. left. by exists x.
  - destruct H as [-> ->]. by right.
Qed.

(** A thread that has finished stays finished. *)
Definition stays_finished (log : list ReaderEvent) : Prop :=
  forall a b, log = a ++ Ev ThreadFinished (Ok true) :: b -> ~ In (Ev ThreadFinished (Ok false)) b.
Lemma finished_then a b c : stays_finished (a ++ b ++ Ev ThreadFinished (Ok false) :: c) -> last b <> Some (Ev ThreadFinished (Ok true)).
Proof.
  intros H Hl. apply last_Some in Hl as (b' & ->). apply (H (a ++ b') (Ev ThreadFinished (Ok false) :: c)); [by rewrite <- !app_assoc|by left].
Qed.

Definition taken (x : option (result io_error ReaderStats)) : list ReaderEvent := [Ev ThreadFinished (Ok true); Ev JoinThread (Ok x)].

(** Ending a reader takes a bounded time and is honest. The deadline is handed
    to the thread first. A result is the thread's own, taken once, when it was seen
    finished. Its I/O is cancelled at most once, and only when the deadline has
    passed; and the error that makes the host exit is returned only when the thread
    was still running 500 milliseconds after the cancellation, with the handle still
    held, so that no other generation writes to a log this one may be writing to. *)
Theorem finish_settles fuel deadline t log r : runs (finish fuel true deadline) log r -> reader_ticks t log -> stays_finished log ->
  deadline - t <= 5 * MS * (Z.of_nat fuel - 1) -> (101 <= fuel)%nat ->
  exists pre ending w, r = Ok (Some w) /\ log = Ev (SetDrainDeadline deadline) (Ok tt) :: pre ++ ending
  /\ ((waits pre /\ exists x, ending = taken x /\ w = (joined x, false))
      \/ exists a c b, pre = a ++ Ev SetCancelled (Ok tt) :: Ev CancelSynchronousIo (Ok tt) :: Ev ReaderNow (Ok c) :: b
           /\ waits a /\ waits b /\ deadline <= reader_time t a
           /\ ((exists x, ending = taken x /\ w = (joined x, false))
               \/ (ending = [Ev ThreadFinished (Ok false)] /\ w = (Err not_cancelled, true) /\ c + 500 * MS <= reader_time c b))).
Proof.
  intros H HT HS Hd Hf. unfold finish in H. answered H u. destruct u. cbn in HT.
  apply runs_bind in H as [([] & _)|(l1 & l2 & p & -> & H1 & H)]. apply reader_ticks_app in HT as [HT1 HT].
  eapply reader_poll_runs in H1 as ([= ->] & Hw1 & Hl1 & Ht1); [|exact HT1|lia|lia].
  apply runs_bind in H as [([] & _)|(l3 & l4 & s & -> & H3 & H)]. unfold unfinished in H3. answered H3 f. destruct H3 as [-> [= ->]].
  assert (t + 0 = t) as Et by lia. rewrite Et in *. destruct f; cbn [negb] in H.
  - apply conclude_runs in H as [(x & -> & ->)|[-> ->]].
    + exists (l1 ++ [Ev ThreadFinished (Ok true)]), (taken x), (joined x, false). split; [done|]. split; [cbn; by rewrite <- app_assoc|].
      left. split; [by apply waits_app|]. by exists x.
    + exfalso. apply (HS (Ev (SetDrainDeadline deadline) (Ok tt) :: l1) [Ev ThreadFinished (Ok false)]); [done|by left].
  - assert (deadline <= reader_time t l1) as Hpast.
    { destruct Hl1 as [Hl1|?]; [|done]. exfalso. by apply (finished_then [Ev (SetDrainDeadline deadline) (Ok tt)] l1 l4). }
    unfold force, cancel in H. apply runs_bind in H as [([] & _)|(l5 & l6 & q & -> & H5 & H)].
    answered H5 u. destruct u. answered H5 u. destruct u. answered H5 c. cbn in HT. destruct HT as [Hc HT]. apply reader_ticks_app in HT as [HT5 HT].
    eapply reader_poll_runs in H5 as ([= ->] & Hw5 & Hl5 & Ht5); [|exact HT5|unfold MS in *; lia|lia].
    set (pre := l1 ++ Ev ThreadFinished (Ok false) :: Ev SetCancelled (Ok tt) :: Ev CancelSynchronousIo (Ok tt) :: Ev ReaderNow (Ok c) :: l).
    assert (pre = (l1 ++ [Ev ThreadFinished (Ok false)]) ++ Ev SetCancelled (Ok tt) :: Ev CancelSynchronousIo (Ok tt) :: Ev ReaderNow (Ok c) :: l) as Epre
      by (unfold pre; by rewrite <- app_assoc).
    assert (waits (l1 ++ [Ev ThreadFinished (Ok false)])) as Hwa by by apply waits_app.
    assert (deadline <= reader_time t (l1 ++ [Ev ThreadFinished (Ok false)])) as Hda by (rewrite reader_time_app; cbn; lia).
    apply conclude_runs in H as [(x & -> & ->)|[-> ->]].
    + exists pre, (taken x), (joined x, false). split; [done|]. split; [unfold pre; by rewrite <- app_assoc|]. right.
      eexists _, c, l. do 4 (split; [done|]). left. by exists x.
    + exists pre, [Ev ThreadFinished (Ok false)], (Err not_cancelled, true). split; [done|]. split; [unfold pre; by rewrite <- app_assoc|]. right.
      eexists _, c, l. do 4 (split; [done|]). right. do 2 (split; [done|]). destruct Hl5 as [Hl5|?]; [|done]. exfalso.
      apply (finished_then (Ev (SetDrainDeadline deadline) (Ok tt) :: l1 ++ [Ev ThreadFinished (Ok false); Ev SetCancelled (Ok tt); Ev CancelSynchronousIo (Ok tt); Ev ReaderNow (Ok c)]) l []); [|done].
      cbn. cbn in HS. by rewrite <- app_assoc.
Qed.

(** The thread needs twenty milliseconds after its I/O was cancelled. *)
Definition sample_reader (X : Type) (e : ReaderE X) (w : Z * option Z) : result Empty_set X * (Z * option Z) :=
  let '(clock, cancelled) := w in
  match e in ReaderE X return result Empty_set X * (Z * option Z) with
  | SpawnThread _ => (Ok (Ok tt), w)
  | CopyPipe => (Ok (Ok default_stats), w)
  | ReportFailure _ _ _ | SetDrainDeadline _ => (Ok tt, w)
  | SendReaderFailed _ => (Ok true, w)
  | ThreadFinished => (Ok (match cancelled with Some c => c + 20 * MS <=? clock | None => false end), w)
  | ReaderNow => (Ok clock, w)
  | ReaderSleep ns => (Ok tt, (clock + ns, cancelled))
  | SetCancelled | CancelSynchronousIo => (Ok tt, (clock, Some clock))
  | JoinThread => (Ok (Some (Ok {| written := 3; dropped := 0 |})), w)
  end.
Definition sample_finish := interp sample_reader (finish 101 true (10 * MS)) (0, None).

(** [stays_finished] as a test of a log. *)
Fixpoint stays_finished_b (seen : bool) (log : list ReaderEvent) : bool :=
  match log with
  | [] => true
  | Ev c x :: l =>
      match c in ReaderE X return result Empty_set X -> bool with
      | ThreadFinished => fun x => match x with Ok true => stays_finished_b true l | _ => if seen then false else stays_finished_b seen l end
      | _ => fun _ => stays_finished_b seen l
      end x
  end.
Lemma seen_finished l : stays_finished_b true l = true -> ~ In (Ev ThreadFinished (Ok false)) l.
Proof.
  induction l as [|[X c x] l IH]; intros Hg; [intros []|]. intros [Hx|Hl]; [by rewrite Hx in Hg|].
  destruct c; cbn in Hg; try by apply IH. destruct x as [[]|]; [by apply IH|done|done].
Qed.
Lemma stays_finished_check log : stays_finished_b false log = true -> stays_finished log.
Proof.
  intros H a b ->. apply seen_finished. revert H. generalize false. induction a as [|[X c x] a IH]; intros seen; [by intros|].
  destruct c; cbn [app stays_finished_b]; try apply IH. destruct x as [[]|]; [apply IH|destruct seen; [done|apply IH]..].
Qed.

Lemma finish_settles_witness : exists w, sample_finish.1.1 = Ok (Some w) /\ w = (Ok {| written := 3; dropped := 0 |}, false).
Proof.
  destruct (finish_settles 101 (10 * MS) 0 sample_finish.1.2 sample_finish.1.1 (interp_runs _ _ _)) as (pre & ending & w & Hr & _).
  - vm_compute. repeat split; discriminate.
  - apply stays_finished_check. vm_compute. reflexivity.
  - unfold MS. lia.
  - lia.
  - exists w. split; [exact Hr|]. vm_compute in Hr. injection Hr as <-. reflexivity.
Defined.
