(* ===== verification/Desktop.v ===== *)
(** * Windows, consoles and elevation: servicemanager-win32 [windows_close.rs],
      [console_ctrl.rs], [elevation.rs], servicemanager-gui [elevation.rs]

    The steps by which a child is asked to end without being killed, and the two
    questions about the rights of this process. *)

From Stdlib Require Import ZArith Lia List.
From S2P Require Import Prelude Text Model Effects Monitor BrokerHandlers ProcessTree Scm.

(** ** Calls *)

(** [THREADENTRY32], the fields that are read. *)
Record THREADENTRY32 := { th32ThreadID : Z; th32OwnerProcessID : Z }.

Inductive DeskE : Type -> Type :=
| LockEnum : DeskE unit
| UnlockEnum : DeskE unit
| EnumWindows : DeskE (list Z)          (* the windows the callback is called with *)
| EnumReturns : DeskE unit              (* what the enumeration returns after that *)
| GetWindowThreadProcessId (hwnd : Z) : DeskE Z
| PostMessage (hwnd msg : Z) : DeskE unit
| ThreadSnapshot : DeskE Z
| Thread32First (snapshot : Z) : DeskE THREADENTRY32
| Thread32Next (snapshot : Z) : DeskE THREADENTRY32
| PostThreadMessage (tid msg : Z) : DeskE unit
| CloseObject (h : Z) : DeskE unit
| ConsoleReadyGet : DeskE bool
| ConsoleReadySet : DeskE unit
| AllocConsole : DeskE unit
| GenerateConsoleCtrlEvent (event group : Z) : DeskE unit
| OpenProcessToken (access : Z) : DeskE Z
| GetTokenElevation (token : Z) : DeskE Z     (* [TokenIsElevated] *)
| CurrentExe : DeskE rstr
| ShellExecute (verb file args : list Z) : DeskE Z
| DeskStderr (text : rstr) : DeskE unit.
Abbreviation DeskProg A := (Prog DeskE Fail A) (only parsing).
Abbreviation DeskEvent := (Event DeskE Fail) (only parsing).

Definition WM_CLOSE : Z := 16.
Definition WM_QUIT : Z := 18.
Definition CTRL_BREAK_EVENT : Z := 1.
Definition TOKEN_QUERY : Z := 8.
Definition ERROR_ACCESS_DENIED : Z := 5.

Definition fail_text (f : Fail) : rstr := match f with Os _ text => text | Msg e => error_to_string e end.
Definition scm_of (context : rstr) (f : Fail) : Fail :=
  match f with Os _ text => Msg (Model.Scm (context ++ &": " ++ text)) | Msg e => Msg e end.
(** A guard that calls [e] when it is dropped. *)
Definition guarded {A} (e : DeskE unit) (p : DeskProg A) : DeskProg A := pfinally p (perform e).

(** ** windows_close.rs *)

Record EnumState := { target_pid : Z; posted : Z }.

(** The callback: whether the enumeration goes on, and the state. *)
Definition enum_proc (hwnd : Z) (state : EnumState) : DeskProg (bool * EnumState) :=
  pthen (perform (GetWindowThreadProcessId hwnd)) (fun r =>
    let owner_pid := match r with Ok p => p | Err _ => 0 end in
    if owner_pid =? target_pid state then
      pthen (perform (PostMessage hwnd WM_CLOSE)) (fun r =>
        match r with
        | Ok _ => PRet (Ok (true, {| target_pid := target_pid state; posted := posted state + 1 |}))
        | Err e =>
            pthen (perform (DeskStderr (&"[windows_close] PostMessageW(hwnd=0x" ++ strip_zeros (to_hex_pad 16 hwnd) ++ &") failed: " ++ fail_text e)))
              (fun _ => PRet (Ok (true, state)))
        end)
    else PRet (Ok (true, state))).
(** What [EnumWindows] does with its callback. *)
Fixpoint enumerate (windows : list Z) (state : EnumState) : DeskProg EnumState :=
  match windows with
  | [] => PRet (Ok state)
  | hwnd :: windows =>
      let@ (continue, state) := enum_proc hwnd state in
      if continue : bool then enumerate windows state else PRet (Ok state)
  end.
Definition post_wm_close_to_process (pid : Z) : DeskProg Z :=
  perform LockEnum ;@
  guarded UnlockEnum
    (let@ windows := pmap_err (other_of &"EnumWindows") (perform EnumWindows) in
     let@ state := enumerate windows {| target_pid := pid; posted := 0 |} in
     pmap_err (other_of &"EnumWindows") (perform EnumReturns) ;@
     PRet (Ok (posted state))).

(** One thread of the snapshot: whether the message was posted to it. *)
Definition quit_thread (pid : Z) (entry : THREADENTRY32) : DeskProg bool :=
  if th32OwnerProcessID entry =? pid
  then pthen (perform (PostThreadMessage (th32ThreadID entry) WM_QUIT)) (fun r => PRet (Ok (match r with Ok _ => true | Err _ => false end)))
  else PRet (Ok false).
(** The loop; [None] only when [fuel] runs out. *)
Fixpoint quit_threads (fuel : nat) (pid snapshot : Z) (entry : THREADENTRY32) (posted : Z) : DeskProg (option Z) :=
  match fuel with
  | O => PRet (Ok None)
  | S fuel =>
      let@ sent := quit_thread pid entry in
      let posted := if sent : bool then posted + 1 else posted in
      pthen (perform (Thread32Next snapshot)) (fun r =>
        match r with Ok entry => quit_threads fuel pid snapshot entry posted | Err _ => PRet (Ok (Some posted)) end)
  end.
Definition post_wm_quit_to_process (fuel : nat) (pid : Z) : DeskProg (option Z) :=
  let@ snapshot := pmap_err (other_of &"CreateToolhelp32Snapshot(threads)") (perform ThreadSnapshot) in
  guarded (CloseObject snapshot)
    (pthen (perform (Thread32First snapshot)) (fun r =>
      match r with Ok entry => quit_threads fuel pid snapshot entry 0 | Err _ => PRet (Ok (Some 0)) end)).

(** ** console_ctrl.rs *)

Definition ensure_console : DeskProg unit :=
  let@ ready := perform ConsoleReadyGet in
  if ready : bool then PRet (Ok tt)
  else
    pthen (perform AllocConsole) (fun r =>
      match r with
      | Ok _ => perform ConsoleReadySet
      | Err (Os code text) => if code =? ERROR_ACCESS_DENIED then perform ConsoleReadySet else PRet (Err (scm_of &"AllocConsole" (Os code text)))
      | Err f => PRet (Err f)
      end).
Definition send_ctrl_break (process_group_id : Z) : DeskProg unit :=
  ensure_console ;@
  pmap_err (scm_of &"GenerateConsoleCtrlEvent") (perform (GenerateConsoleCtrlEvent CTRL_BREAK_EVENT process_group_id)).

(** ** elevation.rs *)

Definition is_elevated : DeskProg bool :=
  pthen (perform (OpenProcessToken TOKEN_QUERY)) (fun r =>
    match r with
    | Err _ => PRet (Ok false)
    | Ok token =>
        pthen (perform (GetTokenElevation token)) (fun result =>
        pthen (perform (CloseObject token)) (fun _ =>
        PRet (Ok (match result with Ok info => negb (info =? 0) | Err _ => false end))))
    end).

(** [Err] of [CurrentExe] is a path that cannot be found. *)
Definition relaunch_as_admin : DeskProg bool :=
  pthen (perform CurrentExe) (fun r =>
    match r with
    | Err _ => PRet (Ok false)
    | Ok exe => let@ result := perform (ShellExecute (to_wide &"runas") (to_wide exe) (to_wide &"gui")) in PRet (Ok (32 <? result))
    end).

(** ** What was asked, and of whom *)

Definition owner_event (e : DeskEvent) : option (Z * Z) :=
  match e with
  | Ev c x => match c in DeskE X return result Fail X -> option (Z * Z) with
              | GetWindowThreadProcessId hwnd => fun x => Some (hwnd, match x with Ok p => p | Err _ => 0 end)
              | _ => fun _ => None end x
  end.
(** A message that was posted, to a window or a thread, and whether it was accepted. *)
Definition post_event (e : DeskEvent) : option (Z * Z * bool) :=
  match e with
  | Ev c x => match c in DeskE X return result Fail X -> option (Z * Z * bool) with
              | PostMessage hwnd msg => fun x => Some (hwnd, msg, match x with Ok _ => true | Err _ => false end)
              | PostThreadMessage tid msg => fun x => Some (tid, msg, match x with Ok _ => true | Err _ => false end)
              | _ => fun _ => None end x
  end.
Definition thread_event (e : DeskEvent) : option THREADENTRY32 :=
  match e with
  | Ev c x => match c in DeskE X return result Fail X -> option THREADENTRY32 with
              | Thread32First _ | Thread32Next _ => fun x => match x with Ok t => Some t | Err _ => None end
              | _ => fun _ => None end x
  end.
(** A guard that is taken, and one that is released. *)
Definition guard_event (e : DeskEvent) : option (option Z * bool) :=
  match e with
  | Ev c x => match c in DeskE X return result Fail X -> option (option Z * bool) with
              | LockEnum => fun x => match x with Ok _ => Some (None, true) | Err _ => None end
              | UnlockEnum => fun _ => Some (None, false)
              | ThreadSnapshot | OpenProcessToken _ => fun x => match x with Ok h => Some (Some h, true) | Err _ => None end
              | CloseObject h => fun _ => Some (Some h, false)
              | _ => fun _ => None end x
  end.
Abbreviation owners log := (omap owner_event log) (only parsing).
Abbreviation posts log := (omap post_event log) (only parsing).
Abbreviation threads log := (omap thread_event log) (only parsing).
Abbreviation guards log := (omap guard_event log) (only parsing).
Definition accepted (l : list (Z * Z * bool)) : Z := Z.of_nat (length (List.filter (fun p => p.2) l)).

Lemma accepted_app l m : accepted (l ++ m) = accepted l + accepted m.
Proof. unfold accepted. rewrite List.filter_app, length_app. lia. Qed.

Ltac sequences := rewrite ?omap_app; cbn.

(** The windows that belong to [pid]. *)
Definition owned_by (pid : Z) (l : list (Z * Z)) : list Z := map fst (List.filter (fun w => w.2 =? pid) l).
Lemma owned_by_app pid l m : owned_by pid (l ++ m) = owned_by pid l ++ owned_by pid m.
Proof. unfold owned_by. by rewrite List.filter_app, map_app. Qed.

Lemma enum_proc_runs hwnd s log r : runs (enum_proc hwnd s) log r ->
  guards log = [] /\ (exists p, owners log = [(hwnd, p)])
  /\ map fst (posts log) = map (fun w => (w, WM_CLOSE)) (owned_by (target_pid s) (owners log))
  /\ r = Ok (true, {| target_pid := target_pid s; posted := posted s + accepted (posts log) |}).
Proof.
  intros H. unfold enum_proc in H. assert ({| target_pid := target_pid s; posted := posted s + 0 |} = s) as Es by (destruct s; cbn; f_equal; lia).
  run_all H; unfold owned_by, accepted; cbn -[Z.add]; rewrite ?Heqb; cbn -[Z.add]; rewrite ?Es; (split; [done|]); (split; [by eexists|]); (split; [done|]).
  all: change (Z.of_nat 0) with 0; rewrite ?Es; reflexivity.
Qed.

Lemma windows_runs windows s log r : runs (enumerate windows s) log r ->
  guards log = [] /\ map fst (owners log) = windows
  /\ map fst (posts log) = map (fun w => (w, WM_CLOSE)) (owned_by (target_pid s) (owners log))
  /\ r = Ok {| target_pid := target_pid s; posted := posted s + accepted (posts log) |}.
Proof.
  revert s log. induction windows as [|w windows IH]; intros s log H; cbn [enumerate] in H.
  - destruct H as [-> ->]. repeat split. change (accepted (posts [])) with 0. rewrite Z.add_0_r. by destruct s.
  - apply runs_bind in H as [(e & -> & H)|(l1 & l2 & [c s'] & -> & H1 & H)]; [by apply enum_proc_runs in H as (_ & _ & _ & [=])|].
    apply enum_proc_runs in H1 as (Hg & (p & Ho) & Hp & [= -> ->]). apply IH in H as (Hg2 & Ho2 & Hp2 & ->).
    sequences. cbn in Ho2, Hp2.
    rewrite Hg, Hg2, !map_app, Ho2, Hp, Hp2, owned_by_app, map_app, accepted_app, Ho. repeat split. cbn [target_pid posted]. do 2 f_equal. lia.
Qed.

(** Only the process that was named is asked to close, and all of it: every
    top-level window is looked at, WM_CLOSE is posted to exactly the windows whose
    owner is the process, and the result counts the posts the system accepted.
    The lock of the enumeration is released on every path. *)
Theorem close_asks_owned_windows pid log r : runs (post_wm_close_to_process pid) log r ->
  map fst (posts log) = map (fun w => (w, WM_CLOSE)) (owned_by pid (owners log))
  /\ (guards log = [] \/ guards log = [(None, true); (None, false)])
  /\ (forall n, r = Ok n -> n = accepted (posts log) /\ exists windows, In (Ev EnumWindows (Ok windows)) log /\ map fst (owners log) = windows).
Proof.
  intros H. unfold post_wm_close_to_process, guarded, pfinally in H.
  apply runs_bind in H as [(e & -> & H)|(l1 & l2 & [] & -> & H1 & H)].
  { destruct H as (x & l & -> & -> & <-). cbn. split; [done|]. split; [by left|]. by intros. }
  destruct H1 as (x & l & -> & -> & <-). apply runs_then in H as (l3 & l4 & a & -> & H & H4).
  destruct H4 as (y & l & -> & -> & ->).
  apply runs_bind in H as [(e & -> & H)|(l5 & l6 & windows & -> & H5 & H)].
  { destruct H as (z & l & -> & H). destruct z; destruct H as [-> [=]]. cbn. split; [done|]. split; [by right|]. by intros. }
  destruct H5 as (z & l & -> & H5). destruct z as [ws|]; destruct H5 as [-> [=]]. subst.
  apply runs_bind in H as [(e & -> & H)|(l7 & l8 & s & -> & H7 & H)]; [by apply windows_runs in H as (_ & _ & _ & [=])|].
  apply windows_runs in H7 as (Hg & Ho & Hp & [= ->]). cbn [target_pid posted] in *.
  apply runs_bind in H as [(e & -> & H)|(l9 & l10 & [] & -> & H9 & H)].
  - destruct H as (z & l & -> & H). destruct z; destruct H as [-> [=]]. sequences.
    rewrite !app_nil_r, Hg. split; [done|]. split; [by right|]. by intros.
  - destruct H9 as (z & l & -> & H9). destruct z; destruct H9 as [-> [=]]. destruct H as [-> ->]. sequences.
    rewrite !app_nil_r, Hg. split; [done|]. split; [by right|]. intros n [= <-]. split; [lia|].
    exists ws. split; [right; left; reflexivity|done].
Qed.

Definition quit_targets (pid : Z) (l : list THREADENTRY32) : list (Z * Z) :=
  map (fun t => (th32ThreadID t, WM_QUIT)) (List.filter (fun t => th32OwnerProcessID t =? pid) l).
Lemma quit_targets_app pid l m : quit_targets pid (l ++ m) = quit_targets pid l ++ quit_targets pid m.
Proof. unfold quit_targets. by rewrite List.filter_app, map_app. Qed.

Lemma quit_thread_runs pid entry log r : runs (quit_thread pid entry) log r ->
  guards log = [] /\ threads log = [] /\ map fst (posts log) = quit_targets pid [entry] /\ r = Ok (accepted (posts log) =? 1).
Proof. intros H. unfold quit_thread, quit_targets in *. run_all H; cbn; rewrite ?Heqb; repeat split. by destruct x. Qed.

Lemma quit_threads_runs fuel pid snapshot : forall entry n log r, runs (quit_threads fuel pid snapshot entry n) log r ->
  guards log = []
  /\ ((r = Ok None /\ length (threads log) = fuel)
      \/ map fst (posts log) = quit_targets pid (entry :: threads log) /\ r = Ok (Some (n + accepted (posts log)))).
Proof.
  induction fuel as [|fuel IH]; intros entry n log r H; cbn [quit_threads] in H.
  { destruct H as [-> ->]. split; [done|]. by left. }
  apply runs_bind in H as [(e & -> & H)|(l1 & l2 & sent & -> & H1 & H)]; [by apply quit_thread_runs in H as (_ & _ & _ & [=])|].
  apply quit_thread_runs in H1 as (Hg & Ht & Hp & [= ->]). assert (accepted (posts l1) = 0 \/ accepted (posts l1) = 1) as Ha.
  { assert (length (posts l1) <= 1)%nat as Hl by (rewrite <- (length_map fst), Hp; unfold quit_targets; cbn [List.filter]; destruct (th32OwnerProcessID entry =? pid); cbn [map length]; lia).
    unfold accepted. destruct (posts l1) as [|q [|]]; cbn [length List.filter] in *; [by left| |lia]. destruct (q.2); [by right|by left]. }
  destruct H as (x & l & -> & H). destruct x as [next|e]; sequences; rewrite Hg, Ht.
  - apply IH in H as [Hg2 [[-> Hl]|[Hp2 ->]]]; (split; [done|]); [left; split; [done|]; cbn; by rewrite Hl|right].
    rewrite map_app, Hp, Hp2, accepted_app, <- (quit_targets_app pid [entry]). split; [done|]. destruct Ha as [->| ->]; cbn [Z.eqb Pos.eqb]; do 2 f_equal; lia.
  - destruct H as [-> ->]. cbn. rewrite !app_nil_r. split; [done|]. right. split; [done|]. destruct Ha as [->| ->]; cbn [Z.eqb Pos.eqb]; do 2 f_equal; lia.
Qed.

(** WM_QUIT goes to every thread of the snapshot that belongs to the process and
    to no other, once each; the result counts the posts that were accepted; and the
    snapshot is closed once on every path. The loop ends with the snapshot. *)
Theorem quit_asks_owned_threads fuel pid log r : runs (post_wm_quit_to_process fuel pid) log r ->
  (guards log = [] \/ exists h, guards log = [(Some h, true); (Some h, false)])
  /\ ((length (threads log) <= fuel)%nat -> r <> Ok None)
  /\ (forall n, r = Ok (Some n) -> map fst (posts log) = quit_targets pid (threads log) /\ n = accepted (posts log)).
Proof.
  intros H. unfold post_wm_quit_to_process, guarded, pfinally in H.
  apply runs_bind in H as [(e & -> & H)|(l1 & l2 & h & -> & H1 & H)].
  { destruct H as (z & l & -> & H). destruct z; destruct H as [-> [=]]. cbn. split; [by left|]. by split. }
  destruct H1 as (z & l & -> & H1). destruct z; destruct H1 as [-> [=]]. subst.
  apply runs_then in H as (l3 & l4 & b & -> & H & (y & l & -> & -> & ->)).
  destruct H as (x & l & -> & H). destruct x as [entry|e]; sequences; rewrite ?app_nil_r.
  - apply quit_threads_runs in H as [Hg [[-> Hl]|[Hp ->]]]; rewrite Hg; (split; [right; by eexists|]).
    + split; [|by intros]. cbn. rewrite Hl. lia.
    + split; [done|]. intros n [= <-]. split; [done|lia].
  - destruct H as [-> ->]. cbn. split; [right; by eexists|]. split; [done|]. by intros n [= <-].
Qed.

(** ** The console *)

(** What is known of the console, before each call. *)
Definition console_step (ready : bool) (e : DeskEvent) : bool :=
  match e with
  | Ev c x => match c in DeskE X return result Fail X -> bool with
              | ConsoleReadyGet => fun x => match x with Ok b => b | Err _ => ready end
              | AllocConsole => fun x => match x with Ok _ => true | Err (Os code _) => code =? ERROR_ACCESS_DENIED | Err _ => ready end
              | _ => fun _ => ready end x
  end.
Definition console_ok (ready : bool) (e : DeskEvent) : Prop :=
  match e with
  | Ev c _ => match c with
              | ConsoleReadySet | GenerateConsoleCtrlEvent _ _ => ready = true
              | AllocConsole => ready = false
              | _ => True end
  end.
Definition break_event (e : DeskEvent) : option (Z * Z * bool) :=
  match e with
  | Ev c x => match c in DeskE X return result Fail X -> option (Z * Z * bool) with
              | GenerateConsoleCtrlEvent event g => fun x => Some (event, g, match x with Ok _ => true | Err _ => false end)
              | _ => fun _ => None end x
  end.
(** A console event is sent only once the process has a console, a console is
    allocated only when it is not known to have one, and the only event is one
    CTRL+BREAK to the process group that was named; success means it was sent. *)
Theorem break_needs_console group log r : runs (send_ctrl_break group) log r ->
  obeys console_step console_ok false log
  /\ (omap break_event log = [] \/ exists sent, omap break_event log = [(CTRL_BREAK_EVENT, group, sent)])
  /\ (r = Ok tt -> omap break_event log = [(CTRL_BREAK_EVENT, group, true)]).
Proof.
  intros H. unfold send_ctrl_break, ensure_console in H.
  run_all H; cbn; rewrite ?Heqb0; try discriminate; (split; [by repeat split|]); (split; [eauto|]); try discriminate.
  all: by destruct x0.
Qed.

(** ** Elevation *)

Definition elevation_event (e : DeskEvent) : option Z :=
  match e with
  | Ev c x => match c in DeskE X return result Fail X -> option Z with
              | GetTokenElevation _ => fun x => match x with Ok info => Some info | Err _ => None end
              | _ => fun _ => None end x
  end.
(** The token is closed once on every path that opened it, and the process is
    taken for elevated only on the system's word. *)
Theorem elevation_is_reported log r : runs is_elevated log r ->
  (guards log = [] \/ exists h, guards log = [(Some h, true); (Some h, false)])
  /\ r = Ok (existsb (fun info => negb (info =? 0)) (omap elevation_event log)).
Proof.
  intros H. unfold is_elevated in H. run_all H; cbn; (split; [eauto|]); [|done].
  destruct x0; cbn; by rewrite ?orb_false_r.
Qed.

(** ** A sample desktop *)

Section Desktop.
(** Two processes with two windows and two threads each; the threads left. *)
Definition sample_owner (w : Z) : Z := if w <? 20 then 100 else 200.
Definition sample_threads : list THREADENTRY32 := map (fun t => {| th32ThreadID := t; th32OwnerProcessID := sample_owner t |}) [11; 21; 12; 22].
Definition sample_desktop (X : Type) (e : DeskE X) (left : list THREADENTRY32) : result Fail X * list THREADENTRY32 :=
  match e in DeskE X return result Fail X * list THREADENTRY32 with
  | EnumWindows => (Ok [10; 20; 11], left)
  | GetWindowThreadProcessId w => (Ok (sample_owner w), left)
  | PostMessage w _ => (if w =? 11 then Err (Os 5 &"denied") else Ok tt, left)
  | ThreadSnapshot => (Ok 7, sample_threads)
  | Thread32First _ | Thread32Next _ => match left with t :: l => (Ok t, l) | [] => (Err (Os 18 &"end"), []) end
  | ConsoleReadyGet => (Ok false, left)
  | AllocConsole => (Err (Os 5 &"denied"), left)
  | OpenProcessToken _ => (Ok 3, left)
  | GetTokenElevation _ => (Ok 1, left)
  | CurrentExe => (Ok &"C:\ngsm.exe", left)
  | ShellExecute _ _ _ => (Ok 42, left)
  | _ => (Ok tt, left)
  end.
End Desktop.
Definition sample_close := interp sample_desktop (post_wm_close_to_process 100) [].
Definition sample_quit := interp sample_desktop (post_wm_quit_to_process 9 200) [].
Definition sample_break := interp sample_desktop (send_ctrl_break 100) [].

Lemma close_asks_owned_windows_witness :
  sample_close.1.1 = Ok 1 /\ map fst (posts sample_close.1.2) = [(10, WM_CLOSE); (11, WM_CLOSE)].
Proof.
  destruct (close_asks_owned_windows 100 sample_close.1.2 sample_close.1.1 (interp_runs _ _ _)) as (Hp & _ & Hn).
  split; [vm_compute; reflexivity|]. rewrite Hp. vm_compute. reflexivity.
Defined.
Lemma quit_asks_owned_threads_witness :
  sample_quit.1.1 = Ok (Some 2) /\ map fst (posts sample_quit.1.2) = [(21, WM_QUIT); (22, WM_QUIT)].
Proof.
  destruct (quit_asks_owned_threads 9 200 sample_quit.1.2 sample_quit.1.1 (interp_runs _ _ _)) as (_ & _ & Hn).
  assert (sample_quit.1.1 = Ok (Some 2)) as E by (vm_compute; reflexivity). split; [exact E|].
  destruct (Hn _ E) as [-> _]. vm_compute. reflexivity.
Defined.
Lemma break_needs_console_witness : omap break_event sample_break.1.2 = [(CTRL_BREAK_EVENT, 100, true)].
Proof. apply (break_needs_console 100 sample_break.1.2 sample_break.1.1 (interp_runs _ _ _)). vm_compute. reflexivity. Defined.
