(* ===== verification/Secured.v ===== *)
(** * Objects with a security descriptor of their own: servicemanager-broker
      [pipe.rs], servicemanager-registry [config_lock.rs],
      servicemanager-supervisor [event_log.rs]

    The pipe of the broker and the two named mutexes, as programs of their system
    calls: how the object is created with its descriptor, and who closes what. The
    names of the mutexes are those of [RegValues] and [EventLog]; what the broker
    does on a connection is [BrokerPipe]. *)

From Stdlib Require Import ZArith Lia List.
From S2P Require Import Prelude Text Model Effects Monitor ProcessTree BrokerPipe Scm.

(** ** Calls *)

Inductive SecE : Type -> Type :=
| ConvertDescriptor (sddl : list Z) : SecE Z          (* the allocation *)
| LocalFree (descriptor : Z) : SecE unit
| CreateMutexEx (descriptor : Z) (inherit : bool) (name : list Z) (access : Z) : SecE Z
| CreateNamedPipe (descriptor : Z) (inherit : bool) (name : list Z) (open_mode pipe_mode instances out_buffer in_buffer : Z) : SecE Z
| WaitFor (h ms : Z) : SecE Z
| ReleaseMutex (h : Z) : SecE unit
| CloseObject (h : Z) : SecE unit
| ConnectNamedPipe (h : Z) : SecE unit
| DisconnectNamedPipe (h : Z) : SecE unit
| CancelIoEx (h : Z) : SecE unit
| DuplicatePipe (h : Z) : SecE Z
| SpawnWatchdog (h : Z) : SecE unit                   (* the thread owns [h] *)
| WatchDone : SecE unit                               (* [done] is set and the thread notified *)
| JoinWatchdog : SecE bool                            (* [false]: it panicked *)
| LastFail : SecE (Z * rstr)                          (* the last error, with its text *)
| SecStderr (text : rstr) : SecE unit.
Abbreviation SecProg A := (Prog SecE Fail A) (only parsing).
Abbreviation SecEvent := (Event SecE Fail) (only parsing).

Definition ERROR_NO_DATA : Z := 232.
Definition ERROR_PIPE_NOT_CONNECTED : Z := 233.
Definition ERROR_PIPE_CONNECTED : Z := 535.
Definition ERROR_NOT_FOUND : Z := 1168.
Definition WAIT_ABANDONED : Z := 128.
Definition MUTEX_ACCESS : Z := 0x00100001.   (* SYNCHRONIZE | MUTEX_MODIFY_STATE *)
Definition PIPE_ACCESS_DUPLEX : Z := 3.
Definition FILE_FLAG_FIRST_PIPE_INSTANCE : Z := 0x00080000.
Definition PIPE_BUFFER : Z := 64 * 1024.     (* IN_BUFFER and OUT_BUFFER *)
Definition INVALID_HANDLE_VALUE : Z := -1.

Definition quietly {A} (e : SecE unit) (k : SecProg A) : SecProg A := pthen (perform e) (fun _ => k).
Definition fail_with {A} (f : Fail) : SecProg A := PRet (Err f).
Definition registry_of (context : rstr) (f : Fail) : Fail :=
  match f with Os _ text => Msg (Registry (context ++ &": " ++ text)) | Msg e => Msg e end.
Definition text_of (f : Fail) : rstr := match f with Os _ text => text | Msg e => error_to_string e end.

(** A descriptor converted from [sddl], for one creation; it is freed at once. *)
Definition with_descriptor (on_error : Fail -> Fail) (sddl : rstr) (create : Z -> SecE Z) : SecProg (result Fail Z) :=
  let@ descriptor := pmap_err on_error (perform (ConvertDescriptor (to_wide sddl))) in
  pthen (perform (create descriptor)) (fun created => quietly (LocalFree descriptor) (PRet (Ok created))).

(** ** config_lock.rs *)

Record ServiceConfigGuard := { cg_handle : Z; cg_abandoned : bool }.

Definition CONFIG_SDDL : rstr := &"D:P(A;;0x00100001;;;SY)(A;;0x00100001;;;BA)(A;;0x00100001;;;OW)".
Definition lock_with_timeout (name : result Error (list Z)) (timeout_ms : Z) : SecProg ServiceConfigGuard :=
  let@ name := plift (map_err Msg name) in
  let@ created := with_descriptor (registry_of &"configuration-lock ACL") CONFIG_SDDL (fun d => CreateMutexEx d false name MUTEX_ACCESS) in
  match created with
  | Err e => fail_with (registry_of &"configuration lock" e)
  | Ok handle =>
      pthen (perform (WaitFor handle (Z.min timeout_ms (u32_max - 1)))) (fun wait =>
        match wait with
        | Ok wait =>
            if (wait =? WAIT_OBJECT_0) || (wait =? WAIT_ABANDONED)
            then PRet (Ok {| cg_handle := handle; cg_abandoned := wait =? WAIT_ABANDONED |})
            else if wait =? WAIT_TIMEOUT
            then quietly (CloseObject handle) (fail_with (Msg (Registry &"timed out waiting for the service configuration writer lock")))
            else
              pthen (perform LastFail) (fun last =>
                quietly (CloseObject handle)
                  (fail_with (Msg (Registry (&"configuration lock wait: " ++ match last with Ok (_, text) => text | Err f => text_of f end)))))
        | Err f => quietly (CloseObject handle) (fail_with f)
        end)
  end.
Definition lock_service_config (name : result Error (list Z)) : SecProg ServiceConfigGuard := lock_with_timeout name 5000.
Definition drop_config_guard (g : ServiceConfigGuard) : SecProg unit :=
  quietly (ReleaseMutex (cg_handle g)) (quietly (CloseObject (cg_handle g)) (PRet (Ok tt))).

(** ** event_log.rs *)

Definition EVENT_MUTEX_SDDL : rstr :=
  &"D:P(A;;0x00100001;;;SY)(A;;0x00100001;;;BA)(A;;0x00100001;;;SU)(A;;0x00100001;;;OW)".
(** [from_raw_os_error(code & 0xffff)] *)
Definition raw_os (f : Fail) : Fail := match f with Os code text => Os (Z.land code 65535) text | Msg e => Msg e end.
Definition io_other (f : Fail) : Fail := match f with Os _ text => Msg (Io (mk_io_error KOther text)) | Msg e => Msg e end.

Definition create_event_mutex (name : result Fail (list Z)) (descriptor : rstr) (access : Z) : SecProg Z :=
  let@ name := plift name in
  let@ result := with_descriptor io_other descriptor (fun d => CreateMutexEx d false name access) in
  plift (map_err raw_os result).
Definition acquire (name : result Fail (list Z)) (timeout_ms : Z) : SecProg Z :=
  let@ handle := create_event_mutex name EVENT_MUTEX_SDDL MUTEX_ACCESS in
  pthen (perform (WaitFor handle timeout_ms)) (fun r =>
    match r with
    | Ok r =>
        if (r =? WAIT_OBJECT_0) || (r =? WAIT_ABANDONED) then PRet (Ok handle)
        else if r =? WAIT_TIMEOUT then quietly (CloseObject handle) (fail_with (Msg (Io (mk_io_error KTimedOut &"event log mutex timed out"))))
        else pthen (perform LastFail) (fun last =>
               quietly (CloseObject handle) (fail_with (match last with Ok (code, text) => Os code text | Err f => f end)))
    | Err f => quietly (CloseObject handle) (fail_with f)
    end).
Definition drop_event_lock (h : Z) : SecProg unit := quietly (ReleaseMutex h) (quietly (CloseObject h) (PRet (Ok tt))).

(** ** pipe.rs: instances *)

(** An answer of [INVALID_HANDLE_VALUE] is a failure. *)
Definition create_pipe_instance (pipe_name sddl : rstr) (first : bool) : SecProg Z :=
  let open_mode := if first then Z.lor PIPE_ACCESS_DUPLEX FILE_FLAG_FIRST_PIPE_INSTANCE else PIPE_ACCESS_DUPLEX in
  let@ created := with_descriptor (other_of &"ConvertStringSecurityDescriptor") sddl
                    (fun d => CreateNamedPipe d false (to_wide pipe_name) open_mode 0 MAX_PIPE_INSTANCES PIPE_BUFFER PIPE_BUFFER) in
  match created with
  | Ok handle =>
      if negb (handle =? INVALID_HANDLE_VALUE) then PRet (Ok handle)
      else
        let@ (err, _) := perform LastFail in
        fail_with (Msg (error_other (
          if first
          then &"CreateNamedPipe(" ++ pipe_name ++ &") failed (WIN32_ERROR " ++ to_dec err
               ++ &") — the pipe name may already be held by another process; refusing to start"
          else &"CreateNamedPipe(" ++ pipe_name ++ &") returned an invalid handle (WIN32_ERROR " ++ to_dec err ++ &")")))
  | Err f => fail_with f
  end.

Definition connect_pipe (handle : Z) : SecProg unit :=
  pthen (perform (ConnectNamedPipe handle)) (fun result =>
    match result with
    | Ok _ => PRet (Ok tt)
    | Err (Os code text) => if code =? ERROR_PIPE_CONNECTED then PRet (Ok tt) else fail_with (Msg (error_other (&"ConnectNamedPipe: " ++ text)))
    | Err f => fail_with f
    end).

Definition disconnect_pipe (handle : Z) : SecProg unit :=
  pthen (perform (DisconnectNamedPipe handle)) (fun r =>
    match r with
    | Err (Os code text) =>
        if (code =? ERROR_PIPE_NOT_CONNECTED) || (code =? ERROR_NO_DATA) then PRet (Ok tt)
        else quietly (SecStderr (&"[broker] DisconnectNamedPipe failed: " ++ text)) (PRet (Ok tt))
    | Err f => quietly (SecStderr (&"[broker] DisconnectNamedPipe failed: " ++ text_of f)) (PRet (Ok tt))
    | Ok _ => PRet (Ok tt)
    end).

(** ** pipe.rs: connections *)

Definition duplicate_pipe_handle (source : Z) : SecProg Z := pmap_err (other_of &"DuplicateHandle") (perform (DuplicatePipe source)).

(** [Connection::new]: it owns the pipe, and drops it when it fails; a thread that
    cannot be started drops what it would have owned. *)
Definition connection_new (pipe : Z) : SecProg Z :=
  pthen (duplicate_pipe_handle pipe) (fun r =>
    match r with
    | Err e => quietly (CloseObject pipe) (fail_with e)
    | Ok handle =>
        pthen (perform (SpawnWatchdog handle)) (fun r =>
          match r with
          | Ok _ => PRet (Ok pipe)
          | Err e => quietly (CloseObject handle) (quietly (CloseObject pipe) (fail_with (other_of &"start pipe watchdog" e)))
          end)
    end).

(** What [connection_watchdog] does at the verdict of a round ([BrokerPipe]), with
    the handle it owns: whether it goes on waiting. *)
Definition watchdog_acts (handle : Z) (v : Verdict) : SecProg bool :=
  match v with
  | WatchWaits => PRet (Ok true)
  | WatchEnds => quietly (CloseObject handle) (PRet (Ok false))
  | WatchCancels =>
      pthen (perform (CancelIoEx handle)) (fun r =>
        (match r with
         | Err (Os code text) =>
             if code =? ERROR_NOT_FOUND then PRet (Ok tt)
             else quietly (SecStderr (&"[broker] cancelling timed-out pipe I/O failed: " ++ text)) (PRet (Ok tt))
         | Err f => quietly (SecStderr (&"[broker] cancelling timed-out pipe I/O failed: " ++ text_of f)) (PRet (Ok tt))
         | Ok _ => PRet (Ok tt)
         end) ;@
        disconnect_pipe handle ;@
        quietly (CloseObject handle) (PRet (Ok false)))
  end.

(** The drop of a connection, and of its file after it. *)
Definition connection_drop (pipe : Z) : SecProg unit :=
  quietly WatchDone (
    disconnect_pipe pipe ;@
    pthen (perform JoinWatchdog) (fun joined =>
      match joined with
      | Ok true => PRet (Ok tt)
      | _ => quietly (SecStderr &"[broker] pipe watchdog panicked") (PRet (Ok tt))
      end) ;@
    quietly (CloseObject pipe) (PRet (Ok tt))).

(** ** pipe.rs: the thread that ends an idle broker *)

Inductive IdleE : Type -> Type :=
| IdleSleep (ms : Z) : IdleE unit
| ClaimIdle (timeout_secs : Z) : IdleE bool      (* [claim_idle_shutdown] at this instant *)
| ExitProcess (code : Z) : IdleE unit
| SpawnIdleThread : IdleE unit.
Abbreviation IdleProg A := (Prog IdleE Fail A) (only parsing).
Abbreviation IdleEvent := (Event IdleE Fail) (only parsing).

Definition exit_if_idle (timeout_secs : Z) : IdleProg bool :=
  let@ claimed := perform (ClaimIdle timeout_secs) in
  if claimed : bool then perform (ExitProcess 0) ;@ PRet (Ok true) else PRet (Ok false).
(** The thread; [false] only when [turns] run out. *)
Fixpoint idle_watchdog (turns : nat) (timeout_secs : Z) : IdleProg bool :=
  match turns with
  | O => PRet (Ok false)
  | S turns =>
      perform (IdleSleep 5000) ;@
      let@ exited := exit_if_idle timeout_secs in
      if exited : bool then PRet (Ok true) else idle_watchdog turns timeout_secs
  end.
Definition spawn_idle_watchdog (timeout_secs : Z) : IdleProg unit :=
  if timeout_secs =? 0 then PRet (Ok tt)
  else pmap_err (other_of &"start broker idle watchdog") (perform SpawnIdleThread).

Definition claim_event (e : IdleEvent) : option bool :=
  match e with
  | Ev c x => match c in IdleE X return result Fail X -> option bool with
              | ClaimIdle _ => fun x => match x with Ok b => Some b | Err _ => None end
              | _ => fun _ => None end x
  end.
Definition exit_event (e : IdleEvent) : option Z :=
  match e with Ev c _ => match c with ExitProcess code => Some code | _ => None end end.

(** The process ends at the first check that is granted, with code 0, and at no
    other; the checks before it were all refused. *)
Lemma idle_watchdog_runs turns secs : forall log r, runs (idle_watchdog turns secs) log r ->
  exists n, (omap claim_event log = repeat false n /\ omap exit_event log = [] /\ r <> Ok true)
            \/ (omap claim_event log = repeat false n ++ [true] /\ omap exit_event log = [0] /\ r <> Ok false).
Proof.
  induction turns as [|turns IH]; intros log r H; cbn [idle_watchdog] in H.
  - destruct H as [-> ->]. exists 0%nat. by left.
  - destruct H as (x & l & -> & H). destruct x as [[]|e]; [|destruct H as [-> ->]; exists 0%nat; by left].
    destruct H as (x & l' & -> & H). destruct x as [[]|e]; cbn in H; [| |destruct H as [-> ->]; exists 0%nat; by left].
    + destruct H as (x & l & -> & H). exists 0%nat. right. destruct x as [[]|e]; cbn in H; by destruct H as [-> ->].
    + apply IH in H as (n & [(Hc & He & Hr)|(Hc & He & Hr)]); exists (S n); cbn; rewrite Hc, He; [by left|by right].
Qed.

(** ** What is owned *)

Inductive Res := Descriptor (p : Z) (sddl : list Z) | Handle (h : Z) | Mutex (h : Z).

(** The first resource that [ended] is removed. *)
Fixpoint without (ended : Res -> bool) (l : list Res) : list Res :=
  match l with [] => [] | x :: l => if ended x then l else x :: without ended l end.
Definition is_descriptor (p : Z) (x : Res) : bool := match x with Descriptor q _ => q =? p | _ => false end.
Definition is_handle (h : Z) (x : Res) : bool := match x with Handle k => k =? h | _ => false end.
Definition is_mutex (h : Z) (x : Res) : bool := match x with Mutex k => k =? h | _ => false end.

Definition own (t : list Res) (e : SecEvent) : list Res :=
  match e with
  | Ev c x =>
      match c in SecE X return result Fail X -> list Res with
      | ConvertDescriptor sddl => fun x => match x with Ok p => Descriptor p sddl :: t | Err _ => t end
      | LocalFree p => fun _ => without (is_descriptor p) t
      | CreateMutexEx _ _ _ _ | DuplicatePipe _ => fun x => match x with Ok h => Handle h :: t | Err _ => t end
      | CreateNamedPipe _ _ _ _ _ _ _ _ => fun x => match x with Ok h => if h =? INVALID_HANDLE_VALUE then t else Handle h :: t | Err _ => t end
      | WaitFor h _ => fun x => match x with Ok w => if (w =? WAIT_OBJECT_0) || (w =? WAIT_ABANDONED) then Mutex h :: t else t | Err _ => t end
      | ReleaseMutex h => fun _ => without (is_mutex h) t
      | CloseObject h => fun _ => without (is_handle h) t
      | SpawnWatchdog h => fun x => match x with Ok _ => without (is_handle h) t | Err _ => t end
      | _ => fun _ => t
      end x
  end.

(** What may be called: only on what is owned, and an object is created only with
    the live descriptor of [sddl], not inheritable, with [access] and no more. *)
Definition may (sddl : rstr) (access : Z) (t : list Res) (e : SecEvent) : Prop :=
  match e with
  | Ev c _ =>
      match c with
      | LocalFree p => existsb (is_descriptor p) t = true
      | CreateMutexEx d inherit _ a => inherit = false /\ In (Descriptor d (to_wide sddl)) t /\ a = access
      | CreateNamedPipe d inherit _ mode _ instances _ _ =>
          inherit = false /\ In (Descriptor d (to_wide sddl)) t /\ mode = access /\ instances = MAX_PIPE_INSTANCES
      | WaitFor h _ | CloseObject h | ConnectNamedPipe h | DisconnectNamedPipe h | CancelIoEx h | DuplicatePipe h | SpawnWatchdog h =>
          existsb (is_handle h) t = true
      | ReleaseMutex h => existsb (is_mutex h) t = true
      | _ => True
      end
  end.

(** [p] turns [had] into [has] of its result, or into [lost] when it fails, leaves
    the rest alone, and calls only what it may. *)
Definition takes {A} (sddl : rstr) (access : Z) (had : list Res) (p : SecProg A) (has : A -> list Res) (lost : list Res) : Prop :=
  forall t log r, runs p log r ->
  obeys own (may sddl access) (had ++ t) log
  /\ watch own (had ++ t) log = match r with Ok a => has a | Err _ => lost end ++ t.

Lemma takes_bind {A B} sddl access had (p : SecProg A) (k : A -> SecProg B) mid has lost :
  takes sddl access had p mid lost -> (forall a, takes sddl access (mid a) (k a) has lost) -> takes sddl access had (pbind p k) has lost.
Proof.
  intros Hp Hk t log r H. apply runs_bind in H as [(e & -> & H)|(l1 & l2 & a & -> & H1 & H)]; [exact (Hp t log (Err e) H)|].
  destruct (Hp t l1 (Ok a) H1) as [O1 W1]. destruct (Hk a t l2 r H) as [O2 W2]. rewrite obeys_app, watch_app, W1. done.
Qed.
Lemma takes_then {A B} sddl access had (e : SecE A) (k : result Fail A -> SecProg B) mid has lost :
  (forall t x, may sddl access (had ++ t) (Ev e x) /\ own (had ++ t) (Ev e x) = mid x ++ t) ->
  (forall x, takes sddl access (mid x) (k x) has lost) -> takes sddl access had (pthen (perform e) k) has lost.
Proof.
  intros He Hk t log r (x & l & -> & H). destruct (He t x) as [M O]. destruct (Hk x t l r H) as [O2 W2].
  cbn [obeys watch fold_left]. by rewrite O.
Qed.
(** A program that returns. *)
Ltac takes_ret := let H := fresh in intros ? ? ? H; by destruct H as [-> ->].

(** The rest of a program is run to its end. *)
Ltac own_all H :=
  run_all H; repeat match goal with E : map_err _ ?x = _ |- _ => destruct x; cbn in E; simplify_eq end;
  cbn -[Z.eqb to_wide]; unfold is_handle, is_descriptor, is_mutex in *; rewrite ?Z.eqb_refl; cbn -[Z.eqb to_wide];
  repeat match goal with E : _ = true |- _ => rewrite !E | E : _ = false |- _ => rewrite !E end; cbn -[Z.eqb to_wide];
  rewrite ?Z.eqb_refl; cbn -[Z.eqb to_wide]; rewrite ?Z.eqb_refl; try done.

Section Ownership.
Implicit Types (sddl : rstr) (access : Z).

(** The descriptor lives for the one creation. *)
Lemma with_descriptor_runs f sddl (create : Z -> SecE Z) log r : runs (with_descriptor f sddl create) log r ->
  (exists e, log = [Ev (ConvertDescriptor (to_wide sddl)) (Err e)] /\ r = Err (f e))
  \/ exists d x y, log = [Ev (ConvertDescriptor (to_wide sddl)) (Ok d); Ev (create d) x; Ev (LocalFree d) y] /\ r = Ok x.
Proof.
  intros H. unfold with_descriptor, quietly in H. apply runs_bind in H as [(e & -> & (x & l & -> & H))|(l1 & l2 & d & -> & (x & l & -> & H1) & H)].
  - destruct x as [|e']; destruct H as [-> [=]]; subst. left. by exists e'.
  - destruct x as [d'|]; destruct H1 as [-> [=]]; subst. destruct H as (x & l & -> & (y & l' & -> & -> & ->)). right. by exists d', x, y.
Qed.
Definition handle_of (r : result Fail Z) : list Res := match r with Ok h => [Handle h] | Err _ => [] end.
Lemma mutex_takes f sddl name access : takes sddl access [] (with_descriptor f sddl (fun d => CreateMutexEx d false name access)) handle_of [].
Proof.
  intros t log r [(e & -> & ->)|(d & x & y & -> & ->)]%with_descriptor_runs; [done|].
  destruct x; cbn -[Z.eqb to_wide]; rewrite Z.eqb_refl; (split; [|done]); repeat split; by left.
Qed.
Definition instance_of (r : result Fail Z) : list Res := match r with Ok h => if h =? INVALID_HANDLE_VALUE then [] else [Handle h] | Err _ => [] end.
Lemma pipe_takes f sddl name mode :
  takes sddl mode [] (with_descriptor f sddl (fun d => CreateNamedPipe d false name mode 0 MAX_PIPE_INSTANCES PIPE_BUFFER PIPE_BUFFER)) instance_of [].
Proof.
  intros t log r [(e & -> & ->)|(d & x & y & -> & ->)]%with_descriptor_runs; [done|].
  destruct x as [h|]; cbn -[Z.eqb to_wide]; [destruct (h =? INVALID_HANDLE_VALUE)|]; cbn -[Z.eqb to_wide]; rewrite Z.eqb_refl;
    (split; [|done]); repeat split; by left.
Qed.

Lemma config_lock_takes name ms :
  takes CONFIG_SDDL MUTEX_ACCESS [] (lock_with_timeout name ms) (fun g => [Mutex (cg_handle g); Handle (cg_handle g)]) [].
Proof.
  unfold lock_with_timeout. apply (takes_bind _ _ _ _ _ (fun _ => [])); [destruct name; takes_ret|]. intros wide.
  apply (takes_bind _ _ _ _ _ handle_of); [apply mutex_takes|]. intros [h|e]; intros t log r H; unfold quietly, fail_with in H; own_all H.
Qed.
Lemma event_lock_takes name ms :
  takes EVENT_MUTEX_SDDL MUTEX_ACCESS [] (acquire name ms) (fun h => [Mutex h; Handle h]) [].
Proof.
  unfold acquire, create_event_mutex. apply (takes_bind _ _ _ _ _ (fun h => [Handle h])).
  - apply (takes_bind _ _ _ _ _ (fun _ => [])); [destruct name; takes_ret|]. intros wide.
    apply (takes_bind _ _ _ _ _ handle_of); [apply mutex_takes|]. intros [h|e]; takes_ret.
  - intros h t log r H; unfold quietly, fail_with in H; own_all H.
Qed.
Lemma instance_takes name sddl (first : bool) :
  takes sddl (if first then Z.lor PIPE_ACCESS_DUPLEX FILE_FLAG_FIRST_PIPE_INSTANCE else PIPE_ACCESS_DUPLEX) []
    (create_pipe_instance name sddl first) (fun h => [Handle h]) [].
Proof.
  unfold create_pipe_instance. apply (takes_bind _ _ _ _ _ instance_of); [apply pipe_takes|].
  intros [h|e]; cbn [instance_of]; intros t log r H; unfold fail_with in H; [destruct (h =? INVALID_HANDLE_VALUE); cbn [negb] in H|]; own_all H.
Qed.
Lemma drops_take sddl access g h :
  takes sddl access [Mutex (cg_handle g); Handle (cg_handle g)] (drop_config_guard g) (fun _ => []) []
  /\ takes sddl access [Mutex h; Handle h] (drop_event_lock h) (fun _ => []) [].
Proof. split; intros t log r H; unfold drop_config_guard, drop_event_lock, quietly in H; own_all H. Qed.

(** It never fails. *)
Lemma disconnect_takes sddl access h lost : takes sddl access [Handle h] (disconnect_pipe h) (fun _ => [Handle h]) lost.
Proof. intros t log r H; unfold disconnect_pipe, quietly in H; own_all H. Qed.
Lemma connection_takes sddl access h :
  takes sddl access [Handle h] (connect_pipe h) (fun _ => [Handle h]) [Handle h]
  /\ takes sddl access [Handle h] (connection_new h) (fun c => [Handle c]) [].
Proof. split; intros t log r H; unfold connect_pipe, connection_new, duplicate_pipe_handle, quietly, fail_with in H; own_all H. Qed.
Lemma closing_takes {A} sddl access h (k : SecProg A) has lost :
  takes sddl access [] k has lost -> takes sddl access [Handle h] (quietly (CloseObject h) k) has lost.
Proof.
  intros Hk. apply (takes_then _ _ _ _ _ (fun _ => [])); [|done]. intros t x. cbn -[Z.eqb]. unfold is_handle. by rewrite Z.eqb_refl.
Qed.
Lemma watchdog_takes sddl access h v :
  takes sddl access [Handle h] (watchdog_acts h v) (fun on => if on : bool then [Handle h] else []) [].
Proof.
  destruct v; [apply closing_takes; takes_ret| |takes_ret]. cbn [watchdog_acts].
  apply (takes_then _ _ _ _ _ (fun _ => [Handle h])); [intros t x; cbn -[Z.eqb]; unfold is_handle; by rewrite Z.eqb_refl|]. intros x.
  apply (takes_bind _ _ _ _ _ (fun _ => [Handle h])); [intros t log r H; unfold quietly in H; own_all H|]. intros _.
  apply (takes_bind _ _ _ _ _ (fun _ => [Handle h])); [apply disconnect_takes|]. intros _. apply closing_takes. takes_ret.
Qed.
Lemma connection_drop_takes sddl access h : takes sddl access [Handle h] (connection_drop h) (fun _ => []) [].
Proof.
  apply (takes_then _ _ _ _ _ (fun _ => [Handle h])); [done|]. intros _.
  apply (takes_bind _ _ _ _ _ (fun _ => [Handle h])); [apply disconnect_takes|]. intros _.
  apply (takes_bind _ _ _ _ _ (fun _ => [Handle h])); [intros t log r H; unfold quietly in H; own_all H|]. intros _.
  apply closing_takes. takes_ret.
Qed.
End Ownership.

(** ** Nothing is left, and nothing is opened to others *)

(** The named mutexes and the pipe of the broker are created with exactly the
    descriptor the code writes down, live at that moment, not inheritable, and with
    no more access than is needed; the descriptor is freed once, right after. Every
    handle is closed exactly once by whoever owns it then - by the guard of a lock,
    after its mutex was released; by the caller that was given the instance; by the
    connection and by its watchdog, each its own - on every path, failures
    included; a mutex is released only by the one who acquired it; and no call is
    made on a handle that is not owned. *)
Theorem secured_objects_accounted :
  (forall name, takes CONFIG_SDDL MUTEX_ACCESS [] (lock_service_config name) (fun g => [Mutex (cg_handle g); Handle (cg_handle g)]) [])
  /\ (forall name ms, takes EVENT_MUTEX_SDDL MUTEX_ACCESS [] (acquire name ms) (fun h => [Mutex h; Handle h]) [])
  /\ (forall s a g h, takes s a [Mutex (cg_handle g); Handle (cg_handle g)] (drop_config_guard g) (fun _ => []) []
                      /\ takes s a [Mutex h; Handle h] (drop_event_lock h) (fun _ => []) [])
  /\ (forall name sddl first,
        takes sddl (if first : bool then Z.lor PIPE_ACCESS_DUPLEX FILE_FLAG_FIRST_PIPE_INSTANCE else PIPE_ACCESS_DUPLEX) []
          (create_pipe_instance name sddl first) (fun h => [Handle h]) [])
  /\ (forall s a h, takes s a [Handle h] (connect_pipe h) (fun _ => [Handle h]) [Handle h]
                    /\ takes s a [Handle h] (connection_new h) (fun c => [Handle c]) []
                    /\ takes s a [Handle h] (connection_drop h) (fun _ => []) []
                    /\ forall v, takes s a [Handle h] (watchdog_acts h v) (fun on => if on : bool then [Handle h] else []) []).
Proof.
  split; [intros name; apply config_lock_takes|]. split; [apply event_lock_takes|]. split; [apply drops_take|].
  split; [apply instance_takes|]. intros s a h. destruct (connection_takes s a h). split; [done|]. split; [done|].
  split; [apply connection_drop_takes|apply watchdog_takes].
Qed.
