(* ===== verification/Signals.v ===== *)
(** * The supervisor's signal handles: servicemanager-supervisor [lib.rs]

    [StopSignal], [RotateSignal], [PowerEventSignal], [PauseContinueSignal] and
    [TerminalGate]: what other threads hold of a supervisor. They share with it
    the flag of a requested stop, its inbox, the transitions of the requests and the
    two flags of the terminal handoff. Each access to what is shared is one step;
    any number of callers interleave with the supervisor. *)

From Stdlib Require Import ZArith Lia List.
From S2P Require Import Prelude Text Supervisor Transition.

(** [tx] and [rx], the two [Arc]s of flags, and the transitions by their request. *)
Record Link := {
  requested : bool;
  inbox : list SupervisorMessage;
  receiving : bool;
  transitions : gmap Z TState;
  gate_ready : bool;
  gate_released : bool }.

Definition link_new : Link := {|
  requested := false; inbox := []; receiving := true; transitions := ∅; gate_ready := false; gate_released := false |}.

Definition with_requested (b : bool) (l : Link) : Link :=
  Build_Link b (inbox l) (receiving l) (transitions l) (gate_ready l) (gate_released l).
Definition with_inbox (q : list SupervisorMessage) (l : Link) : Link :=
  Build_Link (requested l) q (receiving l) (transitions l) (gate_ready l) (gate_released l).
Definition with_transitions (t : gmap Z TState) (l : Link) : Link :=
  Build_Link (requested l) (inbox l) (receiving l) t (gate_ready l) (gate_released l).
Definition with_gate (ready released : bool) (l : Link) : Link :=
  Build_Link (requested l) (inbox l) (receiving l) (transitions l) ready released.

(** [tx.send]: whether the supervisor still has its end. *)
Definition send (m : SupervisorMessage) (l : Link) : bool * Link :=
  if receiving l then (true, with_inbox (inbox l ++ [m]) l) else (false, l).
Definition on_transition (id : Z) (f : TState -> TState) (l : Link) : Link :=
  with_transitions (alter f id (transitions l)) l.

(** ** The callers *)

(** Where a call is: [stop], a plain send, [request], and a request that the
    supervisor no longer receives. *)
Inductive Call :=
| CallStop | StopSending
| CallSend (m : SupervisorMessage)
| CallRequest (pause : bool) (id : Z)
| Rejecting (id : Z)
| Returned.

Definition rotate : Call := CallSend MRotate.
Definition power_event (event_type : Z) : Call := CallSend (MPowerEvent event_type).

Definition request_message (pause : bool) (id : Z) : SupervisorMessage := if pause then MPause id else MContinue id.

(** The next access of a call to the shared state. *)
Definition call_step (c : Call) (l : Link) : Call * Link :=
  match c with
  | CallStop => (StopSending, with_requested true l)
  | StopSending => (Returned, (send MStop l).2)
  | CallSend m => (Returned, (send m l).2)
  | CallRequest pause id =>
      let l := with_transitions (<[id := new]> (transitions l)) l in
      let '(sent, l) := send (request_message pause id) l in
      (if sent then Returned else Rejecting id, l)
  | Rejecting id => (Returned, on_transition id (reject &"supervisor is no longer running") l)
  | Returned => (Returned, l)
  end.

Definition is_requested (l : Link) : bool := requested l.
Definition gate_is_ready (l : Link) : bool := gate_ready l.
Definition gate_release (l : Link) : Link := with_gate (gate_ready l) true l.
(** [Drop for TerminalGate] *)
Definition gate_drop (l : Link) : Link := gate_release l.

(** ** The supervisor *)

Definition settle (m : SupervisorMessage) (f : TState -> TState) (l : Link) : Link :=
  match m with MPause id | MContinue id => on_transition id f l | _ => l end.
(** A message is taken and handled; a request in it is executed with outcome [o]. *)
Definition handle_message (o : TransitionOutcome) (l : Link) : option SupervisorMessage * Link :=
  match inbox l with
  | [] => (None, l)
  | m :: q => (Some m, settle m (fun s => (execute (fun s => (o, s)) s).2) (with_inbox q l))
  end.
(** One turn of the loop at the end of [run]. *)
Definition drain_one (l : Link) : option SupervisorMessage * Link :=
  match inbox l with
  | [] => (None, l)
  | m :: q => (Some m, settle m (reject &"supervisor has stopped") (with_inbox q l))
  end.
Fixpoint drain (n : nat) (l : Link) : Link :=
  match n with
  | O => l
  | S n => match drain_one l with (None, l) => l | (Some _, l) => drain n l end
  end.
Definition drain_requests (l : Link) : Link := drain 1024 l.
(** The supervisor is dropped, and what it did not take with it. *)
Definition close_link (l : Link) : Link :=
  Build_Link (requested l) [] false (transitions l) (gate_ready l) (gate_released l).

(** ** Interleavings *)

Record Threads := { link : Link; calls : list Call; seen : list SupervisorMessage }.

Inductive link_step : Threads -> Threads -> Prop :=
| LCall w i c c' l' : calls w !! i = Some c -> call_step c (link w) = (c', l') ->
    link_step w {| link := l'; calls := <[i := c']> (calls w); seen := seen w |}
| LBegin w c : match c with CallRequest _ id => transitions (link w) !! id = None /\ ~ In id (omap (fun c => match c with CallRequest _ j => Some j | _ => None end) (calls w))
                          | CallStop | CallSend (MRotate | MPowerEvent _ | MChildExited _ | MAutoRotate _ | MReaderFailed _) => True | _ => False end ->
    link_step w {| link := link w; calls := calls w ++ [c]; seen := seen w |}
| LHandle w o m l' : handle_message o (link w) = (Some m, l') -> link_step w {| link := l'; calls := calls w; seen := seen w ++ [m] |}
| LDrain w m l' : drain_one (link w) = (Some m, l') -> link_step w {| link := l'; calls := calls w; seen := seen w ++ [m] |}
| LCancel w id : link_step w {| link := on_transition id (fun s => (cancel s).2) (link w); calls := calls w; seen := seen w |}
| LReady w : link_step w {| link := with_gate true (gate_released (link w)) (link w); calls := calls w; seen := seen w |}
| LRelease w : link_step w {| link := gate_drop (link w); calls := calls w; seen := seen w |}
| LClose w : link_step w {| link := close_link (link w); calls := calls w; seen := seen w |}.

Definition start : Threads := {| link := link_new; calls := []; seen := [] |}.
Definition reachable (w : Threads) : Prop := rtc link_step start w.

(** ** What the callers can rely on *)

Definition open_requests (l : Link) (id : Z) : Prop := In (MPause id) (inbox l) \/ In (MContinue id) (inbox l).
Definition is_queued (s : TState) : bool := match phase s with Queued => true | _ => false end.
Definition settled_or_queued (s : TState) : Prop := phase s = Queued \/ exists o, phase s = Finished o.

(** What no step of a transition undoes. *)
Definition progresses (f : TState -> TState) : Prop :=
  forall s, settled_or_queued s -> settled_or_queued (f s) /\ (phase (f s) = Queued -> phase s = Queued).
Definition settles (f : TState -> TState) : Prop := forall s, settled_or_queued s -> exists o, phase (f s) = Finished o.

Lemma settles_progresses f : settles f -> progresses f.
Proof. intros H s Hs. destruct (H s Hs) as [o Ho]. split; [right; by exists o|]. rewrite Ho. done. Qed.
Lemma execute_settles o : settles (fun s => (execute (fun s => (o, s)) s).2).
Proof. intros [p c] [Hp|[o' Hp]]; cbn in Hp; subst; unfold execute, begin_execute; cbn; eauto. Qed.
Lemma reject_settles m : settles (reject m).
Proof. apply execute_settles. Qed.
Lemma cancel_settles : settles (fun s => (cancel s).2).
Proof. intros [p c] [Hp|[o' Hp]]; cbn in Hp; subst; cbn; eauto. Qed.

(** The transitions are settled or queued, and while the supervisor receives a
    queued one has its message in the inbox. *)
Record in_order (w : Threads) : Prop := {
  io_stop : In MStop (inbox (link w)) \/ In MStop (seen w) \/ In StopSending (calls w) -> requested (link w) = true;
  io_plain : ~ In (CallSend MStop) (calls w);
  io_rejecting : forall id, In (Rejecting id) (calls w) -> receiving (link w) = false;
  io_phase : forall id s, transitions (link w) !! id = Some s -> settled_or_queued s;
  io_queued : forall id s, transitions (link w) !! id = Some s -> phase s = Queued -> receiving (link w) = true -> open_requests (link w) id }.

Lemma alter_transition {f : TState -> TState} {id k} {t : gmap Z TState} {s} : alter f id t !! k = Some s ->
  (exists s0, t !! k = Some s0 /\ s = f s0 /\ id = k) \/ (t !! k = Some s /\ id <> k).
Proof.
  destruct (decide (id = k)) as [->|Hne]; [rewrite lookup_alter_eq|rewrite lookup_alter_ne by done; by right].
  destruct (t !! k) as [s0|]; [|done]. intros [= <-]. left. by exists s0.
Qed.

(** A transition progresses somewhere. *)
Lemma on_transition_in_order id f w cs : progresses f -> in_order w -> (forall c, In c cs -> In c (calls w) \/ c = Returned) ->
  in_order {| link := on_transition id f (link w); calls := cs; seen := seen w |}.
Proof.
  intros Hf [H1 H0 H2 H3 H4] Hc. split; cbn.
  - intros [H|[H|H]]; apply H1; [tauto|tauto|]. apply Hc in H as [H|H]; [tauto|done].
  - intros [H|H]%Hc; [by apply H0|done].
  - intros i H. apply Hc in H as [H|H]; [by eapply H2|done].
  - intros k s [(s0 & Hk & -> & ->)|[Hk _]]%alter_transition; [by apply Hf, (H3 k)|by apply (H3 k)].
  - intros k s [(s0 & Hk & -> & ->)|[Hk _]]%alter_transition Hq Hr; [|by apply (H4 k s)].
    apply (H4 k s0 Hk); [|done]. by apply (Hf s0 (H3 _ _ Hk)).
Qed.

(** A message leaves the inbox with its request settled. *)
Lemma settle_in_order m q f w : settles f -> in_order w -> inbox (link w) = m :: q ->
  in_order {| link := settle m f (with_inbox q (link w)); calls := calls w; seen := seen w ++ [m] |}.
Proof.
  intros Hf [H1 H0 H2 H3 H4] Hq. assert (forall x, In x (inbox (link w)) <-> m = x \/ In x q) as Hin by (rewrite Hq; done).
  assert (requested (settle m f (with_inbox q (link w))) = requested (link w)) as E1 by (by destruct m).
  assert (receiving (settle m f (with_inbox q (link w))) = receiving (link w)) as E2 by (by destruct m).
  assert (inbox (settle m f (with_inbox q (link w))) = q) as E3 by (by destruct m).
  split; cbn [link calls seen]; rewrite ?E1, ?E2; unfold open_requests; rewrite ?E3.
  - intros [H|[[H|[->|[]]]%in_app_iff|H]]; apply H1; rewrite Hin; tauto.
  - exact H0.
  - exact H2.
  - intros k s Hk. destruct m; cbn in Hk; try by apply (H3 k).
    all: apply alter_transition in Hk as [(s0 & Hk & -> & ->)|[Hk _]]; [|by apply (H3 k)]; right; by apply Hf, (H3 k).
  - intros k s Hk Hp Hr. assert (forall s0, transitions (link w) !! k = Some s0 -> s = f s0 -> False) as Hno
      by (intros s0 Hz ->; destruct (Hf s0 (H3 k s0 Hz)) as [o Ho]; congruence).
    assert (transitions (link w) !! k = Some s /\ m <> MPause k /\ m <> MContinue k) as (Hk' & N1 & N2).
    { destruct m; cbn in Hk; try (by repeat split).
      all: apply alter_transition in Hk as [(s0 & Hk & -> & ->)|[Hk Hne]]; [by destruct (Hno s0)|]; repeat split; congruence. }
    destruct (H4 k s Hk' Hp Hr) as [[H|H]%Hin|[H|H]%Hin]; tauto.
Qed.

Lemma in_insert {A} (c x : A) i l : In x (<[i := c]> l) -> In x l \/ x = c.
Proof.
  rewrite <- !list_elem_of_In, !list_elem_of_lookup. intros (j & [(_ & -> & _)|[_ H]]%list_lookup_insert_Some); [by right|]. left. by exists j.
Qed.
Lemma in_inbox m l x : In x (inbox (send m l).2) -> In x (inbox l) \/ x = m.
Proof. unfold send. destruct (receiving l); cbn; [|by left]. intros [H|[H|[]]]%in_app_iff; [by left|by right]. Qed.
Lemma in_inbox_old m l x : In x (inbox l) -> In x (inbox (send m l).2).
Proof. unfold send. destruct (receiving l); cbn; [|done]. intros H. apply in_app_iff. by left. Qed.
Lemma send_frame m l : requested (send m l).2 = requested l /\ receiving (send m l).2 = receiving l /\ transitions (send m l).2 = transitions l
  /\ (send m l).1 = receiving l /\ (receiving l = true -> In m (inbox (send m l).2)).
Proof. unfold send. destruct (receiving l) eqn:E; cbn; rewrite ?E; repeat split; try done. intros _. apply in_app_iff. right. by left. Qed.

(** A message is sent, and the call returns. *)
Lemma send_in_order m w cs : in_order w -> (m = MStop -> requested (link w) = true) -> (forall c, In c cs -> In c (calls w) \/ c = Returned) ->
  in_order {| link := (send m (link w)).2; calls := cs; seen := seen w |}.
Proof.
  intros [H1 H0 H2 H3 H4] Hm Hc. destruct (send_frame m (link w)) as (E1 & E2 & E3 & _). split; cbn [link calls seen]; rewrite ?E1, ?E2, ?E3.
  - intros [[H|<-]%in_inbox|[H|H]]; [apply H1; tauto|by apply Hm|apply H1; tauto|]. apply Hc in H as [H|H]; [apply H1; tauto|done].
  - intros [H|H]%Hc; [by apply H0|done].
  - intros id H. apply Hc in H as [H|H]; [by eapply H2|done].
  - exact H3.
  - intros id s Hs Hp Hr. destruct (H4 id s Hs Hp Hr); [left|right]; by apply in_inbox_old.
Qed.

Lemma call_in_order w i c c' l' : in_order w -> calls w !! i = Some c -> call_step c (link w) = (c', l') ->
  in_order {| link := l'; calls := <[i := c']> (calls w); seen := seen w |}.
Proof.
  intros H Hi E. assert (In c (calls w)) as Hc by (by apply list_elem_of_In, (list_elem_of_lookup_2 _ i)).
  assert (forall x, In x (<[i := Returned]> (calls w)) -> In x (calls w) \/ x = Returned) as Hret by (intros x; apply in_insert).
  destruct c as [| |m|pause id|id|]; cbn in E; try (injection E as <- <-).
  - destruct H as [H1 H0 H2 H3 H4]. split; cbn; [done| | |done|done].
    + intros [H|H]%in_insert; [by apply H0|done].
    + intros k [H|H]%in_insert; [by eapply H2|done].
  - apply send_in_order; [done| |exact Hret]. intros _. apply (io_stop w H). tauto.
  - apply send_in_order; [done| |exact Hret]. intros ->. by destruct (io_plain w H).
  - destruct (send _ _) as [sent l] eqn:Es. injection E as <- <-.
    destruct (send_frame (request_message pause id) (with_transitions (<[id := new]> (transitions (link w))) (link w))) as (E1 & E2 & E3 & E4 & E5).
    pose proof (in_inbox (request_message pause id) (with_transitions (<[id := new]> (transitions (link w))) (link w))) as Hin.
    pose proof (in_inbox_old (request_message pause id) (with_transitions (<[id := new]> (transitions (link w))) (link w))) as Hold.
    rewrite Es in *. cbn [fst snd with_transitions requested receiving transitions inbox] in *. subst sent.
    destruct H as [H1 H0 H2 H3 H4]. split; cbn [link calls seen]; rewrite ?E1, ?E2, ?E3.
    + intros [[H|H]%Hin|[H|H]]; [apply H1; tauto|by destruct pause|apply H1; tauto|].
      apply in_insert in H as [H|H]; [apply H1; tauto|by destruct (receiving (link w))].
    + intros [H|H]%in_insert; [by apply H0|by destruct (receiving (link w))].
    + intros k [H|H]%in_insert; [by eapply H2|by destruct (receiving (link w))].
    + intros k s [[<- <-]|[_ Hk]]%lookup_insert_Some; [by left|by apply (H3 k)].
    + intros k s [[<- <-]|[Hne Hk]]%lookup_insert_Some Hp Hr; [destruct pause; [left|right]; by apply E5|].
      destruct (H4 k s Hk Hp Hr); [left|right]; by apply Hold.
  - apply on_transition_in_order; [apply settles_progresses, reject_settles|done|exact Hret].
  - destruct H as [H1 H0 H2 H3 H4]. split; cbn; [|intros [?|?]%Hret; [by apply H0|done]|intros k [?|?]%Hret; [by eapply H2|done]|done|done].
    intros [H|[H|H]]; [apply H1; tauto|apply H1; tauto|]. apply Hret in H as [H|H]; [apply H1; tauto|done].
Qed.

Lemma step_in_order w w' : in_order w -> link_step w w' -> in_order w'.
Proof.
  intros H Hs. destruct Hs as [w i c c' l' Hi E|w c Hc|w o m l' E|w m l' E|w id|w|w|w].
  - by eapply call_in_order.
  - destruct H as [H1 H0 H2 H3 H4]. split; cbn; [| | |done|done].
    + intros [H|[H|[H|[->|[]]]%in_app_iff]]; first [apply H1; tauto|done].
    + intros [H|[->|[]]]%in_app_iff; done.
    + intros k [H|[->|[]]]%in_app_iff; [by eapply H2|done].
  - unfold handle_message in E. destruct (inbox (link w)) as [|x q] eqn:Eq; [done|]. injection E as <- <-.
    apply settle_in_order; [apply execute_settles|done|done].
  - unfold drain_one in E. destruct (inbox (link w)) as [|x q] eqn:Eq; [done|]. injection E as <- <-.
    apply settle_in_order; [apply reject_settles|done|done].
  - apply on_transition_in_order; [apply settles_progresses, cancel_settles|done|by left].
  - by destruct H.
  - by destruct H.
  - destruct H as [H1 H0 H2 H3 H4]. split; cbn; [|done|done|done|done]. intros [[]|H]. apply H1. tauto.
Qed.
Lemma reachable_in_order w : reachable w -> in_order w.
Proof.
  apply (rtc_ind_r (R := link_step) in_order start); [|intros x y _ Hxy IH; by eapply step_in_order].
  split; cbn; [by intros [[]|[[]|[]]]|tauto|done|by intros ? ?|by intros ? ?].
Qed.
Lemma requested_stays w w' : link_step w w' -> requested (link w) = true -> requested (link w') = true.
Proof.
  destruct 1 as [w i c c' l' Hi E|w c Hc|w o m l' E|w m l' E|w id|w|w|w]; cbn; try done; intros Hr.
  - destruct c as [| |m|pause id|id|]; cbn in E; try (injection E as <- <-; rewrite ?(proj1 (send_frame _ _)); done).
    destruct (send _ _) as [sent l] eqn:Es. injection E as <- <-. change l with (sent, l).2. rewrite <- Es. by rewrite (proj1 (send_frame _ _)).
  - unfold handle_message in E. destruct (inbox (link w)) as [|x q]; [done|]. injection E as <- <-. by destruct x.
  - unfold drain_one in E. destruct (inbox (link w)) as [|x q]; [done|]. injection E as <- <-. by destruct x.
Qed.

(** The drain at the end settles every request that is in a short enough inbox. *)
Lemma drain_settles n : forall l, (length (inbox l) <= n)%nat -> inbox (drain n l) = [].
Proof.
  induction n as [|n IH]; intros l Hl; cbn [drain]; [by destruct (inbox l) eqn:E; [|cbn in Hl; lia]|].
  unfold drain_one. destruct (inbox l) as [|m q] eqn:E; [done|]. apply IH. cbn in Hl. destruct m; cbn; lia.
Qed.


(** A pause is requested, a stop is called, and the inbox is drained. *)
Definition sample_link : Link :=
  let '(_, l) := call_step (CallRequest true 4) link_new in
  let '(c, l) := call_step CallStop l in (call_step c l).2.
Definition sample_threads : Threads := {| link := sample_link; calls := [Returned; Returned]; seen := [] |}.
Lemma sample_reachable : reachable sample_threads.
Proof.
  eapply rtc_l; [apply (LBegin start (CallRequest true 4)); split; [reflexivity|intros []]|].
  eapply rtc_l; [apply (LCall _ 0 (CallRequest true 4)); reflexivity|].
  eapply rtc_l; [by apply (LBegin _ CallStop)|].
  eapply rtc_l; [apply (LCall _ 1 CallStop); reflexivity|].
  eapply rtc_l; [apply (LCall _ 1 StopSending); reflexivity|]. apply rtc_refl.
Qed.
