(* ===== verification/ServiceMain.v ===== *)
(** * The service's main function: servicemanager-win32 [runtime.rs]

    What happens between the SCM's call of [service_main_thunk] and the run of the
    lifecycle the process stored ([Runtime.run_service_dispatcher]). *)

From Stdlib Require Import ZArith Lia List.
From S2P Require Import Prelude Text Model Validate Effects Monitor Scm Runtime.

Inductive MainE : Type -> Type :=
| LockLifecycle : MainE bool                         (* [false]: the slot is poisoned *)
| SetContextPtr : MainE unit                         (* ignored when it was set before *)
| RegisterHandler (name : list Z) (channel : Channel) : MainE Z
| SetStatusHandle (h : Z) : MainE unit
| CallSetServiceStatus (h : Z) (s : SERVICE_STATUS) : MainE unit
| RunLifecycle (name : rstr) (inner : ContextInner) (channel : Channel) : MainE unit
| MainStderr (text : rstr) : MainE unit.
Abbreviation MainProg A := (Prog MainE Error A) (only parsing).
Abbreviation MainEvent := (Event MainE Error) (only parsing).

Definition take_lifecycle (st : Statics) : Statics := {| lifecycle := false; service_name := service_name st |}.

(** The handler is registered with the channel of this call; [control_handler_thunk]
    is what the SCM then calls with it. *)
Definition service_main_thunk (st : Statics) : MainProg Statics :=
  pthen (perform LockLifecycle) (fun locked =>
    match locked, lifecycle st with
    | Ok true, true =>
        let st := take_lifecycle st in
        match service_name st with
        | None => PRet (Ok st)
        | Some service_name =>
            let name_wide := to_wide service_name in
            let name := from_utf16_lossy (strip_trailing_nul name_wide) in
            pthen (perform SetContextPtr) (fun _ =>
            pthen (perform (RegisterHandler name_wide control_channel)) (fun registered =>
              match registered with
              | Err e =>
                  pthen (perform (MainStderr (&"[runtime] RegisterServiceCtrlHandlerExW failed: " ++ error_to_string e))) (fun _ => PRet (Ok st))
              | Ok status_handle =>
                  pthen (perform (SetStatusHandle status_handle)) (fun _ =>
                  let '(cp, inner) := bump_checkpoint {| status_handle := Some status_handle; checkpoint := 0 |} in
                  pthen (perform (CallSetServiceStatus status_handle
                           {| dwCurrentState := SERVICE_START_PENDING; dwControlsAccepted := 0; dwWin32ExitCode := 0; dwCheckPoint := cp; dwWaitHint := 3000 |}))
                    (fun reported =>
                       pthen (match reported with
                              | Err e => perform (MainStderr (&"[runtime] could not report START_PENDING to SCM: " ++ error_to_string e))
                              | Ok _ => PRet (Ok tt)
                              end)
                         (fun _ => pthen (perform (RunLifecycle name inner control_channel)) (fun _ => PRet (Ok st)))))
              end))
        end
    | _, _ => PRet (Ok st)
    end).

(** ** What the lifecycle finds *)

Record Host := { registered : option (list Z * Z); reported : bool; running : list rstr }.
Definition no_host : Host := {| registered := None; reported := false; running := [] |}.

Definition host_step (h : Host) (e : MainEvent) : Host :=
  match e with
  | Ev c x =>
      match c in MainE X return result Error X -> Host with
      | RegisterHandler name _ => fun x => match x with Ok s => {| registered := Some (name, s); reported := reported h; running := running h |} | Err _ => h end
      | CallSetServiceStatus _ _ => fun _ => {| registered := registered h; reported := true; running := running h |}
      | RunLifecycle name _ _ => fun _ => {| registered := registered h; reported := reported h; running := running h ++ [name] |}
      | _ => fun _ => h
      end x
  end.
(** The first report says START_PENDING with checkpoint 1, on the handle that was
    issued; the lifecycle runs once, under the name it was registered by, when its
    handler is registered and the pending start was reported, with the channel of
    that handler, the handle published, and a checkpoint that goes on from there. *)
Definition host_ok (h : Host) (e : MainEvent) : Prop :=
  match e with
  | Ev c _ =>
      match c with
      | RegisterHandler _ ch => registered h = None /\ ch = control_channel
      | SetStatusHandle s => exists n, registered h = Some (n, s)
      | CallSetServiceStatus s status => (exists n, registered h = Some (n, s)) /\ dwCurrentState status = SERVICE_START_PENDING
                                         /\ dwCheckPoint status = 1 /\ dwControlsAccepted status = 0 /\ reported h = false
      | RunLifecycle name inner ch =>
          running h = [] /\ reported h = true /\ ch = control_channel /\ checkpoint inner = 1
          /\ exists s, registered h = Some (to_wide name, s) /\ status_handle inner = Some s
      | _ => True
      end
  end.

Lemma strip_nul ws : ~ In 0 ws -> strip_trailing_nul (ws ++ [0]) = ws.
Proof.
  intros H. unfold strip_trailing_nul. assert (position (Z.eqb 0) (ws ++ [0]) = Some (length ws)) as ->.
  { induction ws as [|w ws IH]; [done|]. cbn [app position length]. destruct (Z.eqb_spec 0 w) as [<-|_]; [by destruct H; left|].
    rewrite IH; [done|]. intros Hi. apply H. by right. }
  by rewrite take_app_length.
Qed.
Lemma strip_to_wide name : wf_str name -> validate_service_name name = Ok tt -> from_utf16_lossy (strip_trailing_nul (to_wide name)) = name.
Proof.
  intros Hw (_ & _ & Hp)%validate_service_name_ok. unfold to_wide. rewrite strip_nul; [by apply lossy_encode_utf16|].
  rewrite encode_utf16_zero by done. intros Hin. rewrite List.Forall_forall in Hp. destruct (Hp _ Hin) as (_ & _ & Hc). discriminate Hc.
Qed.

(** The runtime's two halves fit: when the dispatcher stored a lifecycle under a
    valid name, the main function runs it once, hosted as [host_ok] says and under
    that name, unless the slot cannot be locked or the SCM refuses the handler; then
    it is not run and no state is reported. The lifecycle is taken: a second main
    function runs nothing. *)
Theorem main_hosts_lifecycle st name log r : service_name st = Some name -> wf_str name -> validate_service_name name = Ok tt ->
  runs (service_main_thunk st) log r ->
  let h := watch host_step no_host log in
  obeys host_step host_ok no_host log
  /\ (running h = [] \/ running h = [name]) /\ (registered h = None -> reported h = false /\ running h = [])
  /\ (registered h <> None -> running h = [name])
  /\ (forall st' log' r', r = Ok st' -> running h <> [] -> runs (service_main_thunk st') log' r' -> running (watch host_step no_host log') = []).
Proof.
  intros Hn Hw Hv H. unfold service_main_thunk in H.
  assert (forall st' log' r', lifecycle st' = false -> runs (service_main_thunk st') log' r' -> running (watch host_step no_host log') = []) as Hagain.
  { intros st' log' r' Hl H'. unfold service_main_thunk in H'. rewrite Hl in H'. destruct H' as (x & l & -> & H'). by destruct x as [[]|]; destruct H' as [-> ->]. }
  destruct H as (x & l & -> & H). destruct x as [[]|]; [destruct (lifecycle st)| |].
  2-4: destruct H as [-> ->]; cbn; (split; [done|]); (split; [by left|]); (split; [done|]); (split; [done|]); by intros.
  cbn [pthen service_name take_lifecycle] in H. rewrite Hn, strip_to_wide in H by done. run_all H.
  all: repeat match goal with E : bump_checkpoint _ = _ |- _ => compute in E; injection E as <- <- end; cbn -[runs].
  all: (split; [conj_all; eauto|]); (split; [tauto|]); (split; [done|]); (split; [done|]).
  all: intros st' log' r' [= <-] _; by apply (Hagain (take_lifecycle st)).
Qed.

(** The SCM issues handle 5 and refuses the report. *)
Definition sample_host (X : Type) (e : MainE X) (w : unit) : result Error X * unit :=
  match e in MainE X return result Error X * unit with
  | LockLifecycle => (Ok true, w)
  | RegisterHandler _ _ => (Ok 5, w)
  | CallSetServiceStatus _ _ => (Err (Model.Scm &"access denied"), w)
  | _ => (Ok tt, w)
  end.
Definition sample_statics : Statics := {| lifecycle := true; service_name := Some &"Demo" |}.
Definition sample_main := interp sample_host (service_main_thunk sample_statics) tt.
Lemma main_hosts_lifecycle_witness : running (watch host_step no_host sample_main.1.2) = [&"Demo"].
Proof.
  destruct (main_hosts_lifecycle sample_statics &"Demo" sample_main.1.2 sample_main.1.1) as (_ & _ & _ & H & _).
  - reflexivity.
  - apply wf_str_b. reflexivity.
  - vm_compute. reflexivity.
  - apply interp_runs.
  - apply H. vm_compute. discriminate.
Defined.
